(* ===== verification/_CoqProject ===== *)
-Q . S2P
Prelude.v
Wzcp.v
Ingest.v
Xlog.v
Json.v
GwState.v
GwConn.v
GwArango.v
GwServer.v
OutLog.v
GwPlugin.v
Ring.v
WQueue.v
BQueue.v
AgentBuffer.v
RbTree.v
RbBalance.v
RbMap.v
LinkedQueue.v
IndexedQueue.v
Utf8.v
Base64.v
MathOp.v
Hash.v
HashMap.v
HashWalk.v
OsList.v
Request.v
AgentLink.v
EndToEnd.v
