(* ===== verification/Prelude.v ===== *)
(** A verification library for XSIAM, a log collection pipeline: agents read events
    on hosts and send them to a gateway, which registers the agents, hands their
    events to a log engine and uploads the records to a central server.

    * The program

    - The agent, [src/agents], is a fork of an open-source host agent, in C.  Events
      wait in the anti-flooding buffer ([client-agent/buffer.c]); [sendmsg.c] sends
      them in the agent's own protocol WZCP ([shared/xsiam_wzcp.c]) on a connection
      that [start_agent.c] opens and identifies with a HELLO; [receiver.c] reads the
      acknowledgements and the heartbeats of the gateway; [request.c] answers remote
      requests.  [xlog/xlog.c] is a second
      way out: batches of rows, compressed and framed (XLOG) for the ingest server.
      Its data structures are in [shared/]: queues, the red-black tree, the indexed
      queue, the hash table, the list, the filter for UTF-8.
    - The gateway, [src/gateway], is a fork of a log engine, in C, with two plugins of
      its own.  [plugins/in_xsiam_agent] accepts connections, tells WZCP from syslog,
      keeps the table of agents, hands events to the engine, and writes the agents to
      a database and lifecycle events to a server over HTTP.
      [plugins/out_xsiam_log] turns chunks of records into rows and XLOG frames and
      posts them.
    - The server, [src/xsiam], is in Go.  [internal/ingest] decodes the frames.

    * The files

    - [Prelude]: record update, machine integers, byte strings and C buffers,
      big-endian codecs, UUID texts; [ST], computations on an explicit state in which
      undefined behaviour is a value, with the total-correctness predicate [wp]; the
      environment [world] (allocation, clocks, sockets, HTTP, engine) and its
      oracles; the relations [writes], [reads], [emits] of what a call did.
    - [Wzcp]: [agents/shared/xsiam_wzcp.c], the WZCP codec, socket transfers, agent
      identity and message builders; [frame] is the specification of the format.
    - [Ingest]: [xsiam/internal/ingest/frame.go] and [tlv.go], the decoder.
    - [Xlog]: [agents/xlog/xlog.c], the batch encoder, against [Ingest].
    - [Json]: JSON documents, their text and a decoder: the specification of the
      texts the gateway builds.
    - [GwState]: [xsiam_agent_defs.h], [xsiam_agent_event.c], [xsiam_agent_state.c]:
      the plugin's data, lifecycle events and the agent table.
    - [GwConn]: [xsiam_agent_conn.c]: connections, protocol detection and handlers.
    - [GwArango]: [xsiam_agent_arango.c]: the database writer.
    - [GwServer]: the handlers of [GwConn] and [GwArango] under any sequence of the
      engine's callbacks.
    - [OutLog]: [out_xsiam_log.c]: rows, batches, frames and posts.
    - [GwPlugin]: [xsiam_agent.c]: configuration, start and shutdown, and the part of
      [gateway/src/flb_config_map.c] that fills the context.
    - [Ring]: circular buffers, and the contract of a bounded queue as a class.
    - [WQueue]: [agents/shared/queue_op.c] and the waiting threads on it.
    - [BQueue]: [agents/shared/bqueue_op.c], the growing queue of bytes.
    - [AgentBuffer]: [agents/client-agent/buffer.c], and the threads that share it.
    - [RbTree], [RbBalance], [RbMap]: [agents/shared/rbtree_op.c], the red-black tree
      on a heap of nodes: its operations, the two balancing loops, and its public
      functions as an ordered map.
    - [LinkedQueue]: [agents/shared/queue_linked_op.c], a doubly linked list of nodes.
    - [IndexedQueue]: [agents/shared/indexed_queue_op.c], a FIFO with keys, on the
      linked queue and the red-black tree.
    - [Utf8]: [agents/shared/utf8_op.c], against RFC 3629.
    - [Base64]: [agents/shared/b64.c].
    - [MathOp]: [os_getprime] of [agents/shared/math_op.c], the sizes of hash tables.
    - [Hash], [HashMap], [HashWalk]: [agents/shared/hash_op.c], the hash table on a heap
      of nodes; its operations as those of a finite map; walks, copies and cleaning.
    - [OsList]: [agents/shared/list_op.c], the doubly linked list with a cursor and a
      limit.
    - [Request]: [agents/client-agent/request.c] and [agents/shared/request_op.c], the
      threads that take remote requests and answer them, on any table of counters; the
      hash table of [HashMap] is an instance.
    - [AgentLink]: [agents/client-agent/start_agent.c], [sendmsg.c], [receiver.c]:
      the handshake, the rotation over gateways, events and heartbeats.
    - [EndToEnd]: the agent of [AgentLink] against the gateway of [GwServer].

    A definition has the name of the C function it translates; a loop, a branch or
    an expression of it that has a definition of its own is named after what it
    does.  Structures are records with the fields of the source behind a short
    prefix, and [r <| f := v |>] is an assignment to a field.

    * What the theorems show

    - No undefined behaviour and no corrupted state: [GwServer.gateway_runs_safely]
      (any sequence of callbacks, any input, any failure that the code tests for),
      isolation of connections, the invariant of the agent table;
      [Wzcp.wzcp_recv_exact] on
      arbitrary input; builders stay in their buffers.
    - The agent and the gateway agree: [EndToEnd.handshake_registers_agent] and
      [EndToEnd.events_reach_engine], for every chunking of the stream; the round trip
      of frames and acknowledgements; [AgentLink.start_agent_rotates].
    - What is uploaded is decoded: the round trip of a batch through [Xlog] and
      [Ingest], [OutLog.batch_frame_decodes] and [OutLog.cb_flush_delivers]; and the
      documents of the database writer are the dirty agents.
    - Resources: start-up is all or nothing, shutdown releases every object of the
      engine once (but frees strings of the configuration that are not its own,
      [GwPlugin.exit_releases_all]), the encoder and the uploader leak nothing.  Where
      the code does leak, or has undefined behaviour, that is a theorem too.
    - Data structures refine their abstract types: queues are sequences
      ([WQueue.queue_is_fifo], [BQueue.bqueue_is_byte_stream],
      [AgentBuffer.buffer_loses_nothing], which loses only the messages it had no memory
      to copy), the red-black tree is a sorted association
      list ([RbMap.rbtree_is_ordered_map]) of logarithmic height, and the indexed queue built
      on it is a FIFO with unique keys ([IndexedQueue.indexed_queue_is_fifo]);
      the hash table is a finite map ([HashMap.oshash_is_map]), a walk of it meets every
      entry once ([HashWalk.oshash_walks_once]), its size is the least prime
      ([MathOp.os_getprime_least_prime]); the list is a sequence with a cursor
      ([OsList.oslist_is_sequence]) that keeps its latest elements;
      UTF-8 is what [w_utf8_valid] accepts and [w_utf8_filter] returns; base64 decoding
      undoes encoding.
    - Threads: on the pointer queue only a timed wait that is woken and still expires
      loses a wake-up ([WQueue.no_lost_wakeup]); the appends to the buffer interleave
      with every single access of its dispatcher; the threads of the remote requests
      share their nodes without a use after free ([Request.requests_run_safely]) and
      without a deadlock, and leave nothing behind ([Request.requests_all_end]), within
      bounds on counters, messages and answers outside which the code overruns its
      arrays.

    * Bounds and fuel

    A loop has as fuel a bound of its iterations, and a theorem that the result is
    produced shows it is enough: a loop over a buffer advances by a byte at least
    ([S (length buf)]); a transfer moves a byte at least, as the environment's
    writes and reads that do not fail do; a walk in the tree visits each node at most
    once ([RbTree.walk_bound], the number of allocated nodes plus one);
    a walk in a list or in a row of the hash table meets each node at most once
    ([OsList.cell_bound], [Hash.node_bound]); the search for a prime ([MathOp]) counts
    its rounds in binary, so that its bound is that of the machine integer;
    [start_agent], which never ends while no gateway answers, takes its fuel as an
    argument, and its theorem gives the number of attempts.  Unsigned integers wrap at
    their width; hypotheses that sizes fit are stated where the code relies on it.

    * The environment

    A system call is answered by an oracle: any function of the call number.  A
    theorem that needs more of the environment says so: [alloc_ok] (memory does not
    run out), [write_ok] (writes make progress).  The allocations whose failure the
    gateway tests for and those it uses without a test have an oracle each: a failure
    of the second kind ([untested], [grow]) is undefined behaviour, since the null
    pointer is used, and the theorems that exclude it have the hypothesis
    [untested_ok]; the crashes themselves are [GwState.untested_allocation_crashes],
    [GwServer.untested_hello_crashes] and [GwArango.flush_append_crashes].  Compression is a record with its
    round trip ([Xlog.Compressor]).  Where the source ends the process on a failed
    allocation ([os_malloc], [os_calloc], [os_strdup] of the agent), there is no
    behaviour to model after it and the allocation succeeds.

    * Not modelled

    - The rest of the two forks, and the libraries they vendor: their code is called
      by what is modelled, and appears as the environment.
    - The key store, enrolment, state file and secure protocol of the agent, except as
      parameters of [AgentLink]; the configuration of the buffer and its log lines.
    - The engine's configuration map beyond what fills the plugin's context.
    - The HTTP services, the database layer and the user interface of the server:
      other languages, and almost all of it input and output.
    - The memory model of threads: a locked section is one step, and so is each access
      that a thread makes without a lock.

    * What is left

    The agent's notification loop, state file and key store, the vectors and the string
    and file utilities of [agents/shared]: mostly input and output or small wrappers;
    the rest of the configuration map belongs to the engine. *)
From stdpp Require Export prelude strings list.
From Stdlib Require Export ZArith Lia ZifyBool.

#[global] Open Scope Z_scope.

(** * Record update

    The source mutates struct fields in place; [r <| f := v |>] is the record
    [r] with the field [f] replaced.  A record type opts in with an [Eta]
    instance, its constructor applied to all its projections; the update
    function of a field is computed from it. *)

Class Eta (R : Type) := eta : R -> R.

Class Update {R T : Type} (proj : R -> T) := update : (T -> T) -> R -> R.
Arguments update {R T} proj {_} _ _ /.

Ltac derive_update R proj :=
  let e := constr:(_ : Eta R) in
  let b := eval hnf in e in
  match eval pattern proj in b with
  | ?f _ =>
      let t := eval cbv beta in (fun g => f (fun r => g (proj r))) in exact t
  end.

#[export] Hint Extern 1 (@Update ?R ?T ?proj) => derive_update R proj
  : typeclass_instances.

Notation "r <| p := v |>" := (update p (fun _ => v) r)
  (at level 1, left associativity, p at level 10, v at level 99).

(** * Machine integers

    An unsigned C integer of [w] bits is a [Z] in [[0, 2^w)]; conversion to the
    type wraps. *)

Definition uwrap (w x : Z) : Z := x mod 2 ^ w.
Abbreviation u8 := (uwrap 8).
Abbreviation u16 := (uwrap 16).
Abbreviation u32 := (uwrap 32).
Abbreviation u64 := (uwrap 64).

(** Conversion to a signed 32-bit [int]. *)
Definition s32 (x : Z) : Z := (x + 2 ^ 31) mod 2 ^ 32 - 2 ^ 31.

Definition fits (w x : Z) : Prop := 0 <= x < 2 ^ w.

Lemma uwrap_fits w x : 0 <= w -> fits w (uwrap w x).
Proof. intros. apply Z.mod_pos_bound. apply Z.pow_pos_nonneg; lia. Qed.

Lemma uwrap_small w x : fits w x -> uwrap w x = x.
Proof. intros. by apply Z.mod_small. Qed.

Lemma uwrap_idemp w x : uwrap w (uwrap w x) = uwrap w x.
Proof. apply Zmod_mod. Qed.

Lemma uwrap_add_l w x y : uwrap w (uwrap w x + y) = uwrap w (x + y).
Proof. apply Zplus_mod_idemp_l. Qed.

Lemma uwrap_sub_l w x y : uwrap w (uwrap w x - y) = uwrap w (x - y).
Proof. apply Zminus_mod_idemp_l. Qed.

Lemma s32_small x : - 2 ^ 31 <= x < 2 ^ 31 -> s32 x = x.
Proof. intros. unfold s32. rewrite Z.mod_small; lia. Qed.

(** * Byte strings and C buffers *)

Abbreviation bytes := (list Z).

Definition zlen {A} (l : list A) : Z := Z.of_nat (length l).

Abbreviation byte_ok := (fits 8).
Definition bytes_ok (l : bytes) : Prop := Forall byte_ok l.

(** [load buf off n] reads [n] bytes at offset [off] of an object, [store]
    overwrites bytes in place.  [None] is an access outside the object, which
    is undefined behaviour in C. *)
Definition load (buf : bytes) (off n : Z) : option bytes :=
  if (0 <=? off) && (0 <=? n) && (off + n <=? zlen buf)
  then Some (take (Z.to_nat n) (drop (Z.to_nat off) buf))
  else None.

Definition store (buf : bytes) (off : Z) (bs : bytes) : option bytes :=
  if (0 <=? off) && (off + zlen bs <=? zlen buf)
  then Some (take (Z.to_nat off) buf ++ bs ++
             drop (Z.to_nat off + length bs) buf)
  else None.

(** One byte, [buf[off]]. *)
Definition load1 (buf : bytes) (off : Z) : option Z :=
  if 0 <=? off then buf !! Z.to_nat off else None.

Lemma zlen_nonneg {A} (l : list A) : 0 <= zlen l.
Proof. unfold zlen. lia. Qed.

Lemma zlen_nil {A} : zlen (@nil A) = 0.
Proof. reflexivity. Qed.

Lemma zlen_cons {A} (x : A) l : zlen (x :: l) = 1 + zlen l.
Proof. unfold zlen. cbn [length]. lia. Qed.

Lemma zlen_app {A} (l k : list A) : zlen (l ++ k) = zlen l + zlen k.
Proof. unfold zlen. rewrite length_app. lia. Qed.

Lemma zlen_take {A} n (l : list A) :
  0 <= n <= zlen l -> zlen (take (Z.to_nat n) l) = n.
Proof. unfold zlen. rewrite length_take. lia. Qed.

Lemma zlen_drop {A} n (l : list A) :
  0 <= n <= zlen l -> zlen (drop (Z.to_nat n) l) = zlen l - n.
Proof. unfold zlen. rewrite length_drop. lia. Qed.

Lemma zlen_replicate {A} n (x : A) : zlen (replicate n x) = Z.of_nat n.
Proof. unfold zlen. by rewrite length_replicate. Qed.

Lemma to_nat_zlen {A} (l : list A) : Z.to_nat (zlen l) = length l.
Proof. apply Nat2Z.id. Qed.

Lemma zlen_take_nat {A} n (l : list A) : zlen (take n l) = Z.min (Z.of_nat n) (zlen l).
Proof. unfold zlen. rewrite length_take. lia. Qed.

Lemma zlen_drop_nat {A} n (l : list A) : zlen (drop n l) = Z.max 0 (zlen l - Z.of_nat n).
Proof. unfold zlen. rewrite length_drop. lia. Qed.

Lemma of_nat_length {A} (l : list A) : Z.of_nat (length l) = zlen l.
Proof. done. Qed.

Create Rewrite HintDb zlen.
#[export] Hint Rewrite @zlen_nil @zlen_cons @zlen_app @zlen_replicate
  @to_nat_zlen @zlen_take_nat @zlen_drop_nat @length_nil @length_cons
  @length_app @of_nat_length : zlen.

(** Normalise lengths, then decide linear arithmetic. *)
Ltac zlia :=
  autorewrite with zlen in *;
  repeat match goal with
         | |- context [zlen ?l] =>
             lazymatch goal with
             | _ : 0 <= zlen l |- _ => fail
             | _ => pose proof (zlen_nonneg l)
             end
         | _ : context [zlen ?l] |- _ =>
             lazymatch goal with
             | _ : 0 <= zlen l |- _ => fail
             | _ => pose proof (zlen_nonneg l)
             end
         end;
  lia.

Lemma load_some buf off n :
  0 <= off -> 0 <= n -> off + n <= zlen buf ->
  load buf off n = Some (take (Z.to_nat n) (drop (Z.to_nat off) buf)).
Proof.
  intros. unfold load.
  by rewrite !(proj2 (Z.leb_le _ _)) by lia.
Qed.

Lemma load_mid pre l post :
  load (pre ++ l ++ post) (zlen pre) (zlen l) = Some l.
Proof.
  rewrite load_some by zlia.
  rewrite !to_nat_zlen, drop_app_length, take_app_length. done.
Qed.

Lemma load_length buf off n l : load buf off n = Some l -> zlen l = n.
Proof.
  unfold load. destruct (_ && _) eqn:E; [|done].
  intros [= <-]. rewrite !andb_true_iff, !Z.leb_le in E.
  apply zlen_take. rewrite zlen_drop; lia.
Qed.

Lemma load_ok buf off n l : bytes_ok buf -> load buf off n = Some l -> bytes_ok l.
Proof.
  unfold load. destruct (_ && _); [|done]. intros H [= <-].
  by apply Forall_take, Forall_drop.
Qed.

Lemma store_mid pre old post bs off :
  off = zlen pre -> length old = length bs ->
  store (pre ++ old ++ post) off bs = Some (pre ++ bs ++ post).
Proof.
  intros -> H. unfold store.
  assert (zlen old = zlen bs) by (unfold zlen; lia).
  rewrite !(proj2 (Z.leb_le _ _)) by zlia. cbn.
  rewrite to_nat_zlen, take_app_length, drop_app_add, <- H, drop_app_length.
  done.
Qed.

(** Sequential writing: the bytes written so far followed by the untouched
    rest of the object. *)
Lemma store_seq done_ rest bs :
  zlen bs <= zlen rest ->
  store (done_ ++ rest) (zlen done_) bs =
    Some ((done_ ++ bs) ++ drop (length bs) rest).
Proof.
  intros H. rewrite <- (take_drop (length bs) rest) at 1.
  rewrite store_mid; [by rewrite <- app_assoc | done |].
  rewrite length_take. unfold zlen in H. lia.
Qed.

Lemma store_at done_ rest off bs :
  off = zlen done_ -> zlen bs <= zlen rest ->
  store (done_ ++ rest) off bs = Some ((done_ ++ bs) ++ drop (length bs) rest).
Proof. intros ->. apply store_seq. Qed.

Lemma store_none buf off bs :
  zlen buf < off + zlen bs -> store buf off bs = None.
Proof.
  intros. unfold store.
  rewrite (proj2 (Z.leb_gt (off + zlen bs) _)) by lia. by rewrite andb_false_r.
Qed.

Lemma store_length buf off bs buf' :
  store buf off bs = Some buf' -> zlen buf' = zlen buf.
Proof.
  unfold store. destruct (_ && _) eqn:E; [|done].
  intros [= <-]. rewrite !andb_true_iff, !Z.leb_le in E.
  unfold zlen in *. rewrite !length_app, length_take, length_drop. lia.
Qed.

Lemma store_some buf off bs :
  0 <= off -> off + zlen bs <= zlen buf ->
  exists buf', store buf off bs = Some buf' /\ zlen buf' = zlen buf.
Proof.
  intros H1 H2. destruct (store buf off bs) as [b|] eqn:E.
  - eauto using store_length.
  - unfold store in E. by rewrite !(proj2 (Z.leb_le _ _)) in E by lia.
Qed.

Lemma store_head b l x : store (b :: l) 0 [x] = Some (x :: l).
Proof.
  change (b :: l) with ([] ++ b :: l). rewrite store_at by zlia.
  cbn. by rewrite drop_0.
Qed.

(** Storing a string with its terminator. *)
Lemma store_terminated buf off l :
  0 <= off -> off + zlen l + 1 <= zlen buf ->
  exists buf', store buf off (l ++ [0]) = Some buf' /\ zlen buf' = zlen buf /\
    exists k, buf' !! k = Some 0.
Proof.
  intros H0 H1. exists (take (Z.to_nat off) buf ++ (l ++ [0]) ++
    drop (Z.to_nat off + length (l ++ [0])) buf).
  assert (store buf off (l ++ [0]) = Some (take (Z.to_nat off) buf ++ (l ++ [0]) ++
    drop (Z.to_nat off + length (l ++ [0])) buf)) as E.
  { unfold store. by rewrite !(proj2 (Z.leb_le _ _)) by zlia. }
  split_and!; [done|by apply store_length in E|].
  exists (length (take (Z.to_nat off) buf ++ l)).
  rewrite <- app_assoc, app_assoc, lookup_app_r by lia. by rewrite Nat.sub_diag.
Qed.

(** * Big-endian integers

    [be_bytes n v] is the [n]-byte big-endian encoding of [v mod 2^(8n)] and
    [be_val] its value; every [put_be*]/[get_be*] of the source is one of the
    two at a fixed width. *)

Fixpoint be_bytes (n : nat) (v : Z) : bytes :=
  match n with
  | O => []
  | S k => u8 (Z.shiftr v (8 * Z.of_nat k)) :: be_bytes k v
  end.

Fixpoint be_val (l : bytes) : Z :=
  match l with
  | [] => 0
  | b :: t => b * 2 ^ (8 * zlen t) + be_val t
  end.

Lemma length_be_bytes n v : length (be_bytes n v) = n.
Proof. induction n; cbn; congruence. Qed.

Lemma zlen_be_bytes n v : zlen (be_bytes n v) = Z.of_nat n.
Proof. unfold zlen. by rewrite length_be_bytes. Qed.
#[export] Hint Rewrite zlen_be_bytes length_be_bytes : zlen.

Lemma be_bytes_ok n v : bytes_ok (be_bytes n v).
Proof.
  induction n; cbn; constructor; [|done].
  apply uwrap_fits. lia.
Qed.

Lemma be_val_be_bytes n v : be_val (be_bytes n v) = uwrap (8 * Z.of_nat n) v.
Proof.
  induction n as [|n IH]; cbn [be_bytes be_val].
  - unfold uwrap. cbn. by rewrite Z.mod_1_r.
  - rewrite IH, zlen_be_bytes. unfold uwrap.
    rewrite Z.shiftr_div_pow2 by lia.
    replace (8 * Z.of_nat (S n)) with (8 * Z.of_nat n + 8) by lia.
    rewrite Z.pow_add_r, Z.rem_mul_r by lia. lia.
Qed.

Lemma be_val_bound l : bytes_ok l -> 0 <= be_val l < 2 ^ (8 * zlen l).
Proof.
  induction 1 as [|b l Hb Hl IH]; cbn [be_val].
  - change (zlen []) with 0. lia.
  - unfold fits in Hb. rewrite zlen_cons.
    replace (8 * (1 + zlen l)) with (8 * zlen l + 8) by lia.
    rewrite Z.pow_add_r by zlia. nia.
Qed.

Lemma be_bytes_be_val l : bytes_ok l -> be_bytes (length l) (be_val l) = l.
Proof.
  induction 1 as [|b l Hb Hl IH]; [done|].
  cbn [length be_bytes be_val]. pose proof (be_val_bound l Hl) as B.
  unfold zlen in *. f_equal.
  - rewrite Z.shiftr_div_pow2, Z.div_add_l, (Z.div_small (be_val l)) by lia.
    rewrite Z.add_0_r. by apply uwrap_small.
  - transitivity (be_bytes (length l) (be_val l)); [clear IH B|done].
    enough (forall k x, (k <= length l)%nat ->
      be_bytes k (b * 2 ^ (8 * Z.of_nat (length l)) + x) = be_bytes k x)
      as E by (apply E; lia).
    induction k as [|k IH]; intros x Hk; [done|]. cbn [be_bytes].
    rewrite IH by lia. f_equal. rewrite !Z.shiftr_div_pow2 by lia.
    replace (8 * Z.of_nat (length l)) with
      (8 + 8 * (Z.of_nat (length l) - 1 - Z.of_nat k) + 8 * Z.of_nat k) by lia.
    rewrite !Z.pow_add_r, !Z.mul_assoc, Z.div_add_l by lia.
    unfold uwrap. rewrite Z.add_comm.
    replace (b * 2 ^ 8 * 2 ^ (8 * (Z.of_nat (length l) - 1 - Z.of_nat k)))
      with (b * 2 ^ (8 * (Z.of_nat (length l) - 1 - Z.of_nat k)) * 2 ^ 8) by lia.
    apply Z_mod_plus_full.
Qed.

(** Disjoint bits: shifting up by [n] and or-ing a smaller value is addition. *)
Lemma lor_shiftl_add a b n :
  0 <= n -> fits n b -> Z.lor (Z.shiftl a n) b = a * 2 ^ n + b.
Proof.
  intros Hn Hb. rewrite <- Z.shiftl_mul_pow2 by lia.
  symmetry. rewrite Z.add_nocarry_lxor, Z.lxor_lor; [done| |];
    apply Z.bits_inj'; intros i Hi; rewrite Z.land_spec, Z.bits_0;
    (destruct (decide (i < n));
     [rewrite Z.shiftl_spec_low by lia; done
     |rewrite andb_comm; unfold fits in Hb;
      rewrite <- (Z.mod_small b (2 ^ n)) by lia;
      rewrite Z.mod_pow2_bits_high by lia; done]).
Qed.

(** The shape of the 32-bit readers. *)
Lemma lor4_be_val p0 p1 p2 p3 :
  bytes_ok [p0; p1; p2; p3] ->
  Z.lor (Z.lor (Z.lor (Z.shiftl p0 24) (Z.shiftl p1 16)) (Z.shiftl p2 8)) p3
  = be_val [p0; p1; p2; p3].
Proof.
  intros H. repeat (apply Forall_cons in H as [? H]). unfold fits in *.
  rewrite <- !Z.lor_assoc, (lor_shiftl_add p2 p3) by (unfold fits; lia).
  rewrite (lor_shiftl_add p1) by (unfold fits; lia).
  rewrite (lor_shiftl_add p0) by (unfold fits; lia).
  cbn [be_val]. autorewrite with zlen. lia.
Qed.

Lemma be_val_1 b : be_val [b] = b.
Proof. cbn [be_val]. change (zlen []) with 0. lia. Qed.

Lemma be_val_app l k : be_val (l ++ k) = be_val l * 2 ^ (8 * zlen k) + be_val k.
Proof.
  induction l as [|b l IH]; cbn [app be_val]; [lia|].
  rewrite IH, zlen_app, Z.mul_add_distr_l, Z.pow_add_r by zlia. lia.
Qed.

Lemma be_bytes_app n m v :
  be_bytes (n + m) v = be_bytes n (Z.shiftr v (8 * Z.of_nat m)) ++ be_bytes m v.
Proof.
  induction n as [|n IH]; cbn [Nat.add be_bytes app]; [done|].
  rewrite IH, Z.shiftr_shiftr by lia. do 3 f_equal. lia.
Qed.

(** Only the low [8 n] bits are encoded. *)
Lemma be_bytes_uwrap n w v : 8 * Z.of_nat n <= w -> be_bytes n (uwrap w v) = be_bytes n v.
Proof.
  intros H. rewrite <- (be_bytes_be_val (be_bytes n v)) by apply be_bytes_ok.
  rewrite <- (be_bytes_be_val (be_bytes n (uwrap w v))) by apply be_bytes_ok.
  rewrite !be_val_be_bytes, !length_be_bytes. f_equal. unfold uwrap.
  apply Z.bits_inj'. intros i Hi.
  destruct (decide (i < 8 * Z.of_nat n)).
  - rewrite !Z.mod_pow2_bits_low by lia. done.
  - rewrite !Z.mod_pow2_bits_high by lia. done.
Qed.

(** The readers and writers at 16, 32 and 64 bits in the source's form; the
    components' own definitions are instances of these. *)
Definition wr16 (v : Z) : bytes := [u8 (Z.shiftr v 8); u8 v].
Definition wr32 (v : Z) : bytes :=
  [u8 (Z.shiftr v 24); u8 (Z.shiftr v 16); u8 (Z.shiftr v 8); u8 v].
Definition wr64 (v : Z) : bytes := wr32 (u32 (Z.shiftr v 32)) ++ wr32 (u32 v).

Definition rd16 (p : bytes) : option Z :=
  match p with
  | p0 :: p1 :: _ => Some (Z.lor (Z.shiftl p0 8) p1)
  | _ => None
  end.
Definition rd32 (p : bytes) : option Z :=
  match p with
  | p0 :: p1 :: p2 :: p3 :: _ =>
      Some (Z.lor (Z.lor (Z.lor (Z.shiftl p0 24) (Z.shiftl p1 16))
                    (Z.shiftl p2 8)) p3)
  | _ => None
  end.
Definition rd64 (p : bytes) : option Z :=
  hi ← rd32 p; lo ← rd32 (drop 4 p); Some (Z.lor (Z.shiftl hi 32) lo).

Lemma wr16_spec v : wr16 v = be_bytes 2 v.
Proof. reflexivity. Qed.

Lemma wr32_spec v : wr32 v = be_bytes 4 v.
Proof. reflexivity. Qed.

Lemma wr64_spec v : wr64 v = be_bytes 8 v.
Proof.
  unfold wr64. rewrite (wr32_spec (u32 (Z.shiftr v 32))), (wr32_spec (u32 v)).
  rewrite (be_bytes_uwrap 4 32 (Z.shiftr v 32)), (be_bytes_uwrap 4 32 v) by lia.
  symmetry. apply (be_bytes_app 4 4).
Qed.

Lemma rd16_spec p : bytes_ok p -> (2 <= length p)%nat ->
  rd16 p = Some (be_val (take 2 p)).
Proof.
  intros H L. destruct p as [|p0 [|p1 r]]; cbn in L; try lia.
  apply Forall_cons in H as [H0 H]. apply Forall_cons in H as [H1 H].
  cbn [rd16 take]. rewrite lor_shiftl_add by (done || lia).
  rewrite take_0. cbn [be_val]. autorewrite with zlen. f_equal. lia.
Qed.

Lemma rd32_spec p : bytes_ok p -> (4 <= length p)%nat ->
  rd32 p = Some (be_val (take 4 p)).
Proof.
  intros H L. destruct p as [|p0 [|p1 [|p2 [|p3 r]]]]; cbn in L; try lia.
  unfold rd32. rewrite lor4_be_val; [done|].
  exact (Forall_take _ 4%nat _ H).
Qed.

Lemma rd64_spec p : bytes_ok p -> (8 <= length p)%nat ->
  rd64 p = Some (be_val (take 8 p)).
Proof.
  intros H L. unfold rd64. rewrite (rd32_spec p) by (done || lia).
  rewrite (rd32_spec (drop 4 p)) by
    (first [by apply Forall_drop | rewrite length_drop; lia]).
  cbn [mbind option_bind].
  assert (bytes_ok (take 4 (drop 4 p))) as B by (by apply Forall_take, Forall_drop).
  apply be_val_bound in B.
  assert (zlen (take 4 (drop 4 p)) = 4) as E
    by (unfold zlen; rewrite length_take, length_drop; lia).
  rewrite E in B. rewrite lor_shiftl_add by (unfold fits; lia).
  f_equal. transitivity (be_val (take 4 p ++ take 4 (drop 4 p)));
    [by rewrite be_val_app, E | f_equal; apply take_take_drop].
Qed.

(** Reading back what was written. *)
Lemma rd16_be_bytes v r : rd16 (be_bytes 2 v ++ r) = Some (u16 v).
Proof.
  change (rd16 (be_bytes 2 v ++ r)) with (rd16 (be_bytes 2 v)).
  rewrite rd16_spec by (apply be_bytes_ok || done).
  f_equal. apply (be_val_be_bytes 2).
Qed.

Lemma rd32_be_bytes v r : rd32 (be_bytes 4 v ++ r) = Some (u32 v).
Proof.
  change (rd32 (be_bytes 4 v ++ r)) with (rd32 (be_bytes 4 v)).
  rewrite rd32_spec by (apply be_bytes_ok || done).
  f_equal. apply (be_val_be_bytes 4).
Qed.

Lemma rd64_be_bytes v r : rd64 (be_bytes 8 v ++ r) = Some (u64 v).
Proof.
  change (rd64 (be_bytes 8 v ++ r)) with (rd64 (be_bytes 8 v)).
  rewrite rd64_spec by (apply be_bytes_ok || done).
  f_equal. apply (be_val_be_bytes 8).
Qed.

(** * C strings

    A NUL-terminated string held in memory is the list of its bytes before
    the first NUL. *)

Definition str (s : string) : bytes :=
  map (fun a => Z.of_N (Ascii.N_of_ascii a)) (String.list_ascii_of_string s).

Fixpoint cstr (l : bytes) : bytes :=
  match l with
  | [] => []
  | b :: t => if b =? 0 then [] else b :: cstr t
  end.

Definition no_nul (l : bytes) : Prop := Forall (fun b => b <> 0) l.

Lemma cstr_no_nul l : no_nul (cstr l).
Proof.
  induction l as [|b l IH]; cbn; [constructor|].
  destruct (Z.eqb_spec b 0); constructor; done.
Qed.

Lemma cstr_id l : no_nul l -> cstr l = l.
Proof.
  induction 1 as [|b l Hb Hl IH]; cbn; [done|].
  destruct (Z.eqb_spec b 0); [done|]. by rewrite IH.
Qed.

Lemma cstr_ok l : bytes_ok l -> bytes_ok (cstr l).
Proof.
  induction 1; cbn; [constructor|]. destruct (_ =? _); constructor; done.
Qed.

Lemma cstr_length l : (length (cstr l) <= length l)%nat.
Proof. induction l as [|b l IH]; cbn; [lia|]. destruct (_ =? _); cbn; lia. Qed.

(** [strcmp(a, b) == 0] *)
Definition streq (a b : bytes) : bool := bool_decide (a = b).

(** Hexadecimal digits of [%02x], [%02X] and [%04x]. *)
Definition hex_digit (d : Z) : Z := if d <? 10 then 48 + d else 87 + d.
Definition hex_digit_up (d : Z) : Z := if d <? 10 then 48 + d else 55 + d.
Definition hex2 (b : Z) : bytes := [hex_digit (b / 16); hex_digit (b mod 16)].
Definition hex2_up (b : Z) : bytes :=
  [hex_digit_up (b / 16); hex_digit_up (b mod 16)].

(** [%u], [%d], [%llu] of a non-negative number; the fuel covers 64 bits. *)
Fixpoint dec_digits (fuel : nat) (n : Z) (acc : bytes) : bytes :=
  match fuel with
  | O => acc
  | S k => let acc := (48 + n mod 10) :: acc in
           if n <? 10 then acc else dec_digits k (n / 10) acc
  end.
Definition dec (n : Z) : bytes := dec_digits 20 n [].

(** ** Reading decimal numbers *)

Fixpoint digits_value (acc : Z) (s : bytes) : Z :=
  match s with
  | c :: rest => if (48 <=? c) && (c <=? 57)
                 then digits_value (acc * 10 + (c - 48)) rest else acc
  | [] => acc
  end.

Fixpoint skip_spaces (s : bytes) : bytes :=
  match s with
  | c :: rest => if (c =? 32) || ((9 <=? c) && (c <=? 13)) then skip_spaces rest else s
  | [] => []
  end.

(** [atoi]; out of the range of [int] its result is not specified, and the low
    32 bits are taken. *)
Definition atoi (s : bytes) : Z :=
  match skip_spaces s with
  | 45 :: rest => s32 (- digits_value 0 rest)
  | 43 :: rest => s32 (digits_value 0 rest)
  | s => s32 (digits_value 0 s)
  end.

(** ** Dates

    The calendar of the standard library, as the gateway prints it. *)

(** [gmtime_r]: the civil date of a day number, and the time of the day. *)
Definition civil_from_days (days : Z) : Z * Z * Z :=
  let z := days + 719468 in
  let era := z / 146097 in
  let doe := z mod 146097 in
  let yoe := (doe - doe / 1460 + doe / 36524 - doe / 146096) / 365 in
  let doy := doe - (365 * yoe + yoe / 4 - yoe / 100) in
  let mp := (5 * doy + 2) / 153 in
  let d := doy - (153 * mp + 2) / 5 + 1 in
  let m := if mp <? 10 then mp + 3 else mp - 9 in
  (yoe + era * 400 + (if m <=? 2 then 1 else 0), m, d).

Definition two_digits (n : Z) : bytes := [48 + n / 10 mod 10; 48 + n mod 10].

(** [strftime] with [%Y-%m-%dT%H:%M:%SZ]. *)
Definition iso8601 (t : Z) : bytes :=
  let '(y, m, d) := civil_from_days (t / 86400) in
  let s := t mod 86400 in
  dec y ++ str "-" ++ two_digits m ++ str "-" ++ two_digits d ++ str "T" ++
  two_digits (s / 3600) ++ str ":" ++ two_digits (s / 60 mod 60) ++ str ":" ++
  two_digits (s mod 60) ++ str "Z".

Example iso8601_epoch : iso8601 0 = str "1970-01-01T00:00:00Z".
Proof. by vm_compute. Qed.
Example iso8601_leap : iso8601 951827696 = str "2000-02-29T12:34:56Z".
Proof. by vm_compute. Qed.
Example iso8601_2024 : iso8601 1735689599 = str "2024-12-31T23:59:59Z".
Proof. by vm_compute. Qed.

Lemma dec_digits_plain fuel n acc :
  Forall (fun c => 32 <= c < 128) acc -> Forall (fun c => 32 <= c < 128) (dec_digits fuel n acc).
Proof.
  revert n acc. induction fuel as [|fuel IH]; intros n acc H; [done|]. cbn [dec_digits].
  pose proof (Z.mod_pos_bound n 10).
  repeat case_match; try apply IH; try (apply Forall_cons_2; [lia|done]).
Qed.

Lemma two_digits_plain n : Forall (fun c => 32 <= c < 128) (two_digits n).
Proof.
  unfold two_digits. pose proof (Z.mod_pos_bound n 10). pose proof (Z.mod_pos_bound (n / 10) 10).
  repeat apply Forall_cons_2; try apply Forall_nil_2; lia.
Qed.

Lemma iso8601_plain t : Forall (fun c => 32 <= c < 128) (iso8601 t).
Proof.
  unfold iso8601. destruct (civil_from_days _) as [[y m] d].
  repeat apply Forall_app_2; try apply two_digits_plain;
    first [by apply dec_digits_plain, Forall_nil_2|by repeat constructor].
Qed.

(** * UUIDs

    Both the agent and the gateway turn 16 bytes into a version 4 UUID: they set
    the version and variant bits and print the bytes in groups. *)
Definition set_bits (b : bytes) : bytes :=
  let b := alter (fun x => Z.lor (Z.land x 0x0f) 0x40) 6%nat b in
  alter (fun x => Z.lor (Z.land x 0x3f) 0x80) 8%nat b.

Definition uuid_text (b : bytes) : bytes :=
  let hex := fun l => concat (map hex2 l) in
  hex (take 4 b) ++ str "-" ++ hex (take 2 (drop 4 b)) ++ str "-" ++
  hex (take 2 (drop 6 b)) ++ str "-" ++ hex (take 2 (drop 8 b)) ++ str "-" ++
  hex (take 6 (drop 10 b)).

(** The format of a version 4 UUID: 36 characters, lower-case hexadecimal
    digits but for four dashes, the version digit 4 and a variant digit of
    [89ab]. *)
Definition is_hex_digit (c : Z) : bool :=
  (48 <=? c) && (c <=? 57) || (97 <=? c) && (c <=? 102).

Definition uuid_char_ok (i : nat) (c : Z) : bool :=
  match i with
  | 8%nat | 13%nat | 18%nat | 23%nat => c =? 45
  | 14%nat => c =? 52
  | 19%nat => (c =? 56) || (c =? 57) || (c =? 97) || (c =? 98)
  | _ => is_hex_digit c
  end.

Definition is_uuid_v4 (u : bytes) : bool :=
  (length u =? 36)%nat && forallb (fun '(i, c) => uuid_char_ok i c) (imap pair u).

(** Decide a property of bytes by running it on all of them. *)
Lemma byte_forall (P : Z -> bool) :
  forallb P (seqZ 0 256) = true -> forall b, byte_ok b -> P b = true.
Proof.
  intros H b Hb. rewrite forallb_forall in H. apply H, list_elem_of_In, elem_of_seqZ.
  unfold fits in Hb. lia.
Qed.

Lemma hex2_is_hex b : byte_ok b -> forallb is_hex_digit (hex2 b) = true.
Proof. apply (byte_forall (fun b => forallb is_hex_digit (hex2 b))). by vm_compute. Qed.

Lemma hex2_version b : byte_ok b ->
  let v := hex2 (Z.lor (Z.land b 0x0f) 0x40) in
  forallb is_hex_digit v && (hd 0 v =? 52) = true.
Proof.
  apply (byte_forall (fun b => let v := hex2 (Z.lor (Z.land b 0x0f) 0x40) in
    forallb is_hex_digit v && (hd 0 v =? 52))). by vm_compute.
Qed.

Lemma hex2_variant b : byte_ok b ->
  let v := hex2 (Z.lor (Z.land b 0x3f) 0x80) in
  forallb is_hex_digit v && uuid_char_ok 19 (hd 0 v) = true.
Proof.
  apply (byte_forall (fun b => let v := hex2 (Z.lor (Z.land b 0x3f) 0x80) in
    forallb is_hex_digit v && uuid_char_ok 19 (hd 0 v))). by vm_compute.
Qed.

Lemma uuid_text_v4 b :
  bytes_ok b -> length b = 16%nat -> is_uuid_v4 (uuid_text (set_bits b)) = true.
Proof.
  intros Hb L. do 17 (destruct b as [|? b]; cbn in L; try lia). clear L.
  unfold bytes_ok in Hb. rewrite !Forall_cons in Hb. destruct_and! Hb.
  pose proof (hex2_version z5 ltac:(done)) as Hver.
  pose proof (hex2_variant z7 ltac:(done)) as Hvar.
  repeat match goal with H : byte_ok ?z |- _ => apply hex2_is_hex in H end.
  unfold is_uuid_v4, set_bits, uuid_text.
  change (str "-") with [45].
  cbn [alter list_alter take firstn drop skipn map concat app length Nat.eqb
       andb hex2 imap forallb uuid_char_ok hd] in *.
  cbn -[hex_digit is_hex_digit Z.div Z.modulo Z.lor Z.land Z.eqb] in *.
  repeat match goal with H : andb _ _ = true |- _ =>
    apply andb_true_iff in H as [??] end.
  rewrite !andb_true_iff. split_and!; done.
Qed.

(** * Stateful computations with undefined behaviour

    [ST S A] threads a state [S]; [None] is undefined behaviour (an access
    outside an object, a use after free) or an exhausted loop bound, and the
    theorems show that neither happens. *)

Definition ST (S A : Type) : Type := S -> option (A * S).

#[export] Instance ST_ret {S} : MRet (ST S) := fun A a s => Some (a, s).
#[export] Instance ST_bind {S} : MBind (ST S) := fun A B f m s =>
  match m s with Some (a, s') => f a s' | None => None end.

Definition ub {S A} : ST S A := fun _ => None.
Definition gets {S A} (f : S -> A) : ST S A := fun s => Some (f s, s).
Definition modify {S} (f : S -> S) : ST S unit := fun s => Some (tt, f s).
Definition lift {S A} (o : option A) : ST S A := fun s =>
  match o with Some a => Some (a, s) | None => None end.

(** A loop: [inl] continues with a new loop state, [inr] leaves the loop.  The
    fuel is an upper bound of the number of iterations. *)
Fixpoint loop {S A B} (fuel : nat) (body : A -> ST S (A + B)) (a : A) : ST S B :=
  match fuel with
  | O => ub
  | Datatypes.S k =>
      r ← body a; match r with inl a' => loop k body a' | inr b => mret b end
  end.

(** Total correctness: [wp m Q s] holds when [m] runs from [s] without undefined
    behaviour to a result and a state that satisfy [Q]. *)
Definition wp {S A} (m : ST S A) (Q : A -> S -> Prop) (s : S) : Prop :=
  match m s with Some (a, s') => Q a s' | None => False end.

Section wp_rules.
Context {S : Type}.
Implicit Types s : S.

Lemma wp_ret {A} (a : A) Q s : Q a s -> wp (mret a) Q s.
Proof. done. Qed.

Lemma wp_bind {A B} (m : ST S A) (f : A -> ST S B) Q s :
  wp m (fun a => wp (f a) Q) s -> wp (m ≫= f) Q s.
Proof. unfold wp, mbind, ST_bind. by destruct (m s) as [[]|]. Qed.

Lemma wp_gets {A} (f : S -> A) Q s : Q (f s) s -> wp (gets f) Q s.
Proof. done. Qed.

Lemma wp_modify f Q s : Q tt (f s) -> wp (modify f) Q s.
Proof. done. Qed.

Lemma wp_lift {A} (o : option A) Q s a :
  o = Some a -> Q a s -> wp (lift o) Q s.
Proof. by intros ->. Qed.

Lemma wp_mono {A} (m : ST S A) (P Q : A -> S -> Prop) s :
  wp m P s -> (forall a s', P a s' -> Q a s') -> wp m Q s.
Proof. unfold wp. destruct (m s) as [[]|]; auto. Qed.

Lemma wp_and {A} (m : ST S A) (P Q : A -> S -> Prop) s :
  wp m P s -> wp m Q s -> wp m (fun a s' => P a s' /\ Q a s') s.
Proof. unfold wp. destruct (m s) as [[]|]; auto. Qed.

Lemma wp_run {A} (m : ST S A) Q s :
  wp m Q s <-> exists a s', m s = Some (a, s') /\ Q a s'.
Proof.
  unfold wp. split.
  - destruct (m s) as [[a s']|]; [eauto|done].
  - by intros (a & s' & -> & H).
Qed.

Lemma wp_triple {A B} (m : ST S (A * B)) (Q : A -> B -> S -> Prop) s :
  wp m (fun r s' => Q (fst r) (snd r) s') s ->
  exists a b s', m s = Some (a, b, s') /\ Q a b s'.
Proof. intros ([a b] & s' & H)%wp_run. by exists a, b, s'. Qed.

(** [moves R m]: where [m] runs, the states before and after it are related by
    [R]; [keeps f m]: it does not change [f]. *)
Definition moves {A} (R : S -> S -> Prop) (m : ST S A) : Prop :=
  forall s a s', m s = Some (a, s') -> R s s'.

Definition keeps {A B} (f : S -> B) : ST S A -> Prop := moves (fun s s' => f s' = f s).

#[export] Instance keeps_preorder {B} (f : S -> B) : PreOrder (fun s s' => f s' = f s).
Proof. split; [done|intros s1 s2 s3; congruence]. Qed.

Section moves_rules.
Context (R : S -> S -> Prop) `{!PreOrder R}.

Lemma moves_ret {A} (a : A) : moves R (mret a).
Proof. by intros s a' s' [= _ <-]. Qed.

Lemma moves_ub {A} : moves R (ub : ST S A).
Proof. by intros s a s'. Qed.

Lemma moves_gets {A} (h : S -> A) : moves R (gets h).
Proof. by intros s a' s' [= _ <-]. Qed.

Lemma moves_lift {A} (o : option A) : moves R (lift o).
Proof. destruct o; [intros s a' s' [= _ <-]|]; done. Qed.

Lemma moves_modify f : (forall s, R s (f s)) -> moves R (modify f).
Proof. intros H s a' s' [= _ <-]. apply H. Qed.

Lemma moves_bind {A B} (m : ST S A) (k : A -> ST S B) :
  moves R m -> (forall a, moves R (k a)) -> moves R (m ≫= k).
Proof.
  intros Hm Hk s a s'. unfold mbind, ST_bind. destruct (m s) as [[a1 s1]|] eqn:E; [|done].
  intros H%Hk. etrans; [by eapply Hm|exact H].
Qed.

Lemma moves_loop {A B} (body : A -> ST S (A + B)) fuel a :
  (forall a, moves R (body a)) -> moves R (loop fuel body a).
Proof.
  intros Hb. revert a. induction fuel as [|fuel IH]; intros a; cbn [loop]; [apply moves_ub|].
  apply moves_bind; [apply Hb|]. intros [a'|b]; [apply IH|apply moves_ret].
Qed.

Lemma wp_moves {A} (m : ST S A) (Q : A -> S -> Prop) s :
  moves R m -> wp m Q s -> wp m (fun a s' => Q a s' /\ R s s') s.
Proof. intros Hf. unfold wp. destruct (m s) as [[a s']|] eqn:E; [|done]. by split; [|eapply Hf]. Qed.
End moves_rules.

(** The loop rule: an invariant and a measure that every iteration
    decreases, bounded by the fuel. *)
Lemma wp_loop {A B} (I : A -> S -> Prop) (measure : A -> nat)
    (body : A -> ST S (A + B)) (Q : B -> S -> Prop) fuel a s :
  I a s -> (measure a < fuel)%nat ->
  (forall a s, I a s ->
     wp (body a) (fun r s' =>
       match r with
       | inl a' => I a' s' /\ (measure a' < measure a)%nat
       | inr b => Q b s'
       end) s) ->
  wp (loop fuel body a) Q s.
Proof.
  intros HI Hf Hb. revert a s HI Hf.
  induction fuel as [|fuel IH]; intros a s HI Hf; [lia|].
  cbn [loop]. apply wp_bind. eapply wp_mono; [by apply Hb|].
  intros [a'|b] s'; [|done]. intros [??]. apply IH; [done|lia].
Qed.
(** A loop whose measure is part of the invariant. *)
Lemma wp_loop_nat {A B} (I : nat -> A -> S -> Prop) (body : A -> ST S (A + B))
    (Q : B -> S -> Prop) fuel n a s :
  I n a s -> (n < fuel)%nat ->
  (forall n a s, I n a s -> wp (body a) (fun r s' =>
     match r with inl a' => exists m, (m < n)%nat /\ I m a' s' | inr b => Q b s' end) s) ->
  wp (loop fuel body a) Q s.
Proof.
  intros HI Hf Hb. revert n a s HI Hf.
  induction fuel as [|fuel IH]; intros n a s HI Hf; [lia|].
  cbn [loop]. apply wp_bind. eapply wp_mono; [by apply Hb|].
  intros [a'|b] s'; [|done]. intros (m & ? & ?). apply (IH m); [done|lia].
Qed.
End wp_rules.

(** * The environment

    What the operating system and the host application answer is an oracle: a
    sequence of answers consumed in order.  What the program does to the
    outside is a trace of effects. *)

Record oracle (A : Type) := Oracle { answer : nat -> A; asked : nat }.
Arguments Oracle {A} _ _.
Arguments answer {A} _ _.
Arguments asked {A} _.

Definition next {A} (o : oracle A) : A := answer o (asked o).
Definition advance {A} (o : oracle A) : oracle A :=
  Oracle (answer o) (Datatypes.S (asked o)).

(** The outcome of an HTTP request: no upstream connection, no client object,
    or a request that was carried out with a return code and a status. *)
Inductive http_answer :=
| HttpNoConn
| HttpNoClient
| HttpDone (ret status : Z).

(** Values of a log record's fields. *)
Inductive log_value :=
| VStr (s : bytes)
| VUint (n : Z).

Definition log_record : Type := list (bytes * log_value).

Inductive effect :=
| Wire (fd : Z) (bs : bytes)                   (** bytes written to a socket *)
| HttpPost (uri : bytes) (headers : list (bytes * bytes)) (body : bytes)
| Ingest (records : list log_record)           (** records given to the engine *)
| Acquire (resource : string)
| Release (resource : string).

Record world := World {
  w_alloc : oracle bool;             (** does the allocation succeed? *)
  w_untested : oracle bool;          (** and one whose result is not tested? *)
  w_time : oracle Z;                 (** [time(NULL)] *)
  w_clock : oracle (Z * Z);          (** a realtime clock: seconds, subseconds *)
  w_write : oracle (Z * Z);          (** socket write: return code, bytes out *)
  w_read : oracle Z;                 (** socket read: size of the next chunk *)
  w_input : Z -> bytes;              (** bytes the peers have sent, by socket *)
  w_http : oracle http_answer;
  w_encoder : oracle bool;           (** does the encoder call succeed? *)
  w_resource : oracle bool;          (** is the engine resource granted? *)
  w_trace : list effect;
}.

#[export] Instance eta_world : Eta world := fun w =>
  World (w_alloc w) (w_untested w) (w_time w) (w_clock w) (w_write w) (w_read w) (w_input w)
    (w_http w) (w_encoder w) (w_resource w) (w_trace w).

(** A component's state contains the environment; it is reached through this
    interface, so the primitives below serve every component. *)
Class HasWorld (S : Type) := {
  world_of : S -> world;
  in_world : (world -> world) -> S -> S;
  world_of_in_world f s : world_of (in_world f s) = f (world_of s);
  in_world_compose f g s : in_world f (in_world g s) = in_world (fun w => f (g w)) s;
  in_world_id s : in_world (fun w => w) s = s;
}.

#[export] Instance world_has_world : HasWorld world :=
  {| world_of w := w; in_world f w := f w; world_of_in_world _ _ := eq_refl;
     in_world_compose _ _ _ := eq_refl; in_world_id _ := eq_refl |}.

Section primitives.
Context {S : Type} `{!HasWorld S}.

Definition consult {A} (get : world -> oracle A)
    (put : oracle A -> world -> world) : ST S A := fun s =>
  let o := get (world_of s) in Some (next o, in_world (put (advance o)) s).

Definition emit (e : effect) : ST S unit :=
  modify (in_world (fun w => w <| w_trace := w_trace w ++ [e] |>)).

Definition alloc_succeeds : ST S bool :=
  consult w_alloc (fun o w => w <| w_alloc := o |>).
(** An allocation whose result the code uses without a test.  Its failure counts
    as undefined behaviour on the spot, although the null pointer may only be
    dereferenced later. *)
Definition untested : ST S unit :=
  ok ← consult w_untested (fun o w => w <| w_untested := o |>);
  if ok : bool then mret tt else ub.

(** A growing string made with room for [size] bytes: its appends reallocate it
    once it is longer, and no caller tests them. *)
Definition grow (size : Z) (text : bytes) : ST S unit :=
  if zlen text <=? size then mret tt else untested.

Definition time_now : ST S Z :=
  consult w_time (fun o w => w <| w_time := o |>).
Definition clock_now : ST S (Z * Z) :=
  consult w_clock (fun o w => w <| w_clock := o |>).
Definition encoder_succeeds : ST S bool :=
  consult w_encoder (fun o w => w <| w_encoder := o |>).
Definition resource_granted : ST S bool :=
  consult w_resource (fun o w => w <| w_resource := o |>).

(** One write call on a socket: a return code and the number of bytes the
    transport took, at most the bytes offered; a failed call takes none. *)
Definition socket_write (fd : Z) (data : bytes) : ST S (Z * Z) :=
  r ← consult w_write (fun o w => w <| w_write := o |>);
  let n := Z.max 0 (Z.min (snd r) (zlen data)) in
  if fst r <? 0 then mret (fst r, 0) else
  _ ← emit (Wire fd (take (Z.to_nat n) data)); mret (fst r, n).

(** One read call of at most [n] bytes: the bytes read; none at the end of
    the stream or on an error. *)
Definition socket_read (fd : Z) (n : Z) : ST S bytes :=
  c ← consult w_read (fun o w => w <| w_read := o |>);
  avail ← gets (fun s => w_input (world_of s) fd);
  let k := Z.to_nat (Z.min c n) in
  _ ← modify (in_world (fun w => w <| w_input := fun fd' =>
         if fd' =? fd then drop k (w_input w fd) else w_input w fd' |>));
  mret (take k avail).

Definition http_post (uri : bytes) (headers : list (bytes * bytes))
    (body : bytes) : ST S http_answer :=
  r ← consult w_http (fun o w => w <| w_http := o |>);
  match r with
  | HttpDone _ _ => _ ← emit (HttpPost uri headers body); mret r
  | _ => mret r
  end.

(** [malloc] and friends: on success the caller owns a block, which the trace
    labels; [free] gives it back, and does nothing on a null pointer. *)
Definition malloc (block : string) : ST S bool :=
  ok ← alloc_succeeds;
  if ok : bool then _ ← emit (Acquire block); mret true else mret false.

Definition free (block : string) : ST S unit := emit (Release block).

Definition free_opt {A} (block : string) (p : option A) : ST S unit :=
  match p with Some _ => free block | None => mret tt end.

Lemma wp_consult {A} get put (Q : A -> S -> Prop) s :
  Q (next (get (world_of s)))
    (in_world (put (advance (get (world_of s)))) s) ->
  wp (consult get put) Q s.
Proof. done. Qed.

Lemma moves_consult {A} (R : S -> S -> Prop) (get : world -> oracle A) put :
  (forall s, R s (in_world (put (advance (get (world_of s)))) s)) -> moves R (consult get put).
Proof. intros H s a s' [= _ <-]. apply H. Qed.

Lemma wp_emit e (Q : unit -> S -> Prop) s :
  Q tt (in_world (fun w => w <| w_trace := w_trace w ++ [e] |>) s) ->
  wp (emit e) Q s.
Proof. done. Qed.
End primitives.

(** What a socket has been sent. *)
Definition effect_wire (fd : Z) (e : effect) : bytes :=
  match e with Wire fd' bs => if fd' =? fd then bs else [] | _ => [] end.
Definition sent_to (fd : Z) (t : list effect) : bytes :=
  concat (map (effect_wire fd) t).

Lemma sent_to_app fd t u : sent_to fd (t ++ u) = sent_to fd t ++ sent_to fd u.
Proof. unfold sent_to. by rewrite map_app, concat_app. Qed.

Lemma sent_to_wire fd bs : sent_to fd [Wire fd bs] = bs.
Proof. unfold sent_to. cbn. rewrite Z.eqb_refl. apply app_nil_r. Qed.

(** [writes fd bs w w']: from [w] to [w'] exactly [bs] was sent, on [fd], and
    nothing else is observable.  [reads fd n w w']: [n] bytes of the input of
    [fd] were taken.  [steps R s s'] lifts such a relation to a component's
    state: only the world changed, and as [R] says. *)
Definition is_wire (fd : Z) (e : effect) : Prop := exists bs, e = Wire fd bs.

(** The answers the environment would give are the same. *)
Definition env (w : world) :=
  (answer (w_alloc w), answer (w_untested w), answer (w_time w), answer (w_clock w), answer (w_write w),
   answer (w_read w), answer (w_http w), answer (w_encoder w),
   answer (w_resource w)).

Lemma env_read w w' : env w' = env w -> answer (w_read w') = answer (w_read w).
Proof. unfold env. congruence. Qed.

Lemma env_alloc w w' : env w' = env w -> answer (w_alloc w') = answer (w_alloc w).
Proof. unfold env. congruence. Qed.

Definition writes (fd : Z) (bs : bytes) (w w' : world) : Prop :=
  w_input w' = w_input w /\ env w' = env w /\
  exists t, w_trace w' = w_trace w ++ t /\
            Forall (is_wire fd) t /\ sent_to fd t = bs.

Definition reads (fd n : Z) (w w' : world) : Prop :=
  w_trace w' = w_trace w /\ env w' = env w /\
  forall fd', w_input w' fd' =
    if fd' =? fd then drop (Z.to_nat n) (w_input w fd) else w_input w fd'.

Definition quiet (w w' : world) : Prop :=
  w_trace w' = w_trace w /\ w_input w' = w_input w /\
  env w' = env w.

Definition steps {S} `{!HasWorld S} (R : world -> world -> Prop) (s s' : S) :=
  exists f, s' = in_world f s /\ R (world_of s) (world_of s').

Lemma writes_compose fd a b w1 w2 w3 :
  writes fd a w1 w2 -> writes fd b w2 w3 -> writes fd (a ++ b) w1 w3.
Proof.
  intros (If & Ef & t & Tf & Ft & St) (Ig & Eg & u & Tg & Fu & Su).
  split; [congruence|]. split; [congruence|]. exists (t ++ u).
  rewrite sent_to_app, Tg, Tf, <- app_assoc. split_and!; [done| |congruence].
  by apply Forall_app_2.
Qed.

Lemma writes_sent fd a w w' :
  writes fd a w w' -> sent_to fd (w_trace w') = sent_to fd (w_trace w) ++ a.
Proof. intros (_ & _ & t & -> & _ & <-). apply sent_to_app. Qed.

Lemma writes_nil fd w w' : quiet w w' -> writes fd [] w w'.
Proof. intros (T & I & E). split; [done|]. split; [done|]. exists []. by rewrite app_nil_r. Qed.

Lemma reads_nil fd w w' : quiet w w' -> reads fd 0 w w'.
Proof.
  intros (T & I & R). split_and!; [done|done|]. intros fd'. rewrite drop_0, I.
  by destruct (Z.eqb_spec fd' fd) as [->|].
Qed.

Lemma reads_compose fd a b w1 w2 w3 :
  0 <= a -> 0 <= b -> reads fd a w1 w2 -> reads fd b w2 w3 -> reads fd (a + b) w1 w3.
Proof.
  intros Ha Hb (Tf & Rf & If) (Tg & Rg & Ig).
  split_and!; [congruence|congruence|]. intros fd'. rewrite Ig, !If.
  destruct (fd' =? fd); [|done]. rewrite Z.eqb_refl, drop_drop.
  f_equal. lia.
Qed.

Lemma reads_input fd n w w' :
  reads fd n w w' -> w_input w' fd = drop (Z.to_nat n) (w_input w fd).
Proof. intros (_ & _ & ->). by rewrite Z.eqb_refl. Qed.

(** Memory never runs out. *)
Definition alloc_ok (w : world) : Prop := forall n, answer (w_alloc w) n = true.

Lemma alloc_ok_env w w' : env w' = env w -> alloc_ok w -> alloc_ok w'.
Proof. intros E H n. rewrite (env_alloc _ _ E). apply H. Qed.

(** The allocations whose results are not tested succeed; those that are tested
    may still fail. *)
Definition untested_ok (w : world) : Prop := forall n, answer (w_untested w) n = true.

Lemma untested_ok_env w w' : env w' = env w -> untested_ok w -> untested_ok w'.
Proof.
  intros E H n. assert (answer (w_untested w') = answer (w_untested w)) as ->
    by (unfold env in E; congruence). apply H.
Qed.

(** Writes never fail, and always take at least a byte. *)
Definition write_ok (w : world) : Prop :=
  forall n, 0 <= fst (answer (w_write w) n) /\ 0 < snd (answer (w_write w) n).

Lemma write_ok_env w w' : env w' = env w -> write_ok w -> write_ok w'.
Proof. intros E H n. assert (answer (w_write w') = answer (w_write w)) as -> by (unfold env in E; congruence). apply H. Qed.

Section socket_rules.
Context {S : Type} `{!HasWorld S}.
Implicit Types s : S.

Lemma steps_refl (R : world -> world -> Prop) s :
  R (world_of s) (world_of s) -> steps R s s.
Proof. exists (fun w => w). by rewrite in_world_id. Qed.

Lemma steps_trans (R1 R2 R3 : world -> world -> Prop) s1 s2 s3 :
  (forall w1 w2 w3, R1 w1 w2 -> R2 w2 w3 -> R3 w1 w3) ->
  steps R1 s1 s2 -> steps R2 s2 s3 -> steps R3 s1 s3.
Proof.
  intros H (f & -> & Hf) (g & -> & Hg). exists (fun w => g (f w)).
  rewrite in_world_compose in *. split; [done|]. by eapply H.
Qed.

Lemma steps_in_world (R : world -> world -> Prop) f s :
  R (world_of s) (f (world_of s)) -> steps R s (in_world f s).
Proof. intros H. exists f. by rewrite world_of_in_world. Qed.

Lemma wp_consult_quiet {A} get put (Q : A -> S -> Prop) s :
  (forall w, quiet w (put (advance (get w)) w)) ->
  (forall a s', a = next (get (world_of s)) -> steps quiet s s' -> Q a s') ->
  wp (consult get put) Q s.
Proof. intros Hq H. apply H; [done|]. apply steps_in_world, Hq. Qed.

(** A write, with what a transport that does not fail guarantees. *)
Lemma wp_socket_write fd data (Q : Z * Z -> S -> Prop) s :
  (forall ret n s', 0 <= n <= zlen data -> (ret < 0 -> n = 0) ->
     (write_ok (world_of s) -> 0 < zlen data -> 0 <= ret /\ 0 < n) ->
     steps (writes fd (take (Z.to_nat n) data)) s s' -> Q (ret, n) s') ->
  wp (socket_write fd data) Q s.
Proof.
  intros H. unfold socket_write. apply wp_bind, wp_consult. cbv zeta.
  assert (Hok : write_ok (world_of s) -> 0 <= fst (next (w_write (world_of s))) /\
    0 < snd (next (w_write (world_of s)))) by (intros W; apply W).
  destruct (next _) as [ret k]. cbn [fst snd] in *.
  destruct (Z.ltb_spec ret 0).
  - apply wp_ret, H; [zlia|done|intros W; specialize (Hok W); lia|].
    apply steps_in_world. rewrite Z2Nat.inj_0, take_0. by apply writes_nil.
  - apply wp_bind, wp_emit, wp_ret. rewrite in_world_compose.
    apply H; [zlia|lia|intros W ?; specialize (Hok W); lia|].
    apply steps_in_world. split; [done|]. split; [done|].
    eexists. split; [done|]. rewrite sent_to_wire. split; [|done].
    repeat constructor. by eexists.
Qed.

(** A read returns a prefix of the pending input; it returns nothing only
    when the transport says so or nothing is pending. *)
Lemma wp_socket_read fd n (Q : bytes -> S -> Prop) s :
  0 < n ->
  (forall l s', l = take (length l) (w_input (world_of s) fd) ->
     zlen l <= n -> steps (reads fd (zlen l)) s s' ->
     (l = [] -> next (w_read (world_of s)) <= 0 \/
                w_input (world_of s) fd = []) ->
     Q l s') ->
  wp (socket_read fd n) Q s.
Proof.
  intros Hn H. unfold socket_read. apply wp_bind, wp_consult, wp_bind, wp_gets.
  cbv zeta. apply wp_bind, wp_modify, wp_ret.
  rewrite in_world_compose, world_of_in_world. cbn [w_input update].
  set (c := next _). set (inp := w_input (world_of s) fd).
  set (k := Z.to_nat (Z.min c n)).
  assert (zlen (take k inp) <= n) by (unfold k in *; zlia).
  apply H; fold inp; [|done| |].
  - rewrite length_take. destruct (decide (k <= length inp)%nat).
    + by rewrite Nat.min_l.
    + rewrite !take_ge; lia || done.
  - apply steps_in_world. split_and!; [done|done|]. cbn. intros fd'.
    rewrite to_nat_zlen, length_take. destruct (fd' =? fd); [|done]. fold inp.
    destruct (decide (k <= length inp)%nat).
    + by rewrite Nat.min_l.
    + rewrite !drop_ge; lia || done.
  - intros E. destruct inp; [by right|]. left.
    assert (k = 0)%nat by (destruct k; [done|by cbn in E]). unfold k in *. lia.
Qed.
End socket_rules.

(** [emits t]: exactly the effects [t] happened, and no input was consumed. *)
Definition emits (t : list effect) (w w' : world) : Prop :=
  w_trace w' = w_trace w ++ t /\ w_input w' = w_input w /\
  env w' = env w.

(** The number of blocks with a label that a trace acquires and keeps. *)
Definition live_step (block : string) (e : effect) : Z :=
  match e with
  | Acquire b => if decide (b = block) then 1 else 0
  | Release b => if decide (b = block) then -1 else 0
  | _ => 0
  end.
Definition live (block : string) (t : list effect) : Z :=
  foldr Z.add 0 (map (live_step block) t).

Lemma live_app block t u : live block (t ++ u) = live block t + live block u.
Proof. unfold live. induction t; cbn; lia. Qed.

Lemma emits_compose t u w1 w2 w3 :
  emits t w1 w2 -> emits u w2 w3 -> emits (t ++ u) w1 w3.
Proof.
  intros (T1 & I1 & R1) (T2 & I2 & R2). split_and!; [|congruence..].
  by rewrite T2, T1, app_assoc.
Qed.

Lemma emits_quiet w w' : quiet w w' -> emits [] w w'.
Proof. intros (T & I & R). split_and!; [by rewrite app_nil_r|done..]. Qed.

Section memory_rules.
Context {S : Type} `{!HasWorld S}.
Implicit Types s : S.

Lemma steps_emits_trans t u s1 s2 s3 :
  steps (emits t) s1 s2 -> steps (emits u) s2 s3 -> steps (emits (t ++ u)) s1 s3.
Proof. intros H1 H2. eapply steps_trans; [apply emits_compose|done|done]. Qed.

Lemma steps_emits_quiet t s1 s2 s3 :
  steps (emits t) s1 s2 -> steps quiet s2 s3 -> steps (emits t) s1 s3.
Proof.
  intros H1 H2. rewrite <- (app_nil_r t). eapply steps_trans; [|done|done].
  intros w1 w2 w3 Hw1 Hw2. eapply emits_compose; [done|by apply emits_quiet].
Qed.

Lemma steps_emits_refl s : steps (emits []) s s.
Proof. apply steps_refl. split_and!; [by rewrite app_nil_r|done..]. Qed.

Lemma quiet_trans w1 w2 w3 : quiet w1 w2 -> quiet w2 w3 -> quiet w1 w3.
Proof. intros (? & ? & ?) (? & ? & ?). split_and!; congruence. Qed.

Lemma steps_quiet_trans s1 s2 s3 :
  steps quiet s1 s2 -> steps quiet s2 s3 -> steps quiet s1 s3.
Proof. apply steps_trans, quiet_trans. Qed.

Lemma steps_quiet_refl s : steps quiet s s.
Proof. by apply steps_refl. Qed.

Lemma steps_emit e s :
  steps (emits [e]) s (in_world (fun w => w <| w_trace := w_trace w ++ [e] |>) s).
Proof. apply steps_in_world. by split_and!. Qed.

Lemma wp_alloc_succeeds (Q : bool -> S -> Prop) s :
  (forall ok s', steps quiet s s' -> (alloc_ok (world_of s) -> ok = true) -> Q ok s') ->
  wp alloc_succeeds Q s.
Proof.
  intros H. apply wp_consult_quiet; [done|]. intros ok s' -> Hs.
  apply H; [done|]. intros Ha. apply Ha.
Qed.

Lemma wp_untested (Q : unit -> S -> Prop) s :
  untested_ok (world_of s) -> (forall s', steps quiet s s' -> Q tt s') ->
  wp untested Q s.
Proof.
  intros Hok H. apply wp_bind, wp_consult_quiet; [done|]. intros ok s' -> Hs.
  unfold next. rewrite (Hok _). by apply wp_ret, H.
Qed.

Lemma wp_grow size text (Q : unit -> S -> Prop) s :
  untested_ok (world_of s) -> (forall s', steps quiet s s' -> Q tt s') ->
  wp (grow size text) Q s.
Proof.
  intros Hok H. unfold grow. destruct (_ <=? _); [|by apply wp_untested].
  apply wp_ret, H, steps_quiet_refl.
Qed.

Lemma wp_time_now (Q : Z -> S -> Prop) s :
  (forall t s', t = next (w_time (world_of s)) -> steps quiet s s' -> Q t s') ->
  wp time_now Q s.
Proof. intros H. apply wp_consult_quiet; [done|]. intros. by apply H. Qed.

Lemma wp_clock_now (Q : Z * Z -> S -> Prop) s :
  (forall t s', steps quiet s s' -> Q t s') -> wp clock_now Q s.
Proof. intros H. apply wp_consult_quiet; [done|]. intros. by apply H. Qed.

Lemma wp_malloc block (Q : bool -> S -> Prop) s :
  (forall s', steps (emits [Acquire block]) s s' -> Q true s') ->
  (forall s', steps quiet s s' -> ~ alloc_ok (world_of s) -> Q false s') ->
  wp (malloc block) Q s.
Proof.
  intros Ht Hf. apply wp_bind, wp_alloc_succeeds. intros [|] s' Hs' Ha.
  - apply wp_bind, wp_emit, wp_ret, Ht.
    change [Acquire block] with ([] ++ [Acquire block]).
    eapply steps_emits_trans; [|apply steps_emit].
    eapply steps_emits_quiet; [apply steps_emits_refl|done].
  - apply wp_ret, Hf; [done|]. intros Hok. by specialize (Ha Hok).
Qed.

Lemma wp_free block (Q : unit -> S -> Prop) s :
  (forall s', steps (emits [Release block]) s s' -> Q tt s') ->
  wp (free block) Q s.
Proof. intros H. apply wp_emit, H, steps_emit. Qed.

(** A request: it is made, or there is no connection or client for it. *)
Lemma wp_http_post uri headers body (Q : http_answer -> S -> Prop) s :
  (forall r s', next (w_http (world_of s)) = r -> r = HttpNoConn \/ r = HttpNoClient ->
     steps quiet s s' -> Q r s') ->
  (forall ret status s', next (w_http (world_of s)) = HttpDone ret status ->
     steps (emits [HttpPost uri headers body]) s s' -> Q (HttpDone ret status) s') ->
  wp (http_post uri headers body) Q s.
Proof.
  intros Hnone Hdone. unfold http_post. apply wp_bind, wp_consult_quiet; [done|].
  intros r s1 E H1. symmetry in E.
  destruct r as [| |ret status];
    [by apply wp_ret, Hnone; [|left|]|by apply wp_ret, Hnone; [|right|]|].
  apply wp_bind, wp_emit, wp_ret, Hdone; [done|].
  change [HttpPost uri headers body] with ([] ++ [HttpPost uri headers body]).
  eapply steps_emits_trans; [|apply steps_emit].
  eapply steps_emits_quiet; [apply steps_emits_refl|done].
Qed.
End memory_rules.

(** Bytes-validity of a concatenation, piece by piece. *)
Ltac solve_bytes_ok :=
  unfold bytes_ok in *;
  repeat lazymatch goal with
    | |- Forall _ (_ ++ _) => apply Forall_app_2
    | |- Forall _ (_ :: _) => apply Forall_cons_2
    | |- Forall _ [] => apply Forall_nil_2
    | |- Forall _ (be_bytes _ _) => apply be_bytes_ok
    | |- Forall _ (take _ _) => apply Forall_take
    | |- Forall _ (drop _ _) => apply Forall_drop
    end;
  try assumption.

Create HintDb wp.
#[export] Hint Resolve wp_ret wp_gets wp_modify : wp.

(** Step through a straight-line computation. *)
Ltac wp_step :=
  lazymatch goal with
  | |- wp (mret _) _ _ => apply wp_ret
  | |- wp (_ ≫= _) _ _ => apply wp_bind
  | |- wp (gets _) _ _ => apply wp_gets
  | |- wp (modify _) _ _ => apply wp_modify
  | |- wp (let _ := _ in _) _ _ => cbv zeta
  end.
(** Case analysis on the test the computation branches on. *)
Ltac wp_if H :=
  lazymatch goal with |- wp (if ?b then _ else _) _ _ => destruct b eqn:H end.
Ltac split_if :=
  lazymatch goal with |- context [if ?b then _ else _] => destruct b end.
Ltac wp_steps := repeat (wp_step; cbv beta).

(** Prove that a computation only moves along a preorder: [prim] solves the steps
    that change the state. *)
Ltac head_of t := lazymatch t with ?f _ => head_of f | _ => t end.
Ltac solve_moves prim :=
  repeat (cbv zeta; lazymatch goal with
    | |- moves _ (mret _) => apply moves_ret; exact _
    | |- moves _ ub => apply moves_ub
    | |- moves _ (gets _) => apply moves_gets; exact _
    | |- moves _ (lift _) => apply moves_lift; exact _
    | |- moves _ (modify _) => apply moves_modify; prim
    | |- moves _ (consult _ _) => apply moves_consult; prim
    | |- moves _ (loop _ _ _) => apply moves_loop; [exact _|intros ?]
    | |- moves _ (_ ≫= _) => apply moves_bind; [exact _| |intros ?]
    | |- moves _ (match ?x with _ => _ end) => destruct x
    | |- moves _ ?m => let h := head_of m in unfold h
    end).

(** * A concrete environment

    Used to exhibit concrete runs: allocations and writes succeed, writes take
    at most [chunk] bytes at a time and reads deliver at most [chunk], and the
    clocks are constant. *)
Definition always {A} (a : A) : oracle A := Oracle (fun _ => a) 0%nat.

Definition sample_world (chunk : Z) (input : Z -> bytes) : world :=
  World (always true) (always true) (always 1700000000) (always (1700000000, 250000000))
    (always (0, chunk)) (always chunk) input (always (HttpDone 0 204))
    (always true) (always true) [].
