(* ===== verification/Wzcp.v ===== *)
(** The agent's wire protocol, shared/xsiam_wzcp.c: the frame header and its byte
    order, whole-buffer socket transfers, the process identity and host
    description, and the builders and parsers of the message bodies.  [process]
    is the state of the agent process; the section on the wire format is the
    specification the functions are compared with. *)
From S2P Require Import Prelude.
#[local] Open Scope Z_scope.

(** * Constants and the frame header (headers/xsiam_wzcp.h) *)

Definition XSIAM_WZCP_MAGIC : Z := 0x575A4350.
Definition XSIAM_WZCP_VERSION : Z := 1.
Definition XSIAM_WZCP_HEADER_SIZE : Z := 32.
Definition XSIAM_WZCP_MAX_FRAME : Z := 1024 * 1024.

Definition XSIAM_WZCP_MSG_HELLO : Z := 1.
Definition XSIAM_WZCP_MSG_EVENT_BATCH : Z := 2.
Definition XSIAM_WZCP_MSG_ACK : Z := 3.
Definition XSIAM_WZCP_MSG_HEARTBEAT : Z := 4.
Definition XSIAM_WZCP_MSG_CONTROL : Z := 5.
Definition XSIAM_WZCP_MSG_ERROR : Z := 6.

Definition XSIAM_WZCP_EVENT_LOG : Z := 1.
Definition XSIAM_WZCP_EVENT_CONTROL : Z := 2.

Record xsiam_wzcp_header := WzcpHeader {
  h_magic : Z;         (* u32 *)
  h_version : Z;       (* u8 *)
  h_header_len : Z;    (* u8 *)
  h_flags : Z;         (* u8 *)
  h_msg_type : Z;      (* u8 *)
  h_agent_id : Z;      (* u32 *)
  h_seq : Z;           (* u64 *)
  h_timestamp_ms : Z;  (* u64 *)
  h_body_len : Z;      (* u32 *)
}.

(** * Byte order (shared/xsiam_wzcp.c) *)

Definition get_be32 (p : bytes) : option Z :=
  match p with
  | p0 :: p1 :: p2 :: p3 :: _ =>
      Some (Z.lor (Z.lor (Z.lor (Z.shiftl p0 24) (Z.shiftl p1 16))
                    (Z.shiftl p2 8)) p3)
  | _ => None
  end.

Definition get_be64 (p : bytes) : option Z :=
  hi ← get_be32 p;
  lo ← get_be32 (drop 4 p);
  Some (Z.lor (Z.shiftl hi 32) lo).

Definition put_be16 (v : Z) : bytes := [u8 (Z.shiftr v 8); u8 v].

Definition put_be32 (v : Z) : bytes :=
  [u8 (Z.shiftr v 24); u8 (Z.shiftr v 16); u8 (Z.shiftr v 8); u8 v].

Definition put_be64 (v : Z) : bytes :=
  put_be32 (u32 (Z.shiftr v 32)) ++ put_be32 (u32 v).

(** * The agent's process state

    The two static variables, the process environment and the files the code
    reads, the platform, and the world.  [p_windows] is [None] on a build
    without [WIN32] and otherwise holds what the Windows API answers. *)

Record windows := Windows {
  win_product : option bool;        (** [GetVersionExA]: is a workstation? *)
  win_adapters_rc : Z;              (** first [GetAdaptersInfo]: return code *)
  win_adapters_len : Z;             (** ... and the length it reports *)
  win_adapters_rc2 : Z;             (** second [GetAdaptersInfo] *)
  win_adapters : list (Z * bytes);  (** [AddressLength], [Address] *)
}.

Record process := Process {
  p_seq : Z;                             (** [wzcp_seq] *)
  p_uuid : bytes;                        (** [wzcp_agent_uuid] *)
  p_env : bytes -> option bytes;         (** [getenv] *)
  p_uuid_file : option bytes;            (** the file [xsiam-agent.uuid] *)
  p_kernel_uuid : option bytes;          (** /proc/sys/kernel/random/uuid *)
  p_rand : oracle Z;                     (** [rand()] after the [srand] *)
  p_windows : option windows;
  p_world : world;
}.

#[export] Instance eta_process : Eta process := fun p =>
  Process (p_seq p) (p_uuid p) (p_env p) (p_uuid_file p) (p_kernel_uuid p)
    (p_rand p) (p_windows p) (p_world p).

#[export] Instance process_has_world : HasWorld process :=
  {| world_of := p_world; in_world f p := p <| p_world := f (p_world p) |>;
     world_of_in_world _ _ := eq_refl; in_world_compose _ _ _ := eq_refl;
     in_world_id p := ltac:(by destruct p) |}.

(** * Sockets *)

(** [send(sock, p, n, 0)] returns the number of bytes taken, or a code that is
    not positive. *)
Definition send_all (sock : Z) (buf : bytes) : ST process Z :=
  loop (Datatypes.S (length buf)) (fun sent =>
    if sent <? zlen buf then
      rc ← socket_write sock (drop (Z.to_nat sent) buf);
      let rc := if fst rc <? 0 then fst rc else snd rc in
      if rc <=? 0 then mret (inr (-1)) else mret (inl (sent + rc))
    else mret (inr 0)) 0.

(** The bytes received so far are the loop state: [got] is their number. *)
Definition recv_all (sock : Z) (len : Z) : ST process (option bytes) :=
  loop (Datatypes.S (Z.to_nat len)) (fun acc : bytes =>
    if zlen acc <? len then
      chunk ← socket_read sock (len - zlen acc);
      if zlen chunk <=? 0 then mret (inr None) else mret (inl (acc ++ chunk))
    else mret (inr (Some acc))) [].

(** * Configuration and identity *)

Definition xsiam_wzcp_enabled : ST process bool :=
  value ← gets (fun p => p_env p (str "XSIAM_GATEWAY_PROTOCOL"));
  mret (match value with Some v => streq v (str "wzcp") | None => false end).

(** [strchr] and cut: the string up to the first occurrence of [c]. *)
Fixpoint cut_at (c : Z) (s : bytes) : bytes :=
  match s with
  | [] => []
  | b :: t => if b =? c then [] else b :: cut_at c t
  end.

(** [fgets(out, n, fp)]: up to [n - 1] bytes, through the first newline. *)
Fixpoint fgets_line (n : nat) (s : bytes) : bytes :=
  match n, s with
  | S k, b :: t => if b =? 10 then [b] else b :: fgets_line k t
  | _, _ => []
  end.

Definition read_uuid_file (out_size : Z) : ST process (option bytes) :=
  file ← gets p_uuid_file;
  match file with
  | None => mret None
  | Some content =>
      let line := fgets_line (Z.to_nat (out_size - 1)) content in
      if bool_decide (line = []) then mret None else
      let out := cut_at 13 (cut_at 10 (cstr line)) in
      if bool_decide (out = []) then mret None else mret (Some out)
  end.

Definition write_uuid_file (uuid : bytes) : ST process unit :=
  opened ← resource_granted;
  if opened : bool
  then modify (fun p => p <| p_uuid_file := Some (uuid ++ [10]) |>)
  else mret tt.

(** [rand() & 0xff], sixteen times. *)
Fixpoint rand_bytes (n : nat) : ST process bytes :=
  match n with
  | O => mret []
  | S k =>
      r ← gets (fun p => next (p_rand p));
      _ ← modify (fun p => p <| p_rand := advance (p_rand p) |>);
      rest ← rand_bytes k; mret (Z.land r 0xff :: rest)
  end.

Definition generate_uuid (out_size : Z) : ST process bytes :=
  win ← gets p_windows;
  kernel ← gets p_kernel_uuid;
  match win, kernel with
  | None, Some (c :: content) =>
      let out := take (Z.to_nat (out_size - 1)) (c :: content) in
      mret (cut_at 10 (cstr out))
  | _, _ =>
      b ← rand_bytes 16;
      mret (take (Z.to_nat (out_size - 1)) (uuid_text (set_bits b)))
  end.

Definition xsiam_wzcp_agent_uuid : ST process bytes :=
  cached ← gets p_uuid;
  if negb (bool_decide (cached = [])) then mret cached else
  env_uuid ← gets (fun p => p_env p (str "XSIAM_AGENT_UUID"));
  match env_uuid with
  | Some (c :: e) =>
      let u := take 63 (c :: e) in
      _ ← modify (fun p => p <| p_uuid := u |>); mret u
  | _ =>
      from_file ← read_uuid_file 64;
      match from_file with
      | Some u => _ ← modify (fun p => p <| p_uuid := u |>); mret u
      | None =>
          u ← generate_uuid 64;
          _ ← modify (fun p => p <| p_uuid := u |>);
          _ ← write_uuid_file u; mret u
      end
  end.

Definition xsiam_wzcp_host_type : ST process bytes :=
  env_type ← gets (fun p => p_env p (str "XSIAM_HOST_TYPE"));
  win ← gets p_windows;
  let detected :=
    match win with
    | Some w => match win_product w with
                | Some false => str "server"
                | _ => str "pc"
                end
    | None => str "pc"
    end in
  mret (match env_type with
        | Some t => if streq t (str "server") || streq t (str "pc")
                    then t else detected
        | None => detected
        end).

(** The text of one adapter address, ["%02X:%02X:%02X:%02X:%02X:%02X"]. *)
Definition mac_text (a : bytes) : bytes :=
  match map hex2_up (take 6 a) with
  | x :: xs => x ++ concat (map (fun h => str ":" ++ h) xs)
  | [] => []
  end.

(** The loop over the adapters; [used] bytes of [out] are written and followed
    by a NUL. *)
Fixpoint mac_loop (out_size : Z) (adapters : list (Z * bytes))
    (out : bytes) (used : Z) : option bytes :=
  match adapters with
  | [] => Some out
  | (len, addr) :: rest =>
      if negb (len =? 6) then mac_loop out_size rest out used else
      let mac := mac_text addr in
      if (used >? 0) && (used + 1 >=? out_size) then Some out else
      '(out, used) ← (if used >? 0
                      then out ← store out used [44; 0]; Some (out, used + 1)
                      else Some (out, used));
      if used + zlen mac >=? out_size then Some out else
      out ← store out used (mac ++ [0]);
      mac_loop out_size rest out (used + zlen mac)
  end.

(** [out] is an object of [out_size] bytes; the result is the return code and
    its new contents. *)
Definition xsiam_wzcp_collect_mac_addresses (out : bytes) (out_size : Z) :
    ST process (Z * bytes) :=
  if out_size =? 0 then mret (-1, out) else
  out ← lift (store out 0 [0]);
  win ← gets p_windows;
  match win with
  | None => mret (0, out)
  | Some w =>
      if negb (win_adapters_rc w =? 111) || (win_adapters_len w =? 0)
      then mret (0, out) else
      info ← alloc_succeeds;
      if negb info then mret (-1, out) else
      if negb (win_adapters_rc2 w =? 0) then mret (0, out) else
      out ← lift (mac_loop out_size (win_adapters w) out 0);
      mret (0, out)
  end.

(** * Time and sequence numbers *)

(** Windows reads the system time as the two halves of a FILETIME; elsewhere
    [gettimeofday] gives seconds and microseconds. *)
Definition xsiam_wzcp_now_ms : ST process Z :=
  win ← gets p_windows;
  t ← clock_now;
  mret (match win with
        | Some _ =>
            u64 (Z.lor (Z.shiftl (u32 (fst t)) 32) (u32 (snd t)) / 10000
                 - 11644473600000)
        | None => u64 (u64 (fst t) * 1000 + u64 (snd t) / 1000)
        end).

Definition xsiam_wzcp_next_seq : ST process Z :=
  _ ← modify (fun p => p <| p_seq := u64 (p_seq p + 1) |>);
  gets p_seq.

(** * Frames *)

(** [out] is the object the caller passes; the fields are stored one by one. *)
Definition xsiam_wzcp_pack_header (out : bytes) (h : xsiam_wzcp_header)
    : option bytes :=
  out ← store out 0 (put_be32 (h_magic h));
  out ← store out 4 [h_version h];
  out ← store out 5 [h_header_len h];
  out ← store out 6 [h_flags h];
  out ← store out 7 [h_msg_type h];
  out ← store out 8 (put_be32 (h_agent_id h));
  out ← store out 12 (put_be64 (h_seq h));
  out ← store out 20 (put_be64 (h_timestamp_ms h));
  store out 28 (put_be32 (h_body_len h)).

Definition xsiam_wzcp_unpack_header (inp : bytes)
    : option (Z * xsiam_wzcp_header) :=
  magic ← get_be32 inp;
  version ← load1 inp 4;
  header_len ← load1 inp 5;
  flags ← load1 inp 6;
  msg_type ← load1 inp 7;
  agent_id ← get_be32 (drop 8 inp);
  seq ← get_be64 (drop 12 inp);
  timestamp_ms ← get_be64 (drop 20 inp);
  body_len ← get_be32 (drop 28 inp);
  let h := WzcpHeader magic version header_len flags msg_type agent_id seq
             timestamp_ms body_len in
  if negb (magic =? XSIAM_WZCP_MAGIC) ||
     negb (version =? XSIAM_WZCP_VERSION) ||
     negb (header_len =? XSIAM_WZCP_HEADER_SIZE) ||
     (body_len >? XSIAM_WZCP_MAX_FRAME)
  then Some (-1, h) else Some (0, h).

Definition xsiam_wzcp_send_frame (sock msg_type agent_id seq : Z)
    (body : bytes) (body_len : Z) : ST process Z :=
  let frame_len := u32 (XSIAM_WZCP_HEADER_SIZE + body_len) in
  if body_len >? XSIAM_WZCP_MAX_FRAME then mret (-1) else
  now ← xsiam_wzcp_now_ms;
  let h := WzcpHeader XSIAM_WZCP_MAGIC XSIAM_WZCP_VERSION
             XSIAM_WZCP_HEADER_SIZE 0 msg_type agent_id seq now body_len in
  let len_buf := put_be32 frame_len in
  hdr ← lift (xsiam_wzcp_pack_header (replicate 32 0) h);
  rc ← send_all sock len_buf;
  if rc <? 0 then mret (-1) else
  rc ← send_all sock hdr;
  if rc <? 0 then mret (-1) else
  if body_len >? 0 then
    data ← lift (load body 0 body_len);
    rc ← send_all sock data;
    if rc <? 0 then mret (-1) else mret 0
  else mret 0.

(** The end of [xsiam_wzcp_recv_frame]: the body, once the header is accepted. *)
Definition recv_payload (sock : Z) (h : xsiam_wzcp_header) (body : bytes)
    : ST process (Z * xsiam_wzcp_header * bytes) :=
  if h_body_len h >? 0 then
    data ← recv_all sock (h_body_len h);
    match data with
    | None => mret (-1, h, body)
    | Some data =>
        body ← lift (store body 0 data);
        mret (s32 (h_body_len h), h, body)
    end
  else mret (s32 (h_body_len h), h, body).

(** [body] is the caller's object of at least [body_cap] bytes; the result is
    the return value, the header and the object's contents. *)
Definition xsiam_wzcp_recv_frame (sock : Z) (h : xsiam_wzcp_header)
    (body : bytes) (body_cap : Z)
    : ST process (Z * xsiam_wzcp_header * bytes) :=
  len_buf ← recv_all sock 4;
  match len_buf with
  | None => mret (-1, h, body)
  | Some len_buf =>
      frame_len ← lift (get_be32 len_buf);
      if (frame_len <? XSIAM_WZCP_HEADER_SIZE) ||
         (frame_len >? u32 (XSIAM_WZCP_HEADER_SIZE + body_cap))
      then mret (-1, h, body) else
      hdr ← recv_all sock XSIAM_WZCP_HEADER_SIZE;
      match hdr with
      | None => mret (-1, h, body)
      | Some hdr =>
          '(rc, h) ← lift (xsiam_wzcp_unpack_header hdr);
          if (rc <? 0) ||
             negb (h_body_len h =? u32 (frame_len - XSIAM_WZCP_HEADER_SIZE))
          then mret (-1, h, body) else
          recv_payload sock h body
      end
  end.

(** * Message bodies

    The builders write into the caller's buffer; the state is that object and
    the offset [*off]. *)

Record wbuf := Wbuf { wb_out : bytes; wb_off : Z }.
#[export] Instance eta_wbuf : Eta wbuf := fun b => Wbuf (wb_out b) (wb_off b).

Definition put_at (pos : Z) (bs : bytes) : ST wbuf unit :=
  out ← gets wb_out;
  out ← lift (store out pos bs);
  modify (fun b => b <| wb_out := out |>).

Definition advance_off (n : Z) : ST wbuf unit :=
  modify (fun b => b <| wb_off := u32 (wb_off b + n) |>).

(** [value] is [None] for a null pointer. *)
Definition put_string (out_cap : Z) (value : option bytes) : ST wbuf Z :=
  let s := match value with Some v => v | None => [] end in
  let len := u16 (zlen s) in
  off ← gets wb_off;
  if u32 (off + 2 + len) >? out_cap then mret (-1) else
  _ ← put_at off (put_be16 len);
  _ ← advance_off 2;
  off ← gets wb_off;
  if len >? 0 then
    data ← lift (load s 0 len);
    _ ← put_at off data;
    _ ← advance_off len; mret 0
  else mret 0.

Fixpoint put_strings (out_cap : Z) (values : list (option bytes))
    : ST wbuf Z :=
  match values with
  | [] => mret 0
  | v :: rest =>
      rc ← put_string out_cap v;
      if rc <? 0 then mret (-1) else put_strings out_cap rest
  end.

Definition xsiam_wzcp_build_hello (out : bytes) (out_cap : Z)
    (agent_id agent_name agent_version : option bytes) : option (Z * bytes) :=
  if out_cap <? 4 then Some (-1, out) else
  '(rc, b) ← (_ ← put_at 0 (put_be16 1);
              _ ← put_at 2 (put_be16 0);
              _ ← modify (fun b => b <| wb_off := 4 |>);
              rc ← put_strings out_cap [agent_id; agent_name; agent_version];
              off ← gets wb_off;
              mret (if rc <? 0 then -1 else s32 off)) (Wbuf out 0);
  Some (rc, wb_out b).

(** [strtok_r(s, sep)] until it returns null: the maximal runs without the
    separator. *)
Fixpoint strtok_runs (sep : Z) (s cur : bytes) : list bytes :=
  match s with
  | [] => if bool_decide (cur = []) then [] else [cur]
  | b :: t =>
      if b =? sep
      then (if bool_decide (cur = []) then [] else [cur]) ++ strtok_runs sep t []
      else strtok_runs sep t (cur ++ [b])
  end.
Definition strtok (sep : Z) (s : bytes) : list bytes := strtok_runs sep s [].

(** Skip leading occurrences of [c]. *)
Fixpoint skip_leading (c : Z) (s : bytes) : bytes :=
  match s with
  | [] => []
  | b :: t => if b =? c then skip_leading c t else s
  end.

(** The loop of [put_mac_csv]: the remaining tokens and the count so far; the
    result is the final count, or [None] when an item does not fit. *)
Fixpoint put_mac_items (out_cap : Z) (items : list bytes) (count : Z)
    : ST wbuf (option Z) :=
  match items with
  | [] => mret (Some count)
  | item :: rest =>
      if 64 <=? count then mret (Some count) else
      let item := skip_leading 32 item in
      if bool_decide (item = []) then put_mac_items out_cap rest count else
      rc ← put_string out_cap (Some item);
      if rc <? 0 then mret None else put_mac_items out_cap rest (count + 1)
  end.

Definition put_mac_csv (out_cap : Z) (mac_addresses_csv : option bytes)
    : ST wbuf Z :=
  off ← gets wb_off;
  match mac_addresses_csv with
  | Some (c :: csv) =>
      let buf := take 511 (c :: csv) in
      if u32 (off + 2) >? out_cap then mret (-1) else
      let count_pos := off in
      _ ← advance_off 2;
      count ← put_mac_items out_cap (strtok 44 buf) 0;
      match count with
      | None => mret (-1)
      | Some count => _ ← put_at count_pos (put_be16 (u16 count)); mret 0
      end
  | _ =>
      if u32 (off + 2) >? out_cap then mret (-1) else
      _ ← put_at off (put_be16 0);
      _ ← advance_off 2; mret 0
  end.

Definition xsiam_wzcp_build_hello_ex (out : bytes) (out_cap : Z)
    (agent_id agent_name agent_version host_type mac_addresses_csv
       : option bytes) : option (Z * bytes) :=
  if out_cap <? 4 then Some (-1, out) else
  '(rc, b) ← (_ ← put_at 0 (put_be16 2);
              _ ← put_at 2 (put_be16 0);
              _ ← modify (fun b => b <| wb_off := 4 |>);
              rc ← (rc ← put_strings out_cap
                           [agent_id; agent_name; agent_version; host_type];
                    if rc <? 0 then mret (-1)
                    else put_mac_csv out_cap mac_addresses_csv);
              off ← gets wb_off;
              mret (if rc <? 0 then -1 else s32 off)) (Wbuf out 0);
  Some (rc, wb_out b).

Definition xsiam_wzcp_build_event_batch (out : bytes) (out_cap kind : Z)
    (payload : bytes) (payload_len : Z) : ST process (Z * bytes) :=
  if (payload_len >? 0xffff) || (out_cap <? u64 (21 + payload_len))
  then mret (-1, out) else
  out ← lift (store out 0 (put_be16 1));
  out ← lift (store out 2 [kind]);
  out ← lift (store out 3 [0]);
  now ← xsiam_wzcp_now_ms;
  out ← lift (store out 4 (put_be64 now));
  seq ← xsiam_wzcp_next_seq;
  out ← lift (store out 12 (put_be64 seq));
  out ← lift (store out 20 (put_be16 (u16 payload_len)));
  if payload_len >? 0 then
    data ← lift (load payload 0 payload_len);
    out ← lift (store out 22 data);
    mret (s32 (u32 (22 + payload_len)), out)
  else mret (22, out).

(** [highest_seq] is [None] when the variable is left unset. *)
Definition xsiam_wzcp_parse_ack (body : bytes) (body_len : Z)
    : option (Z * option Z) :=
  if body_len <? 8 then Some (-1, None) else
  seq ← get_be64 body; Some (0, Some seq).

Definition xsiam_wzcp_build_ack (out : bytes) (out_cap highest_seq : Z)
    : option (Z * bytes) :=
  if out_cap <? 8 then Some (-1, out) else
  out ← store out 0 (put_be64 highest_seq); Some (8, out).

(** * The wire format

    The specification the functions above are compared with: a frame is a
    length, a header and a body; a string is a length and its bytes. *)

Definition wire_header (h : xsiam_wzcp_header) : bytes :=
  be_bytes 4 (h_magic h) ++
  [h_version h; h_header_len h; h_flags h; h_msg_type h] ++
  be_bytes 4 (h_agent_id h) ++ be_bytes 8 (h_seq h) ++
  be_bytes 8 (h_timestamp_ms h) ++ be_bytes 4 (h_body_len h).

Definition wire_frame (h : xsiam_wzcp_header) (body : bytes) : bytes :=
  be_bytes 4 (XSIAM_WZCP_HEADER_SIZE + zlen body) ++ wire_header h ++ body.

Definition wire_string (s : bytes) : bytes := be_bytes 2 (zlen s) ++ s.

(** The header is made of values of the C field types. *)
Record header_fits (h : xsiam_wzcp_header) : Prop := {
  fits_magic : fits 32 (h_magic h);
  fits_version : fits 8 (h_version h);
  fits_header_len : fits 8 (h_header_len h);
  fits_flags : fits 8 (h_flags h);
  fits_msg_type : fits 8 (h_msg_type h);
  fits_agent_id : fits 32 (h_agent_id h);
  fits_seq : fits 64 (h_seq h);
  fits_timestamp_ms : fits 64 (h_timestamp_ms h);
  fits_body_len : fits 32 (h_body_len h);
}.

Definition header_accepted (h : xsiam_wzcp_header) : bool :=
  (h_magic h =? XSIAM_WZCP_MAGIC) && (h_version h =? XSIAM_WZCP_VERSION) &&
  (h_header_len h =? XSIAM_WZCP_HEADER_SIZE) &&
  (h_body_len h <=? XSIAM_WZCP_MAX_FRAME).

Lemma put_be64_spec v : put_be64 v = be_bytes 8 v.
Proof. apply wr64_spec. Qed.

Lemma zlen_wire_header h : zlen (wire_header h) = 32.
Proof. reflexivity. Qed.
#[export] Hint Rewrite zlen_wire_header : zlen.

Lemma zlen_wire_string s : zlen (wire_string s) = 2 + zlen s.
Proof. unfold wire_string. zlia. Qed.
#[export] Hint Rewrite zlen_wire_string : zlen.

Lemma wire_header_ok h : header_fits h -> bytes_ok (wire_header h).
Proof.
  intros []. unfold wire_header. solve_bytes_ok.
Qed.

Lemma pack_header_spec out h :
  32 <= zlen out ->
  xsiam_wzcp_pack_header out h = Some (wire_header h ++ drop 32 out).
Proof.
  intros L. unfold xsiam_wzcp_pack_header.
  change (put_be32 (h_magic h)) with (be_bytes 4 (h_magic h)).
  change (put_be32 (h_agent_id h)) with (be_bytes 4 (h_agent_id h)).
  change (put_be32 (h_body_len h)) with (be_bytes 4 (h_body_len h)).
  rewrite !put_be64_spec. change out with ([] ++ out) at 1.
  do 8 (rewrite store_at by zlia; cbn [mbind option_bind]).
  rewrite store_at by zlia. rewrite !drop_drop. unfold wire_header.
  by rewrite <- !app_assoc.
Qed.

Lemma unpack_wire_header h r :
  header_fits h ->
  xsiam_wzcp_unpack_header (wire_header h ++ r) =
    Some (if header_accepted h then 0 else -1, h).
Proof.
  intros []. unfold xsiam_wzcp_unpack_header.
  set (inp := wire_header h ++ r).
  change (get_be32 inp) with (rd32 (be_bytes 4 (h_magic h) ++ drop 4 inp)).
  change (get_be32 (drop 8 inp))
    with (rd32 (be_bytes 4 (h_agent_id h) ++ drop 12 inp)).
  change (get_be64 (drop 12 inp))
    with (rd64 (be_bytes 8 (h_seq h) ++ drop 20 inp)).
  change (get_be64 (drop 20 inp))
    with (rd64 (be_bytes 8 (h_timestamp_ms h) ++ drop 28 inp)).
  change (get_be32 (drop 28 inp))
    with (rd32 (be_bytes 4 (h_body_len h) ++ r)).
  rewrite !rd32_be_bytes, !rd64_be_bytes, !uwrap_small by done.
  change (load1 inp 4) with (Some (h_version h)).
  change (load1 inp 5) with (Some (h_header_len h)).
  change (load1 inp 6) with (Some (h_flags h)).
  change (load1 inp 7) with (Some (h_msg_type h)).
  cbn [mbind option_bind]. unfold header_accepted.
  rewrite Z.gtb_ltb, Z.ltb_antisym, <- !negb_andb. destruct h; cbn.
  by destruct (_ && _).
Qed.

(** * Transfers of a whole buffer *)

(** What a sender promises: on 0 the whole message went out, on -1 a proper
    prefix of it, because a write failed. *)
Definition sent_prefix (sock : Z) (whole : bytes) (p : process) (rc : Z)
    (p' : process) : Prop :=
  exists k, steps (writes sock (take k whole)) p p' /\
    (rc = 0 /\ k = length whole \/
     rc = -1 /\ (k < length whole)%nat /\ ~ write_ok (p_world p)).

Lemma send_all_spec sock buf p :
  wp (send_all sock buf) (sent_prefix sock buf p) p.
Proof.
  unfold send_all.
  apply (wp_loop (fun sent p' => 0 <= sent <= zlen buf /\
      steps (writes sock (take (Z.to_nat sent) buf)) p p')
    (fun sent => Z.to_nat (zlen buf - sent))).
  - split; [zlia|]. rewrite take_0. by apply steps_refl, writes_nil.
  - unfold zlen. lia.
  - intros sent p1 [Hs Hp]. destruct (Z.ltb_spec sent (zlen buf)).
    + apply wp_bind, wp_socket_write. intros ret n p2 Hn Hr Hok Hp2.
      rewrite zlen_drop in Hn, Hok by lia. cbn [fst snd].
      assert (write_ok (p_world p) -> 0 <= ret /\ 0 < n) as Hw.
      { intros W. apply Hok; [|lia]. destruct Hp as (f & -> & _ & E & _).
        by eapply write_ok_env. }
      clear Hok.
      assert (steps (writes sock (take (Z.to_nat (sent + n)) buf)) p p2) as Hp'.
      { rewrite Z2Nat.inj_add, <- take_take_drop by lia.
        eapply steps_trans; [|exact Hp|exact Hp2]. apply writes_compose. }
      destruct (Z.ltb_spec ret 0).
      * rewrite (proj2 (Z.leb_le ret 0)) by lia. apply wp_ret.
        eexists. split; [done|]. right. split; [done|].
        split; [unfold zlen in *; lia|]. intros W%Hw. lia.
      * destruct (Z.leb_spec n 0); apply wp_ret.
        -- eexists. split; [done|]. right. split; [done|].
           split; [unfold zlen in *; lia|]. intros W%Hw. lia.
        -- split; [split; [lia|done]|lia].
    + apply wp_ret. exists (Z.to_nat sent). split; [done|]. left.
      unfold zlen in *. lia.
Qed.

(** [recv_all] takes exactly [len] bytes of the input, whatever the sizes of
    the chunks the transport delivers; it fails only when a read fails or the
    input is too short. *)
Lemma recv_all_spec sock len p :
  0 <= len ->
  let inp := w_input (world_of p) sock in
  wp (recv_all sock len) (fun r p' =>
    match r with
    | Some data => data = take (Z.to_nat len) inp /\ zlen data = len /\
                   steps (reads sock len) p p'
    | None => ~ ((forall n, 0 < answer (w_read (world_of p)) n) /\
                 len <= zlen inp)
    end) p.
Proof.
  intros Hlen inp. unfold recv_all.
  apply (wp_loop (fun acc p' => zlen acc <= len /\
      acc = take (length acc) inp /\ steps (reads sock (zlen acc)) p p')
    (fun acc => Z.to_nat (len - zlen acc))).
  - split_and!; [zlia|done|]. by apply steps_refl, reads_nil.
  - zlia.
  - intros acc p1 (Hl & Ha & Hp).
    assert (w_input (world_of p1) sock = drop (length acc) inp) as Hi.
    { destruct Hp as (f & -> & Hr). apply reads_input in Hr.
      by rewrite to_nat_zlen in Hr. }
    destruct (Z.ltb_spec (zlen acc) len).
    + apply wp_bind, wp_socket_read; [lia|]. intros l p2 El Ll Hp2 Hnil.
      rewrite Hi in El, Hnil.
      destruct (Z.leb_spec (zlen l) 0) as [L0|L0]; apply wp_ret.
      * assert (l = []) as -> by (destruct l; [done|zlia]).
        intros [Hpos Hin]. destruct (Hnil eq_refl) as [Hc|Hd].
        -- destruct Hp as (f & -> & _ & HR%env_read & _). unfold next in Hc.
           rewrite HR in Hc. specialize (Hpos (asked (w_read (world_of (in_world f p))))).
           lia.
        -- apply (f_equal length) in Hd. rewrite length_drop in Hd. cbn in Hd.
           unfold zlen in *. lia.
      * split_and!; [zlia| | |zlia].
        -- rewrite length_app, <- take_take_drop, <- Ha, <- El. done.
        -- rewrite zlen_app. eapply steps_trans; [|exact Hp|exact Hp2].
           intros *. apply reads_compose; zlia.
    + apply wp_ret. assert (zlen acc = len) as <- by lia.
      rewrite to_nat_zlen. done.
Qed.

Lemma now_ms_spec p :
  wp xsiam_wzcp_now_ms (fun t p' => fits 64 t /\ steps quiet p p') p.
Proof.
  unfold xsiam_wzcp_now_ms. apply wp_bind, wp_gets, wp_bind.
  apply wp_consult_quiet; [done|]. intros t p' _ Hp. apply wp_ret.
  split; [|done]. destruct (p_windows p); apply uwrap_fits; lia.
Qed.

(** * Frames *)

(** The header [xsiam_wzcp_send_frame] builds. *)
Definition sent_header (msg_type agent_id seq ts body_len : Z) :=
  WzcpHeader XSIAM_WZCP_MAGIC XSIAM_WZCP_VERSION XSIAM_WZCP_HEADER_SIZE 0
    msg_type agent_id seq ts body_len.

Lemma writes_quiet fd a w1 w2 w3 :
  quiet w1 w2 -> writes fd a w2 w3 -> writes fd a w1 w3.
Proof.
  intros H1 H2. change a with ([] ++ a).
  eapply writes_compose; [by apply writes_nil|done].
Qed.

Lemma sent_prefix_full sock whole p p' :
  steps (writes sock whole) p p' -> sent_prefix sock whole p 0 p'.
Proof. exists (length whole). rewrite firstn_all. auto. Qed.

(** One more part of the message after [pre] was sent. *)
Lemma wp_send_part sock whole pre buf rest p0 p1 (Q : Z -> process -> Prop) :
  whole = pre ++ buf ++ rest -> steps (writes sock pre) p0 p1 ->
  (forall p2, sent_prefix sock whole p0 (-1) p2 -> Q (-1) p2) ->
  (forall p2, steps (writes sock (pre ++ buf)) p0 p2 -> Q 0 p2) ->
  wp (send_all sock buf) Q p1.
Proof.
  intros -> Hp Hf Hs. eapply wp_mono; [apply send_all_spec|].
  intros rc p2 (k & Hk & Hrc).
  eapply (steps_trans _ _ (writes sock (pre ++ take k buf))) in Hk;
    [|apply writes_compose|exact Hp].
  destruct Hrc as [[-> ->]|[-> Hlt]].
  - apply Hs. by rewrite firstn_all in Hk.
  - apply Hf. exists (length pre + k)%nat. rewrite !length_app.
    destruct Hlt as [Hlt Hno]. split; [by rewrite take_app_add', take_app_le by lia|].
    right. split_and!; [done|lia|]. intros W. apply Hno.
    destruct Hp as (f & -> & _ & E & _). by eapply write_ok_env.
Qed.

(** The frame goes out as its wire form: completely on success, as a proper
    prefix on failure; an oversized body is refused with nothing sent. *)
Lemma send_frame_spec sock msg_type agent_id seq body p :
  wp (xsiam_wzcp_send_frame sock msg_type agent_id seq body (zlen body))
    (fun rc p' =>
      if zlen body >? XSIAM_WZCP_MAX_FRAME then rc = -1 /\ p' = p else
      exists ts, fits 64 ts /\
        sent_prefix sock
          (wire_frame (sent_header msg_type agent_id seq ts (zlen body)) body)
          p rc p') p.
Proof.
  unfold xsiam_wzcp_send_frame.
  destruct (Z.gtb_spec (zlen body) XSIAM_WZCP_MAX_FRAME) as [|Hle]; [done|].
  apply wp_bind. eapply wp_mono; [apply now_ms_spec|].
  intros ts p1 [Hts Hq]. cbv zeta.
  apply wp_bind. eapply wp_lift; [by apply pack_header_spec|].
  rewrite app_nil_r.
  change (put_be32 ?x) with (be_bytes 4 x). rewrite be_bytes_uwrap by done.
  apply wp_bind.
  eapply (wp_send_part _ _ [] _ (wire_header _ ++ body) p); [reflexivity| | |].
  { eapply steps_trans; [intros *; apply writes_quiet|exact Hq|].
    by apply steps_refl, writes_nil. }
  { intros p2 Hf. apply wp_ret. eauto. }
  intros p2 Hp2. apply wp_bind.
  eapply (wp_send_part _ _ _ _ body); [|exact Hp2| |]; [done| |].
  { intros p3 Hf. apply wp_ret. eauto. }
  intros p3 Hp3. cbn [Z.ltb Z.compare].
  destruct (Z.gtb_spec (zlen body) 0) as [Hpos|Hz].
  - apply wp_bind. eapply wp_lift.
    { rewrite load_some by zlia. rewrite Z2Nat.inj_0, drop_0.
      by rewrite to_nat_zlen, firstn_all. }
    apply wp_bind. eapply (wp_send_part _ _ _ _ []); [|exact Hp3| |].
    + by rewrite app_nil_r, <- app_assoc.
    + intros p4 Hf. apply wp_ret. eauto.
    + intros p4 Hp4. apply wp_ret. exists ts. split; [done|].
      apply sent_prefix_full. by rewrite <- app_assoc in Hp4.
  - apply wp_ret. exists ts. split; [done|]. apply sent_prefix_full.
    assert (body = []) as -> by (destruct body; [done|zlia]).
    unfold wire_frame. by rewrite app_nil_r.
Qed.

(** Every 32 bytes are the wire form of some header. *)
Lemma header_of_bytes l :
  bytes_ok l -> length l = 32%nat -> exists h, header_fits h /\ l = wire_header h.
Proof.
  intros Hl L.
  assert (forall i n, (i + n <= 32)%nat -> length (take n (drop i l)) = n) as Hlen.
  { intros. rewrite length_take, length_drop. lia. }
  assert (forall i n, (i + n <= 32)%nat ->
    be_bytes n (be_val (take n (drop i l))) = take n (drop i l) /\
    fits (8 * Z.of_nat n) (be_val (take n (drop i l)))) as H.
  { intros i n Hi. specialize (Hlen i n Hi).
    assert (bytes_ok (take n (drop i l))) as B by solve_bytes_ok.
    rewrite <- Hlen at 1. split; [by apply be_bytes_be_val|].
    apply be_val_bound in B. unfold zlen in B. by rewrite Hlen in B. }
  exists (WzcpHeader (be_val (take 4 (drop 0 l))) (be_val (take 1 (drop 4 l)))
    (be_val (take 1 (drop 5 l))) (be_val (take 1 (drop 6 l)))
    (be_val (take 1 (drop 7 l))) (be_val (take 4 (drop 8 l)))
    (be_val (take 8 (drop 12 l))) (be_val (take 8 (drop 20 l)))
    (be_val (take 4 (drop 28 l)))).
  split; [constructor; apply H; lia|].
  unfold wire_header.
  cbn [h_magic h_version h_header_len h_flags h_msg_type h_agent_id h_seq
       h_timestamp_ms h_body_len].
  assert (forall i n, (i + n <= 32)%nat ->
    be_bytes n (be_val (take n (drop i l))) = take n (drop i l)) as E by apply H.
  rewrite !E by lia. clear H E Hl Hlen.
  do 33 (destruct l as [|? l]; cbn in L; try lia).
  cbn [drop take]. by rewrite !be_val_1.
Qed.

Lemma unpack_ok inp :
  bytes_ok inp -> zlen inp = 32 ->
  exists h, header_fits h /\ inp = wire_header h /\
    xsiam_wzcp_unpack_header inp =
      Some (if header_accepted h then 0 else -1, h).
Proof.
  intros Hi L. destruct (header_of_bytes inp Hi) as (h & Hh & E);
    [unfold zlen in L; lia|].
  exists h. split_and!; [done|done|].
  rewrite E, <- (app_nil_r (wire_header h)). by apply unpack_wire_header.
Qed.

Lemma header_accepted_spec h :
  header_accepted h = true <->
  h_magic h = XSIAM_WZCP_MAGIC /\ h_version h = XSIAM_WZCP_VERSION /\
  h_header_len h = XSIAM_WZCP_HEADER_SIZE /\
  h_body_len h <= XSIAM_WZCP_MAX_FRAME.
Proof. unfold header_accepted. rewrite !andb_true_iff, !Z.eqb_eq, Z.leb_le. tauto. Qed.

(** A frame whose length word, header and body agree. *)
Definition frame_wf (h : xsiam_wzcp_header) (body : bytes) : Prop :=
  header_fits h /\ header_accepted h = true /\ h_body_len h = zlen body.

Lemma steps_reads sock n (p p' : process) :
  steps (reads sock n) p p' ->
  answer (w_read (world_of p')) = answer (w_read (world_of p)) /\
  w_input (world_of p') sock = drop (Z.to_nat n) (w_input (world_of p) sock).
Proof.
  intros (f & -> & H). split; [apply env_read, H|]. by apply reads_input in H.
Qed.

(** Reading the next [n] bytes, knowing what is pending. *)
Lemma wp_recv_next sock n inp (ok : Prop) p (Q : option bytes -> process -> Prop) :
  0 <= n -> w_input (world_of p) sock = inp ->
  (ok -> forall k, 0 < answer (w_read (world_of p)) k) ->
  (forall p', (ok -> zlen inp < n) -> Q None p') ->
  (forall l rest p', inp = l ++ rest -> zlen l = n ->
     w_input (world_of p') sock = rest ->
     (ok -> forall k, 0 < answer (w_read (world_of p')) k) -> Q (Some l) p') ->
  wp (recv_all sock n) Q p.
Proof.
  intros Hn <- Hok Hf Hs. eapply wp_mono; [by apply recv_all_spec|].
  intros [l|] p' H.
  - destruct H as (-> & Hl & Hp). apply steps_reads in Hp as [HR HI].
    eapply Hs; [symmetry; apply take_drop|done|done|by rewrite HR].
  - apply Hf. intros Ho. destruct (decide (n <= zlen (w_input (world_of p) sock)));
      [|lia]. destruct H. auto.
Qed.

(** The receiver's contract.  On any input it either fails or takes exactly
    one well-formed frame off the input and stores its body in the caller's
    buffer [obj]; and if no read fails ([ok]) and the input starts with a
    well-formed frame that fits, it does not fail. *)
Definition recv_contract (sock : Z) (ok : Prop) (inp obj : bytes) (body_cap : Z)
    (r : Z * xsiam_wzcp_header * bytes) (p' : process) : Prop :=
  let '(rc, h, obj') := r in
  rc = -1 /\ ~ (ok /\ exists h body rest, inp = wire_frame h body ++ rest /\
                  frame_wf h body /\ zlen body <= body_cap)
  \/
  exists body rest, inp = wire_frame h body ++ rest /\ frame_wf h body /\
    rc = zlen body /\ zlen body <= body_cap /\
    obj' = body ++ drop (length body) obj /\
    w_input (world_of p') sock = rest.

Lemma store_prefix obj bs :
  zlen bs <= zlen obj -> store obj 0 bs = Some (bs ++ drop (length bs) obj).
Proof. intros H. change obj with ([] ++ obj) at 1. by rewrite store_at by zlia. Qed.

Lemma recv_payload_spec sock (ok : Prop) inp obj h pending p :
  w_input (world_of p) sock = pending ->
  (ok -> forall k, 0 < answer (w_read (world_of p)) k) ->
  inp = be_bytes 4 (XSIAM_WZCP_HEADER_SIZE + h_body_len h) ++ wire_header h ++ pending ->
  header_fits h -> header_accepted h = true ->
  forall body_cap, h_body_len h <= body_cap <= zlen obj ->
  wp (recv_payload sock h obj)
    (fun r p' => recv_contract sock ok inp obj body_cap r p') p.
Proof.
  intros Hp Hok E Hf Ha body_cap Hcap. unfold recv_payload.
  pose proof (fits_body_len h Hf) as [Hb _].
  assert (Hmax : h_body_len h <= XSIAM_WZCP_MAX_FRAME)
    by (apply header_accepted_spec in Ha; tauto).
  assert (s32 (h_body_len h) = h_body_len h) as ->
    by (apply s32_small; unfold XSIAM_WZCP_MAX_FRAME in Hmax; lia).
  destruct (Z.gtb_spec (h_body_len h) 0) as [Hpos|Hz].
  - apply wp_bind, (wp_recv_next _ _ pending ok); [done|done|done| |].
    + intros p1 Hshort. apply wp_ret. left. split; [done|].
      intros (Ho & h' & body' & rest' & E' & Hw & Hc').
      rewrite E in E'. unfold wire_frame in E'. rewrite <- !app_assoc in E'.
      apply app_inj_1 in E' as [_ E']; [|done].
      apply app_inj_1 in E' as [Eh E']; [|done].
      assert (h' = h) as ->.
      { pose proof (unpack_wire_header h [] Hf) as U1.
        pose proof (unpack_wire_header h' [] (proj1 Hw)) as U2. congruence. }
      destruct Hw as (_ & _ & Hw). specialize (Hshort Ho). rewrite E' in Hshort. zlia.
    + intros data rest p1 -> Hl HI _. apply wp_bind.
      eapply wp_lift; [apply store_prefix; lia|]. apply wp_ret. right.
      exists data, rest. unfold wire_frame, frame_wf. rewrite <- !app_assoc, Hl.
      split_and!; done || lia.
  - apply wp_ret. right. exists [], pending.
    assert (h_body_len h = 0) as H0 by lia. unfold wire_frame, frame_wf.
    rewrite H0 in *. change (zlen []) with 0. rewrite !app_nil_r, <- !app_assoc.
    split_and!; done || lia.
Qed.

(** A frame determines its length word and its header. *)
Lemma wire_frame_split h body rest l1 tail :
  l1 ++ tail = wire_frame h body ++ rest -> zlen l1 = 4 ->
  zlen body < 2 ^ 32 - 32 ->
  be_val l1 = 32 + zlen body /\ tail = wire_header h ++ body ++ rest.
Proof.
  unfold wire_frame. rewrite <- !app_assoc. intros E L1 Hb.
  apply app_inj_1 in E as [-> ->]; [|unfold zlen in L1; cbn; lia].
  rewrite be_val_be_bytes, uwrap_small; [done|].
  change (8 * Z.of_nat 4) with 32. unfold fits, XSIAM_WZCP_HEADER_SIZE. zlia.
Qed.

Lemma recv_frame_spec sock (ok : Prop) h0 obj body_cap p :
  let inp := w_input (world_of p) sock in
  bytes_ok inp -> (ok -> forall k, 0 < answer (w_read (world_of p)) k) ->
  0 <= body_cap <= zlen obj -> body_cap < 2 ^ 32 - 32 ->
  wp (xsiam_wzcp_recv_frame sock h0 obj body_cap)
    (fun r p' => recv_contract sock ok inp obj body_cap r p') p.
Proof.
  intros inp Hbytes Hok Hcap Hmax. unfold xsiam_wzcp_recv_frame.
  apply wp_bind, (wp_recv_next _ _ inp ok); [done|done|done| |].
  { intros p1 Hshort. apply wp_ret. left. split; [done|].
    intros (Ho & h & body & rest & E & Hw & Hc). specialize (Hshort Ho).
    rewrite E in Hshort. unfold wire_frame in Hshort. zlia. }
  intros l1 r1 p1 E1 L1 I1 R1. unfold bytes_ok in Hbytes. rewrite E1 in *.
  apply Forall_app in Hbytes as [Hl1 Hr1].
  assert (length l1 = 4%nat) as L1' by (unfold zlen in L1; lia).
  apply wp_bind. eapply wp_lift; [apply rd32_spec; [done|lia]|].
  rewrite take_ge by lia.
  rewrite (uwrap_small _ (XSIAM_WZCP_HEADER_SIZE + body_cap))
    by (unfold fits, XSIAM_WZCP_HEADER_SIZE; lia).
  pose proof (be_val_bound l1 Hl1) as B1. rewrite L1 in B1.
  unfold XSIAM_WZCP_HEADER_SIZE at 1 2.
  destruct ((be_val l1 <? 32) || (be_val l1 >? 32 + body_cap)) eqn:Hrange.
  { apply wp_ret. left. split; [done|].
    intros (Ho & h & body & rest & E & Hw & Hc).
    apply wire_frame_split in E as [Hv _]; [|done|lia]. zlia. }
  apply wp_bind, (wp_recv_next _ _ r1 ok); [done|done|done| |].
  { intros p2 Hshort. apply wp_ret. left. split; [done|].
    intros (Ho & h & body & rest & E & Hw & Hc). specialize (Hshort Ho).
    apply wire_frame_split in E as [_ ->]; [|done|lia].
    unfold XSIAM_WZCP_HEADER_SIZE in Hshort. zlia. }
  intros l2 r2 p2 -> L2 I2 R2.
  apply Forall_app in Hr1 as [Hl2 Hr2].
  destruct (unpack_ok l2 Hl2 L2) as (h & Hf & -> & U).
  apply wp_bind. eapply wp_lift; [exact U|]. cbv beta iota.
  rewrite uwrap_small by (unfold fits, XSIAM_WZCP_HEADER_SIZE; lia).
  unfold XSIAM_WZCP_HEADER_SIZE at 1.
  wp_if Hbad.
  - apply wp_ret. left. split; [done|].
    intros (Ho & h' & body & rest & E & (Hf' & Ha' & Hb') & Hc).
    apply wire_frame_split in E as [Hv Et]; [|done|lia].
    apply app_inj_1 in Et as [Eh _]; [|done].
    assert (h' = h) as ->.
    { pose proof (unpack_wire_header h [] Hf) as U1.
      pose proof (unpack_wire_header h' [] Hf') as U2. congruence. }
    rewrite Ha' in Hbad. cbn in Hbad. lia.
  - destruct (header_accepted h) eqn:Ha; [|done].
    assert (be_val l1 = 32 + h_body_len h) as Hv by (cbn in Hbad; lia).
    apply (recv_payload_spec _ ok _ _ _ r2); [done|done| |done|done|lia].
    f_equal. unfold XSIAM_WZCP_HEADER_SIZE. rewrite <- Hv, <- L1'.
    symmetry. by apply be_bytes_be_val.
Qed.

(** Receiving changes nothing but the input that is taken. *)
Definition took (sock : Z) (p p' : process) : Prop :=
  exists n, 0 <= n /\ steps (reads sock n) p p'.

Lemma took_refl sock p : took sock p p.
Proof. exists 0. split; [done|]. by apply steps_refl, reads_nil. Qed.

Lemma took_trans sock p1 p2 p3 : took sock p1 p2 -> took sock p2 p3 -> took sock p1 p3.
Proof.
  intros (n & Hn & H1) (m & Hm & H2). exists (n + m). split; [lia|].
  eapply steps_trans; [|exact H1|exact H2]. intros *. by apply reads_compose.
Qed.

Lemma recv_all_took sock len p : wp (recv_all sock len) (fun _ p' => took sock p p') p.
Proof.
  unfold recv_all.
  apply (wp_loop (fun acc p' => took sock p p') (fun acc => Z.to_nat (len - zlen acc))).
  - apply took_refl.
  - zlia.
  - intros acc p1 H1. destruct (Z.ltb_spec (zlen acc) len); [|by apply wp_ret].
    apply wp_bind, wp_socket_read; [lia|]. intros l p2 _ _ H2 _.
    assert (took sock p p2) as H12
      by (eapply took_trans; [exact H1|]; exists (zlen l); split; [zlia|done]).
    destruct (Z.leb_spec (zlen l) 0); apply wp_ret; [done|]. split; [done|zlia].
Qed.

Lemma recv_frame_took sock h0 obj body_cap p (Q : Z * xsiam_wzcp_header * bytes -> process -> Prop) :
  wp (xsiam_wzcp_recv_frame sock h0 obj body_cap) Q p ->
  wp (xsiam_wzcp_recv_frame sock h0 obj body_cap) (fun r p' => Q r p' /\ took sock p p') p.
Proof.
  intros HQ. apply wp_and; [exact HQ|]. apply wp_run in HQ as (r0 & p0 & Hrun & _).
  revert Hrun. unfold xsiam_wzcp_recv_frame, recv_payload.
  intros Hrun. unfold wp. rewrite Hrun. revert Hrun.
  assert (Hall : forall n q r q', recv_all sock n q = Some (r, q') -> took sock p q -> took sock p q').
  { intros n q r q' H Hq. eapply took_trans; [exact Hq|].
    pose proof (recv_all_took sock n q) as W. unfold wp in W. by rewrite H in W. }
  unfold mbind, ST_bind, mret, ST_ret, lift. pose proof (took_refl sock p) as H0.
  repeat match goal with
    | |- context [recv_all sock ?n ?q] =>
        let E := fresh in destruct (recv_all sock n q) as [[? ?]|] eqn:E;
          [apply Hall in E; [|eassumption]|]
    | |- context [match ?x with _ => _ end] =>
        lazymatch x with context [match _ with _ => _ end] => fail | _ => destruct x end
    end; try (intros [= <- <-]; done); intros [=].
Qed.

(** * The message builders

    A writer at offset [zlen d] of its object: [d] is written, [r] is not. *)
Definition at_end (d r : bytes) : wbuf := Wbuf (d ++ r) (zlen d).

Lemma wp_put_at d r bs (Q : unit -> wbuf -> Prop) off :
  off = zlen d -> zlen bs <= zlen r ->
  Q tt (Wbuf ((d ++ bs) ++ drop (length bs) r) off) ->
  wp (put_at off bs) Q (Wbuf (d ++ r) off).
Proof.
  intros -> Hl H. unfold put_at. apply wp_bind, wp_gets, wp_bind.
  eapply wp_lift; [by apply store_seq|]. by apply wp_modify.
Qed.

Lemma wp_advance n (Q : unit -> wbuf -> Prop) out off :
  0 <= off + n < 2 ^ 32 -> Q tt (Wbuf out (off + n)) ->
  wp (advance_off n) Q (Wbuf out off).
Proof. intros Hb H. apply wp_modify. cbn. by rewrite uwrap_small. Qed.

(** The prefix of a string whose length fits the 16-bit length word. *)
Definition clip (s : bytes) : bytes := take (Z.to_nat (u16 (zlen s))) s.
Definition clip_opt (v : option bytes) : bytes :=
  match v with Some s => clip s | None => [] end.

Lemma clip_small (s : bytes) : zlen s < 2 ^ 16 -> clip s = s.
Proof.
  intros H. unfold clip. rewrite uwrap_small by (unfold fits; zlia).
  by rewrite to_nat_zlen, firstn_all.
Qed.

Lemma u16_zlen (s : bytes) : 0 <= u16 (zlen s) <= zlen s /\ u16 (zlen s) < 2 ^ 16.
Proof.
  pose proof (uwrap_fits 16 (zlen s)) as H. unfold fits in H.
  split; [split; [lia|]|lia]. apply Z.mod_le; zlia.
Qed.

Lemma zlen_clip s : zlen (clip s) = u16 (zlen s).
Proof. unfold clip. pose proof (u16_zlen s). rewrite zlen_take; lia. Qed.

(** What a writing step promises: it appends [w] if that stays within
    [out_cap], and otherwise returns -1 with the object's size unchanged. *)
Definition appends (out_cap : Z) (d r w : bytes) (rc : Z) (b : wbuf) : Prop :=
  if zlen d + zlen w <=? out_cap
  then rc = 0 /\ b = at_end (d ++ w) (drop (length w) r)
  else rc = -1 /\ zlen (wb_out b) = zlen (d ++ r).

Section builders.
Context (out_cap : Z).
Context (Hcap : out_cap < 2 ^ 31).

Lemma put_string_spec d r v :
  out_cap <= zlen (d ++ r) -> zlen d <= out_cap ->
  wp (put_string out_cap v)
    (appends out_cap d r (wire_string (clip_opt v))) (at_end d r).
Proof.
  intros Hobj Hd. unfold put_string, at_end.
  set (s := match v with Some v => v | None => [] end).
  assert (clip_opt v = clip s) as -> by (by destruct v).
  pose proof (u16_zlen s) as [Hu Hu']. pose proof (zlen_clip s) as Hc.
  cbv zeta. apply wp_bind, wp_gets. cbn [wb_off].
  rewrite uwrap_small by (unfold fits; zlia).
  unfold appends. rewrite zlen_wire_string, Hc.
  destruct (Z.leb_spec (zlen d + (2 + u16 (zlen s))) out_cap) as [Hfit|Hno];
    wp_if Hg; try (apply wp_ret; zlia); try zlia; [|by apply wp_ret].
  change (put_be16 ?x) with (be_bytes 2 x).
  apply wp_bind, wp_put_at; [done|zlia|].
  apply wp_bind, wp_advance; [zlia|]. apply wp_bind, wp_gets. cbn [wb_off].
  rewrite length_be_bytes. unfold at_end.
  wp_if Hpos.
  - apply wp_bind. eapply wp_lift; [apply load_some; lia|].
    rewrite Z2Nat.inj_0, drop_0. change (take _ s) with (clip s).
    apply wp_bind, wp_put_at; [zlia|zlia|].
    apply wp_bind, wp_advance; [zlia|]. apply wp_ret. split; [done|].
    unfold wire_string. rewrite Hc, drop_drop, length_app, length_be_bytes.
    f_equal; [by rewrite <- !app_assoc|zlia].
  - apply wp_ret. split; [done|].
    assert (u16 (zlen s) = 0) as H0 by lia. unfold wire_string.
    assert (clip s = []) as -> by (destruct (clip s); [done|zlia]).
    rewrite H0, !app_nil_r. f_equal. zlia.
Qed.

(** Appending twice; the second step starts where the first ended. *)
Lemma wp_append_then (m k : ST wbuf Z) d r w1 w2 :
  out_cap <= zlen (d ++ r) ->
  wp m (appends out_cap d r w1) (at_end d r) ->
  (zlen (d ++ w1) <= out_cap ->
   wp k (appends out_cap (d ++ w1) (drop (length w1) r) w2)
     (at_end (d ++ w1) (drop (length w1) r))) ->
  wp (rc ← m; if rc <? 0 then mret (-1) else k)
    (appends out_cap d r (w1 ++ w2)) (at_end d r).
Proof.
  intros Hobj Hm Hk. apply wp_bind. eapply wp_mono; [exact Hm|].
  intros rc b. unfold appends at 1. rewrite zlen_app in Hk.
  destruct (Z.leb_spec (zlen d + zlen w1) out_cap) as [Hfit|Hno].
  - intros [-> ->]. cbn [Z.ltb Z.compare].
    eapply wp_mono; [by apply Hk|]. intros rc b. unfold appends.
    rewrite !zlen_app, Z.add_assoc.
    destruct (_ <=? _).
    + intros [-> ->]. split; [done|].
      by rewrite drop_drop, length_app, <- app_assoc.
    + intros [-> Hb]. split; [done|]. rewrite Hb. zlia.
  - intros [-> Hb]. apply wp_ret. unfold appends. rewrite zlen_app.
    destruct (Z.leb_spec (zlen d + (zlen w1 + zlen w2)) out_cap); [zlia|done].
Qed.

Lemma put_strings_spec vs d r :
  out_cap <= zlen (d ++ r) -> zlen d <= out_cap ->
  wp (put_strings out_cap vs)
    (appends out_cap d r (concat (map (fun v => wire_string (clip_opt v)) vs)))
    (at_end d r).
Proof.
  revert d r. induction vs as [|v vs IH]; intros d r Hobj Hd; cbn [put_strings map concat].
  - apply wp_ret. unfold appends. change (zlen []) with 0.
    rewrite Z.add_0_r, (proj2 (Z.leb_le _ _)) by done.
    by rewrite app_nil_r.
  - apply wp_append_then; [done|by apply put_string_spec|].
    intros Hd'. apply IH; [|done]. zlia.
Qed.

(** The addresses of a comma-separated list that are sent: the non-empty
    items without leading blanks, 64 at most. *)
Definition nonblank (items : list bytes) : list bytes :=
  filter (fun i => i <> []) (map (skip_leading 32) items).
Definition wire_strings (l : list bytes) : bytes :=
  concat (map (fun s => wire_string (clip s)) l).

Lemma put_mac_items_spec items count d r :
  0 <= count <= 64 -> out_cap <= zlen (d ++ r) -> zlen d <= out_cap ->
  let sent := take (Z.to_nat (64 - count)) (nonblank items) in
  wp (put_mac_items out_cap items count) (fun o b =>
      appends out_cap d r (wire_strings sent)
        (match o with Some _ => 0 | None => -1 end) b /\
      (forall n, o = Some n -> n = count + zlen sent))
    (at_end d r).
Proof.
  cbv zeta. revert count d r.
  induction items as [|item items IH]; intros count d r Hc Hobj Hd;
    cbn [put_mac_items].
  - apply wp_ret. unfold nonblank. cbn. rewrite take_nil. unfold appends.
    change (zlen (wire_strings [])) with 0. change (zlen []) with 0.
    rewrite !Z.add_0_r, (proj2 (Z.leb_le _ _)) by done. cbn. rewrite app_nil_r.
    split; [done|congruence].
  - assert (nonblank (item :: items) =
      if bool_decide (skip_leading 32 item = []) then nonblank items
      else skip_leading 32 item :: nonblank items) as ->.
    { unfold nonblank. cbn [map]. rewrite filter_cons. cbn beta.
      case_bool_decide; case_decide; done || congruence. }
    wp_if H64.
    + apply wp_ret. replace (64 - count) with 0 by lia. rewrite take_0.
      unfold appends. change (zlen (wire_strings [])) with 0.
      change (zlen []) with 0.
      rewrite !Z.add_0_r, (proj2 (Z.leb_le _ _)) by done. cbn. rewrite app_nil_r.
      split; [done|congruence].
    + cbv zeta. wp_if Hb; [by apply IH|].
      replace (Z.to_nat (64 - count)) with (S (Z.to_nat (64 - (count + 1))))
        by lia.
      cbn [take firstn]. set (it := skip_leading 32 item).
      set (rest := firstn _ _).
      apply wp_bind. eapply wp_mono; [by apply put_string_spec|].
      intros rc b Ha. unfold appends in Ha. cbn [clip_opt] in Ha.
      change (wire_strings (it :: rest))
        with (wire_string (clip it) ++ wire_strings rest).
      destruct (Z.leb_spec (zlen d + zlen (wire_string (clip it))) out_cap)
        as [Hfit|Hno]; destruct Ha as [-> Ha]; cbn [Z.ltb Z.compare].
      * rewrite Ha. eapply wp_mono; [apply IH; [lia|zlia|zlia]|].
        intros o b' [Hap Hn]. split.
        -- unfold appends in *. fold rest in Hap.
           rewrite !zlen_app, Z.add_assoc in *. split_if.
           ++ destruct Hap as [-> ->]. split; [done|].
              by rewrite drop_drop, length_app, <- app_assoc.
           ++ destruct Hap as [-> Hap]. split; [done|]. rewrite Hap. zlia.
        -- intros n ->. rewrite (Hn n eq_refl). fold rest. zlia.
      * apply wp_ret. split; [|done]. unfold appends. rewrite zlen_app.
        destruct (Z.leb_spec (zlen d + (zlen (wire_string (clip it)) +
          zlen (wire_strings rest))) out_cap); [zlia|done].
Qed.

Definition mac_list (v : option bytes) : list bytes :=
  match v with
  | Some csv => take 64 (nonblank (strtok 44 (take 511 csv)))
  | None => []
  end.
Definition wire_macs (v : option bytes) : bytes :=
  be_bytes 2 (zlen (mac_list v)) ++ wire_strings (mac_list v).

Lemma zlen_mac_list v : 0 <= zlen (mac_list v) <= 64.
Proof. destruct v; cbn; zlia. Qed.

Lemma put_mac_csv_spec v d r :
  out_cap <= zlen (d ++ r) -> zlen d <= out_cap ->
  wp (put_mac_csv out_cap v) (appends out_cap d r (wire_macs v)) (at_end d r).
Proof.
  intros Hobj Hd. pose proof (zlen_mac_list v) as Hm.
  assert (Hw : 2 <= zlen (wire_macs v)) by (unfold wire_macs; zlia).
  assert (Hno : zlen d + 2 > out_cap -> forall b, zlen (wb_out b) = zlen (d ++ r) ->
    appends out_cap d r (wire_macs v) (-1) b).
  { intros H b Hb. unfold appends.
    destruct (Z.leb_spec (zlen d + zlen (wire_macs v)) out_cap); [lia|done]. }
  unfold put_mac_csv. apply wp_bind, wp_gets. unfold at_end. cbn [wb_off].
  rewrite uwrap_small by (unfold fits; zlia).
  destruct v as [[|c csv]|].
  1,3: wp_if Hg; [apply wp_ret, Hno; done || lia|];
    change (put_be16 0) with (be_bytes 2 0);
    apply wp_bind, wp_put_at; [done|zlia|];
    apply wp_bind, wp_advance; [zlia|]; apply wp_ret;
    unfold appends, wire_macs, at_end; cbn [mac_list];
    rewrite zlen_app, zlen_be_bytes; change (zlen (wire_strings _)) with 0;
    rewrite (proj2 (Z.leb_le _ _)) by lia; split; [done|]; cbn;
    f_equal; zlia.
  set (csv' := c :: csv) in *. fold (mac_list (Some csv')).
  wp_if Hg; [apply wp_ret, Hno; done || lia|]. cbv zeta.
  apply wp_bind, wp_advance; [zlia|].
  assert (Wbuf (d ++ r) (zlen d + 2) = at_end (d ++ take 2 r) (drop 2 r)) as ->.
  { unfold at_end. rewrite <- app_assoc, take_drop. f_equal. zlia. }
  apply wp_bind. eapply wp_mono; [apply put_mac_items_spec; [lia|zlia|zlia]|].
  change (take (Z.to_nat (64 - 0)) (nonblank (strtok 44 (take 511 csv'))))
    with (mac_list (Some csv')).
  intros o b [Ha Hn]. unfold appends in Ha. revert Ha.
  destruct (Z.leb_spec (zlen (d ++ take 2 r) +
    zlen (wire_strings (mac_list (Some csv')))) out_cap) as [Hfit|Hbad].
  - destruct o as [n|]; intros [? ->]; [|done]. rewrite (Hn n eq_refl).
    unfold put_at, at_end. apply wp_bind, wp_bind, wp_gets, wp_bind.
    rewrite uwrap_small by (unfold fits; lia). cbn [wb_out].
    change (put_be16 ?x) with (be_bytes 2 x).
    rewrite <- !app_assoc. eapply wp_lift.
    { apply store_mid; [done|]. rewrite length_take, length_be_bytes. unfold zlen in *.
      rewrite length_app in *. lia. }
    apply wp_modify, wp_ret. unfold appends, wire_macs.
    rewrite zlen_app, zlen_be_bytes, (proj2 (Z.leb_le _ _)) by zlia.
    split; [done|]. cbn [wb_out update]. unfold at_end.
    rewrite drop_drop, length_app, length_be_bytes, <- !app_assoc.
    cbn [wb_off]. f_equal. zlia.
  - destruct o as [n|]; intros [Hrc Hb]; [done|]. apply wp_ret. unfold appends.
    unfold wire_macs.
    destruct (Z.leb_spec (zlen d + zlen (be_bytes 2 (zlen (mac_list (Some csv'))) ++
      wire_strings (mac_list (Some csv')))) out_cap) as [Hc|Hc]; [zlia|].
    split; [done|]. rewrite Hb. zlia.
Qed.
End builders.

(** The HELLO bodies of schema 1 and 2. *)
Definition hello_v1 (id name version : option bytes) : bytes :=
  be_bytes 2 1 ++ be_bytes 2 0 ++
  concat (map (fun v => wire_string (clip_opt v)) [id; name; version]).

Definition hello_v2 (id name version host macs : option bytes) : bytes :=
  be_bytes 2 2 ++ be_bytes 2 0 ++
  concat (map (fun v => wire_string (clip_opt v)) [id; name; version; host]) ++
  wire_macs macs.

(** What a builder promises: the body at the start of the caller's object, or
    -1 when it does not fit, and the object is never overrun. *)
Definition builds (out : bytes) (out_cap : Z) (body : bytes)
    (r : option (Z * bytes)) : Prop :=
  exists rc out', r = Some (rc, out') /\ zlen out' = zlen out /\
    if zlen body <=? out_cap
    then rc = zlen body /\ out' = body ++ drop (length body) out
    else rc = -1.

(** The two header words, then a step that appends the rest. *)
Lemma run_builder out out_cap version (k : ST wbuf Z) w :
  4 <= out_cap <= zlen out -> out_cap < 2 ^ 31 ->
  let d := be_bytes 2 version ++ be_bytes 2 0 in
  wp k (appends out_cap d (drop 4 out) w) (at_end d (drop 4 out)) ->
  builds out out_cap (d ++ w)
    ('(rc, b) ← (_ ← put_at 0 (put_be16 version); _ ← put_at 2 (put_be16 0);
                 _ ← modify (fun b => b <| wb_off := 4 |>);
                 rc ← k; off ← gets wb_off;
                 mret (if rc <? 0 then -1 else s32 off)) (Wbuf out 0);
     Some (rc, wb_out b)).
Proof.
  intros Hcap Hmax d Hk.
  set (m := (_ ← put_at 0 _; _)).
  assert (wp m (fun rc b => zlen (wb_out b) = zlen out /\
      if zlen (d ++ w) <=? out_cap
      then rc = zlen (d ++ w) /\ wb_out b = (d ++ w) ++ drop (length (d ++ w)) out
      else rc = -1) (Wbuf out 0)) as H.
  { unfold m. change (put_be16 ?x) with (be_bytes 2 x).
    change (Wbuf out 0) with (Wbuf ([] ++ out) 0).
    apply wp_bind, wp_put_at; [done|zlia|].
    cbn [app]. apply wp_bind. unfold put_at. apply wp_bind, wp_gets, wp_bind.
    eapply wp_lift.
    { cbn [wb_out]. apply store_at; [done|zlia]. }
    apply wp_modify, wp_bind, wp_modify. rewrite drop_drop. cbn [update wb_out].
    apply wp_bind.
    change (Wbuf _ _) with (at_end d (drop 4 out)).
    eapply wp_mono; [exact Hk|]. intros rc b Ha. apply wp_bind, wp_gets, wp_ret.
    unfold appends in Ha. rewrite zlen_app.
    assert (zlen d = 4) as Ld by done.
    destruct (Z.leb_spec (zlen d + zlen w) out_cap) as [Hfit|Hno];
      destruct Ha as [-> Ha]; cbn [Z.ltb Z.compare].
    - rewrite Ha. unfold at_end. cbn [wb_out wb_off].
      rewrite s32_small by zlia. split; [zlia|]. split; [zlia|].
      by rewrite drop_drop, length_app.
    - split; [|done]. rewrite Ha. zlia. }
  unfold wp in H. unfold builds.
  destruct (m (Wbuf out 0)) as [[rc b]|]; [|done].
  exists rc, (wb_out b). split; [done|]. split; [apply H|].
  destruct H as [_ H]. by destruct (_ <=? _).
Qed.

Lemma build_hello_spec out out_cap id name version :
  4 <= out_cap <= zlen out -> out_cap < 2 ^ 31 ->
  builds out out_cap (hello_v1 id name version)
    (xsiam_wzcp_build_hello out out_cap id name version).
Proof.
  intros Hcap Hmax. unfold xsiam_wzcp_build_hello.
  rewrite (proj2 (Z.ltb_ge _ _)) by lia.
  apply run_builder; [done|done|].
  apply put_strings_spec; [done|zlia|zlia].
Qed.

Lemma build_hello_ex_spec out out_cap id name version host macs :
  4 <= out_cap <= zlen out -> out_cap < 2 ^ 31 ->
  builds out out_cap (hello_v2 id name version host macs)
    (xsiam_wzcp_build_hello_ex out out_cap id name version host macs).
Proof.
  intros Hcap Hmax. unfold xsiam_wzcp_build_hello_ex, hello_v2.
  rewrite (proj2 (Z.ltb_ge _ _)), app_assoc by lia.
  apply run_builder; [done|done|].
  apply wp_append_then; [zlia|apply put_strings_spec; [done|zlia|zlia]|].
  intros Hd. apply put_mac_csv_spec; [done|zlia|done].
Qed.

(** * Event batches *)

Definition wire_event (kind ts id : Z) (payload : bytes) : bytes :=
  [kind; 0] ++ be_bytes 8 ts ++ be_bytes 8 id ++ be_bytes 2 (zlen payload) ++ payload.

Definition event_batch (kind ts id : Z) (payload : bytes) : bytes :=
  be_bytes 2 1 ++ wire_event kind ts id payload.

Lemma next_seq_spec p :
  wp xsiam_wzcp_next_seq (fun n p' =>
    n = u64 (p_seq p + 1) /\ p' = p <| p_seq := n |>) p.
Proof. done. Qed.

(** With room for the 22 header bytes and the payload the batch is built. *)
Lemma build_event_batch_spec out out_cap kind payload p :
  zlen payload <= 0xffff -> 22 + zlen payload <= out_cap <= zlen out ->
  wp (xsiam_wzcp_build_event_batch out out_cap kind payload (zlen payload))
    (fun r p' => exists ts, fits 64 ts /\
       steps quiet (p <| p_seq := u64 (p_seq p + 1) |>) p' /\
       let body := event_batch kind ts (u64 (p_seq p + 1)) payload in
       r = (zlen body, body ++ drop (length body) out)) p.
Proof.
  intros Hl Hcap. unfold xsiam_wzcp_build_event_batch.
  rewrite (uwrap_small 64) by (unfold fits; zlia).
  wp_if Hg; [zlia|].
  change (put_be16 ?x) with (be_bytes 2 x).
  apply wp_bind. eapply wp_lift; [apply store_prefix; zlia|].
  do 2 (apply wp_bind; eapply wp_lift; [apply store_at; [done|zlia]|]).
  apply wp_bind. eapply wp_mono; [apply now_ms_spec|].
  intros ts p1 [Hts (f & -> & Hq)]. rewrite put_be64_spec.
  apply wp_bind; eapply wp_lift; [apply store_at; [done|zlia]|].
  apply wp_bind. eapply wp_mono; [apply next_seq_spec|].
  intros id p2 [-> ->].
  assert (Hsteps : steps quiet (p <| p_seq := u64 (p_seq p + 1) |>)
    ((in_world f p) <| p_seq := u64 (p_seq p + 1) |>)) by (by exists f).
  change (p_seq (in_world f p)) with (p_seq p). rewrite put_be64_spec, (uwrap_small 16) by (unfold fits; zlia).
  do 2 (apply wp_bind; eapply wp_lift; [apply store_at; [done|zlia]|]).
  rewrite !drop_drop.
  assert (Hend : forall l (r : Z * bytes), r = (22 + zlen payload, l) ->
    l = event_batch kind ts (u64 (p_seq p + 1)) payload ++
        drop (22 + length payload) out ->
    let body := event_batch kind ts (u64 (p_seq p + 1)) payload in
    r = (zlen body, body ++ drop (length body) out)).
  { intros l r -> ->. cbv zeta. unfold event_batch, wire_event.
    f_equal. zlia. }
  wp_if Hpos.
  - apply wp_bind. eapply wp_lift; [apply load_some; zlia|].
    rewrite Z2Nat.inj_0, drop_0, to_nat_zlen, firstn_all.
    apply wp_bind; eapply wp_lift; [apply store_at; [done|zlia]|].
    apply wp_ret. exists ts. split_and!; [done|exact Hsteps|].
    eapply Hend.
    + rewrite (uwrap_small 32), s32_small by (unfold fits; zlia). done.
    + rewrite drop_drop. done.
  - assert (payload = []) as -> by (destruct payload; [done|zlia]).
    apply wp_ret. exists ts. split_and!; [done|exact Hsteps|].
    by eapply Hend.
Qed.

(** * The process identity *)

Definition no_cut (c : Z) (s : bytes) : Prop := Forall (fun b => b <> c) s.

Lemma cut_at_id c s : no_cut c s -> cut_at c s = s.
Proof.
  induction 1 as [|b s Hb Hs IH]; cbn; [done|].
  destruct (Z.eqb_spec b c); [done|]. by rewrite IH.
Qed.

Lemma cut_at_end c s t : no_cut c s -> cut_at c (s ++ c :: t) = s.
Proof.
  induction 1 as [|b s Hb Hs IH]; cbn; [by rewrite Z.eqb_refl|].
  destruct (Z.eqb_spec b c); [done|]. by rewrite IH.
Qed.

Lemma fgets_line_whole n s :
  no_cut 10 s -> (length s < n)%nat -> fgets_line n (s ++ [10]) = s ++ [10].
Proof.
  intros Hs. revert n. induction Hs as [|b s Hb Hs IH]; intros [|n] Hn; cbn in *;
    try lia; [done|].
  destruct (Z.eqb_spec b 10); [done|]. rewrite IH; [done|lia].
Qed.

Lemma cstr_app s t : no_nul s -> cstr (s ++ t) = s ++ cstr t.
Proof.
  induction 1 as [|b s Hb Hs IH]; cbn; [done|].
  destruct (Z.eqb_spec b 0); [done|]. by rewrite IH.
Qed.

(** An identity that can be kept in the file: one line that fits. *)
Definition line_ok (u : bytes) : Prop :=
  u <> [] /\ (length u < 63)%nat /\ no_nul u /\ no_cut 10 u /\ no_cut 13 u.

Lemma read_uuid_file_written u p :
  line_ok u -> p_uuid_file p = Some (u ++ [10]) ->
  read_uuid_file 64 p = Some (Some u, p).
Proof.
  intros (Hne & Hlen & Hnul & Hnl & Hcr) Hf. unfold read_uuid_file, mbind, ST_bind, gets.
  rewrite Hf. change (Z.to_nat (64 - 1)) with 63%nat.
  rewrite fgets_line_whole by (done || lia).
  rewrite bool_decide_eq_false_2 by (by destruct u).
  rewrite cstr_app by done. change (cstr [10]) with [10].
  rewrite cut_at_end, cut_at_id by done.
  by rewrite bool_decide_eq_false_2.
Qed.

Lemma rand_bytes_spec n p :
  wp (rand_bytes n) (fun b p' => bytes_ok b /\ length b = n) p.
Proof.
  revert p. induction n as [|n IH]; intros p; cbn [rand_bytes].
  - apply wp_ret. split; [constructor|done].
  - apply wp_bind, wp_gets, wp_bind, wp_modify, wp_bind.
    eapply wp_mono; [apply IH|]. intros b p' [Hb L]. apply wp_ret.
    split; [|cbn; lia]. constructor; [|done].
    change 0xff with (Z.ones 8). rewrite Z.land_ones by lia.
    apply (uwrap_fits 8). lia.
Qed.

(** Without a kernel UUID the generated identity is a version 4 UUID. *)
Lemma generate_uuid_spec p :
  p_kernel_uuid p = None \/ p_windows p <> None ->
  wp (generate_uuid 64) (fun u p' => is_uuid_v4 u = true) p.
Proof.
  intros H. unfold generate_uuid. apply wp_bind, wp_gets, wp_bind, wp_gets.
  assert (Hr : wp (b ← rand_bytes 16;
    mret (take (Z.to_nat (64 - 1)) (uuid_text (set_bits b))))
    (fun u _ => is_uuid_v4 u = true) p).
  { apply wp_bind. eapply wp_mono; [apply rand_bytes_spec|].
    intros b p' [Hb L]. apply wp_ret.
    pose proof (uuid_text_v4 b Hb L) as Hu. rewrite take_ge; [done|].
    unfold is_uuid_v4 in Hu. apply andb_true_iff in Hu as [Hu _].
    apply Nat.eqb_eq in Hu. rewrite Hu. cbn. lia. }
  destruct (p_windows p), (p_kernel_uuid p) as [[|c k]|]; try exact Hr.
  destruct H as [H|H]; [discriminate H|congruence].
Qed.

(** Choosing an identity changes nothing but the random sequence. *)
Lemma generate_uuid_frame p :
  wp (generate_uuid 64) (fun _ p' => exists r, p' = p <| p_rand := r |>) p.
Proof.
  assert (R : forall n q, (exists r, q = p <| p_rand := r |>) ->
    wp (rand_bytes n) (fun _ p' => exists r, p' = p <| p_rand := r |>) q).
  { induction n as [|n IH]; intros q Hq; cbn [rand_bytes]; [by apply wp_ret|].
    apply wp_bind, wp_gets, wp_bind, wp_modify, wp_bind.
    eapply wp_mono; [apply IH|].
    - destruct Hq as [r ->]. by eexists.
    - intros b p' Hp'. by apply wp_ret. }
  assert (E : exists r, p = p <| p_rand := r |>)
    by (exists (p_rand p); by destruct p).
  unfold generate_uuid. apply wp_bind, wp_gets, wp_bind, wp_gets.
  destruct (p_windows p), (p_kernel_uuid p) as [[|c k]|];
    (apply wp_ret, E) || (apply wp_bind; eapply wp_mono; [by apply R|]; intros; by apply wp_ret).
Qed.

Lemma agent_uuid_generates p :
  p_uuid p = [] -> p_env p (str "XSIAM_AGENT_UUID") = None ->
  p_uuid_file p = None ->
  xsiam_wzcp_agent_uuid p =
    (u ← generate_uuid 64;
     _ ← modify (fun p => p <| p_uuid := u |>);
     _ ← write_uuid_file u; mret u) p.
Proof.
  intros Hu He Hf.
  unfold xsiam_wzcp_agent_uuid, read_uuid_file, mbind, ST_bind, gets.
  rewrite Hu, bool_decide_eq_true_2 by done. cbn [negb].
  cbv beta. rewrite He. cbv beta iota. by rewrite Hf.
Qed.

(** * Adapter addresses *)

(** The loop writes inside the buffer and keeps a terminator in it. *)
Lemma mac_loop_safe out_size adapters out used :
  0 <= used < out_size -> out_size = zlen out -> (exists k, out !! k = Some 0) ->
  exists out', mac_loop out_size adapters out used = Some out' /\
    zlen out' = zlen out /\ exists k, out' !! k = Some 0.
Proof.
  revert out used. induction adapters as [|[len addr] rest IH];
    intros out used Hu Ho Hz; cbn [mac_loop]; [eauto|].
  destruct (negb _); [by apply IH|]. cbv zeta.
  assert (Hput : forall out used, 0 <= used -> out_size = zlen out ->
    (exists k, out !! k = Some 0) ->
    exists out', (if used + zlen (mac_text addr) >=? out_size then Some out else
      out ← store out used (mac_text addr ++ [0]);
      mac_loop out_size rest out (used + zlen (mac_text addr))) = Some out' /\
    zlen out' = zlen out /\ exists k, out' !! k = Some 0).
  { intros o u Hu' Ho' Hz'. destruct (_ >=? _) eqn:Hge; [eauto|].
    destruct (store_terminated o u (mac_text addr)) as (o' & -> & L & Hz'');
      [lia|zlia|]. cbn [mbind option_bind].
    destruct (IH o' (u + zlen (mac_text addr))) as (o'' & -> & L'' & ?); [zlia|lia|done|].
    exists o''. split_and!; [done|lia|done]. }
  destruct (used >? 0) eqn:Hpos; cbn [andb].
  - destruct (used + 1 >=? out_size) eqn:Hfull; [eauto|].
    destruct (store_terminated out used [44]) as (o & E & L & Hz');
      [lia|change (zlen [44]) with 1; lia|].
    change ([44] ++ [0]) with [44; 0] in E. rewrite E. cbn [mbind option_bind].
    destruct (Hput o (used + 1)) as (o' & -> & L' & ?); [lia|lia|done|].
    exists o'. split_and!; [done|lia|done].
  - cbn [mbind option_bind]. apply Hput; [lia|done|done].
Qed.

(** * Theorems *)

Lemma sent_header_wf msg_type agent_id seq ts body :
  fits 8 msg_type -> fits 32 agent_id -> fits 64 seq -> fits 64 ts ->
  zlen body <= XSIAM_WZCP_MAX_FRAME ->
  frame_wf (sent_header msg_type agent_id seq ts (zlen body)) body.
Proof.
  intros. split_and!; [|by apply header_accepted_spec|done].
  constructor; cbn; try done. unfold fits, XSIAM_WZCP_MAX_FRAME in *. zlia.
Qed.

(** A stream is cut into frames in one way. *)
Lemma wire_frame_inj h h' body body' rest rest' :
  frame_wf h body -> frame_wf h' body' ->
  wire_frame h body ++ rest = wire_frame h' body' ++ rest' ->
  h' = h /\ body' = body /\ rest' = rest.
Proof.
  intros Hwf Hwf' E. unfold wire_frame in E. rewrite <- !app_assoc in E.
  apply app_inj_1 in E as [_ E]; [|done].
  apply app_inj_1 in E as [Eh E]; [|done].
  assert (h' = h) as ->.
  { pose proof (unpack_wire_header h [] (proj1 Hwf)) as U1.
    pose proof (unpack_wire_header h' [] (proj1 Hwf')) as U2. congruence. }
  destruct Hwf as (_ & _ & L), Hwf' as (_ & _ & L').
  apply app_inj_1 in E as [-> ->]; [done|]. unfold zlen in *. lia.
Qed.

Lemma steps_writes_sent sock l (p p' : process) :
  steps (writes sock l) p p' ->
  sent_to sock (w_trace (p_world p')) = sent_to sock (w_trace (p_world p)) ++ l.
Proof. intros (f & -> & H). by apply writes_sent in H. Qed.

(** C5: what one process sends is what another receives.  If
    [xsiam_wzcp_send_frame] reports success, the bytes it put on the socket,
    followed by anything and delivered to a receiver in chunks of any positive
    sizes, make [xsiam_wzcp_recv_frame] return the body's length, a header with
    the sender's message type, agent id, sequence number and body length, and
    the body itself at the start of the caller's buffer, and leave exactly the
    bytes after the frame unread. *)
Theorem wzcp_frame_roundtrip sock msg_type agent_id seq body p p' :
  fits 8 msg_type -> fits 32 agent_id -> fits 64 seq -> bytes_ok body ->
  zlen body <= XSIAM_WZCP_MAX_FRAME ->
  xsiam_wzcp_send_frame sock msg_type agent_id seq body (zlen body) p
    = Some (0, p') ->
  exists wire,
    sent_to sock (w_trace (p_world p')) =
      sent_to sock (w_trace (p_world p)) ++ wire /\
    forall q rsock h0 obj body_cap rest,
      w_input (p_world q) rsock = wire ++ rest -> bytes_ok rest ->
      (forall k, 0 < answer (w_read (p_world q)) k) ->
      zlen body <= body_cap <= zlen obj -> body_cap < 2 ^ 32 - 32 ->
      exists h q',
        xsiam_wzcp_recv_frame rsock h0 obj body_cap q =
          Some (zlen body, h, body ++ drop (length body) obj, q') /\
        h_msg_type h = msg_type /\ h_agent_id h = agent_id /\
        h_seq h = seq /\ h_body_len h = zlen body /\
        w_input (p_world q') rsock = rest.
Proof.
  intros Ht Hi Hs Hb Hmax Hsend.
  pose proof (send_frame_spec sock msg_type agent_id seq body p) as H.
  unfold wp in H. rewrite Hsend in H.
  destruct (Z.gtb_spec (zlen body) XSIAM_WZCP_MAX_FRAME) as [|_]; [lia|].
  destruct H as (ts & Hts & k & Hsteps & [[_ ->]|[? _]]); [|done].
  rewrite firstn_all in Hsteps. eexists. split; [by apply steps_writes_sent|].
  intros q rsock h0 obj body_cap rest Hin Hrest Hpos Hcap Hcap'.
  set (h := sent_header msg_type agent_id seq ts (zlen body)) in *.
  assert (Hwf : frame_wf h body) by (by apply sent_header_wf).
  pose proof (recv_frame_spec rsock True h0 obj body_cap q) as R.
  cbv zeta in R. change (world_of q) with (p_world q) in R. rewrite Hin in R.
  assert (Hok : bytes_ok (wire_frame h body ++ rest)).
  { unfold wire_frame. solve_bytes_ok. apply wire_header_ok, Hwf. }
  specialize (R Hok (fun _ => Hpos) ltac:(zlia) Hcap').
  apply wp_run in R as ([[rc h'] obj'] & q' & Hrun & R).
  destruct R as [[_ []]|(body' & rest' & E & Hwf' & -> & Hle & -> & Hq)].
  { split; [done|]. exists h, body, rest. split; [done|split; [done|lia]]. }
  destruct (wire_frame_inj h h' body body' rest rest') as (-> & -> & ->); [done|done|done|].
  exists h, q'. split_and!; done.
Qed.

Definition sample_process (input : bytes) : process :=
  Process 0 [] (fun _ => None) None None (always 171) None
    (sample_world 7 (fun _ => input)).

Example wzcp_frame_roundtrip_witness :
  exists p', xsiam_wzcp_send_frame 3 2 9 41 (str "payload") 7 (sample_process [])
    = Some (0, p') /\
  exists wire, sent_to 3 (w_trace (p_world p')) = [] ++ wire /\
    forall q rsock h0 obj body_cap rest,
      w_input (p_world q) rsock = wire ++ rest -> bytes_ok rest ->
      (forall k, 0 < answer (w_read (p_world q)) k) ->
      7 <= body_cap <= zlen obj -> body_cap < 2 ^ 32 - 32 ->
      exists h q',
        xsiam_wzcp_recv_frame rsock h0 obj body_cap q =
          Some (7, h, str "payload" ++ drop 7 obj, q') /\
        h_msg_type h = 2 /\ h_agent_id h = 9 /\ h_seq h = 41 /\
        h_body_len h = 7 /\ w_input (p_world q') rsock = rest.
Proof.
  eexists. split; [vm_compute; reflexivity|].
  apply (wzcp_frame_roundtrip 3 2 9 41 (str "payload") (sample_process []));
    [split; done|split; done|split; done| |done|vm_compute; reflexivity].
  repeat constructor; done.
Defined.

(** C29: the receiver on hostile input.  Whatever bytes are pending on the
    socket and however they are chunked, [xsiam_wzcp_recv_frame] terminates
    without touching memory outside the caller's [body_cap]-byte buffer; it
    returns -1, or the pending input starts with exactly one well-formed frame
    (magic, version, header length, a body length that agrees with the length
    word and is at most [body_cap]), which is what it consumed and stored. *)
Theorem wzcp_recv_exact sock h0 obj body_cap p :
  bytes_ok (w_input (p_world p) sock) -> 0 <= body_cap <= zlen obj ->
  body_cap < 2 ^ 32 - 32 ->
  exists rc h obj' p',
    xsiam_wzcp_recv_frame sock h0 obj body_cap p = Some (rc, h, obj', p') /\
    (rc = -1 \/
     exists body rest,
       w_input (p_world p) sock = wire_frame h body ++ rest /\
       header_fits h /\ header_accepted h = true /\ h_body_len h = zlen body /\
       rc = zlen body /\ zlen body <= body_cap /\
       obj' = body ++ drop (length body) obj /\
       w_input (p_world p') sock = rest).
Proof.
  intros Hb Hc Hm.
  pose proof (recv_frame_spec sock False h0 obj body_cap p Hb) as R.
  specialize (R ltac:(done) Hc Hm).
  apply wp_run in R as ([[rc h] obj'] & p' & Hrun & R).
  exists rc, h, obj', p'. split; [done|].
  destruct R as [[-> _]|(body & rest & E & (Hf & Ha & Hl) & R)]; [by left|].
  right. exists body, rest. tauto.
Qed.

Example wzcp_recv_exact_witness :
  exists rc h obj' p',
    xsiam_wzcp_recv_frame 3 (sent_header 0 0 0 0 0) (replicate 8 0) 8
      (sample_process (str "<13>not a frame at all, just some text......"))
      = Some (rc, h, obj', p') /\
    (rc = -1 \/
     exists body rest,
       str "<13>not a frame at all, just some text......"
         = wire_frame h body ++ rest /\
       header_fits h /\ header_accepted h = true /\ h_body_len h = zlen body /\
       rc = zlen body /\ zlen body <= 8 /\
       obj' = body ++ drop (length body) (replicate 8 0) /\
       w_input (p_world p') 3 = rest).
Proof.
  apply (wzcp_recv_exact 3 (sent_header 0 0 0 0 0) (replicate 8 0) 8
    (sample_process (str "<13>not a frame at all, just some text......"))).
  - repeat constructor; done.
  - change (zlen (replicate 8 0)) with 8. lia.
  - lia.
Defined.

(** C30: the HELLO builder on every input.  For all strings (null pointers and
    overlong ones included) and every buffer of [out_cap] bytes or more,
    [xsiam_wzcp_build_hello_ex] stays inside the buffer; it returns the length
    of the schema-2 body and leaves that body at the start of the buffer if it
    fits in [out_cap] bytes, and returns -1 otherwise. *)
Theorem hello_ex_within_bounds out out_cap id name version host macs :
  0 <= out_cap <= zlen out -> out_cap < 2 ^ 31 ->
  exists rc out',
    xsiam_wzcp_build_hello_ex out out_cap id name version host macs
      = Some (rc, out') /\
    zlen out' = zlen out /\
    let body := hello_v2 id name version host macs in
    if zlen body <=? out_cap
    then rc = zlen body /\ out' = body ++ drop (length body) out
    else rc = -1.
Proof.
  intros Hc Hm. destruct (decide (out_cap < 4)) as [Hs|Hs].
  - exists (-1), out. unfold xsiam_wzcp_build_hello_ex.
    rewrite (proj2 (Z.ltb_lt _ _)) by done. split_and!; [done|done|].
    cbv zeta. unfold hello_v2. destruct (Z.leb_spec (zlen (be_bytes 2 2 ++
      be_bytes 2 0 ++ concat (map (fun v => wire_string (clip_opt v))
      [id; name; version; host]) ++ wire_macs macs)) out_cap); [zlia|done].
  - apply build_hello_ex_spec; [lia|done].
Qed.

Example hello_ex_within_bounds_witness :
  exists rc out',
    xsiam_wzcp_build_hello_ex (replicate 64 0) 64 (Some (str "id")) None None
      (Some (str "pc")) (Some (str "AA:BB, ,CC:DD")) = Some (rc, out') /\
    zlen out' = zlen (replicate 64 0) /\
    let body := hello_v2 (Some (str "id")) None None (Some (str "pc"))
                  (Some (str "AA:BB, ,CC:DD")) in
    if zlen body <=? 64
    then rc = zlen body /\ out' = body ++ drop (length body) (replicate 64 0)
    else rc = -1.
Proof.
  apply (hello_ex_within_bounds (replicate 64 0) 64); [|lia].
  change (zlen (replicate 64 0)) with 64. lia.
Defined.

(** The capacity check of the event-batch builder is one byte short.  For
    every payload of at most 65535 bytes, a buffer of exactly
    [21 + payload_len] bytes passes the check of
    [xsiam_wzcp_build_event_batch], whose header takes 22 bytes: the function
    then writes past the end of the buffer. *)
Theorem event_batch_overruns_by_one out kind payload p :
  zlen payload <= 0xffff -> zlen out = 21 + zlen payload ->
  xsiam_wzcp_build_event_batch out (zlen out) kind payload (zlen payload) p = None.
Proof.
  intros Hl Ho.
  destruct (xsiam_wzcp_build_event_batch _ _ _ _ _ p) as [[r p']|] eqn:E; [|done].
  exfalso. revert E. unfold xsiam_wzcp_build_event_batch.
  rewrite (uwrap_small 64) by (unfold fits; zlia).
  destruct (orb _ _) eqn:Hg; [zlia|]. clear Hg.
  unfold lift, mbind, ST_bind.
  assert (Hs : forall o off bs, zlen o = zlen out -> 0 <= off -> off + zlen bs <= 20 ->
    exists o', store o off bs = Some o' /\ zlen o' = zlen out).
  { intros o off bs L ? ?. rewrite <- L. apply store_some; zlia. }
  destruct (Hs out 0 (put_be16 1)) as (o1 & -> & L1); [done|lia|done|].
  destruct (Hs o1 2 [kind]) as (o2 & -> & L2); [done|lia|done|].
  destruct (Hs o2 3 [0]) as (o3 & -> & L3); [done|lia|done|].
  destruct (xsiam_wzcp_now_ms p) as [[now p1]|]; [|done].
  destruct (Hs o3 4 (put_be64 now)) as (o4 & -> & L4); [done|lia|done|].
  destruct (xsiam_wzcp_next_seq p1) as [[seq p2]|]; [|done].
  destruct (Hs o4 12 (put_be64 seq)) as (o5 & -> & L5); [done|lia|done|].
  destruct (zlen payload >? 0) eqn:Hpos.
  - destruct (store o5 20 _) as [o6|] eqn:E6; [|done].
    apply store_length in E6. rewrite load_some by zlia.
    rewrite store_none; [done|]. rewrite Z2Nat.inj_0, drop_0. zlia.
  - rewrite (store_none o5); [done|].
    change (zlen (put_be16 _)) with 2. zlia.
Qed.

Example event_batch_overruns_by_one_witness :
  xsiam_wzcp_build_event_batch (replicate 26 0) 26 1 (str "hello") 5
    (sample_process []) = None.
Proof.
  apply (event_batch_overruns_by_one (replicate 26 0) 1 (str "hello")
    (sample_process [])); vm_compute; done.
Defined.

(** The agent's identity survives a restart.  When no identity is cached,
    configured in the environment or on disk, the first
    [xsiam_wzcp_agent_uuid] chooses one; if that fits one line and the file
    could be written, then a later process with an empty cache that finds this
    file answers the same identity, and so does every later call of the first
    process, whatever happens to the environment and the file. *)
Theorem agent_uuid_persists p u p' :
  p_uuid p = [] -> p_env p (str "XSIAM_AGENT_UUID") = None ->
  p_uuid_file p = None -> next (w_resource (p_world p)) = true ->
  xsiam_wzcp_agent_uuid p = Some (u, p') -> line_ok u ->
  (forall q, p_uuid q = p_uuid p' -> xsiam_wzcp_agent_uuid q = Some (u, q)) /\
  (forall q, p_uuid q = [] -> p_env q (str "XSIAM_AGENT_UUID") = None ->
     p_uuid_file q = p_uuid_file p' ->
     xsiam_wzcp_agent_uuid q = Some (u, q <| p_uuid := u |>)).
Proof.
  intros Hu He Hf Hw Hrun Hok.
  assert (p_uuid p' = u /\ p_uuid_file p' = Some (u ++ [10])) as [Eu Ef].
  { assert (W : wp xsiam_wzcp_agent_uuid (fun v p' =>
      p_uuid p' = v /\ p_uuid_file p' = Some (v ++ [10])) p).
    { unfold wp. rewrite agent_uuid_generates by done.
      change (wp (u ← generate_uuid 64;
         _ ← modify (fun p => p <| p_uuid := u |>);
         _ ← write_uuid_file u; mret u) (fun v p' =>
      p_uuid p' = v /\ p_uuid_file p' = Some (v ++ [10])) p).
      apply wp_bind. eapply wp_mono; [apply generate_uuid_frame|].
      intros v p1 [r ->]. apply wp_bind, wp_modify, wp_bind.
      unfold write_uuid_file. apply wp_bind, wp_consult.
      match goal with |- context [next ?o] =>
        change (next o) with (next (w_resource (p_world p))) end.
      rewrite Hw. apply wp_modify, wp_ret. done. }
    unfold wp in W. by rewrite Hrun in W. }
  split; intros q.
  - rewrite Eu. intros Hq. unfold xsiam_wzcp_agent_uuid, mbind, ST_bind, gets.
    rewrite Hq, bool_decide_eq_false_2 by apply Hok. done.
  - rewrite Ef. intros Hq Hqe Hqf.
    unfold xsiam_wzcp_agent_uuid, mbind, ST_bind, gets.
    rewrite Hq, bool_decide_eq_true_2 by done. cbn [negb]. cbv beta.
    rewrite Hqe. by rewrite (read_uuid_file_written u).
Qed.

Example agent_uuid_persists_witness :
  let u := str "abababab-abab-4bab-abab-abababababab" in
  exists p', xsiam_wzcp_agent_uuid (sample_process []) = Some (u, p') /\
  (forall q, p_uuid q = p_uuid p' -> xsiam_wzcp_agent_uuid q = Some (u, q)) /\
  (forall q, p_uuid q = [] -> p_env q (str "XSIAM_AGENT_UUID") = None ->
     p_uuid_file q = p_uuid_file p' ->
     xsiam_wzcp_agent_uuid q = Some (u, q <| p_uuid := u |>)).
Proof.
  intros u. eexists. split; [vm_compute; reflexivity|].
  apply (agent_uuid_persists (sample_process [])); try done.
  unfold line_ok. split_and!; [done|cbn; lia|repeat constructor; done..].
Defined.

(** Collecting the adapter addresses never writes outside the caller's
    buffer, for any adapters the platform reports and any buffer size; the
    return code is 0 or -1, and on a buffer of at least one byte the result is
    a terminated string. *)
Theorem collect_mac_within_bounds out p :
  exists rc out' p',
    xsiam_wzcp_collect_mac_addresses out (zlen out) p = Some (rc, out', p') /\
    (rc = 0 \/ rc = -1) /\ zlen out' = zlen out /\
    (0 < zlen out -> exists k, out' !! k = Some 0).
Proof.
  apply wp_triple. unfold xsiam_wzcp_collect_mac_addresses.
  destruct (Z.eqb_spec (zlen out) 0) as [E|E].
  { apply wp_ret. split_and!; [by right|done|lia]. }
  apply wp_bind. destruct out as [|b out]; [done|].
  eapply (wp_lift _ _ _ (0 :: out)); [by apply store_head|].
  apply wp_bind, wp_gets.
  assert (Hz : exists k, (0 :: out) !! k = Some 0) by (by exists 0%nat).
  assert (Hl : zlen (0 :: out) = zlen (b :: out)) by (by rewrite !zlen_cons).
  destruct (p_windows p) as [w|]; [|apply wp_ret; auto].
  split_if; [apply wp_ret; auto|].
  apply wp_bind, wp_consult.
  split_if; [apply wp_ret; auto|].
  split_if; [apply wp_ret; auto|].
  destruct (mac_loop_safe (zlen (b :: out)) (win_adapters w) (0 :: out) 0)
    as (out' & Hm & L & Hk); [zlia|done|by exists 0%nat|].
  apply wp_bind. eapply wp_lift; [exact Hm|]. apply wp_ret.
  cbn [fst snd]. split_and!; [by left|by etrans|done].
Qed.

(** The acknowledged sequence number survives [xsiam_wzcp_build_ack] and
    [xsiam_wzcp_parse_ack] on every 64-bit value, and neither touches a buffer
    of fewer than 8 bytes. *)
Theorem ack_roundtrip out out_cap seq :
  0 <= out_cap <= zlen out -> fits 64 seq ->
  exists rc out', xsiam_wzcp_build_ack out out_cap seq = Some (rc, out') /\
    zlen out' = zlen out /\
    if out_cap <? 8 then rc = -1 /\ out' = out /\
      xsiam_wzcp_parse_ack out' out_cap = Some (-1, None)
    else rc = 8 /\ xsiam_wzcp_parse_ack out' rc = Some (0, Some seq).
Proof.
  intros Hc Hs. unfold xsiam_wzcp_build_ack, xsiam_wzcp_parse_ack.
  destruct (Z.ltb_spec out_cap 8); [by eexists _, _|].
  rewrite put_be64_spec. change out with ([] ++ out) at 1.
  rewrite store_at by zlia. cbn [mbind option_bind].
  eexists _, _. split_and!; [done|zlia|done|].
  cbn [Z.ltb Z.compare app].
  change (get_be64 ?b) with (rd64 b).
  rewrite rd64_be_bytes, uwrap_small by done. done.
Qed.

Example ack_roundtrip_witness :
  exists rc out', xsiam_wzcp_build_ack (replicate 9 0) 9 (2 ^ 63 + 5) = Some (rc, out') /\
    zlen out' = zlen (replicate 9 0) /\
    if 9 <? 8 then rc = -1 /\ out' = replicate 9 0 /\
      xsiam_wzcp_parse_ack out' 9 = Some (-1, None)
    else rc = 8 /\ xsiam_wzcp_parse_ack out' rc = Some (0, Some (2 ^ 63 + 5)).
Proof.
  apply (ack_roundtrip (replicate 9 0) 9 (2 ^ 63 + 5)); [split|split]; vm_compute; done.
Defined.
