(* ===== verification/Ingest.v ===== *)
(** The ingest server's decoder of log uploads, internal/ingest/frame.go and
    internal/ingest/tlv.go: the frame header and the TLV body.  Both producers of
    such frames, the agent library and the gateway's output plugin, are compared
    with it.  A Go error is [None]. *)
From S2P Require Import Prelude.
#[local] Open Scope Z_scope.

(** * Frame header (frame.go) *)

Definition Magic : Z := 0x584C4F47.
Definition Version : Z := 1.
Definition TypeLogBatch : Z := 1.
Definition TagSchemaVersion : Z := 0x01.
Definition TagRowCount : Z := 0x02.
Definition TagOrigSize : Z := 0x03.
Definition TagColumns : Z := 0x04.
Definition TagData : Z := 0x10.

Record FrameHeader := mkFrameHeader {
  fh_Version : Z;
  fh_Type : Z;
  fh_Flags : Z;
  fh_Tag : bytes;
  fh_AgentID : Z;
  fh_Seq : Z;
  fh_TsMs : Z;
  fh_BodyLen : Z;
}.

(** [io.ReadFull]: exactly [n] bytes of the stream, and the rest. *)
Definition ReadFull (n : Z) (r : bytes) : option (bytes * bytes) :=
  if n <=? zlen r then Some (take (Z.to_nat n) r, drop (Z.to_nat n) r) else None.

Definition ReadHeader (r : bytes) : option (FrameHeader * bytes) :=
  '(fixed, r) ← ReadFull 8 r;
  magic ← rd32 fixed;
  if negb (magic =? Magic) then None else
  ver ← load1 fixed 4;
  typ ← load1 fixed 5;
  flags ← load1 fixed 6;
  tagLen ← load1 fixed 7;
  '(tag, r) ← ReadFull tagLen r;
  '(tail, r) ← ReadFull 28 r;
  agent ← rd64 tail;
  seq ← rd64 (drop 8 tail);
  ts ← rd64 (drop 16 tail);
  body_len ← rd32 (drop 24 tail);
  Some (mkFrameHeader ver typ flags tag agent seq ts body_len, r).

Definition WriteHeader (hdr : FrameHeader) : bytes :=
  let tag := if zlen (fh_Tag hdr) >? 255 then take 255 (fh_Tag hdr)
             else fh_Tag hdr in
  be_bytes 4 Magic ++
  [fh_Version hdr; fh_Type hdr; fh_Flags hdr; u8 (zlen tag)] ++ tag ++
  be_bytes 8 (fh_AgentID hdr) ++ be_bytes 8 (fh_Seq hdr) ++
  be_bytes 8 (fh_TsMs hdr) ++ be_bytes 4 (fh_BodyLen hdr).

(** * TLV body (tlv.go) *)

Record TLV := mkTLV { tlv_Tag : Z; tlv_Value : bytes }.

(** The loop of [DecodeTLVs]; every round removes at least three bytes, so the
    length of the body bounds the number of rounds. *)
Fixpoint decode_tlvs (fuel : nat) (body : bytes) : option (list TLV) :=
  match body, fuel with
  | [], _ => Some []
  | _, O => None
  | tag :: l1 :: l0 :: body, S k =>
      let length := Z.lor (Z.shiftl l1 8) l0 in
      if length >? zlen body then None else
      rest ← decode_tlvs k (drop (Z.to_nat length) body);
      Some (mkTLV tag (take (Z.to_nat length) body) :: rest)
  | _, _ => None
  end.

Definition DecodeTLVs (body : bytes) : option (list TLV) :=
  decode_tlvs (length body) body.

Definition EncodeTLV (tag : Z) (value : bytes) : option bytes :=
  if zlen value >? 0xffff then None
  else Some (tag :: be_bytes 2 (zlen value) ++ value).

Record LogBatch := mkLogBatch {
  lb_SchemaVersion : Z;
  lb_RowCount : Z;
  lb_OrigSize : Z;
  lb_Columns : list bytes;
  lb_CompressedTSV : bytes;
}.
#[export] Instance eta_LogBatch : Eta LogBatch := fun b =>
  mkLogBatch (lb_SchemaVersion b) (lb_RowCount b) (lb_OrigSize b) (lb_Columns b)
    (lb_CompressedTSV b).

Fixpoint split_columns (cur b : bytes) : list bytes :=
  match b with
  | [] => [cur]
  | c :: t => if c =? 44 then cur :: split_columns [] t
              else split_columns (cur ++ [c]) t
  end.

Definition splitColumns (b : bytes) : list bytes :=
  if bool_decide (b = []) then [] else split_columns [] b.

(** The switch over one field. *)
Definition decode_field (b : LogBatch) (t : TLV) : option LogBatch :=
  if tlv_Tag t =? TagSchemaVersion then
    v ← rd16 (tlv_Value t); Some (b <| lb_SchemaVersion := v |>)
  else if tlv_Tag t =? TagRowCount then
    v ← rd32 (tlv_Value t); Some (b <| lb_RowCount := v |>)
  else if tlv_Tag t =? TagOrigSize then
    v ← rd32 (tlv_Value t); Some (b <| lb_OrigSize := v |>)
  else if tlv_Tag t =? TagColumns then
    Some (b <| lb_Columns := splitColumns (tlv_Value t) |>)
  else if tlv_Tag t =? TagData then
    Some (b <| lb_CompressedTSV := tlv_Value t |>)
  else Some b.

Fixpoint decode_fields (b : LogBatch) (tlvs : list TLV) : option LogBatch :=
  match tlvs with
  | [] => Some b
  | t :: rest => b ← decode_field b t; decode_fields b rest
  end.

Definition DecodeBatch (body : bytes) : option LogBatch :=
  tlvs ← DecodeTLVs body;
  b ← decode_fields (mkLogBatch 0 0 0 [] []) tlvs;
  if zlen (lb_CompressedTSV b) =? 0 then None else Some b.

(** A whole frame: its header, then a body of the announced length. *)
Definition ReadBatch (r : bytes) : option (FrameHeader * LogBatch * bytes) :=
  '(hdr, r) ← ReadHeader r;
  '(body, r) ← ReadFull (fh_BodyLen hdr) r;
  b ← DecodeBatch body;
  Some (hdr, b, r).

(** * What the producers are held to *)

(** One field as the producers write it, and a log-batch body. *)
Definition field (tag : Z) (value : bytes) : bytes :=
  tag :: be_bytes 2 (zlen value) ++ value.

Definition batch_fields (rows orig : Z) (columns comp : bytes) : list TLV :=
  [mkTLV TagSchemaVersion (be_bytes 2 1); mkTLV TagRowCount (be_bytes 4 rows);
   mkTLV TagOrigSize (be_bytes 4 orig)] ++
  (if bool_decide (columns = []) then [] else [mkTLV TagColumns columns]) ++
  [mkTLV TagData comp].

Definition wire_fields (tlvs : list TLV) : bytes :=
  concat (map (fun t => field (tlv_Tag t) (tlv_Value t)) tlvs).

Definition batch_frame (tag : bytes) (agent seq ts : Z) (body : bytes) : bytes :=
  WriteHeader (mkFrameHeader Version TypeLogBatch 0 tag agent seq ts (zlen body))
  ++ body.

Lemma zlen_field tag value : zlen (field tag value) = 3 + zlen value.
Proof. unfold field. zlia. Qed.
#[export] Hint Rewrite zlen_field : zlen.

Lemma ReadFull_app l r : ReadFull (zlen l) (l ++ r) = Some (l, r).
Proof.
  unfold ReadFull. rewrite (proj2 (Z.leb_le _ _)) by zlia.
  by rewrite to_nat_zlen, take_app_length, drop_app_length.
Qed.

Lemma ReadFull_length n r l r' :
  0 <= n -> ReadFull n r = Some (l, r') -> zlen l = n /\ r = l ++ r'.
Proof.
  unfold ReadFull. destruct (Z.leb_spec n (zlen r)); [|done].
  intros Hn [= <- <-]. rewrite zlen_take by lia. by rewrite take_drop.
Qed.

Lemma ReadFull_ok n r l r' :
  bytes_ok r -> ReadFull n r = Some (l, r') -> bytes_ok l /\ bytes_ok r'.
Proof.
  unfold ReadFull. destruct (_ <=? _); [|done]. intros H [= <- <-].
  split; [by apply Forall_take|by apply Forall_drop].
Qed.

Lemma ReadHeader_ok r hdr r' :
  bytes_ok r -> ReadHeader r = Some (hdr, r') -> bytes_ok r'.
Proof.
  intros Hr H. unfold ReadHeader in H.
  destruct (ReadFull 8 r) as [[f r1]|] eqn:E1; [|done]. cbn [mbind option_bind] in H.
  apply ReadFull_ok in E1 as [_ H1]; [|done].
  destruct (rd32 f); [|done]. cbn [mbind option_bind] in H.
  destruct (negb _); [done|].
  destruct (load1 f 4); [|done]. cbn [mbind option_bind] in H.
  destruct (load1 f 5); [|done]. cbn [mbind option_bind] in H.
  destruct (load1 f 6); [|done]. cbn [mbind option_bind] in H.
  destruct (load1 f 7); [|done]. cbn [mbind option_bind] in H.
  match type of H with context [ReadFull ?n r1] => destruct (ReadFull n r1) as [[t r2]|] eqn:E2 end;
    [|done]. cbn [mbind option_bind] in H. apply ReadFull_ok in E2 as [_ H2]; [|done].
  destruct (ReadFull 28 r2) as [[t2 r3]|] eqn:E3; [|done]. cbn [mbind option_bind] in H.
  apply ReadFull_ok in E3 as [_ H3]; [|done].
  destruct (rd64 t2); [|done]. cbn [mbind option_bind] in H.
  destruct (rd64 (drop 8 t2)); [|done]. cbn [mbind option_bind] in H.
  destruct (rd64 (drop 16 t2)); [|done]. cbn [mbind option_bind] in H.
  destruct (rd32 _); [|done]. by injection H as <- <-.
Qed.

(** The header survives, whatever follows it. *)
Lemma read_write_header hdr r :
  fits 8 (fh_Version hdr) -> fits 8 (fh_Type hdr) -> fits 8 (fh_Flags hdr) ->
  zlen (fh_Tag hdr) <= 255 ->
  fits 64 (fh_AgentID hdr) -> fits 64 (fh_Seq hdr) -> fits 64 (fh_TsMs hdr) ->
  fits 32 (fh_BodyLen hdr) ->
  ReadHeader (WriteHeader hdr ++ r) = Some (hdr, r).
Proof.
  intros. unfold WriteHeader.
  rewrite Z.gtb_ltb, (proj2 (Z.ltb_ge _ _)) by lia. cbv zeta.
  rewrite (uwrap_small 8 (zlen _)) by (unfold fits; zlia).
  rewrite (app_assoc (be_bytes 4 Magic)). unfold ReadHeader.
  set (fixed := be_bytes 4 Magic ++ [_; _; _; _]). rewrite <- !app_assoc.
  change (ReadFull 8) with (ReadFull (zlen fixed)).
  rewrite ReadFull_app. cbn [mbind option_bind].
  change (rd32 fixed) with (Some Magic). cbn [mbind option_bind].
  rewrite Z.eqb_refl. cbn [negb load1 Z.leb].
  change (load1 fixed 4) with (Some (fh_Version hdr)).
  change (load1 fixed 5) with (Some (fh_Type hdr)).
  change (load1 fixed 6) with (Some (fh_Flags hdr)).
  change (load1 fixed 7) with (Some (zlen (fh_Tag hdr))).
  cbn [mbind option_bind]. rewrite ReadFull_app. cbn [mbind option_bind].
  set (tail := be_bytes 8 (fh_AgentID hdr) ++ be_bytes 8 (fh_Seq hdr) ++
    be_bytes 8 (fh_TsMs hdr) ++ be_bytes 4 (fh_BodyLen hdr)).
  replace (be_bytes 8 (fh_AgentID hdr) ++ be_bytes 8 (fh_Seq hdr) ++
    be_bytes 8 (fh_TsMs hdr) ++ be_bytes 4 (fh_BodyLen hdr) ++ r)
    with (tail ++ r) by (unfold tail; by rewrite <- !app_assoc).
  change (ReadFull 28) with (ReadFull (zlen tail)).
  rewrite ReadFull_app. cbn [mbind option_bind].
  change (drop 8 tail) with (be_bytes 8 (fh_Seq hdr) ++ drop 16 tail).
  change (drop 16 tail) with (be_bytes 8 (fh_TsMs hdr) ++ drop 24 tail).
  change (drop 24 tail) with (be_bytes 4 (fh_BodyLen hdr) ++ []).
  unfold tail at 1.
  rewrite !rd64_be_bytes, rd32_be_bytes, !uwrap_small by done.
  cbn [mbind option_bind]. by destruct hdr.
Qed.

(** More fuel than bytes changes nothing. *)
Lemma decode_tlvs_fuel n m body :
  (length body <= n)%nat -> (length body <= m)%nat ->
  decode_tlvs n body = decode_tlvs m body.
Proof.
  revert m body. induction n as [|n IH]; intros m body Hn Hm.
  - destruct body; [by destruct m|cbn in Hn; lia].
  - destruct body as [|t [|l1 [|l0 b]]]; [by destruct m|..];
      (destruct m as [|m]; [cbn in Hm; lia|]); [done|done|].
    cbn [decode_tlvs]. destruct (_ >? _); [done|].
    rewrite (IH m); [done|rewrite length_drop; cbn in *; lia..].
Qed.

Lemma decode_tlvs_step k tag l1 l0 body :
  decode_tlvs (S k) (tag :: l1 :: l0 :: body) =
    let length := Z.lor (Z.shiftl l1 8) l0 in
    if length >? zlen body then None else
    rest ← decode_tlvs k (drop (Z.to_nat length) body);
    Some (mkTLV tag (take (Z.to_nat length) body) :: rest).
Proof. reflexivity. Qed.

Lemma DecodeTLVs_field tag value r :
  zlen value < 2 ^ 16 ->
  DecodeTLVs (field tag value ++ r) =
    (rest ← DecodeTLVs r; Some (mkTLV tag value :: rest)).
Proof.
  intros H. unfold DecodeTLVs, field. cbn [app length be_bytes].
  rewrite decode_tlvs_step.
  set (len := Z.lor _ _).
  assert (len = zlen value) as ->.
  { pose proof (rd16_be_bytes (zlen value) []) as E.
    rewrite uwrap_small in E by (unfold fits; zlia). unfold len. by injection E. }
  cbv zeta. rewrite Z.gtb_ltb, (proj2 (Z.ltb_ge _ _)) by zlia.
  rewrite to_nat_zlen, drop_app_length, take_app_length.
  rewrite (decode_tlvs_fuel _ (length r) r); [done| |lia].
  rewrite length_app. lia.
Qed.

Lemma DecodeTLVs_wire tlvs :
  Forall (fun t => zlen (tlv_Value t) < 2 ^ 16) tlvs ->
  DecodeTLVs (wire_fields tlvs) = Some tlvs.
Proof.
  induction 1 as [|[tag value] tlvs Ht Htlvs IH]; [done|].
  cbn [wire_fields map concat]. rewrite DecodeTLVs_field by done.
  unfold wire_fields in IH. by rewrite IH.
Qed.

(** Every decoded value is shorter than 64 KB. *)
Lemma DecodeTLVs_short body tlvs :
  bytes_ok body -> DecodeTLVs body = Some tlvs ->
  Forall (fun t => zlen (tlv_Value t) < 2 ^ 16) tlvs.
Proof.
  unfold DecodeTLVs. generalize (length body) as n. intros n. revert body tlvs.
  induction n as [|n IH]; intros body tlvs Hb H.
  { destruct body as [|? [|? [|]]]; try done. injection H as <-. apply Forall_nil_2. }
  destruct body as [|t [|l1 [|l0 b]]]; try done; [injection H as <-; apply Forall_nil_2|].
  cbn [decode_tlvs] in H. unfold bytes_ok in Hb. rewrite !Forall_cons in Hb.
  destruct Hb as (Ht & H1 & H0 & Hb).
  destruct (Z.gtb_spec (Z.lor (Z.shiftl l1 8) l0) (zlen b)); [done|].
  destruct (decode_tlvs n _) as [rest|] eqn:E; [|done]. injection H as <-.
  constructor; [|eapply IH; [|exact E]; by apply Forall_drop].
  rewrite lor_shiftl_add in * by (done || lia). unfold fits in *.
  cbn [tlv_Value]. rewrite zlen_take by lia. lia.
Qed.

Lemma decode_fields_payload tlvs b b' :
  decode_fields b tlvs = Some b' ->
  lb_CompressedTSV b' = lb_CompressedTSV b \/
  Exists (fun t => tlv_Value t = lb_CompressedTSV b') tlvs.
Proof.
  revert b. induction tlvs as [|t tlvs IH]; intros b H; cbn in H.
  { injection H as <-. by left. }
  destruct (decode_field b t) as [b1|] eqn:E; [|done]. cbn in H.
  destruct (IH b1 H) as [IH'|IH']; [|by right; apply Exists_cons_tl].
  assert (lb_CompressedTSV b1 = lb_CompressedTSV b \/
          lb_CompressedTSV b1 = tlv_Value t) as [Eq|Eq].
  { unfold decode_field in E.
    repeat (destruct (_ =? _) in E); try (destruct (rd16 _) in E; [|done]);
      try (destruct (rd32 _) in E; [|done]); injection E as <-; auto. }
  - left. congruence.
  - right. apply Exists_cons_hd. congruence.
Qed.

(** The body of a batch is decoded to what was encoded... *)
Lemma DecodeBatch_wire rows orig columns comp :
  fits 32 rows -> fits 32 orig -> zlen columns < 2 ^ 16 ->
  comp <> [] -> zlen comp < 2 ^ 16 ->
  DecodeBatch (wire_fields (batch_fields rows orig columns comp)) =
    Some (mkLogBatch 1 rows orig (splitColumns columns) comp).
Proof.
  intros Hr Ho Hc Hne Hl. unfold DecodeBatch.
  rewrite DecodeTLVs_wire.
  2:{ unfold batch_fields. destruct (bool_decide _); cbn [app];
      repeat apply Forall_cons_2; try done; apply Forall_nil_2. }
  cbn [mbind option_bind].
  replace (be_bytes 4 rows) with (be_bytes 4 rows ++ []) by apply app_nil_r.
  assert (zlen comp <> 0) by (destruct comp; [done|zlia]).
  unfold batch_fields. destruct (decide (columns = [])) as [->|Hne'].
  - rewrite bool_decide_eq_true_2 by done. cbn [app decode_fields].
    unfold decode_field. cbn [tlv_Tag tlv_Value].
    change (be_bytes 2 1) with (be_bytes 2 1 ++ []).
    rewrite <- (app_nil_r (be_bytes 4 rows)), <- (app_nil_r (be_bytes 4 orig)).
    rewrite rd16_be_bytes, !rd32_be_bytes, !(uwrap_small 32) by done.
    cbn [mbind option_bind Z.eqb Pos.eqb update lb_CompressedTSV lb_SchemaVersion
      lb_RowCount lb_OrigSize lb_Columns TagSchemaVersion TagRowCount TagOrigSize
      TagColumns TagData].
    by rewrite (proj2 (Z.eqb_neq _ _)).
  - rewrite bool_decide_eq_false_2 by done. cbn [app decode_fields].
    unfold decode_field. cbn [tlv_Tag tlv_Value].
    change (be_bytes 2 1) with (be_bytes 2 1 ++ []).
    rewrite <- (app_nil_r (be_bytes 4 rows)), <- (app_nil_r (be_bytes 4 orig)).
    rewrite rd16_be_bytes, !rd32_be_bytes, !(uwrap_small 32) by done.
    cbn [mbind option_bind Z.eqb Pos.eqb update lb_CompressedTSV lb_SchemaVersion
      lb_RowCount lb_OrigSize lb_Columns TagSchemaVersion TagRowCount TagOrigSize
      TagColumns TagData].
    by rewrite (proj2 (Z.eqb_neq _ _)).
Qed.

(** ... but no body decodes to a payload of 64 KB or more. *)
Lemma DecodeBatch_short body b :
  bytes_ok body -> DecodeBatch body = Some b -> zlen (lb_CompressedTSV b) < 2 ^ 16.
Proof.
  intros Hb H. unfold DecodeBatch in H.
  destruct (DecodeTLVs body) as [tlvs|] eqn:E; [|done]. cbn in H.
  destruct (decode_fields _ tlvs) as [b'|] eqn:E'; [|done]. cbn in H.
  destruct (_ =? 0); [done|]. injection H as <-.
  apply DecodeTLVs_short in E; [|done].
  destruct (decode_fields_payload _ _ _ E') as [->|Hx]; [done|].
  apply Exists_exists in Hx as (t & Hin & <-).
  rewrite Forall_forall in E. by apply E.
Qed.

(** A whole frame is read back. *)
Lemma ReadBatch_frame tag agent seq ts rows orig columns comp rest :
  zlen tag <= 255 -> fits 64 agent -> fits 64 seq -> fits 64 ts ->
  fits 32 rows -> fits 32 orig -> zlen columns < 2 ^ 16 -> comp <> [] ->
  zlen comp < 2 ^ 16 ->
  let body := wire_fields (batch_fields rows orig columns comp) in
  ReadBatch (batch_frame tag agent seq ts body ++ rest) =
    Some (mkFrameHeader Version TypeLogBatch 0 tag agent seq ts (zlen body),
          mkLogBatch 1 rows orig (splitColumns columns) comp, rest).
Proof.
  intros. unfold ReadBatch, batch_frame. rewrite <- app_assoc.
  assert (Hlen : zlen body < 2 ^ 32).
  { unfold body, wire_fields, batch_fields.
    destruct (bool_decide _); cbn [app map concat tlv_Tag tlv_Value];
      autorewrite with zlen; zlia. }
  rewrite read_write_header by (done || (unfold fits; cbn; zlia)).
  cbn [mbind option_bind fh_BodyLen]. rewrite ReadFull_app.
  cbn [mbind option_bind]. unfold body. by rewrite DecodeBatch_wire.
Qed.
