(* ===== verification/Xlog.v ===== *)
(** The agents' log uploader, xlog/xlog.c and xlog/xlog.h: a batch of
    tab-separated rows is compressed and framed for the ingest server.  The
    compressor is a parameter with its documented contract. *)
From S2P Require Import Prelude Ingest.
#[local] Open Scope Z_scope.

(** * Constants (xlog.h) *)

Definition XLOG_MAGIC : Z := 0x584C4F47.
Definition XLOG_VERSION : Z := 1.
Definition XLOG_MAX_TAG_LEN : Z := 255.
Definition XLOG_MAX_FRAME_BODY : Z := 32 * 1024 * 1024.
Definition XLOG_TYPE_LOG_BATCH : Z := 0x01.
Definition XLOG_TAG_SCHEMA_VERSION : Z := 0x01.
Definition XLOG_TAG_ROW_COUNT : Z := 0x02.
Definition XLOG_TAG_ORIG_SIZE : Z := 0x03.
Definition XLOG_TAG_COLUMNS : Z := 0x04.
Definition XLOG_TAG_DATA : Z := 0x10.
Definition XLOG_OK : Z := 0.
Definition XLOG_ERR_OOM : Z := -1.
Definition XLOG_ERR_COMPRESS : Z := -2.
Definition XLOG_ERR_TOO_LARGE : Z := -3.
Definition XLOG_ERR_PARAM : Z := -4.

(** * The compressor

    [ZSTD_compress cap src level] is [None] when [ZSTD_isError] holds of the
    result, otherwise the bytes written to the destination. *)

Class Compressor := {
  ZSTD_compressBound : Z -> Z;
  ZSTD_compress : Z -> bytes -> Z -> option bytes;
  ZSTD_decompress : bytes -> option bytes;
}.

(** The documented contract: the output fits the destination, the bound is
    enough for any input and close to its size, compression is lossless. *)
Class CompressorLaws `{Compressor} := {
  compress_fits cap src level c :
    ZSTD_compress cap src level = Some c -> zlen c <= cap;
  compress_bytes cap src level c :
    bytes_ok src -> ZSTD_compress cap src level = Some c -> bytes_ok c;
  compress_nonempty cap src level c :
    src <> [] -> ZSTD_compress cap src level = Some c -> c <> [];
  compress_lossless cap src level c :
    ZSTD_compress cap src level = Some c -> ZSTD_decompress c = Some src;
  bound_range n : 0 <= n <= 2 ^ 30 -> 0 <= ZSTD_compressBound n < 2 ^ 31;
}.

(** The build without the library copies instead: the size returned and what
    the destination holds. *)
Definition passthrough_compress (dstCap : Z) (src : bytes) (level : Z)
    : Z * bytes :=
  if dstCap <? zlen src then (zlen src + 1, []) else (zlen src, src).

(** That build as a compressor, with an error test that recognises the size
    returned for a destination that is too small. *)
#[export] Instance passthrough : Compressor := {|
  ZSTD_compressBound n := n + 64;
  ZSTD_compress cap src level :=
    let r := passthrough_compress cap src level in
    if fst r >? zlen src then None else Some (snd r);
  ZSTD_decompress c := Some c |}.

#[export] Instance passthrough_laws : CompressorLaws.
Proof.
  assert (H : forall cap src level c, ZSTD_compress cap src level = Some c ->
    c = src /\ zlen src <= cap).
  { intros cap src level c. cbn. unfold passthrough_compress.
    destruct (Z.ltb_spec cap (zlen src)); cbn [fst snd];
      destruct (_ >? _) eqn:E; try done; [lia|intros [= <-]; split; [done|lia]]. }
  constructor; intros;
    repeat match goal with E : ZSTD_compress _ _ _ = Some _ |- _ =>
             apply H in E as [-> ?] end;
    [done..|cbn [ZSTD_compressBound passthrough]; lia].
Qed.

Lemma passthrough_small cap src level :
  zlen src <= cap -> ZSTD_compress cap src level = Some src.
Proof.
  intros H. cbn. unfold passthrough_compress.
  rewrite (proj2 (Z.ltb_ge _ _)) by done. cbn [fst snd].
  by rewrite Z.gtb_ltb, Z.ltb_irrefl.
Qed.

(** * Buffers *)

(** [data] up to [len] and the capacity; the bytes past [len] are not
    initialised. *)
Record xlog_buf_t := XlogBuf { xb_data : bytes; xb_cap : Z }.

Definition xlog_buf_len (b : xlog_buf_t) : Z := zlen (xb_data b).

(** [while (ncap < target) ncap *= 2], on [size_t]; 64 rounds suffice. *)
Fixpoint grow_cap (fuel : nat) (ncap target : Z) : option Z :=
  if ncap <? target then
    match fuel with
    | O => None
    | Datatypes.S k => grow_cap k (u64 (ncap * 2)) target
    end
  else Some ncap.

Definition put_be16 (v : Z) : bytes := [u8 (Z.shiftr v 8); u8 v].
Definition put_be32 (v : Z) : bytes :=
  [u8 (Z.shiftr v 24); u8 (Z.shiftr v 16); u8 (Z.shiftr v 8); u8 v].
Definition put_be64 (v : Z) : bytes :=
  put_be32 (u32 (Z.shiftr v 32)) ++ put_be32 (u32 v).

Definition tabs_to_commas_text (s : bytes) : bytes :=
  map (fun c => if c =? 9 then 44 else c) s.

Record xlog_batch := XlogBatch {
  xl_tag : bytes;                     (* C string *)
  xl_columns_csv : option bytes;      (* C string or null *)
  xl_agent_id : Z;                    (* u64 *)
  xl_seq : Z;                         (* u64 *)
  xl_tsv : xlog_buf_t;
  xl_row_count : Z;                   (* size_t *)
}.
#[export] Instance eta_xlog_batch : Eta xlog_batch := fun b =>
  XlogBatch (xl_tag b) (xl_columns_csv b) (xl_agent_id b) (xl_seq b) (xl_tsv b)
    (xl_row_count b).

Section operations.
Context {S : Type} `{!HasWorld S} `{!Compressor} (win32 : bool).

(** A buffer's memory block is labelled [blk] in the trace. *)
Definition buf_init (blk : string) (initial : Z) : ST S (Z * xlog_buf_t) :=
  let cap := if initial =? 0 then 4096 else initial in
  ok ← malloc blk;
  if ok : bool then mret (XLOG_OK, XlogBuf [] cap)
  else mret (XLOG_ERR_OOM, XlogBuf [] 0).

Definition buf_grow (b : xlog_buf_t) (need : Z) : ST S (Z * xlog_buf_t) :=
  if u64 (xlog_buf_len b + need) <=? xb_cap b then mret (XLOG_OK, b) else
  ncap ← lift (grow_cap 64 (u64 (xb_cap b * 2)) (u64 (xlog_buf_len b + need)));
  ok ← alloc_succeeds;
  if ok : bool then mret (XLOG_OK, XlogBuf (xb_data b) ncap)
  else mret (XLOG_ERR_OOM, b).

(** The copy is undefined behaviour unless both objects are large enough. *)
Definition buf_append (b : xlog_buf_t) (src : bytes) (n : Z)
    : ST S (Z * xlog_buf_t) :=
  '(rc, b) ← buf_grow b n;
  if negb (rc =? XLOG_OK) then mret (rc, b) else
  data ← lift (load src 0 n);
  if xlog_buf_len b + n <=? xb_cap b
  then mret (XLOG_OK, XlogBuf (xb_data b ++ data) (xb_cap b))
  else ub.

Definition buf_free (blk : string) (b : xlog_buf_t) : ST S xlog_buf_t :=
  _ ← free blk; mret (XlogBuf [] 0).

Definition tlv_append (body : xlog_buf_t) (tag : Z) (val : bytes) (vlen : Z)
    : ST S (Z * xlog_buf_t) :=
  '(rc, body) ← buf_append body (tag :: put_be16 vlen) 3;
  if (rc =? XLOG_OK) && (vlen >? 0) then buf_append body val vlen
  else mret (rc, body).

Definition tabs_to_commas (s : option bytes) : ST S (option bytes) :=
  match s with
  | None | Some [] => mret None
  | Some s =>
      ok ← malloc "columns";
      if ok : bool then mret (Some (tabs_to_commas_text s)) else mret None
  end.

(** * Batches *)

Definition xlog_batch_new (tag : option bytes) (agent_id seq : Z)
    : ST S (option xlog_batch) :=
  ok ← malloc "batch";
  if negb ok then mret None else
  let t := match tag with Some t => t | None => [] end in
  let tlen := if zlen t >? XLOG_MAX_TAG_LEN then XLOG_MAX_TAG_LEN else zlen t in
  ok ← malloc "tag";
  if negb ok then _ ← free "batch"; mret None else
  let t := take (Z.to_nat tlen) t in
  '(rc, tsv) ← buf_init "tsv" 8192;
  if negb (rc =? XLOG_OK)
  then _ ← free "tag"; _ ← free "batch"; mret None
  else mret (Some (XlogBatch t None agent_id seq tsv 0)).

Definition xlog_batch_set_columns (b : xlog_batch) (columns : option bytes)
    : ST S xlog_batch :=
  _ ← free_opt "columns" (xl_columns_csv b);
  csv ← tabs_to_commas columns;
  mret (b <| xl_columns_csv := csv |>).

Definition xlog_batch_append_row (b : xlog_batch) (row : option bytes)
    : ST S (Z * xlog_batch) :=
  match row with
  | None => mret (XLOG_ERR_PARAM, b)
  | Some row =>
      let rowlen := zlen row in
      if u64 (xlog_buf_len (xl_tsv b) + rowlen + 1) >? XLOG_MAX_FRAME_BODY
      then mret (XLOG_ERR_TOO_LARGE, b) else
      '(rc, tsv) ← buf_append (xl_tsv b) row rowlen;
      let b := b <| xl_tsv := tsv |> in
      if negb (rc =? XLOG_OK) then mret (rc, b) else
      '(rc, tsv) ← buf_append (xl_tsv b) [10] 1;
      let b := b <| xl_tsv := tsv |> in
      if rc =? XLOG_OK
      then mret (rc, b <| xl_row_count := u64 (xl_row_count b + 1) |>)
      else mret (rc, b)
  end.

Definition xlog_batch_row_count (b : option xlog_batch) : Z :=
  match b with Some b => xl_row_count b | None => 0 end.

Definition xlog_batch_free (b : option xlog_batch) : ST S unit :=
  match b with
  | None => mret tt
  | Some b =>
      _ ← free "tag";
      _ ← free_opt "columns" (xl_columns_csv b);
      _ ← buf_free "tsv" (xl_tsv b);
      free "batch"
  end.

(** * Encoding *)

(** Continue while the return code is [XLOG_OK] (else [goto oom]). *)
Definition then_append (r : ST S (Z * xlog_buf_t))
    (k : xlog_buf_t -> ST S (Z * xlog_buf_t)) : ST S (Z * xlog_buf_t) :=
  '(rc, body) ← r; if rc =? XLOG_OK then k body else mret (rc, body).

(** Step 2: the TLV body. *)
Definition encode_columns (columns : option bytes) (body : xlog_buf_t)
    : ST S (Z * xlog_buf_t) :=
  match columns with
  | None | Some [] => mret (XLOG_OK, body)
  | Some csv =>
      let clen := if zlen csv >? 0xffff then 0xffff else zlen csv in
      tlv_append body XLOG_TAG_COLUMNS csv clen
  end.

Definition encode_data (comp : bytes) (body : xlog_buf_t)
    : ST S (Z * xlog_buf_t) :=
  let comp_len := zlen comp in
  if comp_len >? 0xffff then
    let hdr32 := [XLOG_TAG_DATA] ++ put_be16 (u16 (Z.land comp_len 0xffff)) ++
                 put_be32 (u32 comp_len) in
    then_append (buf_append body hdr32 7) (fun body =>
    buf_append body comp comp_len)
  else tlv_append body XLOG_TAG_DATA comp (u16 comp_len).

Definition encode_body (b : xlog_batch) (orig_size : Z) (comp : bytes)
    (body : xlog_buf_t) : ST S (Z * xlog_buf_t) :=
  then_append (tlv_append body XLOG_TAG_SCHEMA_VERSION (put_be16 1) 2) (fun body =>
  then_append (tlv_append body XLOG_TAG_ROW_COUNT
                 (put_be32 (u32 (xl_row_count b))) 4) (fun body =>
  then_append (tlv_append body XLOG_TAG_ORIG_SIZE
                 (put_be32 (u32 orig_size)) 4) (fun body =>
  then_append (encode_columns (xl_columns_csv b) body) (fun body =>
  encode_data comp body)))).

(** Milliseconds since the epoch: two halves of a FILETIME on Windows, seconds
    and nanoseconds elsewhere. *)
Definition frame_ts_ms : ST S Z :=
  t ← clock_now;
  mret (if win32
        then u64 (Z.lor (Z.shiftl (u32 (fst t)) 32) (u32 (snd t)) / 10000
                  - 11644473600000)
        else u64 (u64 (fst t) * 1000 + Z.quot (snd t) 1000000)).

(** Step 3: the header and the body, written into the frame's memory. *)
Definition write_frame (frame : bytes) (b : xlog_batch) (tag_len ts_ms : Z)
    (body : bytes) : option bytes :=
  frame ← store frame 0 (put_be32 XLOG_MAGIC);
  frame ← store frame 4 [XLOG_VERSION];
  frame ← store frame 5 [XLOG_TYPE_LOG_BATCH];
  frame ← store frame 6 [0];
  frame ← store frame 7 [u8 tag_len];
  tag ← load (xl_tag b) 0 tag_len;
  frame ← store frame 8 tag;
  frame ← store frame (8 + tag_len) (put_be64 (xl_agent_id b));
  frame ← store frame (16 + tag_len) (put_be64 (xl_seq b));
  frame ← store frame (24 + tag_len) (put_be64 ts_ms);
  frame ← store frame (32 + tag_len) (put_be32 (u32 (zlen body)));
  store frame (36 + tag_len) body.

Definition xlog_batch_encode (b : option xlog_batch) : ST S (Z * option bytes) :=
  match b with
  | None => mret (XLOG_ERR_PARAM, None)
  | Some b =>
      if xlog_buf_len (xl_tsv b) =? 0 then mret (XLOG_ERR_PARAM, None) else
      let orig_size := xlog_buf_len (xl_tsv b) in
      let bound := ZSTD_compressBound orig_size in
      ok ← malloc "comp";
      if negb ok then mret (XLOG_ERR_OOM, None) else
      match ZSTD_compress bound (xb_data (xl_tsv b)) 3 with
      | None => _ ← free "comp"; mret (XLOG_ERR_COMPRESS, None)
      | Some comp =>
          '(rc, body) ← buf_init "body" (u64 (zlen comp + 64));
          if negb (rc =? XLOG_OK)
          then _ ← free "comp"; mret (XLOG_ERR_OOM, None) else
          '(rc, body) ← encode_body b orig_size comp body;
          if negb (rc =? XLOG_OK)
          then _ ← free "comp"; _ ← buf_free "body" body;
               mret (XLOG_ERR_OOM, None) else
          _ ← free "comp";
          let tag_len := if zlen (xl_tag b) >? XLOG_MAX_TAG_LEN
                         then XLOG_MAX_TAG_LEN else zlen (xl_tag b) in
          let hdr_size := 8 + tag_len + 28 in
          let total := hdr_size + xlog_buf_len body in
          ok ← malloc "frame";
          if negb ok
          then _ ← buf_free "body" body; mret (XLOG_ERR_OOM, None) else
          ts_ms ← frame_ts_ms;
          frame ← lift (write_frame (replicate (Z.to_nat total) 0) b tag_len
                          ts_ms (xb_data body));
          _ ← buf_free "body" body;
          mret (XLOG_OK, Some frame)
      end
  end.
End operations.

Definition xlog_strerror (rc : Z) : bytes :=
  if rc =? XLOG_OK then str "ok"
  else if rc =? XLOG_ERR_OOM then str "out of memory"
  else if rc =? XLOG_ERR_COMPRESS then str "zstd compression failed"
  else if rc =? XLOG_ERR_TOO_LARGE then str "batch too large (>32 MB)"
  else if rc =? XLOG_ERR_PARAM then str "invalid parameter"
  else str "unknown error".

(** * Buffers never overflow *)

Definition buf_wf (b : xlog_buf_t) : Prop :=
  zlen (xb_data b) <= xb_cap b /\ 0 < xb_cap b < 2 ^ 62.

(** The doubling loop ends with a capacity that suffices, less than twice what
    was asked. *)
Lemma grow_cap_spec fuel ncap target :
  0 < ncap < 2 ^ 63 -> target <= 2 ^ 61 -> target <= ncap * 2 ^ Z.of_nat fuel ->
  exists c, grow_cap fuel ncap target = Some c /\ target <= c /\
    (c = ncap \/ c < 2 * target).
Proof.
  revert ncap. induction fuel as [|fuel IH]; intros ncap Hn Ht Hf; cbn [grow_cap].
  - rewrite (proj2 (Z.ltb_ge _ _)) by lia. exists ncap. split_and!; [done|lia|by left].
  - destruct (Z.ltb_spec ncap target) as [Hlt|]; [|exists ncap; split_and!; [done|lia|by left]].
    rewrite uwrap_small by (unfold fits; lia).
    destruct (IH (ncap * 2)) as (c & -> & Hc & Hc'); [lia|lia| |].
    + rewrite Nat2Z.inj_succ, Z.pow_succ_r in Hf by lia. lia.
    + exists c. split_and!; [done|lia|right; lia].
Qed.

(** What appending promises: on success the bytes are at the end, and no
    allocation is needed when they fit. *)
Definition appended (b : xlog_buf_t) (w : bytes) (r : Z * xlog_buf_t) : Prop :=
  buf_wf (snd r) /\
  (fst r = XLOG_OK /\ xb_data (snd r) = xb_data b ++ w \/ fst r = XLOG_ERR_OOM).

Section buffers.
Context {S : Type} `{!HasWorld S}.
Implicit Types s : S.

Lemma buf_append_spec b src n s :
  buf_wf b -> 0 <= n <= zlen src -> xlog_buf_len b + n <= 2 ^ 60 ->
  wp (buf_append b src n) (fun r s' => steps quiet s s' /\
    appended b (take (Z.to_nat n) src) r /\
    (fst r = XLOG_ERR_OOM -> snd r = b /\ xb_cap b < xlog_buf_len b + n /\
       ~ alloc_ok (world_of s))) s.
Proof.
  intros [Hl Hc] Hn Hb. unfold buf_append, buf_grow.
  assert (0 <= xlog_buf_len b) by (unfold xlog_buf_len; zlia).
  unfold xlog_buf_len in *.
  rewrite (uwrap_small 64 (zlen _ + n)) by (unfold fits; lia).
  assert (Hfits : forall cap s0, zlen (xb_data b) + n <= cap -> 0 < cap < 2 ^ 62 ->
    steps quiet s s0 ->
    wp (data ← lift (load src 0 n);
        if zlen (xb_data b) + n <=? cap
        then mret (XLOG_OK, XlogBuf (xb_data b ++ data) cap) else ub)
       (fun r s' => steps quiet s s' /\
         appended b (take (Z.to_nat n) src) r /\
         (fst r = XLOG_ERR_OOM -> snd r = b /\ xb_cap b < zlen (xb_data b) + n /\
            ~ alloc_ok (world_of s))) s0).
  { intros cap s0 Hcap Hcap' Hs. rewrite load_some by lia.
    change (Z.to_nat 0) with 0%nat. rewrite drop_0.
    apply wp_bind. eapply wp_lift; [done|].
    rewrite (proj2 (Z.leb_le _ _)) by lia. apply wp_ret.
    split_and!; [done| |done]. split; [|left; done]. unfold buf_wf. cbn.
    rewrite zlen_app, zlen_take by lia. lia. }
  apply wp_bind. destruct (Z.leb_spec (zlen (xb_data b) + n) (xb_cap b)).
  - apply wp_ret. cbv beta iota. apply Hfits; [lia|lia|apply steps_quiet_refl].
  - rewrite uwrap_small by (unfold fits; lia).
    destruct (grow_cap_spec 64 (xb_cap b * 2) (zlen (xb_data b) + n))
      as (c & -> & Hc1 & Hc2); [lia|lia|change (2 ^ Z.of_nat 64) with (2 ^ 64); lia|].
    assert (0 < c < 2 ^ 62) by lia.
    apply wp_bind. eapply wp_lift; [done|]. apply wp_bind, wp_alloc_succeeds.
    intros [|] s' Hs' Ha; apply wp_ret; cbn [xb_data xb_cap].
    + apply Hfits; [lia|lia|done].
    + apply wp_ret. split_and!; [done| |intros _; split_and!; [done|lia|]].
      2: { intros Hok. by specialize (Ha Hok). }
      split; [by split|by right].
Qed.

Lemma buf_init_spec blk initial s :
  0 <= initial < 2 ^ 62 ->
  wp (buf_init blk initial) (fun r s' =>
    fst r = XLOG_OK /\ buf_wf (snd r) /\ xb_data (snd r) = [] /\
      initial <= xb_cap (snd r) /\
      steps (emits [Acquire blk]) s s' \/
    fst r = XLOG_ERR_OOM /\ steps quiet s s') s.
Proof.
  intros Hi. unfold buf_init. apply wp_bind, wp_malloc.
  - intros s' Hs. apply wp_ret. left. unfold buf_wf. cbn [fst snd xb_data xb_cap].
    change (zlen []) with 0. destruct (Z.eqb_spec initial 0); split_and!; done || lia.
  - intros s' Hs _. apply wp_ret. right. done.
Qed.

(** Sequencing: the composition appends both parts. *)
Lemma wp_then_append (r : ST S (Z * xlog_buf_t)) k b w1 w2 s s0 :
  wp r (fun r s' => steps quiet s0 s' /\ appended b w1 r) s ->
  (forall b1 s1, buf_wf b1 -> xb_data b1 = xb_data b ++ w1 -> steps quiet s0 s1 ->
     wp (k b1) (fun r s' => steps quiet s0 s' /\ appended b1 w2 r) s1) ->
  wp (then_append r k) (fun r s' => steps quiet s0 s' /\ appended b (w1 ++ w2) r) s.
Proof.
  intros H1 H2. apply wp_bind. eapply wp_mono; [exact H1|].
  intros [rc b1] s1 (Hs & Hwf & [[Hrc Hd]|Hrc]); cbn [fst snd] in *; subst rc; cbn.
  - eapply wp_mono; [by apply H2|]. intros [rc b2] s2 (Hs2 & Hwf2 & Hr).
    split; [done|]. split; [done|]. cbn [fst snd] in *.
    destruct Hr as [[-> Hd2]| ->]; [left|by right].
    split; [done|]. by rewrite Hd2, Hd, app_assoc.
  - apply wp_ret. split; [done|]. split; [done|by right].
Qed.

(** The same, from the state [s0] where the encoding began. *)
Lemma wp_append_from b src n w s0 s :
  buf_wf b -> 0 <= n <= zlen src -> xlog_buf_len b + n <= 2 ^ 60 ->
  steps quiet s0 s -> w = take (Z.to_nat n) src ->
  wp (buf_append b src n) (fun r s' => steps quiet s0 s' /\ appended b w r) s.
Proof.
  intros Hb Hn Hl Hs ->. eapply wp_mono; [by apply buf_append_spec|].
  intros r s' (? & ? & _). split; [by eapply steps_quiet_trans|done].
Qed.

Lemma tlv_append_spec b tag val vlen s0 s :
  buf_wf b -> 0 <= vlen <= zlen val -> vlen < 2 ^ 16 -> xlog_buf_len b <= 2 ^ 50 ->
  steps quiet s0 s ->
  wp (tlv_append b tag val vlen) (fun r s' => steps quiet s0 s' /\
    appended b (field tag (take (Z.to_nat vlen) val)) r) s.
Proof.
  intros Hb Hv Hv' Hl Hs.
  assert (Ef : field tag (take (Z.to_nat vlen) val) =
    (tag :: put_be16 vlen) ++ take (Z.to_nat vlen) val).
  { unfold field. rewrite zlen_take by lia. done. }
  rewrite Ef.
  change (wp (tlv_append b tag val vlen)) with
    (wp ('(rc, b1) ← buf_append b (tag :: put_be16 vlen) 3;
       if (rc =? XLOG_OK) && (vlen >? 0) then buf_append b1 val vlen
       else mret (rc, b1))).
  apply wp_bind. eapply wp_mono.
  { apply (wp_append_from b (tag :: put_be16 vlen) 3 (tag :: put_be16 vlen) s0);
      [done|change (zlen (tag :: put_be16 vlen)) with 3; lia|lia|done|done]. }
  intros [rc b1] s1 (Hs1 & Hwf & [[Hrc Hd]|Hrc]); cbn [fst snd] in *; subst rc; cbn.
  - destruct (Z.gtb_spec vlen 0).
    + eapply wp_mono.
      { apply (wp_append_from b1 val vlen (take (Z.to_nat vlen) val) s0); [done|lia| |done|done].
        unfold xlog_buf_len in *. rewrite Hd, zlen_app.
        change (zlen (tag :: put_be16 vlen)) with 3. lia. }
      intros [rc b2] s2 (Hs2 & Hwf2 & Hr). split; [done|split; [done|]].
      destruct Hr as [[-> Hd2]| ->]; [left|by right]. cbn [snd] in *.
      split; [done|]. by rewrite Hd2, Hd, <- app_assoc.
    + assert (vlen = 0) as -> by lia. apply wp_ret.
      split; [done|]. split; [done|]. by left.
  - apply wp_ret. split; [done|]. split; [done|by right].
Qed.
End buffers.

(** * The body the encoder writes *)

Definition sent_columns (csv : option bytes) : bytes :=
  match csv with Some c => take (Z.to_nat 65535) c | None => [] end.

(** A payload of up to 65535 bytes is one field; a longer one is preceded by a
    field header that holds the low half of its length, and its length. *)
Definition encoded_data (comp : bytes) : bytes :=
  if zlen comp >? 0xffff
  then [TagData] ++ be_bytes 2 (zlen comp) ++ be_bytes 4 (zlen comp) ++ comp
  else field TagData comp.

Definition encoded_head (rows orig : Z) (columns : bytes) : bytes :=
  field TagSchemaVersion (be_bytes 2 1) ++ field TagRowCount (be_bytes 4 rows) ++
  field TagOrigSize (be_bytes 4 orig) ++
  (if bool_decide (columns = []) then [] else field TagColumns columns).

Definition encoded_body (rows orig : Z) (columns comp : bytes) : bytes :=
  encoded_head rows orig columns ++ encoded_data comp.

Lemma encoded_body_small rows orig columns comp :
  zlen comp < 2 ^ 16 ->
  encoded_body rows orig columns comp =
    wire_fields (batch_fields rows orig columns comp).
Proof.
  intros H. unfold encoded_body, encoded_head, encoded_data, wire_fields, batch_fields.
  rewrite Z.gtb_ltb, (proj2 (Z.ltb_ge _ _)) by lia.
  destruct (bool_decide (columns = []));
    cbn [app map concat tlv_Tag tlv_Value];
    by rewrite <- ?app_assoc, ?app_nil_r.
Qed.

Lemma zlen_encoded_body rows orig columns comp :
  zlen columns < 2 ^ 16 -> zlen comp < 2 ^ 31 ->
  zlen (encoded_body rows orig columns comp) < 2 ^ 32.
Proof.
  intros. unfold encoded_body, encoded_head, encoded_data.
  destruct (bool_decide _), (_ >? _); autorewrite with zlen; zlia.
Qed.

Lemma encoded_body_ok rows orig columns comp :
  bytes_ok columns -> bytes_ok comp -> zlen columns < 2 ^ 16 ->
  bytes_ok (encoded_body rows orig columns comp).
Proof.
  intros Hc Hd _.
  assert (F : forall t v, fits 8 t -> bytes_ok v -> bytes_ok (field t v)).
  { intros t v Ht Hv. unfold field. constructor; [done|]. solve_bytes_ok. }
  unfold encoded_body, encoded_head, encoded_data.
  destruct (bool_decide _), (_ >? _); solve_bytes_ok;
    try (apply F; [done|solve_bytes_ok]); done.
Qed.

Section encode_body.
Context {S : Type} `{!HasWorld S}.
Implicit Types s : S.

Lemma encode_columns_spec csv b s0 s :
  buf_wf b -> xlog_buf_len b <= 2 ^ 50 -> steps quiet s0 s ->
  wp (encode_columns csv b) (fun r s' => steps quiet s0 s' /\
    appended b (if bool_decide (sent_columns csv = []) then []
                else field TagColumns (sent_columns csv)) r) s.
Proof.
  intros Hb Hl Hs. unfold encode_columns, sent_columns.
  destruct csv as [[|c csv]|].
  - apply wp_ret. rewrite bool_decide_eq_true_2 by done.
    split; [done|]. split; [done|]. left. by rewrite app_nil_r.
  - rewrite bool_decide_eq_false_2 by done. cbv zeta.
    set (l := c :: csv) in *. set (clen := if zlen l >? 0xffff then 0xffff else zlen l).
    assert (take (Z.to_nat clen) l = take (Z.to_nat 65535) l) as <-.
    { unfold clen. destruct (Z.gtb_spec (zlen l) 0xffff); [done|].
      rewrite !take_ge; unfold zlen in *; done || lia. }
    apply tlv_append_spec; try done; unfold clen; destruct (Z.gtb_spec (zlen l) 0xffff); zlia.
  - apply wp_ret. rewrite bool_decide_eq_true_2 by done.
    split; [done|]. split; [done|]. left. by rewrite app_nil_r.
Qed.

Lemma encode_data_spec comp b s0 s :
  buf_wf b -> xlog_buf_len b <= 2 ^ 50 -> zlen comp < 2 ^ 31 -> steps quiet s0 s ->
  wp (encode_data comp b) (fun r s' => steps quiet s0 s' /\
    appended b (encoded_data comp) r) s.
Proof.
  intros Hb Hl Hc Hs. unfold encode_data, encoded_data. cbv zeta.
  destruct (Z.gtb_spec (zlen comp) 0xffff).
  - replace ([TagData] ++ be_bytes 2 (zlen comp) ++ be_bytes 4 (zlen comp) ++ comp)
      with (([TagData] ++ be_bytes 2 (zlen comp) ++ be_bytes 4 (zlen comp)) ++ comp)
      by (by rewrite <- !app_assoc).
    apply wp_then_append.
    + apply (wp_append_from b _ 7); [done|split; [lia|done]|lia|done|].
      change 0xffff with (Z.ones 16). rewrite Z.land_ones by lia.
      unfold uwrap. rewrite Zmod_mod. fold (u16 (zlen comp)). fold (u32 (zlen comp)).
      change (put_be16 (u16 (zlen comp))) with (be_bytes 2 (u16 (zlen comp))).
      change (put_be32 (u32 (zlen comp))) with (be_bytes 4 (u32 (zlen comp))).
      by rewrite !be_bytes_uwrap.
    + intros b1 s1 Hb1 Hd Hs1.
      apply (wp_append_from b1 comp (zlen comp)); [done|zlia| |done|].
      * unfold xlog_buf_len in *. rewrite Hd. rewrite !zlen_app.
        change (zlen [TagData]) with 1. rewrite !zlen_be_bytes. lia.
      * by rewrite to_nat_zlen, firstn_all.
  - rewrite uwrap_small by (unfold fits; zlia).
    replace (field TagData comp)
      with (field TagData (take (Z.to_nat (zlen comp)) comp))
      by (by rewrite to_nat_zlen, firstn_all).
    apply tlv_append_spec; done || zlia.
Qed.

Lemma encode_body_spec b orig comp body s0 s :
  buf_wf body -> xb_data body = [] -> zlen comp < 2 ^ 31 -> steps quiet s0 s ->
  wp (encode_body b orig comp body) (fun r s' => steps quiet s0 s' /\
    appended body (encoded_body (u32 (xl_row_count b)) (u32 orig)
                     (sent_columns (xl_columns_csv b)) comp) r) s.
Proof.
  intros Hb Hd Hc Hs. unfold encode_body, encoded_body, encoded_head.
  rewrite <- !app_assoc.
  assert (Hlen : forall b0 w, buf_wf b0 -> xb_data b0 = w -> zlen w <= 2 ^ 20 ->
    xlog_buf_len b0 <= 2 ^ 50) by (intros b0 w _ <-; unfold xlog_buf_len; lia).
  assert (Hcol : zlen (sent_columns (xl_columns_csv b)) <= 65535).
  { unfold sent_columns. destruct (xl_columns_csv b); zlia. }
  apply wp_then_append.
  { apply (tlv_append_spec body TagSchemaVersion (be_bytes 2 1) 2);
      [done|done|done|eapply Hlen; done|done]. }
  intros b1 s1 Hb1 Hd1 Hs1. rewrite Hd in Hd1. apply wp_then_append.
  { apply (tlv_append_spec b1 TagRowCount (be_bytes 4 (u32 (xl_row_count b))) 4);
      [done|done|done|eapply Hlen; done|done]. }
  intros b2 s2 Hb2 Hd2 Hs2. rewrite Hd1 in Hd2. apply wp_then_append.
  { apply (tlv_append_spec b2 TagOrigSize (be_bytes 4 (u32 orig)) 4);
      [done|done|done|eapply Hlen; done|done]. }
  intros b3 s3 Hb3 Hd3 Hs3. rewrite Hd2 in Hd3. apply wp_then_append.
  { apply encode_columns_spec; [done|eapply Hlen; done|done]. }
  intros b4 s4 Hb4 Hd4 Hs4. rewrite Hd3 in Hd4.
  apply encode_data_spec; [done| |done|done].
  eapply Hlen; [done|exact Hd4|]. autorewrite with zlen.
  destruct (bool_decide _); autorewrite with zlen; zlia.
Qed.

Lemma frame_ts_ms_spec win32 s0 t s :
  steps (emits t) s0 s ->
  wp (frame_ts_ms win32) (fun ts s' => fits 64 ts /\ steps (emits t) s0 s') s.
Proof.
  intros Hs. unfold frame_ts_ms. apply wp_bind, wp_clock_now. intros c s' Hs'.
  apply wp_ret. split; [destruct win32; by apply uwrap_fits|].
  by eapply steps_emits_quiet.
Qed.
End encode_body.

Lemma xlog_put_be64_spec v : put_be64 v = be_bytes 8 v.
Proof. apply wr64_spec. Qed.

Lemma write_frame_spec frame b ts body :
  zlen (xl_tag b) <= 255 -> zlen frame = 36 + zlen (xl_tag b) + zlen body ->
  zlen body < 2 ^ 32 ->
  write_frame frame b (zlen (xl_tag b)) ts body =
    Some (batch_frame (xl_tag b) (xl_agent_id b) (xl_seq b) ts body).
Proof.
  intros Ht Hf Hb. unfold write_frame, batch_frame, WriteHeader.
  rewrite Z.gtb_ltb, (proj2 (Z.ltb_ge _ _)) by (cbn; lia). cbv zeta.
  cbn [fh_Version fh_Type fh_Flags fh_Tag fh_AgentID fh_Seq fh_TsMs fh_BodyLen].
  change (put_be32 XLOG_MAGIC) with (be_bytes 4 Magic).
  change (put_be32 (u32 (zlen body))) with (be_bytes 4 (u32 (zlen body))).
  rewrite (uwrap_small 32 (zlen body)) by (unfold fits; zlia).
  rewrite !xlog_put_be64_spec. change frame with ([] ++ frame) at 1.
  do 5 (rewrite store_at by zlia; cbn [mbind option_bind]).
  rewrite load_some by zlia. change (Z.to_nat 0) with 0%nat.
  rewrite drop_0, to_nat_zlen, firstn_all. cbn [mbind option_bind].
  do 5 (rewrite store_at by zlia; cbn [mbind option_bind]).
  rewrite store_at by zlia.
  rewrite !drop_drop, drop_ge, app_nil_r
    by (autorewrite with zlen; unfold zlen in *; cbn [length]; lia).
  f_equal. rewrite <- !app_assoc. by rewrite app_nil_l.
Qed.

(** * Well-formed batches *)

Record batch_wf (b : xlog_batch) : Prop := {
  wf_tsv : buf_wf (xl_tsv b);
  wf_cap : xlog_buf_len (xl_tsv b) <= XLOG_MAX_FRAME_BODY;
  wf_tag : zlen (xl_tag b) <= XLOG_MAX_TAG_LEN;
  wf_agent : fits 64 (xl_agent_id b);
  wf_seq : fits 64 (xl_seq b);
  wf_rows : 0 <= xl_row_count b <= xlog_buf_len (xl_tsv b);
}.

(** The rows a batch stands for. *)
Definition tsv_of (rows : list bytes) : bytes :=
  concat (map (fun r => r ++ [10]) rows).

Definition holds_rows (b : xlog_batch) (rows : list bytes) : Prop :=
  xb_data (xl_tsv b) = tsv_of rows /\ xl_row_count b = zlen rows.

Lemma tsv_of_snoc rows r : tsv_of (rows ++ [r]) = tsv_of rows ++ r ++ [10].
Proof. unfold tsv_of. rewrite map_app, concat_app. cbn. by rewrite app_nil_r. Qed.

Section encode.
Context {S : Type} `{!HasWorld S} `{!Compressor} `{!CompressorLaws}.
Implicit Types s : S.

Lemma append_row_spec b row s :
  batch_wf b -> zlen row < 2 ^ 32 ->
  wp (xlog_batch_append_row b (Some row)) (fun r s' =>
    steps quiet s s' /\ batch_wf (snd r) /\
    if xlog_buf_len (xl_tsv b) + zlen row + 1 >? XLOG_MAX_FRAME_BODY
    then r = (XLOG_ERR_TOO_LARGE, b)
    else fst r = XLOG_OK /\
           xb_data (xl_tsv (snd r)) = xb_data (xl_tsv b) ++ row ++ [10] /\
           xl_row_count (snd r) = xl_row_count b + 1 /\
           snd r = b <| xl_tsv := xl_tsv (snd r) |>
                     <| xl_row_count := xl_row_count (snd r) |>
         \/ fst r = XLOG_ERR_OOM /\
            (snd r = b \/
             exists tsv, snd r = b <| xl_tsv := tsv |> /\
               xb_data tsv = xb_data (xl_tsv b) ++ row)) s.
Proof.
  intros [] Hr. unfold xlog_batch_append_row, XLOG_MAX_FRAME_BODY in *.
  assert (0 <= xlog_buf_len (xl_tsv b)) by (unfold xlog_buf_len; zlia).
  rewrite uwrap_small by (unfold fits; zlia).
  destruct (Z.gtb_spec (xlog_buf_len (xl_tsv b) + zlen row + 1) (32 * 1024 * 1024)).
  { apply wp_ret. split; [apply steps_quiet_refl|split; done]. }
  apply wp_bind. eapply wp_mono;
    [apply (buf_append_spec (xl_tsv b) row (zlen row)); [done|zlia|zlia]|].
  intros [rc tsv1] s1 (Hs1 & (Hwf1 & [[Hrc Hd1]|Hrc]) & Hoom); cbn [fst snd] in *; subst rc.
  2:{ cbn. apply wp_ret. destruct (Hoom eq_refl) as [-> _].
      split_and!; [done| |right; split; [done|left; by destruct b]].
      by constructor. }
  rewrite to_nat_zlen, firstn_all in Hd1. cbn.
  assert (Hl1 : xlog_buf_len tsv1 = xlog_buf_len (xl_tsv b) + zlen row)
    by (unfold xlog_buf_len; by rewrite Hd1, zlen_app).
  apply wp_bind. eapply wp_mono;
    [apply (buf_append_spec tsv1 [10] 1); [done|split; [lia|done]|lia]|].
  intros [rc tsv2] s2 (Hs2 & (Hwf2 & [[Hrc Hd2]|Hrc]) & Hoom2); cbn [fst snd] in *; subst rc;
    cbn; apply wp_ret; (split; [by eapply steps_quiet_trans|]).
  - change (take (Z.to_nat 1) [10]) with [10] in Hd2.
    assert (xlog_buf_len tsv2 = xlog_buf_len tsv1 + 1)
      by (unfold xlog_buf_len; by rewrite Hd2, zlen_app).
    rewrite uwrap_small by (unfold fits; lia).
    split; [constructor; cbn; unfold XLOG_MAX_FRAME_BODY; done || zlia|].
    left. split_and!; [done|by rewrite Hd2, Hd1, <- app_assoc|done|done].
  - destruct (Hoom2 eq_refl) as [-> _].
    split; [constructor; cbn; unfold XLOG_MAX_FRAME_BODY; done || (zlia)|].
    right. split; [done|]. right. by exists tsv1.
Qed.

(** The effects of one encoding, and what they leave allocated. *)
Definition encode_leaves (t : list effect) (frame_blocks : Z) : Prop :=
  forall blk, live blk t = if decide (blk = "frame"%string) then frame_blocks else 0.

Ltac solve_leaves :=
  intros blk; unfold live; cbn [live_step foldr map app];
  repeat destruct (decide _); subst; done.

(** What one encoding promises: a frame of the batch, or an error code and
    nothing. *)
Definition encoded (b : xlog_batch) (s : S) (r : Z * option bytes) (s' : S) : Prop :=
  exists t, steps (emits t) s s' /\
    (fst r = XLOG_OK /\ encode_leaves t 1 /\ xb_data (xl_tsv b) <> [] /\
       (exists comp ts, fits 64 ts /\
         ZSTD_compress (ZSTD_compressBound (xlog_buf_len (xl_tsv b)))
           (xb_data (xl_tsv b)) 3 = Some comp /\ zlen comp < 2 ^ 31 /\
         snd r = Some (batch_frame (xl_tag b) (xl_agent_id b) (xl_seq b) ts
           (encoded_body (xl_row_count b) (xlog_buf_len (xl_tsv b))
              (sent_columns (xl_columns_csv b)) comp)))
     \/ fst r < 0 /\ snd r = None /\ encode_leaves t 0).

Lemma encode_failed b s rc t s' :
  rc < 0 -> steps (emits t) s s' -> encode_leaves t 0 ->
  encoded b s (rc, None) s'.
Proof. intros. exists t. split; [done|]. by right. Qed.

Lemma encode_spec win32 b s :
  batch_wf b -> wp (xlog_batch_encode win32 (Some b)) (encoded b s) s.
Proof.
  intros []. unfold xlog_batch_encode, XLOG_MAX_TAG_LEN, XLOG_MAX_FRAME_BODY in *.
  assert (0 <= xlog_buf_len (xl_tsv b)) by (unfold xlog_buf_len; zlia).
  rewrite Z.gtb_ltb, (proj2 (Z.ltb_ge 255 _)) by lia.
  destruct (xlog_buf_len (xl_tsv b) =? 0) eqn:Hne.
  { apply wp_ret, (encode_failed _ _ _ []); [done|apply steps_emits_refl|].
    solve_leaves. }
  cbv zeta. apply wp_bind, wp_malloc.
  2:{ intros s1 Hs1 _. cbn. apply wp_ret, (encode_failed _ _ _ []);
      [done|eapply steps_emits_quiet; [apply steps_emits_refl|done]|].
      solve_leaves. }
  intros s1 Hs1. cbn [negb].
  destruct (ZSTD_compress _ _ _) as [comp|] eqn:Hcomp.
  2:{ apply wp_bind, wp_free. intros s2 Hs2.
      apply wp_ret. eapply encode_failed; [done|exact (steps_emits_trans _ _ _ _ _ Hs1 Hs2)|solve_leaves]. }
  assert (Hcl : zlen comp < 2 ^ 31).
  { pose proof (compress_fits _ _ _ _ Hcomp).
    pose proof (bound_range (xlog_buf_len (xl_tsv b))). lia. }
  apply wp_bind. eapply wp_mono; [apply (buf_init_spec "body" (u64 (zlen comp + 64)))|].
  { rewrite uwrap_small; unfold fits; zlia. }
  intros [rc body] s2 [(Hrc & Hwf & Hd & _ & Hs2)|(Hrc & Hs2)]; cbn [fst snd] in *; subst rc.
  2:{ cbn. apply wp_bind, wp_free. intros s3 Hs3.
      apply wp_ret. eapply encode_failed; [done|exact (steps_emits_trans _ _ _ _ _
        (steps_emits_quiet _ _ _ _ Hs1 Hs2) Hs3)|solve_leaves]. }
  pose proof (steps_emits_trans _ _ _ _ _ Hs1 Hs2) as Hs02. cbn [negb Z.eqb].
  apply wp_bind. eapply wp_mono;
    [apply (encode_body_spec b (xlog_buf_len (xl_tsv b)) comp body s2 s2);
      [done|done|done|apply steps_quiet_refl]|].
  rewrite !(uwrap_small 32) by (unfold fits; lia).
  intros [rc body'] s3 (Hs3 & Hwf' & [[Hrc Hd']|Hrc]); cbn [fst snd] in *; subst rc.
  2:{ cbn. apply wp_bind, wp_free. intros s4 Hs4.
      apply wp_bind, wp_bind, wp_free. intros s5 Hs5.
      apply wp_ret. apply wp_ret. eapply encode_failed; [done|exact (steps_emits_trans _ _ _ _ _ (steps_emits_trans _ _ _ _ _
          (steps_emits_quiet _ _ _ _ Hs02 Hs3) Hs4) Hs5)|solve_leaves]. }
  rewrite Hd, app_nil_l in Hd'.
  pose proof (steps_emits_quiet _ _ _ _ Hs02 Hs3) as Hs03. cbn [negb Z.eqb XLOG_OK].
  apply wp_bind, wp_free. intros s4 Hs4.
  pose proof (steps_emits_trans _ _ _ _ _ Hs03 Hs4) as Hs04.
  apply wp_bind, wp_malloc.
  2:{ intros s5 Hs5 _. cbn. apply wp_bind, wp_bind, wp_free. intros s6 Hs6.
      apply wp_ret. apply wp_ret. eapply encode_failed; [done|exact (steps_emits_trans _ _ _ _ _ (steps_emits_quiet _ _ _ _ Hs04 Hs5) Hs6)|solve_leaves]. }
  intros s5 Hs5. cbn [negb].
  apply wp_bind. eapply wp_mono;
    [apply frame_ts_ms_spec, (steps_emits_trans _ _ _ _ _ Hs04 Hs5)|].
  intros ts s6 [Hts Hs6]. apply wp_bind.
  assert (Hlen : zlen (xb_data body') < 2 ^ 32).
  { rewrite Hd'. apply zlen_encoded_body; [|done].
    unfold sent_columns. destruct (xl_columns_csv b); zlia. }
  eapply wp_lift; [apply write_frame_spec; [lia| |lia]|].
  { unfold xlog_buf_len. rewrite zlen_replicate. zlia. }
  apply wp_bind, wp_bind, wp_free. intros s7 Hs7. apply wp_ret, wp_ret.
  eexists. split; [exact (steps_emits_trans _ _ _ _ _ Hs6 Hs7)|].
  left. split_and!; [done|solve_leaves|by intros E; unfold xlog_buf_len in Hne; rewrite E in Hne|].
  exists comp, ts. by rewrite Hd'.
Qed.
End encode.

Lemma tsv_of_last rows : tsv_of rows = [] \/ exists l, tsv_of rows = l ++ [10].
Proof.
  destruct rows as [|r rows _] using rev_ind; [by left|right].
  rewrite tsv_of_snoc, app_assoc. by eexists.
Qed.

(** Appending what fits allocates nothing; appending more needs memory. *)
Lemma buf_append_fits {S : Type} `{!HasWorld S} b src n (s : S) :
  buf_wf b -> 0 <= n <= zlen src -> xlog_buf_len b + n <= xb_cap b ->
  buf_append b src n s =
    Some (XLOG_OK, XlogBuf (xb_data b ++ take (Z.to_nat n) src) (xb_cap b), s).
Proof.
  intros [Hl Hc] Hn Hf. unfold buf_append, buf_grow.
  assert (0 <= xlog_buf_len b) by (unfold xlog_buf_len; zlia).
  rewrite uwrap_small, (proj2 (Z.leb_le _ _)) by (unfold fits; lia).
  rewrite load_some by lia. unfold mbind, ST_bind, mret, ST_ret, lift.
  cbn [Z.eqb XLOG_OK negb]. rewrite (proj2 (Z.leb_le _ _)) by lia.
  change (Z.to_nat 0) with 0%nat. by rewrite drop_0.
Qed.

Lemma buf_append_fails {S : Type} `{!HasWorld S} b src n (s : S) :
  buf_wf b -> 0 <= n <= zlen src -> xb_cap b < xlog_buf_len b + n ->
  xlog_buf_len b + n <= 2 ^ 60 -> next (w_alloc (world_of s)) = false ->
  exists s', buf_append b src n s = Some (XLOG_ERR_OOM, b, s').
Proof.
  intros [Hl Hc] Hn Hf Hb Ha. unfold buf_append, buf_grow.
  assert (0 <= xlog_buf_len b) by (unfold xlog_buf_len; zlia).
  rewrite uwrap_small, (proj2 (Z.leb_gt _ _)) by (unfold fits; lia).
  rewrite uwrap_small by (unfold fits; lia).
  destruct (grow_cap_spec 64 (xb_cap b * 2) (xlog_buf_len b + n))
    as (c & -> & _); [lia|lia|change (2 ^ Z.of_nat 64) with (2 ^ 64); lia|].
  unfold mbind, ST_bind, mret, ST_ret, lift, alloc_succeeds, consult.
  cbv zeta. rewrite Ha. by eexists.
Qed.

Lemma zlen_batch_frame tag agent seq ts body :
  zlen tag <= 255 ->
  zlen (batch_frame tag agent seq ts body) = 36 + zlen tag + zlen body.
Proof.
  intros. unfold batch_frame, WriteHeader.
  rewrite Z.gtb_ltb, (proj2 (Z.ltb_ge _ _)) by done.
  cbn [fh_Version fh_Type fh_Flags fh_Tag fh_AgentID fh_Seq fh_TsMs fh_BodyLen].
  autorewrite with zlen. lia.
Qed.

Lemma batch_frame_ok tag agent seq ts body :
  bytes_ok tag -> bytes_ok body -> bytes_ok (batch_frame tag agent seq ts body).
Proof.
  intros. unfold batch_frame, WriteHeader.
  cbn [fh_Version fh_Type fh_Flags fh_Tag fh_AgentID fh_Seq fh_TsMs fh_BodyLen].
  assert (bytes_ok (if zlen tag >? 255 then take 255 tag else tag))
    by (destruct (_ >? _); [by apply Forall_take|done]).
  solve_bytes_ok; try done. by apply uwrap_fits.
Qed.

Lemma ReadBatch_short r hdr lb r' :
  bytes_ok r -> ReadBatch r = Some (hdr, lb, r') -> zlen (lb_CompressedTSV lb) < 2 ^ 16.
Proof.
  intros Hr H. unfold ReadBatch in H.
  destruct (ReadHeader r) as [[h r1]|] eqn:E1; [|done]. cbn in H.
  destruct (ReadFull (fh_BodyLen h) r1) as [[body r2]|] eqn:E2; [|done]. cbn in H.
  destruct (DecodeBatch body) as [b|] eqn:E3; [|done]. cbn in H.
  injection H as <- <- <-. eapply DecodeBatch_short; [|exact E3].
  apply ReadFull_ok in E2 as [H _]; [done|]. by eapply ReadHeader_ok.
Qed.

(** * Theorems *)

Section theorems.
Context {S : Type} `{!HasWorld S} `{!Compressor} `{!CompressorLaws}.
Implicit Types s : S.

(** C6: what an agent uploads is what the server reads.  Encoding a well-formed
    batch always ends, with an error code and no frame or with a frame; if the
    compressed rows take at most 65535 bytes, the server's decoder, given the
    frame and whatever follows it in the stream, recovers the tag, the agent id,
    the sequence number, the row count, the columns and, after decompression,
    exactly the rows, and leaves what follows. *)
Theorem xlog_upload_roundtrip win32 b rows s :
  batch_wf b -> holds_rows b rows ->
  exists rc out s', xlog_batch_encode win32 (Some b) s = Some (rc, out, s') /\
    (rc < 0 /\ out = None \/
     rc = XLOG_OK /\ exists frame comp, out = Some frame /\
       ZSTD_decompress comp = Some (tsv_of rows) /\
       (zlen comp < 2 ^ 16 -> forall rest, exists ts lb,
          ReadBatch (frame ++ rest) = Some (mkFrameHeader Version TypeLogBatch 0
            (xl_tag b) (xl_agent_id b) (xl_seq b) ts (zlen frame - 36 - zlen (xl_tag b)),
            lb, rest) /\
          lb_RowCount lb = zlen rows /\ lb_OrigSize lb = zlen (tsv_of rows) /\
          lb_Columns lb = splitColumns (sent_columns (xl_columns_csv b)) /\
          lb_CompressedTSV lb = comp)).
Proof.
  intros Hwf [Hd Hn]. apply wp_triple. eapply wp_mono; [by apply encode_spec|].
  intros [rc out] s' (t & _ & [(Hrc & _ & Hne & comp & ts & Hts & Hc & Hl & Ho)|(? & ? & _)]);
    [right|by left]. cbn [fst snd] in *.
  split; [done|]. eexists _, comp. split; [exact Ho|].
  rewrite <- Hd. split; [by eapply compress_lossless|]. intros Hsmall rest.
  destruct Hwf as [_ Hcap Htag Ha Hs Hrows].
  unfold XLOG_MAX_FRAME_BODY, XLOG_MAX_TAG_LEN, xlog_buf_len in *.
  rewrite encoded_body_small by done. exists ts. eexists. split.
  - rewrite zlen_batch_frame by done.
    match goal with |- context [36 + ?t + ?n - 36 - ?t] =>
      replace (36 + t + n - 36 - t) with n by lia end.
    apply ReadBatch_frame; try done; try (unfold fits; zlia).
    + unfold sent_columns. destruct (xl_columns_csv b); zlia.
    + by eapply compress_nonempty.
  - cbn. by rewrite Hn.
Qed.

(** C37: a batch whose compressed rows take more than 65535 bytes is lost.  The
    frame is well formed up to its payload field, whose 16-bit length is the low
    half of the payload's; whatever the server's decoder makes of the frame, it
    is not the payload. *)
Theorem xlog_large_batch_lost win32 b s comp :
  batch_wf b -> bytes_ok (xb_data (xl_tsv b)) ->
  bytes_ok (sent_columns (xl_columns_csv b)) -> bytes_ok (xl_tag b) ->
  ZSTD_compress (ZSTD_compressBound (xlog_buf_len (xl_tsv b)))
    (xb_data (xl_tsv b)) 3 = Some comp ->
  2 ^ 16 <= zlen comp ->
  exists rc out s', xlog_batch_encode win32 (Some b) s = Some (rc, out, s') /\
    (rc < 0 /\ out = None \/
     rc = XLOG_OK /\ exists frame head, out = Some frame /\
       frame = head ++ [TagData] ++ be_bytes 2 (zlen comp) ++
               be_bytes 4 (zlen comp) ++ comp /\
       forall rest hdr lb r, bytes_ok rest ->
         ReadBatch (frame ++ rest) = Some (hdr, lb, r) -> lb_CompressedTSV lb <> comp).
Proof.
  intros Hwf Hb Hcols Htag Hc Hl.
  apply wp_triple. eapply wp_mono; [by apply encode_spec|].
  intros [rc out] s' (t & _ & [(Hrc & _ & Hne & comp' & ts & Hts & Hc' & Hl' & Ho)|(? & ? & _)]);
    [right|by left]. cbn [fst snd] in *.
  rewrite Hc' in Hc. injection Hc as ->. split; [done|]. destruct Hwf as [_ _ Ht _ _ _].
  eexists _, _. split; [exact Ho|]. split.
  - unfold batch_frame, encoded_body, encoded_data.
    rewrite Z.gtb_ltb, (proj2 (Z.ltb_lt _ _)) by lia. by rewrite !app_assoc.
  - intros rest hdr lb r Hrest Hread Heq.
    apply ReadBatch_short in Hread; [rewrite Heq in Hread; lia|].
    unfold bytes_ok. apply Forall_app_2; [|done].
    apply batch_frame_ok; [done|].
    apply encoded_body_ok; [done|by eapply compress_bytes, Hc'|].
    unfold sent_columns. destruct (xl_columns_csv b); zlia.
Qed.

(** The rows of a batch are accounted for.  Appending ends in one of four
    ways: refused because the batch would exceed 32 MB, leaving it as it was;
    accepted, the batch then holding the rows and the new one; out of memory
    with the batch as it was; or out of memory between the row and its newline,
    the row's bytes kept but not counted.  It never writes outside its buffer,
    and the batch stays well formed. *)
Theorem append_row_accounting b rows row s :
  batch_wf b -> holds_rows b rows -> zlen row < 2 ^ 32 ->
  exists rc b' s', xlog_batch_append_row b (Some row) s = Some (rc, b', s') /\
    batch_wf b' /\
    ((rc = XLOG_ERR_TOO_LARGE /\ b' = b /\
      XLOG_MAX_FRAME_BODY < zlen (tsv_of (rows ++ [row]))) \/
     (rc = XLOG_OK /\ holds_rows b' (rows ++ [row]) /\
      zlen (tsv_of (rows ++ [row])) <= XLOG_MAX_FRAME_BODY) \/
     (rc = XLOG_ERR_OOM /\ b' = b) \/
     (rc = XLOG_ERR_OOM /\ xb_data (xl_tsv b') = tsv_of rows ++ row /\
      xl_row_count b' = zlen rows)).
Proof.
  intros Hwf [Hd Hn] Hr. apply wp_triple.
  eapply wp_mono; [by apply append_row_spec|].
  intros [rc b'] s' (_ & Hwf' & Ha). cbn [fst snd] in *. split; [done|].
  rewrite tsv_of_snoc, !zlen_app. change (zlen [10]) with 1.
  unfold xlog_buf_len in Ha. rewrite Hd in Ha.
  destruct (Z.gtb_spec (zlen (tsv_of rows) + zlen row + 1) XLOG_MAX_FRAME_BODY).
  - injection Ha as -> ->. left. split_and!; [done|done|lia].
  - destruct Ha as [(-> & Hd' & Hn' & _)|(-> & [->|(tsv & -> & Hd')])].
    + right; left. split_and!; [done| |lia]. split; [by rewrite tsv_of_snoc|].
      rewrite Hn', Hn. autorewrite with zlen. lia.
    + do 2 right; by left.
    + do 3 right. by split_and!.
Qed.

(** C36: encoding leaks nothing.  On success exactly the returned frame is left
    allocated; on every error path - no memory for the compressed copy, for the
    body, while the body grows or for the frame, or a compressor error - nothing
    is. *)
Theorem xlog_encode_leak_free win32 b s :
  batch_wf b ->
  exists rc out s' t, xlog_batch_encode win32 (Some b) s = Some (rc, out, s') /\
    w_trace (world_of s') = w_trace (world_of s) ++ t /\
    forall blk, live blk t =
      if decide (blk = "frame"%string)
      then (if decide (rc = XLOG_OK) then 1 else 0) else 0.
Proof.
  intros Hwf. pose proof (encode_spec win32 b s Hwf) as ([rc out] & s' & E & He)%wp_run.
  destruct He as (t & (f & _ & Ht & _) & He). exists rc, out, s', t.
  split_and!; [done|done|]. intros blk. cbn [fst snd] in *.
  destruct He as [(-> & Hl & _)|(Hneg & _ & Hl)]; rewrite (Hl blk).
  - done.
  - rewrite (decide_False (P := rc = XLOG_OK)); [done|]. unfold XLOG_OK. lia.
Qed.
End theorems.

(** A row can be torn by memory exhaustion.  If the row fits the buffer
    exactly and growing it for the newline fails, [xlog_batch_append_row] reports
    XLOG_ERR_OOM but keeps the row's bytes: the batch no longer holds any list
    of rows, and the next row accepted is glued to the torn one. *)
Theorem append_row_oom_tears_row {S : Type} `{!HasWorld S} b rows row s :
  batch_wf b -> holds_rows b rows -> Forall (fun c => c <> 10) row -> row <> [] ->
  xlog_buf_len (xl_tsv b) + zlen row = xb_cap (xl_tsv b) ->
  xb_cap (xl_tsv b) < XLOG_MAX_FRAME_BODY ->
  next (w_alloc (world_of s)) = false ->
  exists b' s', xlog_batch_append_row b (Some row) s = Some (XLOG_ERR_OOM, b', s') /\
    xb_data (xl_tsv b') = tsv_of rows ++ row /\
    forall rows', ~ holds_rows b' rows'.
Proof.
  intros [[Hl Hc] Hcap _ _ _ _] [Hd Hn] Hrow Hne Hfull Hmax Hfail.
  unfold XLOG_MAX_FRAME_BODY, xlog_batch_append_row in *.
  assert (0 <= xlog_buf_len (xl_tsv b)) by (unfold xlog_buf_len; zlia).
  rewrite uwrap_small, Z.gtb_ltb, (proj2 (Z.ltb_ge _ _))
    by (unfold fits, XLOG_MAX_FRAME_BODY; zlia).
  unfold mbind, ST_bind. rewrite buf_append_fits by (done || zlia).
  cbn [Z.eqb XLOG_OK negb]. cbn [xl_tsv update].
  set (b1 := XlogBuf (xb_data (xl_tsv b) ++ take (Z.to_nat (zlen row)) row)
    (xb_cap (xl_tsv b))).
  assert (xlog_buf_len b1 = xb_cap (xl_tsv b)) as L1.
  { unfold xlog_buf_len in *. cbn [b1 xb_data].
    by rewrite zlen_app, to_nat_zlen, firstn_all. }
  destruct (buf_append_fails b1 [10] 1 s) as [s' E];
    [unfold buf_wf, xlog_buf_len in *; cbn [b1 xb_cap] in *; lia
    |done|cbn [b1 xb_cap] in *; lia|lia|done|].
  cbn [xl_tsv eta_xlog_batch] in *. rewrite E. cbn [Z.eqb XLOG_OK XLOG_ERR_OOM b1].
  assert (xb_data b1 = tsv_of rows ++ row) as D1.
  { cbn [b1 xb_data]. by rewrite to_nat_zlen, firstn_all, Hd. }
  eexists _, s'. split; [reflexivity|]. split; [exact D1|].
  intros rows' [Hd' _]. cbn [xl_tsv update] in Hd'.
  change (xb_data b1 = tsv_of rows') in Hd'. rewrite D1 in Hd'.
  destruct (tsv_of_last rows') as [E'|[l E']]; rewrite E' in Hd'.
  - destruct row; [done|]. by destruct (tsv_of rows).
  - destruct row as [|c row _] using rev_ind; [done|].
    rewrite app_assoc in Hd'. apply app_inj_tail in Hd' as [_ ->].
    apply Forall_app in Hrow as [_ Hrow]. by apply Forall_inv in Hrow.
Qed.

(** * Concrete runs, with the copying compressor *)

Definition sample_batch (data : bytes) (rows cap : Z) : xlog_batch :=
  XlogBatch (str "sysmon") (Some (str "agent_id,log")) 7 1 (XlogBuf data cap) rows.

Example xlog_upload_roundtrip_witness :
  let b := sample_batch (tsv_of [str "h1 logon"; str "h2 logoff"]) 2 8192 in
  let s := sample_world 7 (fun _ => []) in
  (exists frame s', xlog_batch_encode false (Some b) s = Some (XLOG_OK, Some frame, s')) /\
  exists rc out s', xlog_batch_encode false (Some b) s = Some (rc, out, s') /\
    (rc < 0 /\ out = None \/
     rc = XLOG_OK /\ exists frame comp, out = Some frame /\
       ZSTD_decompress comp = Some (tsv_of [str "h1 logon"; str "h2 logoff"]) /\
       (zlen comp < 2 ^ 16 -> forall rest, exists ts lb,
          ReadBatch (frame ++ rest) = Some (mkFrameHeader Version TypeLogBatch 0
            (xl_tag b) (xl_agent_id b) (xl_seq b) ts (zlen frame - 36 - zlen (xl_tag b)),
            lb, rest) /\
          lb_RowCount lb = 2 /\
          lb_OrigSize lb = zlen (tsv_of [str "h1 logon"; str "h2 logoff"]) /\
          lb_Columns lb = splitColumns (sent_columns (xl_columns_csv b)) /\
          lb_CompressedTSV lb = comp)).
Proof.
  intros b s. split; [eexists _, _; vm_compute; reflexivity|].
  apply (xlog_upload_roundtrip false b [str "h1 logon"; str "h2 logoff"] s); [|done].
  constructor; repeat split; vm_compute; done.
Defined.

Definition large_tsv : bytes := replicate (Z.to_nat 70000) 97 ++ [10].

Example xlog_large_batch_lost_witness :
  let b := sample_batch large_tsv 1 131072 in
  exists rc out s',
    xlog_batch_encode false (Some b) (sample_world 7 (fun _ => [])) = Some (rc, out, s') /\
    (rc < 0 /\ out = None \/
     rc = XLOG_OK /\ exists frame head, out = Some frame /\
       frame = head ++ [TagData] ++ be_bytes 2 (zlen large_tsv) ++
               be_bytes 4 (zlen large_tsv) ++ large_tsv /\
       forall rest hdr lb r, bytes_ok rest ->
         ReadBatch (frame ++ rest) = Some (hdr, lb, r) ->
         lb_CompressedTSV lb <> large_tsv).
Proof.
  intros b.
  apply (xlog_large_batch_lost false b (sample_world 7 (fun _ => [])) large_tsv).
  - constructor; repeat split; vm_compute; done.
  - apply Forall_app. split; [by apply Forall_replicate|by repeat constructor].
  - repeat constructor; done.
  - repeat constructor; done.
  - apply passthrough_small. vm_compute. done.
  - vm_compute. done.
Defined.

Example append_row_accounting_witness :
  let b := sample_batch (tsv_of [str "h1 logon"]) 1 8192 in
  exists rc b' s', xlog_batch_append_row b (Some (str "h2 logoff"))
      (sample_world 7 (fun _ => [])) = Some (rc, b', s') /\
    batch_wf b' /\
    ((rc = XLOG_ERR_TOO_LARGE /\ b' = b /\
      XLOG_MAX_FRAME_BODY < zlen (tsv_of ([str "h1 logon"] ++ [str "h2 logoff"]))) \/
     (rc = XLOG_OK /\ holds_rows b' ([str "h1 logon"] ++ [str "h2 logoff"]) /\
      zlen (tsv_of ([str "h1 logon"] ++ [str "h2 logoff"])) <= XLOG_MAX_FRAME_BODY) \/
     (rc = XLOG_ERR_OOM /\ b' = b) \/
     (rc = XLOG_ERR_OOM /\
      xb_data (xl_tsv b') = tsv_of [str "h1 logon"] ++ str "h2 logoff" /\
      xl_row_count b' = 1)).
Proof.
  intros b. apply (append_row_accounting b [str "h1 logon"] (str "h2 logoff"));
    [constructor; repeat split; vm_compute; done|done|done].
Defined.

Example xlog_encode_leak_free_witness :
  let b := sample_batch (tsv_of [str "h1 logon"]) 1 8192 in
  let s := sample_world 7 (fun _ => []) in
  exists rc out s' t, xlog_batch_encode true (Some b) s = Some (rc, out, s') /\
    w_trace (world_of s') = w_trace (world_of s) ++ t /\
    forall blk, live blk t =
      if decide (blk = "frame"%string)
      then (if decide (rc = XLOG_OK) then 1 else 0) else 0.
Proof.
  intros b s. apply (xlog_encode_leak_free true b s).
  constructor; repeat split; vm_compute; done.
Defined.

Example append_row_oom_tears_row_witness :
  let b := sample_batch (tsv_of [str "h1"]) 1 8 in
  let s := (sample_world 7 (fun _ => [])) <| w_alloc := always false |> in
  exists b' s', xlog_batch_append_row b (Some (str "abcde")) s
      = Some (XLOG_ERR_OOM, b', s') /\
    xb_data (xl_tsv b') = tsv_of [str "h1"] ++ str "abcde" /\
    forall rows', ~ holds_rows b' rows'.
Proof.
  intros b s. apply (append_row_oom_tears_row b [str "h1"] (str "abcde") s);
    [constructor; repeat split; vm_compute; done|done|by repeat constructor|done..].
Defined.
