(* ===== verification/Json.v ===== *)
(** JSON texts, as the gateway's requests and records need them: a data type of
    documents, its canonical text, and a decoder that inverts it. This is the
    specification the texts built in gateway/plugins/in_xsiam_agent are
    compared with; strings are byte strings. *)
From S2P Require Import Prelude.
#[local] Open Scope Z_scope.

Inductive json :=
| JStr (s : bytes)
| JInt (digits : bytes)
| JBool (b : bool)
| JArr (l : list json)
| JObj (l : list (bytes * json)).

Definition QUOTE : Z := 34.
Definition BACKSLASH : Z := 92.

(** * Strings *)

Definition escape_byte (c : Z) : bytes :=
  if c =? 92 then [92; 92] else
  if c =? 34 then [92; 34] else
  if c =? 10 then [92; 110] else
  if c =? 13 then [92; 114] else
  if c =? 9 then [92; 116] else
  if c <? 32 then str "\u00" ++ hex2 c
  else [c].

Definition escape (s : bytes) : bytes := concat (map escape_byte s).

Definition unhex (c : Z) : option Z :=
  if (48 <=? c) && (c <=? 57) then Some (c - 48) else
  if (97 <=? c) && (c <=? 102) then Some (c - 87) else
  if (65 <=? c) && (c <=? 70) then Some (c - 55) else None.

(** The character after a backslash; [\u] is read for code points below 256. *)
Definition unescape1 (c : Z) : option Z :=
  if (c =? 92) || (c =? 34) || (c =? 47) then Some c else
  if c =? 110 then Some 10 else
  if c =? 114 then Some 13 else
  if c =? 116 then Some 9 else
  if c =? 98 then Some 8 else
  if c =? 102 then Some 12 else None.

(** The rest of a string literal, after its opening quote: what it denotes and
    what follows the closing quote. *)
Fixpoint scan_string (l : bytes) : option (bytes * bytes) :=
  let put (c : Z) (r : option (bytes * bytes)) :=
    match r with Some (s, rest) => Some (c :: s, rest) | None => None end in
  match l with
  | [] => None
  | c :: rest =>
      if c =? 34 then Some ([], rest) else
      if c <? 32 then None else
      if c =? 92 then
        match rest with
        | e :: rest =>
            if e =? 117 then
              match rest with
              | z1 :: z2 :: h1 :: h2 :: rest =>
                  match unhex h1, unhex h2 with
                  | Some a, Some b =>
                      if (z1 =? 48) && (z2 =? 48) then put (16 * a + b) (scan_string rest)
                      else None
                  | _, _ => None
                  end
              | _ => None
              end
            else match unescape1 e with
                 | Some c => put c (scan_string rest)
                 | None => None
                 end
        | [] => None
        end
      else put c (scan_string rest)
  end.

Lemma scan_plain c rest : 32 <= c -> c <> 34 -> c <> 92 ->
  scan_string (c :: rest) =
  match scan_string rest with Some (s, r) => Some (c :: s, r) | None => None end.
Proof.
  intros. cbn [scan_string]. destruct (Z.eqb_spec c 34); [lia|].
  destruct (Z.ltb_spec c 32); [lia|]. by destruct (Z.eqb_spec c 92).
Qed.

Definition unhex_ok (c : Z) : bool :=
  bool_decide (unhex (hex_digit (c / 16)) = Some (c / 16)) &&
  bool_decide (unhex (hex_digit (c mod 16)) = Some (c mod 16)).

Lemma unhex_hex2 c : byte_ok c -> unhex_ok c = true.
Proof. by apply byte_forall. Qed.

Lemma scan_escape_byte c rest : byte_ok c ->
  scan_string (escape_byte c ++ rest) =
  match scan_string rest with Some (s, r) => Some (c :: s, r) | None => None end.
Proof.
  intros Hc. unfold escape_byte.
  destruct (Z.eqb_spec c 92) as [->|]; [done|].
  destruct (Z.eqb_spec c 34) as [->|]; [done|].
  destruct (Z.eqb_spec c 10) as [->|]; [done|].
  destruct (Z.eqb_spec c 13) as [->|]; [done|].
  destruct (Z.eqb_spec c 9) as [->|]; [done|].
  destruct (Z.ltb_spec c 32); [|by apply scan_plain].
  pose proof (unhex_hex2 c Hc) as Hu. apply andb_prop in Hu as [Hu1 Hu2].
  apply bool_decide_eq_true in Hu1, Hu2.
  change (str "\u00" ++ hex2 c) with [92; 117; 48; 48; hex_digit (c / 16); hex_digit (c mod 16)].
  cbn [app scan_string Z.eqb Z.ltb Z.compare Pos.compare Pos.compare_cont Pos.eqb andb].
  rewrite Hu1, Hu2. replace (16 * (c / 16) + c mod 16) with c; [done|].
  by apply Z.div_mod.
Qed.

(** A string literal denotes the string it was written for, whatever it holds. *)
Lemma scan_escape s rest : bytes_ok s ->
  scan_string (escape s ++ QUOTE :: rest) = Some (s, rest).
Proof.
  induction 1 as [|c s Hc Hs IH]; [done|].
  change (escape (c :: s)) with (escape_byte c ++ escape s).
  by rewrite <- app_assoc, scan_escape_byte, IH.
Qed.

(** * Documents *)

Definition literal (s : bytes) : bytes := QUOTE :: escape s ++ [QUOTE].

Fixpoint commas (l : list bytes) : bytes :=
  match l with
  | [] => []
  | [x] => x
  | x :: rest => x ++ 44 :: commas rest
  end.

Fixpoint render (j : json) : bytes :=
  match j with
  | JStr s => literal s
  | JInt digits => digits
  | JBool b => if b then str "true" else str "false"
  | JArr l => 91 :: commas (map render l) ++ [93]
  | JObj l => 123 :: commas (map (fun kv => literal (fst kv) ++ 58 :: render (snd kv)) l) ++ [125]
  end.

Definition is_digit (c : Z) : bool := (48 <=? c) && (c <=? 57).

Fixpoint json_ok (j : json) : Prop :=
  match j with
  | JStr s => bytes_ok s
  | JInt digits => digits <> [] /\ forallb is_digit digits = true
  | JBool _ => True
  | JArr l => foldr (fun j P => json_ok j /\ P) True l
  | JObj l => foldr (fun kv P => (bytes_ok (fst kv) /\ json_ok (snd kv)) /\ P) True l
  end.

Fixpoint digits_of (l : bytes) : bytes * bytes :=
  match l with
  | c :: rest =>
      if is_digit c then let '(d, r) := digits_of rest in (c :: d, r) else ([], l)
  | [] => ([], [])
  end.

Definition strip_prefix (p l : bytes) : option bytes :=
  if bool_decide (take (length p) l = p) then Some (drop (length p) l) else None.

(** Recursive descent; [fuel] bounds the number of nested calls. *)
Fixpoint parse (fuel : nat) (l : bytes) {struct fuel} : option (json * bytes) :=
  match fuel with
  | O => None
  | Datatypes.S n =>
      match l with
      | [] => None
      | c :: rest =>
          if c =? 34 then '(s, r) ← scan_string rest; Some (JStr s, r) else
          if c =? 91 then
            match rest with
            | d :: r => if d =? 93 then Some (JArr [], r)
                        else '(js, r) ← parse_elems n rest; Some (JArr js, r)
            | [] => None
            end else
          if c =? 123 then
            match rest with
            | d :: r => if d =? 125 then Some (JObj [], r)
                        else '(kvs, r) ← parse_fields n rest; Some (JObj kvs, r)
            | [] => None
            end else
          if is_digit c then let '(ds, r) := digits_of l in Some (JInt ds, r) else
          match strip_prefix (str "true") l with
          | Some r => Some (JBool true, r)
          | None => r ← strip_prefix (str "false") l; Some (JBool false, r)
          end
      end
  end
with parse_elems (fuel : nat) (l : bytes) {struct fuel} : option (list json * bytes) :=
  match fuel with
  | O => None
  | Datatypes.S n =>
      '(j, r) ← parse n l;
      match r with
      | c :: r =>
          if c =? 44 then '(js, r) ← parse_elems n r; Some (j :: js, r)
          else if c =? 93 then Some ([j], r) else None
      | [] => None
      end
  end
with parse_fields (fuel : nat) (l : bytes) {struct fuel}
    : option (list (bytes * json) * bytes) :=
  match fuel with
  | O => None
  | Datatypes.S n =>
      match l with
      | [] => None
      | c :: l =>
          if negb (c =? 34) then None else
          '(k, r) ← scan_string l;
          match r with
          | [] => None
          | c :: r =>
              if negb (c =? 58) then None else
              '(j, r) ← parse n r;
              match r with
              | c :: r =>
                  if c =? 44 then '(js, r) ← parse_fields n r; Some ((k, j) :: js, r)
                  else if c =? 125 then Some ([(k, j)], r) else None
              | [] => None
              end
          end
      end
  end.

Definition json_decode (l : bytes) : option json :=
  match parse (length l) l with
  | Some (j, []) => Some j
  | _ => None
  end.

(** * Decoding inverts the text *)

Definition stops (l : bytes) : Prop :=
  match l with c :: _ => is_digit c = false | [] => True end.

Lemma digits_of_app d rest :
  forallb is_digit d = true -> stops rest -> digits_of (d ++ rest) = (d, rest).
Proof.
  induction d as [|c d IH]; cbn [forallb app digits_of].
  - intros _. destruct rest as [|c rest]; [done|]. cbn. by intros ->.
  - intros Hcd Hs. apply andb_prop in Hcd as [Hc Hd]. by rewrite Hc, IH.
Qed.

Lemma render_head j : json_ok j -> exists c r, render j = c :: r /\ c <> 93.
Proof.
  destruct j as [s|d|[]|l|l]; cbn [json_ok render]; try (by intros _; eexists _, _).
  intros [Hd Hf]. destruct d as [|c d]; [done|]. exists c, d. split; [done|].
  cbn in Hf. unfold is_digit in Hf. lia.
Qed.

Lemma scan_literal s rest : bytes_ok s ->
  scan_string (escape s ++ [QUOTE] ++ rest) = Some (s, rest).
Proof. apply scan_escape. Qed.

Definition fields_text (l : list (bytes * json)) : bytes :=
  commas (map (fun kv => literal (fst kv) ++ 58 :: render (snd kv)) l).

Lemma commas_cons x y l : commas (x :: y :: l) = x ++ 44 :: commas (y :: l).
Proof. done. Qed.

Lemma commas_snoc l x : l <> [] -> commas (l ++ [x]) = commas l ++ [44] ++ x.
Proof.
  induction l as [|y l IH]; [done|]. intros _. destruct l as [|z l]; [done|].
  cbn [app]. rewrite !commas_cons. change (z :: l ++ [x]) with ((z :: l) ++ [x]).
  rewrite IH by done. by rewrite <- !app_assoc.
Qed.

Lemma parse_render n :
  (forall j rest, json_ok j -> stops rest -> (length (render j) <= n)%nat ->
     parse n (render j ++ rest) = Some (j, rest)) /\
  (forall l rest, l <> [] -> json_ok (JArr l) -> (length (commas (map render l)) < n)%nat ->
     parse_elems n (commas (map render l) ++ 93 :: rest) = Some (l, rest)) /\
  (forall l rest, l <> [] -> json_ok (JObj l) -> (length (fields_text l) < n)%nat ->
     parse_fields n (fields_text l ++ 125 :: rest) = Some (l, rest)).
Proof.
  induction n as [|n (IHj & IHa & IHo)].
  { split_and!; [|lia..]. intros j rest Hok _ Hl.
    destruct (render_head j Hok) as (c & r & E & _). rewrite E in Hl. cbn in Hl. lia. }
  split_and!.
  - intros j rest Hok Hst Hl. destruct j as [s|d|b|l|l]; cbn [render json_ok] in *.
    + cbn [parse literal app]. change (QUOTE =? 34) with true. cbn iota.
      by rewrite <- app_assoc, scan_literal.
    + destruct Hok as [Hne Hd]. destruct d as [|c d]; [done|].
      pose proof Hd as Hd'. cbn [forallb] in Hd'. apply andb_prop in Hd' as [Hc _].
      cbn [parse app]. rewrite Hc. unfold is_digit in Hc.
      destruct (Z.eqb_spec c 34); [lia|]. destruct (Z.eqb_spec c 91); [lia|].
      destruct (Z.eqb_spec c 123); [lia|].
      change (c :: d ++ rest) with ((c :: d) ++ rest). by rewrite digits_of_app.
    + by destruct b.
    + destruct l as [|j l]; [done|].
      cbn [app]. rewrite <- app_assoc. cbn [parse Z.eqb Pos.eqb app].
      destruct (render_head j) as (c & r & E & Hc); [apply Hok|].
      assert (exists r', commas (map render (j :: l)) = c :: r') as [r' E'].
      { cbn [map commas]. destruct (map render l); rewrite E; by eexists. }
      specialize (IHa (j :: l) rest). rewrite E' in *. cbn [app] in *.
      destruct (Z.eqb_spec c 93); [done|]. rewrite IHa; [done..|].
      cbn in Hl. rewrite length_app in Hl. cbn in *. lia.
    + destruct l as [|[k j] l]; [done|].
      fold (fields_text ((k, j) :: l)) in *.
      cbn [app]. rewrite <- app_assoc. cbn [parse Z.eqb Pos.eqb app].
      assert (exists r', fields_text ((k, j) :: l) = 34 :: r') as [r' E'].
      { unfold fields_text. cbn [map commas fst snd]. destruct (map _ l); by eexists. }
      specialize (IHo ((k, j) :: l) rest). rewrite E' in *. cbn [app] in *.
      change (34 =? 125) with false. cbn iota. rewrite IHo; [done..|].
      cbn in Hl. rewrite length_app in Hl. cbn in *. lia.
  - intros [|j l] rest Hne; [done|]. intros [Hj Hl] Hlen. cbn [map] in *. destruct l as [|j2 l].
    + cbn [map commas] in *. cbn [parse_elems]. rewrite IHj; [done|done|done|lia].
    + cbn [map] in *. rewrite commas_cons in *. rewrite length_app in Hlen. cbn in Hlen.
      cbn [parse_elems]. rewrite <- app_assoc, IHj; [|done|done|lia]. cbn [mbind option_bind].
      cbn [app Z.eqb Pos.eqb]. specialize (IHa (j2 :: l) rest). cbn [map] in IHa.
      rewrite IHa; [done|done|done|cbn; lia].
  - intros [|[k j] l] rest Hne; [done|]. intros [[Hk Hj] Hl] Hlen.
    cbn [fst snd] in *. unfold fields_text in *. cbn [map] in *.
    assert (Hlit : forall rest, parse_fields (Datatypes.S n)
        (literal k ++ 58 :: rest) =
        '(j, r) ← parse n rest;
        match r with
        | c :: r =>
            if c =? 44 then '(js, r) ← parse_fields n r; Some ((k, j) :: js, r)
            else if c =? 125 then Some ([(k, j)], r) else None
        | [] => None
        end).
    { intros tl. unfold literal. cbn [app parse_fields]. change (QUOTE =? 34) with true.
      cbn [negb]. rewrite <- app_assoc. rewrite scan_literal by done. done. }
    destruct l as [|kv2 l].
    + cbn [map commas fst snd] in *. rewrite length_app in Hlen. cbn in Hlen.
      rewrite <- app_assoc. cbn [app]. rewrite Hlit, IHj; [done|done|done|lia].
    + cbn [map] in *. rewrite commas_cons in *. cbn [fst snd] in *.
      rewrite !length_app in Hlen. cbn in Hlen. rewrite <- !app_assoc. cbn [app].
      rewrite Hlit, IHj; [|done|done|lia]. cbn [mbind option_bind app Z.eqb Pos.eqb].
      specialize (IHo (kv2 :: l) rest). cbn [map] in IHo.
      rewrite IHo; [done|done|done|cbn; lia].
Qed.

(** The text of a document decodes to the document. *)
Lemma json_decode_render j : json_ok j -> json_decode (render j) = Some j.
Proof.
  intros Hj. unfold json_decode. destruct (parse_render (length (render j))) as (H & _ & _).
  rewrite <- (app_nil_r (render j)) at 2. by rewrite H.
Qed.
