(* ===== verification/GwState.v ===== *)
(** The gateway's data and its agent table: xsiam_agent_defs.h (structures, wire
    and string helpers), xsiam_agent_event.c (identifiers and lifecycle events)
    and xsiam_agent_state.c (the state machine of an agent), all under
    gateway/plugins/in_xsiam_agent. *)
From S2P Require Import Prelude Json.
From stdpp Require Export gmap.
#[local] Open Scope Z_scope.

(** * Constants (xsiam_agent_defs.h) *)

Definition WZCP_MAGIC : Z := 0x575A4350.
Definition WZCP_VERSION : Z := 1.
Definition WZCP_HEADER_SIZE : Z := 32.
Definition WZCP_MAX_FRAME : Z := 1024 * 1024.

Definition WZCP_MSG_HELLO : Z := 1.
Definition WZCP_MSG_EVENT_BATCH : Z := 2.
Definition WZCP_MSG_ACK : Z := 3.
Definition WZCP_MSG_HEARTBEAT : Z := 4.
Definition WZCP_MSG_CONTROL : Z := 5.
Definition WZCP_MSG_ERROR : Z := 6.

Record wzcp_header := GwHeader {
  wh_magic : Z;
  wh_version : Z;
  wh_header_len : Z;
  wh_flags : Z;
  wh_msg_type : Z;
  wh_agent_id : Z;
  wh_seq : Z;
  wh_timestamp_ms : Z;
  wh_body_len : Z;
}.

Definition XSIAM_DB_HOST := str "127.0.0.1".
Definition XSIAM_DB_PORT : Z := 8529.
Definition XSIAM_DB_USER := str "root".
Definition XSIAM_DB_PASS := str "changeme".
Definition XSIAM_DB_NAME := str "xsiamdb".
Definition XSIAM_DB_FLUSH_INTERVAL : Z := 5.
Definition XSIAM_DB_HEARTBEAT_FLUSH_INTERVAL : Z := 180.

Definition XSIAM_EVENT_PORT : Z := 18090.
Definition XSIAM_EVENT_PATH := str "/internal/agent/event".
Definition XSIAM_FB_LEASE_INTERVAL : Z := 10.

Definition SESSION_PROTO_UNKNOWN := str "unknown".
Definition SESSION_PROTO_AGENT_WZCP := str "agent_wzcp".
Definition SESSION_PROTO_SYSLOG := str "syslog".
Definition SESSION_GROUP_UNKNOWN := str "unknown".
Definition SESSION_GROUP_AGENT := str "agent".
Definition SESSION_GROUP_DEVICE := str "device".

(** * Structures

    Pointers to engine objects are flags (null or not); strings are [option]
    where the code tests them for null.  The runtime lists of the context are
    fields of [gw] below. *)

Record xsiam_agent_ctx := Ctx {
  ctx_listen : option bytes;
  ctx_tcp_port : option bytes;
  ctx_arango_host : option bytes;
  ctx_arango_user : option bytes;
  ctx_arango_pass : option bytes;
  ctx_arango_database : option bytes;
  ctx_arango_port : Z;
  ctx_db_sync : bool;
  ctx_db_flush_interval : Z;
  ctx_heartbeat_flush_interval : Z;
  ctx_event_host : option bytes;
  ctx_event_port : Z;
  ctx_event_enabled : bool;
  ctx_fb_instance_id : bytes;
  ctx_tenant_id : option bytes;
  ctx_chunk_size_str : option bytes;
  ctx_buffer_size_str : option bytes;
  ctx_chunk_size : Z;
  ctx_buffer_size : Z;
  ctx_heartbeat_min : Z;
  ctx_heartbeat_max : Z;
  ctx_collector_id : Z;
  ctx_heartbeat_collector_id : Z;
  ctx_db_collector_id : Z;
  ctx_fb_lease_collector_id : Z;
  ctx_gateway_seq : Z;
  ctx_session_seq : Z;
  ctx_rand_state : Z;
  ctx_downstream : bool;
  ctx_arango_upstream : bool;
  ctx_event_upstream : bool;
  ctx_log_encoder : bool;
}.
#[export] Instance eta_ctx : Eta xsiam_agent_ctx := fun c =>
  Ctx (ctx_listen c) (ctx_tcp_port c) (ctx_arango_host c) (ctx_arango_user c)
    (ctx_arango_pass c) (ctx_arango_database c) (ctx_arango_port c)
    (ctx_db_sync c) (ctx_db_flush_interval c) (ctx_heartbeat_flush_interval c)
    (ctx_event_host c) (ctx_event_port c) (ctx_event_enabled c)
    (ctx_fb_instance_id c) (ctx_tenant_id c) (ctx_chunk_size_str c)
    (ctx_buffer_size_str c) (ctx_chunk_size c) (ctx_buffer_size c)
    (ctx_heartbeat_min c) (ctx_heartbeat_max c) (ctx_collector_id c)
    (ctx_heartbeat_collector_id c) (ctx_db_collector_id c)
    (ctx_fb_lease_collector_id c) (ctx_gateway_seq c) (ctx_session_seq c)
    (ctx_rand_state c) (ctx_downstream c) (ctx_arango_upstream c)
    (ctx_event_upstream c) (ctx_log_encoder c).

Record xsiam_agent_conn := Conn {
  conn_connection : Z;              (* socket *)
  conn_buf_data : bytes;            (* object of [buf_size] bytes *)
  conn_buf_len : Z;
  conn_buf_size : Z;
  conn_busy : bool;
  conn_pending_close : bool;
  conn_next_heartbeat : Z;
  conn_agent_key : option bytes;
  conn_protocol_tag : option bytes;
  conn_client_group : option bytes;
  conn_session_id : bytes;
}.
#[export] Instance eta_conn : Eta xsiam_agent_conn := fun c =>
  Conn (conn_connection c) (conn_buf_data c) (conn_buf_len c) (conn_buf_size c)
    (conn_busy c) (conn_pending_close c) (conn_next_heartbeat c)
    (conn_agent_key c) (conn_protocol_tag c) (conn_client_group c)
    (conn_session_id c).

Record xsiam_agent_state := Agent {
  st_agent_id : bytes;
  st_tenant_id : bytes;
  st_hostname : bytes;
  st_host_type : bytes;
  st_agent_version : bytes;
  st_agent_status : bytes;
  st_gateway_id : bytes;
  st_ip : bytes;
  st_mac_addresses_json : bytes;
  st_is_connected : bool;
  st_installed_at : Z;
  st_connected_at : Z;
  st_last_heartbeat : Z;
  st_last_seen : Z;
  st_created_at : Z;
  st_updated_at : Z;
  st_last_db_flush : Z;
  st_dirty : bool;
}.
#[export] Instance eta_agent : Eta xsiam_agent_state := fun a =>
  Agent (st_agent_id a) (st_tenant_id a) (st_hostname a) (st_host_type a)
    (st_agent_version a) (st_agent_status a) (st_gateway_id a) (st_ip a)
    (st_mac_addresses_json a) (st_is_connected a) (st_installed_at a)
    (st_connected_at a) (st_last_heartbeat a) (st_last_seen a)
    (st_created_at a) (st_updated_at a) (st_last_db_flush a) (st_dirty a).

(** The plugin instance: the context, its agent list in list order (a pointer to
    an agent is its position; agents are only ever appended until shutdown), its
    connection list, the heap of connection objects by address, the records
    committed to the log encoder since its last reset, and what [rand_r] will
    answer (a value and the next seed). *)
Record gw := Gw {
  g_ctx : xsiam_agent_ctx;
  g_agents : list xsiam_agent_state;
  g_connections : list nat;
  g_heap : gmap nat xsiam_agent_conn;
  g_fresh : nat;
  g_records : list log_record;
  g_rand : oracle (Z * Z);
  g_world : world;
}.
#[export] Instance eta_gw : Eta gw := fun g =>
  Gw (g_ctx g) (g_agents g) (g_connections g) (g_heap g) (g_fresh g)
    (g_records g) (g_rand g) (g_world g).

#[export] Instance gw_has_world : HasWorld gw :=
  {| world_of := g_world; in_world f g := g <| g_world := f (g_world g) |>;
     world_of_in_world _ _ := eq_refl; in_world_compose _ _ _ := eq_refl;
     in_world_id g := ltac:(by destruct g) |}.

(** Access to the heap; an address that is not allocated is undefined behaviour. *)
Definition get_conn (conn : nat) : ST gw xsiam_agent_conn :=
  c ← gets (fun g => g_heap g !! conn); lift c.

Definition set_conn (conn : nat) (f : xsiam_agent_conn -> xsiam_agent_conn)
    : ST gw unit :=
  c ← get_conn conn;
  modify (fun g => g <| g_heap := <[conn := f c]> (g_heap g) |>).

Definition set_ctx (f : xsiam_agent_ctx -> xsiam_agent_ctx) : ST gw unit :=
  modify (fun g => g <| g_ctx := f (g_ctx g) |>).

Definition get_agent (st : nat) : ST gw xsiam_agent_state :=
  a ← gets (fun g => g_agents g !! st); lift a.

Definition set_agent (st : nat) (f : xsiam_agent_state -> xsiam_agent_state)
    : ST gw unit :=
  a ← get_agent st;
  modify (fun g => g <| g_agents := <[st := f a]> (g_agents g) |>).

(** * Helpers (xsiam_agent_defs.h) *)

Definition get_be16 (p : bytes) : option Z :=
  match p with
  | p0 :: p1 :: _ => Some (Z.lor (Z.shiftl p0 8) p1)
  | _ => None
  end.

Definition get_be32 (p : bytes) : option Z :=
  match p with
  | p0 :: p1 :: p2 :: p3 :: _ =>
      Some (Z.lor (Z.lor (Z.lor (Z.shiftl p0 24) (Z.shiftl p1 16))
                    (Z.shiftl p2 8)) p3)
  | _ => None
  end.

Definition get_be64 (p : bytes) : option Z :=
  hi ← get_be32 p;
  lo ← get_be32 (drop 4 p);
  Some (Z.lor (Z.shiftl hi 32) lo).

Definition put_be32 (v : Z) : bytes :=
  [u8 (Z.shiftr v 24); u8 (Z.shiftr v 16); u8 (Z.shiftr v 8); u8 v].

Definition put_be64 (v : Z) : bytes :=
  put_be32 (u32 (Z.shiftr v 32)) ++ put_be32 (u32 v).

(** [xstrdup] where the caller tests the result. *)
Definition xstrdup (s : bytes) : ST gw (option bytes) :=
  ok ← alloc_succeeds; mret (if ok : bool then Some s else None).

(** The new value of [*dst]: unchanged when there is no memory. *)
Definition replace_str (dst : bytes) (src : bytes) : ST gw bytes :=
  tmp ← xstrdup src;
  mret (match tmp with Some tmp => tmp | None => dst end).

(** The same for a connection's strings, which may be null and whose blocks the
    trace labels. *)
Definition replace_opt_str (block : string) (dst : option bytes) (src : bytes)
    : ST gw (option bytes) :=
  ok ← malloc block;
  if ok : bool then _ ← free_opt block dst; mret (Some src) else mret dst.

Definition now_sec : ST gw Z := time_now.

(** * Identifiers and lifecycle events (xsiam_agent_event.c) *)

(** The bytes the linear congruential generator yields, and its next state. *)
Fixpoint lcg_bytes (n : nat) (rand_state : Z) : bytes * Z :=
  match n with
  | O => ([], rand_state)
  | S k =>
      let r := u32 (u32 (rand_state * 1664525) + 1013904223) in
      let '(rest, r') := lcg_bytes k r in
      (u8 (Z.shiftr r 16) :: rest, r')
  end.

Definition gen_uuid_v4 (rand_state : Z) : bytes * Z :=
  let '(b, r) := lcg_bytes 16 rand_state in (uuid_text (set_bits b), r).

Definition tenant_or_default (ctx : xsiam_agent_ctx) : bytes :=
  match ctx_tenant_id ctx with
  | Some (c :: t) => c :: t
  | _ => str "tenant-default"
  end.

(** [JQ] is a double quote. *)
Definition JQ : Z := 34.
Definition quoted (s : bytes) : bytes := [JQ] ++ s ++ [JQ].

Definition event_body (ctx : xsiam_agent_ctx) (event : bytes)
    (agent_id : option bytes) : bytes :=
  let body := str "{" ++ quoted (str "event") ++ str ":" ++ [JQ] in
  let body := body ++ event in
  let body := body ++ [JQ] ++ str "," ++ quoted (str "fb_instance_id") ++
              str ":" ++ [JQ] in
  let body := body ++ ctx_fb_instance_id ctx in
  let body := body ++ [JQ] ++ str "," ++ quoted (str "tenant_id") ++
              str ":" ++ [JQ] in
  let body := body ++ tenant_or_default ctx in
  let body := match agent_id with
              | Some (c :: id) =>
                  body ++ [JQ] ++ str "," ++ quoted (str "agent_id") ++
                  str ":" ++ [JQ] ++ (c :: id)
              | _ => body
              end in
  body ++ [JQ] ++ str "}".

Definition post_agent_event (event : bytes) (agent_id : option bytes)
    : ST gw unit :=
  ctx ← gets g_ctx;
  if negb (ctx_event_enabled ctx) || negb (ctx_event_upstream ctx)
  then mret tt else
  body ← alloc_succeeds;
  if negb body then mret tt else
  _ ← grow 256 (event_body ctx event agent_id);
  _ ← http_post XSIAM_EVENT_PATH
        [(str "Content-Type", str "application/json")]
        (event_body ctx event agent_id);
  mret tt.

Definition fb_lease_collect : ST gw Z :=
  _ ← post_agent_event (str "fb_heartbeat") None; mret 0.

(** * The agent table (xsiam_agent_state.c) *)

Definition find_agent (agent_id : bytes) (agents : list xsiam_agent_state)
    : option nat :=
  fst <$> list_find (fun st => st_agent_id st = agent_id) agents.

(** A new entry, from its strings. *)
Definition new_entry (agent_id tenant hostname type_ version status gateway ip : bytes)
    (now : Z) : xsiam_agent_state :=
  {| st_agent_id := agent_id;
     st_tenant_id := tenant;
     st_hostname := hostname;
     st_host_type := type_;
     st_agent_version := version;
     st_agent_status := status;
     st_gateway_id := gateway;
     st_ip := ip;
     st_mac_addresses_json := str "[]";
     st_is_connected := false;
     st_installed_at := now;
     st_connected_at := 0;
     st_last_heartbeat := now;
     st_last_seen := now;
     st_created_at := now;
     st_updated_at := now;
     st_last_db_flush := 0;
     st_dirty := true |}.

Definition new_agent (ctx : xsiam_agent_ctx) (agent_id : bytes) (now : Z)
    : xsiam_agent_state :=
  new_entry agent_id (tenant_or_default ctx) agent_id (str "pc") (str "unknown")
    (str "online") (str "gateway-local-001") (str "") now.

(** A string that is null when there is no memory, and that the code then only
    prints, as the empty string. *)
Definition xstrdup_or_null (s : bytes) : ST gw bytes :=
  r ← xstrdup s; mret (match r with Some s => s | None => [] end).

(** The [calloc] is tested; the strings allocated after it are not.  A null
    [agent_id] is compared by the next lookup and a null [mac_addresses_json] is
    measured by the next flush; the others are printed or replaced. *)
Definition agent_state_get (agent_id : bytes) (create : bool)
    : ST gw (option nat) :=
  now ← now_sec;
  agents ← gets g_agents;
  match find_agent agent_id agents with
  | Some st => mret (Some st)
  | None =>
      if negb create then mret None else
      ok ← malloc "agent_state";
      if negb ok then mret None else
      _ ← untested;
      ctx ← gets g_ctx;
      tenant ← xstrdup_or_null (tenant_or_default ctx);
      hostname ← xstrdup_or_null agent_id;
      type_ ← xstrdup_or_null (str "pc");
      version ← xstrdup_or_null (str "unknown");
      status ← xstrdup_or_null (str "online");
      gateway ← xstrdup_or_null (str "gateway-local-001");
      ip ← xstrdup_or_null (str "");
      _ ← untested;
      _ ← modify (fun g => g <| g_agents := g_agents g ++
             [new_entry agent_id tenant hostname type_ version status gateway ip now] |>);
      mret (Some (length agents))
  end.

(** Null and the empty string are both "not given". *)
Definition given (s : option bytes) (default : bytes) : bytes :=
  match s with Some (c :: t) => c :: t | _ => default end.

Definition valid_host_type (t : bytes) : bool :=
  streq t (str "server") || streq t (str "pc").

(** The straight-line part, once the entry [st] is there. *)
Definition update_seen (st : nat) (agent_id : bytes)
    (agent_name agent_version host_type mac_addresses_json : option bytes)
    (now : Z) : ST gw unit :=
  a ← get_agent st;
  hostname ← replace_str (st_hostname a) (given agent_name agent_id);
  version ← replace_str (st_agent_version a)
              (given agent_version (str "unknown"));
  type_ ← match host_type with
          | Some t => if valid_host_type t
                      then replace_str (st_host_type a) t
                      else mret (st_host_type a)
          | None => mret (st_host_type a)
          end;
  macs ← match mac_addresses_json with
         | Some m => ok ← alloc_succeeds;
                     if ok : bool then mret m else _ ← untested; mret (str "[]")
         | None => mret (st_mac_addresses_json a)
         end;
  status ← replace_str (st_agent_status a) (str "online");
  set_agent st (fun a => a
        <| st_hostname := hostname |>
        <| st_agent_version := version |>
        <| st_host_type := type_ |>
        <| st_mac_addresses_json := macs |>
        <| st_agent_status := status |>
        <| st_is_connected := true |>
        <| st_connected_at := now |>
        <| st_last_seen := now |>
        <| st_last_heartbeat := now |>
        <| st_updated_at := now |>
        <| st_dirty := true |>).

Definition agent_state_mark_seen (agent_id : option bytes)
    (agent_name agent_version host_type mac_addresses_json : option bytes)
    (conn : option nat) : ST gw unit :=
  now ← now_sec;
  match agent_id with
  | None | Some [] => mret tt
  | Some agent_id =>
      r ← agent_state_get agent_id true;
      match r with
      | None => mret tt
      | Some st =>
          _ ← update_seen st agent_id agent_name agent_version host_type
                mac_addresses_json now;
          _ ← match conn with
              | None => mret tt
              | Some conn =>
                  c ← get_conn conn;
                  key ← replace_opt_str "agent_key" (conn_agent_key c) agent_id;
                  set_conn conn (fun c => c <| conn_agent_key := key |>)
              end;
          post_agent_event (str "connect") (Some agent_id)
      end
  end.

(** The fields a heartbeat, and a disconnection, assign. *)
Definition heartbeat_agent (interval now : Z) (a : xsiam_agent_state) :=
  a <| st_last_heartbeat := now |>
    <| st_last_seen := now |>
    <| st_updated_at := now |>
    <| st_dirty := (now - st_last_db_flush a >=? interval) || st_dirty a |>.

Definition agent_state_mark_heartbeat (agent_id : bytes) : ST gw unit :=
  now ← now_sec;
  r ← agent_state_get agent_id false;
  match r with
  | None => mret tt
  | Some st =>
      interval ← gets (fun g => ctx_heartbeat_flush_interval (g_ctx g));
      _ ← set_agent st (heartbeat_agent interval now);
      post_agent_event (str "heartbeat") (Some agent_id)
  end.

Definition disconnected_agent (status : bytes) (now : Z) (a : xsiam_agent_state) :=
  a <| st_is_connected := false |>
    <| st_agent_status := status |>
    <| st_last_seen := now |>
    <| st_updated_at := now |>
    <| st_dirty := true |>.

Definition agent_state_mark_disconnected (agent_id : bytes) : ST gw unit :=
  now ← now_sec;
  r ← agent_state_get agent_id false;
  match r with
  | None => mret tt
  | Some st =>
      a ← get_agent st;
      if st_is_connected a then
        status ← replace_str (st_agent_status a) (str "offline");
        _ ← set_agent st (disconnected_agent status now);
        post_agent_event (str "disconnect") (Some agent_id)
      else mret tt
  end.

(** The entry's strings and the entry itself. *)
Definition agent_state_destroy : ST gw unit := free "agent_state".

(** * Rules for the state *)

(** [to l t g g']: the agent table is now [l], the effects [t] happened, and
    nothing else of the plugin changed. *)
Definition to (l : list xsiam_agent_state) (t : list effect) (g g' : gw) : Prop :=
  exists w, emits t (g_world g) w /\
    g' = Gw (g_ctx g) l (g_connections g) (g_heap g) (g_fresh g) (g_records g)
           (g_rand g) w.

Lemma steps_to t g g' : steps (emits t) g g' -> to (g_agents g) t g g'.
Proof. intros (f & -> & H). exists (f (g_world g)). split; [exact H|by destruct g]. Qed.

Lemma steps_quiet_to g g' : steps quiet g g' -> to (g_agents g) [] g g'.
Proof.
  intros H. apply steps_to. eapply steps_emits_quiet; [apply steps_emits_refl|done].
Qed.

Lemma to_trans l1 l2 t1 t2 g1 g2 g3 :
  to l1 t1 g1 g2 -> to l2 t2 g2 g3 -> to l2 (t1 ++ t2) g1 g3.
Proof.
  intros (w & H1 & ->) (w' & H2 & ->). exists w'.
  split; [by eapply emits_compose|done].
Qed.

Lemma to_trans_agents l1 t1 t2 g1 g2 g3 :
  to l1 t1 g1 g2 -> to (g_agents g2) t2 g2 g3 -> to l1 (t1 ++ t2) g1 g3.
Proof. intros H1 H2. destruct (H1) as (w & _ & E). subst g2. by eapply to_trans. Qed.

Lemma to_refl g : to (g_agents g) [] g g.
Proof. apply steps_to, steps_emits_refl. Qed.

Lemma to_agents g l : to l [] g (g <| g_agents := l |>).
Proof.
  exists (g_world g). split; [|done]. split; [by rewrite app_nil_r|done].
Qed.

Lemma to_alloc_ok l t g g' :
  to l t g g' -> alloc_ok (g_world g) -> alloc_ok (g_world g').
Proof. intros (w & (_ & _ & E) & ->). by apply alloc_ok_env. Qed.

Lemma wp_get_conn conn c (Q : xsiam_agent_conn -> gw -> Prop) g :
  g_heap g !! conn = Some c -> Q c g -> wp (get_conn conn) Q g.
Proof. intros H HQ. apply wp_bind, wp_gets. by eapply wp_lift. Qed.

Lemma wp_set_conn conn c f (Q : unit -> gw -> Prop) g :
  g_heap g !! conn = Some c ->
  Q tt (g <| g_heap := <[conn := f c]> (g_heap g) |>) -> wp (set_conn conn f) Q g.
Proof. intros H HQ. apply wp_bind. eapply wp_get_conn; [done|]. by apply wp_modify. Qed.

Lemma wp_get_agent st a (Q : xsiam_agent_state -> gw -> Prop) g :
  g_agents g !! st = Some a -> Q a g -> wp (get_agent st) Q g.
Proof. intros H HQ. apply wp_bind, wp_gets. by eapply wp_lift. Qed.

Lemma wp_set_agent st a f (Q : unit -> gw -> Prop) g :
  g_agents g !! st = Some a ->
  Q tt (g <| g_agents := <[st := f a]> (g_agents g) |>) -> wp (set_agent st f) Q g.
Proof. intros H HQ. apply wp_bind. eapply wp_get_agent; [done|]. by apply wp_modify. Qed.

Lemma to_untested_ok l t g g' :
  to l t g g' -> untested_ok (g_world g) -> untested_ok (g_world g').
Proof. intros (w & (_ & _ & E) & ->). by apply untested_ok_env. Qed.

Lemma wp_gw_untested (Q : unit -> gw -> Prop) g :
  untested_ok (g_world g) -> (forall g', to (g_agents g) [] g g' -> Q tt g') ->
  wp untested Q g.
Proof.
  intros Hu H. apply wp_untested; [exact Hu|]. intros g' Hs. by apply H, steps_quiet_to.
Qed.

Lemma wp_gw_grow size text (Q : unit -> gw -> Prop) g :
  untested_ok (g_world g) -> (forall g', to (g_agents g) [] g g' -> Q tt g') ->
  wp (grow size text) Q g.
Proof.
  intros Hu H. apply wp_grow; [exact Hu|]. intros g' Hs. by apply H, steps_quiet_to.
Qed.

(** A tested allocation, and the replacement of a string. *)
Lemma wp_gw_alloc (Q : bool -> gw -> Prop) g :
  (forall ok g', to (g_agents g) [] g g' -> (alloc_ok (g_world g) -> ok = true) ->
     Q ok g') ->
  wp alloc_succeeds Q g.
Proof.
  intros H. apply wp_alloc_succeeds. intros ok g' Hs Ha.
  apply H; [by apply steps_quiet_to|done].
Qed.

Lemma wp_gw_time (Q : Z -> gw -> Prop) g :
  (forall now g', to (g_agents g) [] g g' -> Q now g') -> wp time_now Q g.
Proof.
  intros H. apply wp_time_now. intros now g' _ Hs. by apply H, steps_quiet_to.
Qed.

Lemma wp_replace_str dst src (Q : bytes -> gw -> Prop) g :
  (forall (ok : bool) g', to (g_agents g) [] g g' -> (alloc_ok (g_world g) -> ok = true) ->
     Q (if ok then src else dst) g') ->
  wp (replace_str dst src) Q g.
Proof.
  intros H. unfold replace_str, xstrdup. apply wp_bind, wp_bind, wp_gw_alloc.
  intros ok g' Hg Ha. apply wp_ret, wp_ret.
  specialize (H ok g' Hg Ha). by destruct ok.
Qed.

(** A string of a new entry, which is empty when there was no memory for it. *)
Definition or_null (s s' : bytes) : Prop := s' = s \/ s' = [].

Lemma wp_xstrdup_or_null s (Q : bytes -> gw -> Prop) g :
  (forall s' g', to (g_agents g) [] g g' -> or_null s s' ->
     (alloc_ok (g_world g) -> s' = s) -> Q s' g') ->
  wp (xstrdup_or_null s) Q g.
Proof.
  intros H. unfold xstrdup_or_null, xstrdup. apply wp_bind, wp_bind, wp_gw_alloc.
  intros [|] g' Hg Ha; apply wp_ret, wp_ret, H; try done; [by left|by right|].
  intros Hok. by specialize (Ha Hok).
Qed.

(** The same in the middle of a handler that started from [g0]. *)
Lemma wp_entry_string g0 t s (Q : bytes -> gw -> Prop) g :
  to (g_agents g0) t g0 g ->
  (forall s' g', to (g_agents g0) t g0 g' -> or_null s s' ->
     (alloc_ok (g_world g0) -> s' = s) -> Q s' g') ->
  wp (xstrdup_or_null s) Q g.
Proof.
  intros H0 H. apply wp_xstrdup_or_null. intros s' g' Hg Hn Ha. apply H; [|done|].
  - rewrite <- (app_nil_r t). by eapply to_trans_agents.
  - intros Hok. apply Ha. by eapply to_alloc_ok.
Qed.

Definition is_alloc (e : effect) : Prop :=
  match e with Acquire _ | Release _ => True | _ => False end.

Lemma wp_replace_opt_str blk dst src (Q : option bytes -> gw -> Prop) g :
  (forall s t g', to (g_agents g) t g g' -> Forall is_alloc t ->
     (s = Some src \/ ~ alloc_ok (g_world g) /\ s = dst) -> Q s g') ->
  wp (replace_opt_str blk dst src) Q g.
Proof.
  intros H. unfold replace_opt_str. apply wp_bind, wp_malloc.
  - intros g1 H1%steps_to. destruct dst as [d|].
    + apply wp_bind, wp_free. intros g2 H2%steps_to. apply wp_ret.
      eapply H; [eapply to_trans; [exact H1|]| |by left].
      * destruct H1 as (w & _ & ->). exact H2.
      * by repeat constructor.
    + apply wp_bind, wp_ret, wp_ret. eapply H; [exact H1|by repeat constructor|by left].
  - intros g1 H1%steps_quiet_to Hno. apply wp_ret.
    eapply H; [exact H1|constructor|by right].
Qed.

(** * Lifecycle events *)

Definition event_post (ctx : xsiam_agent_ctx) (event : bytes)
    (agent_id : option bytes) : effect :=
  HttpPost XSIAM_EVENT_PATH [(str "Content-Type", str "application/json")]
    (event_body ctx event agent_id).

Lemma wp_gw_post uri headers body (Q : http_answer -> gw -> Prop) g :
  (forall r g', next (w_http (g_world g)) = r -> r = HttpNoConn \/ r = HttpNoClient ->
     to (g_agents g) [] g g' -> Q r g') ->
  (forall ret status g', next (w_http (g_world g)) = HttpDone ret status -> to (g_agents g) [HttpPost uri headers body] g g' ->
     Q (HttpDone ret status) g') ->
  wp (http_post uri headers body) Q g.
Proof.
  intros Hnone Hdone. apply wp_http_post.
  - intros r g' E Hr H. by apply Hnone, steps_quiet_to.
  - intros ret status g' E H. by apply Hdone, steps_to.
Qed.

(** Effects that neither a peer nor the engine sees. *)
Definition internal (e : effect) : Prop :=
  match e with Wire _ _ | Ingest _ => False | _ => True end.

Lemma alloc_internal t : Forall is_alloc t -> Forall internal t.
Proof. intros H. eapply Forall_impl; [exact H|]. by intros []. Qed.

(** At most one request, and none unless events are enabled. *)
Definition posted (ctx : xsiam_agent_ctx) (event : bytes) (agent_id : option bytes)
    (t : list effect) : Prop :=
  t = [] \/
  ctx_event_enabled ctx = true /\ ctx_event_upstream ctx = true /\
  t = [event_post ctx event agent_id].

Lemma posted_internal ctx event agent_id t : posted ctx event agent_id t -> Forall internal t.
Proof. intros [->|(_ & _ & ->)]; by repeat constructor. Qed.

Lemma post_agent_event_spec event agent_id g :
  untested_ok (g_world g) ->
  wp (post_agent_event event agent_id) (fun _ g' => exists t,
    to (g_agents g) t g g' /\ posted (g_ctx g) event agent_id t) g.
Proof.
  intros Hun. unfold post_agent_event. apply wp_bind, wp_gets.
  destruct (ctx_event_enabled (g_ctx g)) eqn:He; cbn [negb orb];
    [|apply wp_ret; exists []; split; [apply to_refl|by left]].
  destruct (ctx_event_upstream (g_ctx g)) eqn:Hu; cbn [negb];
    [|apply wp_ret; exists []; split; [apply to_refl|by left]].
  apply wp_bind, wp_gw_alloc. intros [|] g0 H0 _; cbn [negb];
    [|apply wp_ret; exists []; split; [done|by left]].
  apply wp_bind, wp_gw_grow; [by eapply to_untested_ok|]. intros g1 H01.
  pose proof (to_trans_agents _ [] [] _ _ _ H0 H01) as H1.
  apply wp_bind, wp_gw_post.
  - intros r g2 _ _ H2. apply wp_ret. exists []. split; [|by left].
    exact (to_trans_agents _ [] [] _ _ _ H1 H2).
  - intros ret status g2 _ H2. apply wp_ret. eexists. split; [|right; done].
    exact (to_trans_agents _ [] _ _ _ _ H1 H2).
Qed.

(** * The agent table *)

Definition ids (l : list xsiam_agent_state) : list bytes := map st_agent_id l.

Lemma find_agent_Some id l i :
  find_agent id l = Some i -> exists a, l !! i = Some a /\ st_agent_id a = id.
Proof.
  unfold find_agent. destruct (list_find _ l) as [[j a]|] eqn:E; [|done].
  intros [= ->]. apply list_find_Some in E as (? & ? & _). by exists a.
Qed.

Lemma find_agent_None id l : find_agent id l = None <-> id ∉ ids l.
Proof.
  unfold find_agent, ids. rewrite fmap_None, list_find_None, Forall_forall. split.
  - intros H Hin. apply list_elem_of_fmap in Hin as (a & -> & Ha). by eapply H.
  - intros H a Ha <-. apply H, list_elem_of_fmap. by exists a.
Qed.

(** With distinct ids the lookup is the entry itself. *)
Lemma find_agent_lookup id l i a :
  NoDup (ids l) -> l !! i = Some a -> st_agent_id a = id -> find_agent id l = Some i.
Proof.
  intros Hnd Hi <-. destruct (find_agent (st_agent_id a) l) as [j|] eqn:E.
  - apply find_agent_Some in E as (b & Hj & Hb). f_equal.
    assert (ids l !! j = Some (st_agent_id a)) as Ej
      by (unfold ids; rewrite list_lookup_fmap, Hj; cbn; by rewrite Hb).
    assert (ids l !! i = Some (st_agent_id a)) as Ei
      by (unfold ids; by rewrite list_lookup_fmap, Hi).
    by eapply NoDup_lookup.
  - apply find_agent_None in E. destruct E. unfold ids.
    apply list_elem_of_fmap. exists a. split; [done|]. by eapply list_elem_of_lookup_2.
Qed.

(** Update the entry of an agent, or add it. *)
Definition upsert (id : bytes) (f : xsiam_agent_state -> xsiam_agent_state)
    (fresh : xsiam_agent_state) (l : list xsiam_agent_state) :=
  match find_agent id l with
  | Some i => alter f i l
  | None => l ++ [f fresh]
  end.

Definition update_agent (id : bytes) (f : xsiam_agent_state -> xsiam_agent_state)
    (l : list xsiam_agent_state) :=
  match find_agent id l with Some i => alter f i l | None => l end.

Definition keeps_id (f : xsiam_agent_state -> xsiam_agent_state) : Prop :=
  forall a, st_agent_id (f a) = st_agent_id a.

Lemma ids_alter f i l : keeps_id f -> ids (alter f i l) = ids l.
Proof.
  intros Hf. unfold ids. apply list_eq. intros j.
  rewrite !list_lookup_fmap. destruct (decide (i = j)) as [->|Hij].
  - rewrite list_lookup_alter_eq. destruct (l !! j); [|done]. cbn. by rewrite Hf.
  - by rewrite list_lookup_alter_ne.
Qed.

Lemma ids_update_agent id f l : keeps_id f -> ids (update_agent id f l) = ids l.
Proof. intros. unfold update_agent. destruct (find_agent id l); [by apply ids_alter|done]. Qed.

Lemma upsert_NoDup id f fresh l :
  keeps_id f -> st_agent_id fresh = id -> NoDup (ids l) -> NoDup (ids (upsert id f fresh l)).
Proof.
  intros Hf Hid Hnd. unfold upsert. destruct (find_agent id l) eqn:E.
  - by rewrite ids_alter.
  - unfold ids. rewrite map_app. apply NoDup_app. split; [done|]. split.
    + intros x Hx Hx'. apply list_elem_of_singleton in Hx'. rewrite Hf, Hid in Hx'.
      subst x. by apply find_agent_None in E.
    + apply NoDup_singleton.
Qed.

(** Another agent's entry is not touched. *)
Lemma upsert_other id f fresh l a :
  keeps_id f -> st_agent_id fresh = id -> st_agent_id a <> id ->
  a ∈ upsert id f fresh l <-> a ∈ l.
Proof.
  intros Hf Hid Ha. unfold upsert. destruct (find_agent id l) as [i|] eqn:E.
  - apply find_agent_Some in E as (b & Hi & Hb). rewrite !list_elem_of_lookup.
    split; intros [j Hj]; exists j; destruct (decide (i = j)) as [->|Hij].
    + rewrite list_lookup_alter_eq, Hi in Hj. injection Hj as <-.
      destruct Ha. by rewrite Hf.
    + by rewrite list_lookup_alter_ne in Hj.
    + rewrite Hi in Hj. injection Hj as <-. done.
    + by rewrite list_lookup_alter_ne.
  - rewrite elem_of_app, list_elem_of_singleton. split; [|by left].
    intros [?| ->]; [done|]. destruct Ha. by rewrite Hf.
Qed.

Lemma upsert_self id f fresh l :
  keeps_id f -> st_agent_id fresh = id ->
  exists a, f a ∈ upsert id f fresh l /\ st_agent_id a = id /\
    (a ∈ l \/ a = fresh /\ id ∉ ids l).
Proof.
  intros Hf Hid. unfold upsert. destruct (find_agent id l) as [i|] eqn:E.
  - apply find_agent_Some in E as (b & Hi & Hb). exists b. split_and!; [|done|].
    + apply list_elem_of_lookup. exists i. by rewrite list_lookup_alter_eq, Hi.
    + left. by eapply list_elem_of_lookup_2.
  - exists fresh. split_and!; [set_solver|done|]. right. by apply find_agent_None in E.
Qed.

Lemma insert_alter (l : list xsiam_agent_state) i a f :
  l !! i = Some a -> <[i := f a]> l = alter f i l.
Proof.
  intros H. apply list_eq. intros j. destruct (decide (i = j)) as [<-|Hij].
  - rewrite list_lookup_alter_eq, H. cbn.
    apply list_lookup_insert_eq. by eapply lookup_lt_Some.
  - by rewrite list_lookup_alter_ne, list_lookup_insert_ne.
Qed.

(** What a new entry of [id] may be: [new_agent], but for the strings that there
    was no memory for. *)
Definition fresh_entry (ctx : xsiam_agent_ctx) (id : bytes) (now : Z)
    (a : xsiam_agent_state) : Prop :=
  exists tenant hostname type_ version status gateway ip,
    a = new_entry id tenant hostname type_ version status gateway ip now /\
    or_null (tenant_or_default ctx) tenant /\ or_null id hostname /\
    or_null (str "pc") type_ /\ or_null (str "unknown") version /\
    or_null (str "online") status /\ or_null (str "gateway-local-001") gateway /\
    or_null (str "") ip.

Lemma new_agent_fresh ctx id now : fresh_entry ctx id now (new_agent ctx id now).
Proof. do 7 eexists. split; [reflexivity|]. split_and!; by left. Qed.

Lemma fresh_entry_id ctx id now a : fresh_entry ctx id now a -> st_agent_id a = id.
Proof. by intros (? & ? & ? & ? & ? & ? & ? & -> & _). Qed.

Lemma wp_agent_state_get id create (Q : option nat -> gw -> Prop) g :
  (forall st g', find_agent id (g_agents g) = Some st ->
     to (g_agents g) [] g g' -> Q (Some st) g') ->
  (forall now fresh g', find_agent id (g_agents g) = None -> create = true ->
     fresh_entry (g_ctx g) id now fresh ->
     (alloc_ok (g_world g) -> fresh = new_agent (g_ctx g) id now) ->
     to (g_agents g ++ [fresh]) [Acquire "agent_state"] g g' ->
     Q (Some (length (g_agents g))) g') ->
  (forall g', find_agent id (g_agents g) = None ->
     (create = true -> ~ alloc_ok (g_world g)) -> to (g_agents g) [] g g' ->
     Q None g') ->
  (create = true -> untested_ok (g_world g)) ->
  wp (agent_state_get id create) Q g.
Proof.
  intros Hfound Hnew Hnone Hun. unfold agent_state_get.
  apply wp_bind, wp_gw_time. intros now g1 H1. apply wp_bind, wp_gets.
  assert (g_agents g1 = g_agents g /\ g_ctx g1 = g_ctx g) as [-> Ectx]
    by (by destruct H1 as (w & _ & ->)).
  destruct (find_agent id (g_agents g)) as [st|] eqn:E.
  { by apply wp_ret, Hfound. }
  destruct create; cbn [negb]; [|by apply wp_ret, Hnone].
  apply wp_bind, wp_malloc.
  - intros g2 H2%steps_to. cbn [negb].
    assert (H02 : to (g_agents g) [Acquire "agent_state"] g g2)
      by exact (to_trans_agents _ _ _ _ _ _ H1 H2).
    apply wp_bind, wp_gw_untested; [eapply to_untested_ok; [exact H02|by apply Hun]|].
    intros g3 H3. pose proof (to_trans_agents _ _ [] _ _ _ H02 H3) as H03.
    apply wp_bind, wp_gets.
    replace (g_ctx g3) with (g_ctx g) by (by destruct H03 as (w & _ & ->)).
    apply wp_bind, (wp_entry_string g _ _ _ _ H03). intros s1 g4 H04 N1 A1.
    apply wp_bind, (wp_entry_string g _ _ _ _ H04). intros s2 g5 H05 N2 A2.
    apply wp_bind, (wp_entry_string g _ _ _ _ H05). intros s3 g6 H06 N3 A3.
    apply wp_bind, (wp_entry_string g _ _ _ _ H06). intros s4 g7 H07 N4 A4.
    apply wp_bind, (wp_entry_string g _ _ _ _ H07). intros s5 g8 H08 N5 A5.
    apply wp_bind, (wp_entry_string g _ _ _ _ H08). intros s6 g9 H09 N6 A6.
    apply wp_bind, (wp_entry_string g _ _ _ _ H09). intros s7 g10 H10 N7 A7.
    apply wp_bind, wp_gw_untested; [eapply to_untested_ok; [exact H10|by apply Hun]|].
    intros g11 H11. pose proof (to_trans_agents _ _ [] _ _ _ H10 H11) as H12.
    apply wp_bind, wp_modify, wp_ret.
    apply (Hnew now (new_entry id s1 s2 s3 s4 s5 s6 s7 now)); [done|done| | |].
    + exists s1, s2, s3, s4, s5, s6, s7. by split_and!.
    + intros Hok. by rewrite A1, A2, A3, A4, A5, A6, A7.
    + destruct H12 as (w & Hw & ->). exists w. split; [exact Hw|done].
  - intros g2 H2%steps_quiet_to Hno. apply wp_ret, Hnone; [done| |].
    + intros _ Ha. apply Hno. by eapply to_alloc_ok.
    + exact (to_trans_agents _ _ _ _ _ _ H1 H2).
Qed.

(** ** Heartbeats and disconnection *)

Lemma mark_heartbeat_spec id g :
  untested_ok (g_world g) ->
  wp (agent_state_mark_heartbeat id) (fun _ g' => exists now t,
    to (update_agent id (heartbeat_agent (ctx_heartbeat_flush_interval (g_ctx g)) now)
          (g_agents g)) t g g' /\
    posted (g_ctx g) (str "heartbeat") (Some id) t /\
    (find_agent id (g_agents g) = None -> t = [])) g.
Proof.
  intros Hun. unfold agent_state_mark_heartbeat. apply wp_bind, wp_gw_time. intros now g1 H1.
  destruct (H1) as (w1 & _ & Eg1).
  assert (Ea : g_agents g1 = g_agents g) by (by subst g1).
  assert (Ec : g_ctx g1 = g_ctx g) by (by subst g1). clear Eg1.
  apply wp_bind, wp_agent_state_get; [rewrite Ea..|done].
  - intros st g2 Hst H2. apply wp_bind, wp_gets.
    destruct (find_agent_Some _ _ _ Hst) as (a & Ha & _).
    pose proof (to_trans _ _ _ _ _ _ _ H1 H2) as H12.
    destruct (H12) as (w & Hw & E2). subst g2. cbn [g_ctx update].
    apply wp_bind. eapply wp_set_agent; [exact Ha|].
    eapply wp_mono; [apply post_agent_event_spec; exact (to_untested_ok _ _ _ _ H12 Hun)|].
    intros _ g3 (t & H3 & Ht). exists now, t. split_and!; [|exact Ht|congruence].
    unfold update_agent. rewrite Hst.
    rewrite <- (insert_alter _ _ _ (heartbeat_agent
      (ctx_heartbeat_flush_interval (g_ctx g)) now) Ha).
    destruct H3 as (w3 & H3 & ->). exists w3. split; [|done].
    change t with ([] ++ t). eapply emits_compose; [exact Hw|exact H3].
  - done.
  - intros g2 Hnone _ H2. apply wp_ret. exists now, []. split_and!; [|by left|done].
    unfold update_agent. rewrite Hnone. exact (to_trans _ _ [] [] _ _ _ H1 H2).
Qed.

Definition lookup_agent (id : bytes) (l : list xsiam_agent_state)
    : option xsiam_agent_state :=
  find_agent id l ≫= (fun i => l !! i).

Definition is_online (id : bytes) (l : list xsiam_agent_state) : bool :=
  match lookup_agent id l with Some a => st_is_connected a | None => false end.

(** The status after a disconnection: as it was when there is no memory. *)
Definition status_after (g : gw) (status : bytes) : Prop :=
  (alloc_ok (g_world g) -> status = str "offline") /\
  (status = str "offline" \/ status ∈ map st_agent_status (g_agents g)).

Lemma mark_disconnected_spec id g :
  untested_ok (g_world g) ->
  wp (agent_state_mark_disconnected id) (fun _ g' =>
    if is_online id (g_agents g) then exists status now t,
      to (update_agent id (disconnected_agent status now) (g_agents g)) t g g' /\
      posted (g_ctx g) (str "disconnect") (Some id) t /\ status_after g status
    else to (g_agents g) [] g g') g.
Proof.
  intros Hun. unfold agent_state_mark_disconnected, is_online, lookup_agent.
  apply wp_bind, wp_gw_time. intros now g1 H1.
  destruct (H1) as (w1 & _ & Eg1).
  assert (Ea : g_agents g1 = g_agents g) by (by subst g1). clear Eg1.
  apply wp_bind, wp_agent_state_get; [rewrite Ea..|done].
  - intros st g2 Hst H2. rewrite Hst. cbn [mbind option_bind].
    destruct (find_agent_Some _ _ _ Hst) as (a & Ha & _). rewrite Ha.
    pose proof (to_trans _ _ _ _ _ _ _ H1 H2) as H12.
    destruct (H12) as (w & Hw & ->).
    apply wp_bind. eapply wp_get_agent; [exact Ha|].
    destruct (st_is_connected a); [|by apply wp_ret].
    apply wp_bind, wp_replace_str. intros ok g3 H3 Hok.
    set (status := if ok then str "offline" else st_agent_status a).
    pose proof (to_trans _ _ _ _ _ _ _ H12 H3) as H13.
    destruct (H13) as (w3 & Hw3 & ->).
    apply wp_bind. eapply wp_set_agent; [exact Ha|].
    eapply wp_mono; [apply post_agent_event_spec; exact (to_untested_ok _ _ _ _ H13 Hun)|].
    intros _ g4 (t & H4 & Ht). exists status, now, t. split_and!; [|exact Ht|].
    + unfold update_agent. rewrite Hst.
      rewrite <- (insert_alter _ _ _ (disconnected_agent status now) Ha).
      destruct H4 as (w4 & H4 & ->). exists w4. split; [|done].
      change t with ([] ++ t). eapply emits_compose; [exact Hw3|exact H4].
    + split.
      * intros Ha0. unfold status. rewrite Hok; [done|]. by eapply to_alloc_ok.
      * destruct ok; [by left|right]. apply list_elem_of_fmap. exists a. split; [done|].
        by eapply list_elem_of_lookup_2.
  - done.
  - intros g2 Hnone _ H2. rewrite Hnone. apply wp_ret.
    exact (to_trans _ _ [] [] _ _ _ H1 H2).
Qed.

(** ** A HELLO *)

(** The entry after a HELLO; a flag is false where there was no memory for the
    new string. *)
Record seen_flags := SeenFlags {
  ok_hostname : bool; ok_version : bool; ok_type : bool; ok_macs : bool;
  ok_status : bool;
}.
Definition all_ok : seen_flags := SeenFlags true true true true true.

Definition seen_agent (ok : seen_flags) (id : bytes)
    (name version host_type macs : option bytes) (now : Z)
    (a : xsiam_agent_state) : xsiam_agent_state :=
  a <| st_hostname := if ok_hostname ok then given name id else st_hostname a |>
    <| st_agent_version := if ok_version ok then given version (str "unknown")
                           else st_agent_version a |>
    <| st_host_type := match host_type with
                       | Some t => if valid_host_type t && ok_type ok then t
                                   else st_host_type a
                       | None => st_host_type a
                       end |>
    <| st_mac_addresses_json := match macs with
                                | Some m => if ok_macs ok then m else str "[]"
                                | None => st_mac_addresses_json a
                                end |>
    <| st_agent_status := if ok_status ok then str "online" else st_agent_status a |>
    <| st_is_connected := true |>
    <| st_connected_at := now |>
    <| st_last_seen := now |>
    <| st_last_heartbeat := now |>
    <| st_updated_at := now |>
    <| st_dirty := true |>.

Lemma keeps_id_seen ok id name version host_type macs now :
  keeps_id (seen_agent ok id name version host_type macs now).
Proof. done. Qed.

Lemma keeps_id_heartbeat interval now : keeps_id (heartbeat_agent interval now).
Proof. done. Qed.

Lemma keeps_id_disconnected status now : keeps_id (disconnected_agent status now).
Proof. done. Qed.

(** What [agent_state_mark_seen] may do: nothing when there is no memory for a
    new entry; otherwise the entry of [id] is created or updated, and so is the
    connection's key. *)
Definition seen_result (id : bytes) (name version host_type macs : option bytes)
    (conn : nat) (c : xsiam_agent_conn) (g g' : gw) : Prop :=
  exists l key t w, (emits t (g_world g) w /\ Forall internal t) /\
    g' = Gw (g_ctx g) l (g_connections g)
           (<[conn := c <| conn_agent_key := key |>]> (g_heap g)) (g_fresh g)
           (g_records g) (g_rand g) w /\
    (l = g_agents g /\ key = conn_agent_key c /\ ~ alloc_ok (g_world g) \/
     exists ok now0 now fresh,
       l = upsert id (seen_agent ok id name version host_type macs now) fresh
             (g_agents g) /\
       fresh_entry (g_ctx g) id now0 fresh /\
       (alloc_ok (g_world g) -> fresh = new_agent (g_ctx g) id now0) /\
       (key = Some id \/ ~ alloc_ok (g_world g) /\ key = conn_agent_key c) /\
       (alloc_ok (g_world g) -> ok = all_ok)).


Lemma update_seen_spec st a id name version host_type macs now g :
  g_agents g !! st = Some a -> untested_ok (g_world g) ->
  wp (update_seen st id name version host_type macs now) (fun _ g' => exists ok,
    to (alter (seen_agent ok id name version host_type macs now) st (g_agents g))
      [] g g' /\
    (alloc_ok (g_world g) -> ok = all_ok)) g.
Proof.
  intros Ha Hun. unfold update_seen. apply wp_bind. eapply wp_get_agent; [exact Ha|].
  apply wp_bind, wp_replace_str. intros ok1 g1 H1 A1.
  apply wp_bind, wp_replace_str. intros ok2 g2 H2 A2.
  pose proof (to_trans_agents _ _ _ _ _ _ H1 H2) as H02.
  apply wp_bind.
  assert (Htype : wp (match host_type with
      | Some t => if valid_host_type t then replace_str (st_host_type a) t
                  else mret (st_host_type a)
      | None => mret (st_host_type a)
      end) (fun v g' => exists ok3 : bool, to (g_agents g) [] g g' /\
        (alloc_ok (g_world g) -> ok3 = true) /\
        v = match host_type with
            | Some t => if valid_host_type t && ok3 then t else st_host_type a
            | None => st_host_type a
            end) g2).
  { destruct host_type as [t|]; [|apply wp_ret; by exists true].
    destruct (valid_host_type t); [|apply wp_ret; by exists true].
    apply wp_replace_str. intros ok3 g3 H3 A3. exists ok3.
    split_and!; [exact (to_trans_agents _ _ _ _ _ _ H02 H3)| |done].
    intros Hok. apply A3. by eapply to_alloc_ok. }
  eapply wp_mono; [exact Htype|]. intros v3 g3 (ok3 & H03 & A3 & ->).
  clear Htype. apply wp_bind.
  assert (Hmacs : wp (match macs with
         | Some m => ok ← alloc_succeeds;
             if ok : bool then mret m else _ ← untested; mret (str "[]")
         | None => mret (st_mac_addresses_json a)
         end) (fun v g' => exists ok4 : bool, to (g_agents g) [] g g' /\
        (alloc_ok (g_world g) -> ok4 = true) /\
        v = match macs with
            | Some m => if ok4 then m else str "[]"
            | None => st_mac_addresses_json a
            end) g3).
  { destruct macs as [m|]; [|apply wp_ret; by exists true].
    apply wp_bind, wp_gw_alloc. intros ok4 g4 H4 A4.
    pose proof (to_trans_agents _ [] [] _ _ _ H03 H4) as H04.
    destruct ok4; [apply wp_ret; by exists true|].
    apply wp_bind, wp_gw_untested; [by eapply to_untested_ok|]. intros g5 H5.
    apply wp_ret. exists false.
    split_and!; [exact (to_trans_agents _ _ _ _ _ _ H04 H5)| |done].
    intros Hok. apply A4. by eapply to_alloc_ok. }
  eapply wp_mono; [exact Hmacs|]. intros v4 g4 (ok4 & H04 & A4 & ->). clear Hmacs.
  apply wp_bind, wp_replace_str. intros ok5 g5 H5 A5.
  pose proof (to_trans_agents _ _ _ _ _ _ H04 H5) as H05.
  destruct (H05) as (w & Hw & ->).
  eapply wp_set_agent; [exact Ha|].
  exists (SeenFlags ok1 ok2 ok3 ok4 ok5). split.
  - exists w. split; [exact Hw|]. rewrite <- (insert_alter _ _ _
      (seen_agent (SeenFlags ok1 ok2 ok3 ok4 ok5) id name version host_type macs now) Ha).
    done.
  - intros Hok. unfold all_ok. f_equal; [by apply A1| |by apply A3|by apply A4|].
    + apply A2. by eapply to_alloc_ok.
    + apply A5. by eapply to_alloc_ok.
Qed.

Lemma mark_seen_spec id name version host_type macs conn c g :
  id <> [] -> g_heap g !! conn = Some c -> untested_ok (g_world g) ->
  wp (agent_state_mark_seen (Some id) name version host_type macs (Some conn))
    (fun _ g' => seen_result id name version host_type macs conn c g g') g.
Proof.
  intros Hid Hc Hun. unfold agent_state_mark_seen.
  apply wp_bind, wp_gw_time. intros now g1 H1.
  destruct (H1) as (w1 & Hw1 & Eg1).
  assert (Ea : g_agents g1 = g_agents g) by (by subst g1).
  assert (Ec : g_ctx g1 = g_ctx g) by (by subst g1).
  assert (Eh : g_heap g1 = g_heap g) by (by subst g1). clear Eg1.
  destruct id as [|i0 id0]; [done|]. set (id := i0 :: id0) in *.
  apply wp_bind.
  assert (Hcont : forall st now0 fresh l t g2, fresh_entry (g_ctx g) id now0 fresh ->
      (alloc_ok (g_world g) -> fresh = new_agent (g_ctx g) id now0) -> to l t g1 g2 -> Forall internal t ->
      (exists a, l !! st = Some a) ->
      (forall f, alter f st l = upsert id f fresh (g_agents g)) ->
      wp (_ ← update_seen st id name version host_type macs now;
          _ ← (c ← get_conn conn;
               key ← replace_opt_str "agent_key" (conn_agent_key c) id;
               set_conn conn (fun c => c <| conn_agent_key := key |>));
          post_agent_event (str "connect") (Some id))
        (fun _ g' => seen_result id name version host_type macs conn c g g') g2).
  { intros st now0 fresh l t g2 Hfresh Hnew H2 Hint [a Ha] Hup.
    assert (El : g_agents g2 = l) by (by destruct H2 as (? & _ & ->)).
    apply wp_bind. eapply wp_mono; [apply (update_seen_spec st a); [rewrite El; exact Ha|]|].
    { eapply to_untested_ok; [exact H2|]. by eapply to_untested_ok. }
    intros _ g3 (ok & H3 & Aok). rewrite El, Hup in H3.
    pose proof (to_trans _ _ _ _ _ _ _ (to_trans _ _ _ _ _ _ _ H1 H2) H3) as H03.
    assert (g_heap g3 !! conn = Some c) as Hc3
      by (destruct H03 as (? & _ & ->); exact Hc).
    assert (alloc_ok (g_world g) -> ok = all_ok) as Aok'.
    { intros Hok. apply Aok. eapply to_alloc_ok; [exact H2|].
      by eapply to_alloc_ok. }
    apply wp_bind, wp_bind. eapply wp_get_conn; [exact Hc3|].
    apply wp_bind, wp_replace_opt_str. intros key t4 g4 H4 Hal Hkey.
    pose proof (to_trans_agents _ _ _ _ _ _ H03 H4) as H04.
    pose proof (to_untested_ok _ _ _ _ H04 Hun) as Hun4.
    destruct (H04) as (w4 & Hw4 & ->).
    eapply wp_set_conn; [exact Hc|].
    eapply wp_mono; [apply post_agent_event_spec; exact Hun4|]. intros _ g5 (t5 & H5 & Hpost).
    destruct H5 as (w5 & Hw5 & ->).
    eexists _, key, _, w5. split; [split; [eapply emits_compose; [exact Hw4|exact Hw5]|]|].
    { apply posted_internal in Hpost. apply alloc_internal in Hal.
      rewrite !Forall_app. by split_and!. }
    split; [reflexivity|]. right. exists ok, now0, now, fresh.
    split_and!; [done|done|done| |done].
    destruct Hkey as [->|[Hno ->]]; [by left|right]. split; [|done].
    intros Hok. apply Hno. by eapply to_alloc_ok. }
  apply wp_agent_state_get; [rewrite Ea, ?Ec..|].
  - intros st g2 Hst H2. eapply (Hcont st now (new_agent (g_ctx g) id now));
      [apply new_agent_fresh|done|exact H2|constructor| |].
    + destruct (find_agent_Some _ _ _ Hst) as (a & Ha & _). by exists a.
    + intros f. unfold upsert. by rewrite Hst.
  - intros now0 fresh g2 Hnone _ Hfresh Hnew H2. eapply (Hcont _ now0 fresh);
      [exact Hfresh| |exact H2|by repeat constructor| |].
    + intros Hok. apply Hnew. by eapply to_alloc_ok.
    + eexists. by rewrite list_lookup_middle.
    + intros f. unfold upsert. rewrite Hnone.
      rewrite <- (Nat.add_0_r (length (g_agents g))), alter_app_r. done.
  - intros g2 Hnone Hno H2. apply wp_ret.
    destruct (to_trans _ _ _ _ _ _ _ H1 H2) as (w & Hw & ->).
    exists (g_agents g), (conn_agent_key c), ([] ++ []), w. split_and!; [exact Hw|constructor| |].
    + rewrite insert_id; [by destruct g|]. rewrite Hc. by destruct c.
    + left. split_and!; [done|done|]. intros Hok. apply (Hno eq_refl).
      by eapply to_alloc_ok.
  - intros _. by eapply to_untested_ok.
Qed.

(** * Theorems *)

Lemma lcg_bytes_ok n r : bytes_ok (fst (lcg_bytes n r)) /\ length (fst (lcg_bytes n r)) = n.
Proof.
  revert r. induction n as [|n IH]; intros r; cbn [lcg_bytes]; [by split; [constructor|]|].
  destruct (lcg_bytes n _) as [rest r'] eqn:E.
  destruct (IH (u32 (u32 (r * 1664525) + 1013904223))) as [H1 H2]. rewrite E in *.
  cbn [fst] in *. split; [|cbn; lia]. constructor; [|done]. by apply uwrap_fits.
Qed.

Lemma gen_uuid_format rand_state : is_uuid_v4 (fst (gen_uuid_v4 rand_state)) = true.
Proof.
  unfold gen_uuid_v4. destruct (lcg_bytes_ok 16 rand_state) as [H1 H2].
  destruct (lcg_bytes 16 rand_state) as [b r]. by apply uuid_text_v4.
Qed.

(** The instance identifier is a version 4 UUID, for every state of the
    generator: 36 characters, dashes in the four places, lower-case hexadecimal
    digits elsewhere, the version digit 4 and a variant digit 8, 9, a or b. *)
Theorem gen_uuid_v4_valid rand_state :
  is_uuid_v4 (fst (gen_uuid_v4 rand_state)) = true.
Proof.
  apply gen_uuid_format.
Qed.

(** The operations on the agent table, as a connection handler issues them. *)
Inductive agent_op :=
| OpSeen (id name version host_type macs : option bytes) (conn : nat)
| OpHeartbeat (id : bytes)
| OpDisconnected (id : bytes).

Definition run_op (op : agent_op) : ST gw unit :=
  match op with
  | OpSeen id name version host_type macs conn =>
      agent_state_mark_seen id name version host_type macs (Some conn)
  | OpHeartbeat id => agent_state_mark_heartbeat id
  | OpDisconnected id => agent_state_mark_disconnected id
  end.

Fixpoint run_ops (ops : list agent_op) : ST gw unit :=
  match ops with
  | [] => mret tt
  | op :: rest => _ ← run_op op; run_ops rest
  end.

Definition op_conn (op : agent_op) : option nat :=
  match op with OpSeen _ _ _ _ _ conn => Some conn | _ => None end.

Definition conns_live (ops : list agent_op) (g : gw) : Prop :=
  Forall (fun op => forall conn, op_conn op = Some conn -> is_Some (g_heap g !! conn)) ops.

Lemma ids_upsert id f fresh l :
  keeps_id f -> ids l `prefix_of` ids (upsert id f fresh l).
Proof.
  intros Hf. unfold upsert. destruct (find_agent id l).
  - by rewrite ids_alter.
  - unfold ids. rewrite map_app. by apply prefix_app_r.
Qed.

(** One operation keeps the table well formed and every connection alive. *)
Lemma run_op_spec op g :
  NoDup (ids (g_agents g)) ->
  (forall conn, op_conn op = Some conn -> is_Some (g_heap g !! conn)) ->
  untested_ok (g_world g) ->
  wp (run_op op) (fun _ g' => untested_ok (g_world g') /\
    NoDup (ids (g_agents g')) /\ ids (g_agents g) `prefix_of` ids (g_agents g') /\
    (forall conn, is_Some (g_heap g !! conn) -> is_Some (g_heap g' !! conn))) g.
Proof.
  intros Hnd Hlive Hun. destruct op as [id name version host_type macs conn|id|id];
    cbn [run_op op_conn] in *.
  - destruct (Hlive conn eq_refl) as [c Hc].
    destruct id as [[|i0 id]|].
    + unfold agent_state_mark_seen. apply wp_bind, wp_gw_time. intros now g1 H1.
      pose proof (to_untested_ok _ _ _ _ H1 Hun). destruct H1 as (w & _ & ->).
      apply wp_ret. by split_and!.
    + eapply wp_mono; [by apply mark_seen_spec|].
      intros _ g' (l & key & t & w & [(_ & _ & E) _] & -> & Hl).
      cbn [g_agents g_heap g_world update].
      assert (forall conn', is_Some (g_heap g !! conn') -> is_Some (<[conn :=
        c <| conn_agent_key := key |>]> (g_heap g) !! conn')) as Hh.
      { intros conn' H. destruct (decide (conn = conn')) as [->|].
        - rewrite lookup_insert_eq. by eexists.
        - by rewrite lookup_insert_ne. }
      split; [by eapply untested_ok_env|].
      destruct Hl as [(-> & _)|(ok & now0 & now & fresh & -> & Hf & _)]; [by split_and!|].
      apply fresh_entry_id in Hf. split_and!; [|by apply ids_upsert|done].
      by apply upsert_NoDup.
    + unfold agent_state_mark_seen. apply wp_bind, wp_gw_time. intros now g1 H1.
      pose proof (to_untested_ok _ _ _ _ H1 Hun). destruct H1 as (w & _ & ->).
      apply wp_ret. by split_and!.
  - eapply wp_mono; [by apply mark_heartbeat_spec|].
    intros _ g' (now & t & H1 & _). pose proof (to_untested_ok _ _ _ _ H1 Hun).
    destruct H1 as (w & _ & ->). split; [done|]. cbn [g_agents g_heap update].
    rewrite ids_update_agent by apply keeps_id_heartbeat. by split_and!.
  - eapply wp_mono; [by apply mark_disconnected_spec|]. intros [] g' H.
    destruct (is_online id (g_agents g)).
    + destruct H as (status & now & t & H1 & _). pose proof (to_untested_ok _ _ _ _ H1 Hun).
      destruct H1 as (w & _ & ->). split; [done|]. cbn [g_agents g_heap update].
      rewrite ids_update_agent by apply keeps_id_disconnected. by split_and!.
    + pose proof (to_untested_ok _ _ _ _ H Hun). destruct H as (w & _ & ->). by split_and!.
Qed.

(** C35: the agent table stays well formed.  As long as the allocations that the
    code does not test succeed ([untested_ok]; [untested_allocation_crashes] is
    what happens otherwise), any sequence of HELLOs, heartbeats and disconnections
    on live connections runs to its end, whatever else fails on the way (the
    allocations that are tested, the HTTP endpoint); no two entries have the same
    agent id, and no entry is lost or renamed. *)
Theorem agent_table_invariant ops g :
  NoDup (ids (g_agents g)) -> conns_live ops g -> untested_ok (g_world g) ->
  exists g', run_ops ops g = Some (tt, g') /\
    NoDup (ids (g_agents g')) /\ ids (g_agents g) `prefix_of` ids (g_agents g').
Proof.
  intros Hnd Hlive Hun.
  enough (wp (run_ops ops) (fun _ g' => NoDup (ids (g_agents g')) /\
    ids (g_agents g) `prefix_of` ids (g_agents g')) g) as W.
  { apply wp_run in W as ([] & g' & ? & ?). by exists g'. }
  revert g Hnd Hlive Hun. induction ops as [|op ops IH]; intros g Hnd Hlive Hun.
  { by apply wp_ret. }
  apply Forall_cons in Hlive as [Hop Hlive].
  apply wp_bind. eapply wp_mono; [by apply run_op_spec|].
  intros _ g1 (Hun1 & Hnd1 & Hp1 & Hh). eapply wp_mono; [apply IH; [done| |done]|].
  - eapply Forall_impl; [exact Hlive|]. cbn. eauto.
  - intros _ g2 [Hnd2 Hp2]. split; [done|]. by etrans.
Qed.

(** A HELLO registers its agent.  With memory available,
    [agent_state_mark_seen] leaves exactly one entry with the agent's id: the old
    one, or a new one with the defaults, with the name (the id when none is
    given), the version ("unknown" when none is given), the host type when it is
    "server" or "pc", and the addresses of the HELLO, online, seen now and
    marked for the database; the connection is keyed with the id and no other
    agent's entry changes. *)
Theorem hello_registers_agent id name version host_type macs conn c g :
  id <> [] -> g_heap g !! conn = Some c ->
  alloc_ok (g_world g) -> untested_ok (g_world g) -> NoDup (ids (g_agents g)) ->
  exists g' now now0 a, agent_state_mark_seen (Some id) name version host_type macs
      (Some conn) g = Some (tt, g') /\
    (a ∈ g_agents g /\ st_agent_id a = id \/
     id ∉ ids (g_agents g) /\ a = new_agent (g_ctx g) id now0) /\
    let b := seen_agent all_ok id name version host_type macs now a in
    lookup_agent id (g_agents g') = Some b /\ st_is_connected b = true /\
    (forall b', st_agent_id b' <> id -> b' ∈ g_agents g' <-> b' ∈ g_agents g) /\
    g_heap g' !! conn = Some (c <| conn_agent_key := Some id |>).
Proof.
  intros Hid Hc Hok Hun Hnd.
  pose proof (mark_seen_spec id name version host_type macs conn c g Hid Hc Hun) as W.
  apply wp_run in W as ([] & g' & Hrun & l & key & t & w & _ & -> & H).
  destruct H as [(_ & _ & Hno)|(ok & now0 & now & fr & -> & _ & Hnew & Hkey & Ha)];
    [by destruct Hno|]. rewrite (Hnew Hok) in *.
  rewrite (Ha Hok) in *. destruct Hkey as [->|[Hno _]]; [|by destruct Hno].
  set (f := seen_agent all_ok id name version host_type macs now) in *.
  set (fresh := new_agent (g_ctx g) id now0) in *.
  destruct (upsert_self id f fresh (g_agents g)) as (a & Hin & Haid & Hcase); [done|done|].
  eexists _, now, now0, a. split; [exact Hrun|]. split.
  { destruct Hcase as [?|[? ?]]; [by left|by right]. }
  cbv zeta. cbn [g_agents g_heap update]. split_and!.
  - apply list_elem_of_lookup in Hin as [i Hi]. unfold lookup_agent.
    rewrite (find_agent_lookup id _ i (f a)); [done| |done|done].
    by apply upsert_NoDup.
  - done.
  - intros b' Hb'. by apply upsert_other.
  - apply lookup_insert_eq.
Qed.

(** A disconnection is recorded once.  With memory available, the first
    [agent_state_mark_disconnected] turns a connected agent offline and marks it
    for the database, and at most one event is posted; a second call changes
    neither the table nor the outside. *)
Theorem disconnect_once id a g :
  NoDup (ids (g_agents g)) -> a ∈ g_agents g -> st_agent_id a = id ->
  st_is_connected a = true -> alloc_ok (g_world g) -> untested_ok (g_world g) ->
  exists g1 g2 now t,
    agent_state_mark_disconnected id g = Some (tt, g1) /\
    agent_state_mark_disconnected id g1 = Some (tt, g2) /\
    lookup_agent id (g_agents g1) = Some (disconnected_agent (str "offline") now a) /\
    w_trace (g_world g1) = w_trace (g_world g) ++ t /\
    posted (g_ctx g) (str "disconnect") (Some id) t /\
    g_agents g2 = g_agents g1 /\ w_trace (g_world g2) = w_trace (g_world g1).
Proof.
  intros Hnd Hin Hid Hconn Hok Hun.
  apply list_elem_of_lookup in Hin as [i Hi].
  assert (Hf : find_agent id (g_agents g) = Some i) by (by eapply find_agent_lookup).
  assert (Hon : is_online id (g_agents g) = true)
    by (unfold is_online, lookup_agent; rewrite Hf; cbn; by rewrite Hi).
  pose proof (mark_disconnected_spec id g Hun) as W. rewrite Hon in W.
  apply wp_run in W as ([] & g1 & Hrun & status & now & t & Hto & Hp & Hs).
  rewrite (proj1 Hs Hok) in *. pose proof (to_untested_ok _ _ _ _ Hto Hun) as Hun1.
  destruct Hto as (w & (Ht & _) & ->).
  set (g1 := Gw _ _ _ _ _ _ _ w) in *.
  assert (Hl1 : g_agents g1 = alter (disconnected_agent (str "offline") now) i (g_agents g)).
  { cbn. unfold update_agent. by rewrite Hf. }
  assert (Hi1 : g_agents g1 !! i = Some (disconnected_agent (str "offline") now a))
    by (by rewrite Hl1, list_lookup_alter_eq, Hi).
  assert (Hf1 : find_agent id (g_agents g1) = Some i).
  { eapply find_agent_lookup; [|exact Hi1|done]. rewrite Hl1, ids_alter; [done|].
    apply keeps_id_disconnected. }
  pose proof (mark_disconnected_spec id g1 Hun1) as W2.
  assert (is_online id (g_agents g1) = false) as Hoff.
  { unfold is_online, lookup_agent. rewrite Hf1. cbn [mbind option_bind]. by rewrite Hi1. }
  rewrite Hoff in W2. apply wp_run in W2 as ([] & g2 & Hrun2 & w2 & (Ht2 & _) & ->).
  eexists g1, _, now, t. split_and!; [exact Hrun|exact Hrun2| |exact Ht|exact Hp|done|].
  - unfold lookup_agent. rewrite Hf1. exact Hi1.
  - cbn. by rewrite Ht2, app_nil_r.
Qed.

(** * Well-formed entries

    The strings are bytes and the address list is the text of a JSON document. *)

Definition macs_ok (st : xsiam_agent_state) (macs : json) : Prop :=
  st_mac_addresses_json st = render macs /\ json_ok macs.

Definition agent_bytes_ok (st : xsiam_agent_state) : Prop :=
  Forall bytes_ok [st_agent_id st; st_tenant_id st; st_gateway_id st; st_hostname st;
    st_host_type st; st_ip st; st_agent_version st; st_agent_status st].

Definition agent_wf (st : xsiam_agent_state) : Prop :=
  agent_bytes_ok st /\ exists macs, macs_ok st macs.

Definition text_ok (s : option bytes) : Prop :=
  match s with Some s => bytes_ok s | None => True end.

Definition macs_text_ok (s : option bytes) : Prop :=
  match s with Some s => exists macs, s = render macs /\ json_ok macs | None => True end.

Lemma Forall_alter_agent (P : xsiam_agent_state -> Prop) f i l :
  (forall a, P a -> P (f a)) -> Forall P l -> Forall P (alter f i l).
Proof. intros Hf H. apply Forall_alter; eauto. Qed.

Lemma Forall_update_agent (P : xsiam_agent_state -> Prop) id f l :
  (forall a, P a -> P (f a)) -> Forall P l -> Forall P (update_agent id f l).
Proof.
  intros Hf H. unfold update_agent. destruct (find_agent id l); [|done].
  by apply Forall_alter_agent.
Qed.

Lemma Forall_upsert (P : xsiam_agent_state -> Prop) id f fresh l :
  (forall a, P a -> P (f a)) -> P fresh -> Forall P l -> Forall P (upsert id f fresh l).
Proof.
  intros Hf Hn H. unfold upsert. destruct (find_agent id l); [by apply Forall_alter_agent|].
  apply Forall_app_2; [done|]. apply Forall_cons_2; [auto|by apply Forall_nil_2].
Qed.

Lemma or_null_ok s s' : bytes_ok s -> or_null s s' -> bytes_ok s'.
Proof. intros H [->| ->]; [done|constructor]. Qed.

Lemma fresh_entry_wf ctx id now a :
  bytes_ok (tenant_or_default ctx) -> bytes_ok id -> fresh_entry ctx id now a -> agent_wf a.
Proof.
  intros Ht Hi (t & h & ty & v & st & gw & ip & -> & N1 & N2 & N3 & N4 & N5 & N6 & N7).
  split; [|by exists (JArr [])].
  apply or_null_ok in N1, N2, N3, N4, N5, N6, N7; by repeat constructor.
Qed.

Lemma given_ok s d : text_ok s -> bytes_ok d -> bytes_ok (given s d).
Proof. by destruct s as [[|]|]. Qed.

Lemma seen_agent_wf ok id name version host_type macs now a :
  bytes_ok id -> text_ok name -> text_ok version -> text_ok host_type ->
  macs_text_ok macs -> agent_wf a ->
  agent_wf (seen_agent ok id name version host_type macs now a).
Proof.
  intros Hid Hn Hv Ht Hm [Hb Hma]. split.
  - unfold agent_bytes_ok in *. rewrite !Forall_cons in Hb.
    destruct Hb as (B1 & B2 & B3 & B4 & B5 & B6 & B7 & B8 & _).
    repeat apply Forall_cons_2; cbn; try done.
    + destruct (ok_hostname ok); [by apply given_ok|done].
    + destruct host_type as [t|]; [|done]. by destruct (_ && _).
    + destruct (ok_version ok); [|done]. apply given_ok; [done|by repeat constructor].
    + destruct (ok_status ok); [by repeat constructor|done].
  - unfold macs_ok. cbn. destruct macs as [m|]; [|done].
    destruct (ok_macs ok); [done|by exists (JArr [])].
Qed.

Lemma heartbeat_agent_wf interval now a : agent_wf a -> agent_wf (heartbeat_agent interval now a).
Proof. done. Qed.

Lemma disconnected_agent_wf status now a :
  bytes_ok status -> agent_wf a -> agent_wf (disconnected_agent status now a).
Proof.
  intros Hs [Hb Hm]. split; [|done]. unfold agent_bytes_ok in *. rewrite !Forall_cons in *.
  by destruct Hb as (B1 & B2 & B3 & B4 & B5 & B6 & B7 & B8 & _).
Qed.

(** * A concrete instance *)

Definition sample_ctx : xsiam_agent_ctx :=
  {| ctx_listen := Some (str "0.0.0.0"); ctx_tcp_port := Some (str "1514");
     ctx_arango_host := Some XSIAM_DB_HOST; ctx_arango_user := Some XSIAM_DB_USER;
     ctx_arango_pass := Some XSIAM_DB_PASS; ctx_arango_database := Some XSIAM_DB_NAME;
     ctx_arango_port := XSIAM_DB_PORT; ctx_db_sync := true;
     ctx_db_flush_interval := 5; ctx_heartbeat_flush_interval := 180;
     ctx_event_host := Some (str "127.0.0.1"); ctx_event_port := XSIAM_EVENT_PORT;
     ctx_event_enabled := true; ctx_fb_instance_id := str "fb";
     ctx_tenant_id := Some (str "t1"); ctx_chunk_size_str := None;
     ctx_buffer_size_str := None; ctx_chunk_size := 64; ctx_buffer_size := 512;
     ctx_heartbeat_min := 60; ctx_heartbeat_max := 180; ctx_collector_id := 1;
     ctx_heartbeat_collector_id := 2; ctx_db_collector_id := 3;
     ctx_fb_lease_collector_id := 4; ctx_gateway_seq := 0; ctx_session_seq := 0;
     ctx_rand_state := 1; ctx_downstream := true; ctx_arango_upstream := true;
     ctx_event_upstream := true; ctx_log_encoder := true |}.

Definition sample_conn (fd : Z) (key : option bytes) (data : bytes) : xsiam_agent_conn :=
  {| conn_connection := fd;
     conn_buf_data := data ++ replicate (Z.to_nat (256 - zlen data)) 0;
     conn_buf_len := zlen data; conn_buf_size := Z.max 256 (zlen data);
     conn_busy := false; conn_pending_close := false; conn_next_heartbeat := 0;
     conn_agent_key := key; conn_protocol_tag := Some SESSION_PROTO_UNKNOWN;
     conn_client_group := Some SESSION_GROUP_UNKNOWN;
     conn_session_id := str "session-1" |}.

Definition sample_gw (conns : list xsiam_agent_conn)
    (agents : list xsiam_agent_state) (input : bytes) : gw :=
  {| g_ctx := sample_ctx; g_agents := agents;
     g_connections := seq 0 (length conns);
     g_heap := map_seq 0 conns; g_fresh := length conns; g_records := [];
     g_rand := always (7, 7);
     g_world := sample_world 4096 (fun _ => input) |}.

Definition sample_agent (id : bytes) : xsiam_agent_state :=
  seen_agent all_ok id None None None None 5 (new_agent sample_ctx id 5).

(** Without memory for the strings of a new entry, the HELLO of an agent that is
    not in the table is undefined behaviour: the entry is listed with a null
    identifier, which the next lookup compares.  The same HELLO of a known agent
    only fails where the event of the connection outgrows its first 256 bytes. *)
Theorem untested_allocation_crashes :
  let g := sample_gw [sample_conn 3 None []] [sample_agent (str "a1")] [] in
  let g := g <| g_world := (g_world g) <| w_untested := always false |> |> in
  let seen id := agent_state_mark_seen (Some id) None None None None (Some 0%nat) in
  let long := replicate 200 97 in
  let g' := g <| g_agents := [sample_agent long] |> in
  seen (str "a2") g = None /\ is_Some (seen (str "a1") g) /\ seen long g' = None.
Proof. split; [by vm_compute|split; [by eexists; vm_compute|by vm_compute]]. Qed.

Example agent_table_invariant_witness :
  let g := sample_gw [sample_conn 3 None []] [sample_agent (str "a1")] [] in
  let ops := [OpSeen (Some (str "a2")) None None None None 0; OpHeartbeat (str "a1");
              OpDisconnected (str "a2"); OpSeen (Some (str "a1")) None None None None 0] in
  exists g', run_ops ops g = Some (tt, g') /\
    NoDup (ids (g_agents g')) /\ ids (g_agents g) `prefix_of` ids (g_agents g').
Proof.
  intros g ops. apply agent_table_invariant.
  - apply NoDup_singleton.
  - repeat apply Forall_cons_2; try apply Forall_nil_2; intros conn; cbn [op_conn];
      intros E; [injection E as <-|discriminate E|discriminate E|injection E as <-];
      by eexists.
  - done.
Defined.

Example hello_registers_agent_witness :
  let c := sample_conn 3 None [] in
  let g := sample_gw [c] [sample_agent (str "a1")] [] in
  exists g' now now0 a, agent_state_mark_seen (Some (str "a2")) (Some (str "host"))
      None (Some (str "server")) (Some (str "[]")) (Some 0%nat) g = Some (tt, g') /\
    (a ∈ g_agents g /\ st_agent_id a = str "a2" \/
     str "a2" ∉ ids (g_agents g) /\ a = new_agent (g_ctx g) (str "a2") now0) /\
    let b := seen_agent all_ok (str "a2") (Some (str "host")) None
               (Some (str "server")) (Some (str "[]")) now a in
    lookup_agent (str "a2") (g_agents g') = Some b /\ st_is_connected b = true /\
    (forall b', st_agent_id b' <> str "a2" -> b' ∈ g_agents g' <-> b' ∈ g_agents g) /\
    g_heap g' !! 0%nat = Some (c <| conn_agent_key := Some (str "a2") |>).
Proof.
  intros c g. apply (hello_registers_agent (str "a2") (Some (str "host")) None
    (Some (str "server")) (Some (str "[]")) 0%nat c g);
    [done|reflexivity|done|done|apply NoDup_singleton].
Defined.

Example disconnect_once_witness :
  let a := sample_agent (str "a1") in
  let g := sample_gw [] [a] [] in
  exists g1 g2 now t,
    agent_state_mark_disconnected (str "a1") g = Some (tt, g1) /\
    agent_state_mark_disconnected (str "a1") g1 = Some (tt, g2) /\
    lookup_agent (str "a1") (g_agents g1) = Some (disconnected_agent (str "offline") now a) /\
    w_trace (g_world g1) = w_trace (g_world g) ++ t /\
    posted (g_ctx g) (str "disconnect") (Some (str "a1")) t /\
    g_agents g2 = g_agents g1 /\ w_trace (g_world g2) = w_trace (g_world g1).
Proof.
  intros a g. apply (disconnect_once (str "a1") a g);
    [apply NoDup_singleton|apply list_elem_of_here|done|done|done|done].
Defined.
