(* ===== verification/GwConn.v ===== *)
(** The gateway's connections, gateway/plugins/in_xsiam_agent/xsiam_agent_conn.c:
    frame I/O, protocol detection, the message handlers, the per-connection
    buffer and the collector callbacks. *)
From S2P Require Import Prelude Json GwState.
#[local] Open Scope Z_scope.

(** * Wire helpers *)

Definition now_ms : ST gw Z :=
  ts ← clock_now; mret (u64 (u64 (fst ts) * 1000 + u64 (snd ts) / 1000000)).

Definition write_all (connection : Z) (buf : bytes) : ST gw Z :=
  loop (Datatypes.S (length buf)) (fun sent =>
    if sent <? zlen buf then
      '(ret, out_len) ← socket_write connection (drop (Z.to_nat sent) buf);
      if (ret <? 0) || (out_len =? 0) then mret (inr (-1))
      else mret (inl (sent + out_len))
    else mret (inr 0)) 0.

Definition rand_r : ST gw Z :=
  r ← gets (fun g => next (g_rand g));
  _ ← modify (fun g => g <| g_rand := advance (g_rand g) |>);
  _ ← set_ctx (fun c => c <| ctx_rand_state := snd r |>);
  mret (fst r).

Definition heartbeat_random_interval : ST gw Z :=
  ctx ← gets g_ctx;
  let range := ctx_heartbeat_max ctx - ctx_heartbeat_min ctx + 1 in
  if range <=? 1 then mret (ctx_heartbeat_min ctx) else
  r ← rand_r; mret (ctx_heartbeat_min ctx + Z.rem r range).

Definition schedule_next_heartbeat (conn : nat) : ST gw unit :=
  now ← time_now;
  interval ← heartbeat_random_interval;
  set_conn conn (fun c => c <| conn_next_heartbeat := now + interval |>).

(** * Frame I/O *)

(** [body] is [None] for a null pointer. *)
Definition send_frame (conn : nat) (msg_type agent_id seq : Z)
    (body : option bytes) (body_len : Z) : ST gw Z :=
  c ← get_conn conn;
  let frame_len := u32 (WZCP_HEADER_SIZE + body_len) in
  now ← now_ms;
  let len_buf := put_be32 frame_len in
  let hdr := put_be32 WZCP_MAGIC ++ [WZCP_VERSION; WZCP_HEADER_SIZE; 0; msg_type] ++
             put_be32 agent_id ++ put_be64 seq ++ put_be64 now ++
             put_be32 body_len in
  r ← write_all (conn_connection c) len_buf;
  if negb (r =? 0) then mret (-1) else
  r ← write_all (conn_connection c) hdr;
  if negb (r =? 0) then mret (-1) else
  match body with
  | Some body =>
      if body_len >? 0 then
        data ← lift (load body 0 body_len);
        write_all (conn_connection c) data
      else mret 0
  | None => mret 0
  end.

Definition send_ack (conn : nat) (seq : Z) : ST gw Z :=
  send_frame conn WZCP_MSG_ACK 0 seq (Some (put_be64 seq)) 8.

(** * Header unpacking and protocol detection *)

Definition unpack_header (inp : bytes) : option (Z * wzcp_header) :=
  magic ← get_be32 inp;
  version ← load1 inp 4;
  header_len ← load1 inp 5;
  flags ← load1 inp 6;
  msg_type ← load1 inp 7;
  agent_id ← get_be32 (drop 8 inp);
  seq ← get_be64 (drop 12 inp);
  timestamp_ms ← get_be64 (drop 20 inp);
  body_len ← get_be32 (drop 28 inp);
  let h := GwHeader magic version header_len flags msg_type agent_id seq
             timestamp_ms body_len in
  if negb (magic =? WZCP_MAGIC) || negb (version =? WZCP_VERSION) ||
     negb (header_len =? WZCP_HEADER_SIZE) || (body_len >? WZCP_MAX_FRAME)
  then Some (-1, h) else Some (0, h).

(** [buf] holds the bytes received so far; [len] is their number. *)
Definition looks_like_wzcp (buf : bytes) (len : Z) : option bool :=
  if len <? 4 + WZCP_HEADER_SIZE then Some false else
  frame_len ← get_be32 buf;
  if (frame_len <? WZCP_HEADER_SIZE) || (frame_len >? WZCP_MAX_FRAME)
  then Some false else
  magic ← get_be32 (drop 4 buf);
  Some (magic =? WZCP_MAGIC).

(** The loop over the first 128 bytes; [n] counts them. *)
Fixpoint syslog_scan (n : nat) (buf : bytes) : bool :=
  match n, buf with
  | Datatypes.S k, c :: rest =>
      if c =? 10 then true
      else if (c =? 0) || (c <? 9) || (c >? 13) && (c <? 32) then false
      else syslog_scan k rest
  | _, _ => false
  end.

Definition looks_like_syslog (buf : bytes) (len : Z) : option bool :=
  if len <=? 0 then Some false else
  b0 ← load1 buf 0;
  b1 ← (if (b0 =? 60) && (len >? 2) then load1 buf 1 else Some 0);
  if (b0 =? 60) && (len >? 2) && (b1 >=? 48) && (b1 <=? 57) then Some true else
  Some (syslog_scan 128 (take (Z.to_nat len) buf)).

(** * Classification *)

Definition reclassify (block : string) (old : option bytes) (tag : bytes)
    : ST gw (option bytes) :=
  if match old with None => true | Some o => negb (streq o tag) end
  then replace_opt_str block old tag else mret old.

Definition conn_set_classification (conn : nat) (protocol_tag client_group : bytes)
    : ST gw unit :=
  c ← get_conn conn;
  tag ← reclassify "protocol_tag" (conn_protocol_tag c) protocol_tag;
  _ ← set_conn conn (fun c => c <| conn_protocol_tag := tag |>);
  group ← reclassify "client_group" (conn_client_group c) client_group;
  set_conn conn (fun c => c <| conn_client_group := group |>).

(** * Parsing *)

(** The string read, [None] for the return code -1, and the new offset. *)
Definition read_string (body : bytes) (body_len off out_size : Z)
    : option (option bytes * Z) :=
  if (u32 (off + 2) >? body_len) || (out_size =? 0) then Some (None, off) else
  len ← get_be16 (drop (Z.to_nat off) body);
  let off := u32 (off + 2) in
  if (u32 (off + len) >? body_len) || (len >=? out_size)
  then Some (None, off) else
  data ← load body off len;
  Some (Some data, u32 (off + len)).

(** One byte of a JSON string; the loop stops at the terminator. *)
Definition json_escape_byte (c : Z) : bytes :=
  if c =? 92 then [92; 92]
  else if c =? 34 then [92; 34]
  else if c =? 10 then [92; 110]
  else if c =? 13 then [92; 114]
  else if c =? 9 then [92; 116]
  else if c <? 32 then [92; 117; 48; 48] ++ hex2 c
  else [c].

Definition json_escape (value : bytes) : bytes :=
  concat (map json_escape_byte value).

Definition json_escape_append (s : bytes) (value : option bytes) : bytes :=
  s ++ json_escape (cstr (match value with Some v => v | None => [] end)).

(** * Record emitters *)

(** Four encoder calls, each made only when the ones before it succeeded. *)
Definition encode_record (r : log_record) : ST gw Z :=
  begin_ ← encoder_succeeds;
  if negb begin_ then mret (-1) else
  timestamp ← encoder_succeeds;
  if negb timestamp then mret (-1) else
  values ← encoder_succeeds;
  if negb values then mret (-1) else
  commit ← encoder_succeeds;
  if negb commit then mret (-1) else
  _ ← modify (fun g => g <| g_records := g_records g ++ [r] |>); mret 0.

Definition or_default (s : option bytes) (default : bytes) : bytes :=
  match s with Some s => s | None => default end.

Definition wzcp_record (c : xsiam_agent_conn) (h : wzcp_header)
    (kind event_id : Z) (payload : bytes) : log_record :=
  [(str "protocol", VStr (str "wzcp"));
   (str "session_id", VStr (conn_session_id c));
   (str "session_protocol", VStr (or_default (conn_protocol_tag c)
                                    SESSION_PROTO_AGENT_WZCP));
   (str "client_group", VStr (or_default (conn_client_group c)
                                SESSION_GROUP_AGENT));
   (str "agent_id", VUint (wh_agent_id h));
   (str "frame_seq", VUint (wh_seq h));
   (str "event_id", VUint event_id);
   (str "kind", VUint kind);
   (str "log", VStr payload)].

Definition append_record (conn : nat) (h : wzcp_header) (kind event_id : Z)
    (payload : bytes) (payload_len : Z) : ST gw Z :=
  c ← get_conn conn;
  payload ← lift (load payload 0 payload_len);
  encode_record (wzcp_record c h kind event_id payload).

Definition syslog_record (c : xsiam_agent_conn) (payload : bytes) : log_record :=
  [(str "protocol", VStr (str "syslog"));
   (str "session_id", VStr (conn_session_id c));
   (str "session_protocol", VStr (or_default (conn_protocol_tag c)
                                    SESSION_PROTO_SYSLOG));
   (str "client_group", VStr (or_default (conn_client_group c)
                                SESSION_GROUP_DEVICE));
   (str "log", VStr payload)].

Definition append_syslog_record (conn : nat) (payload : bytes) (payload_len : Z)
    : ST gw Z :=
  c ← get_conn conn;
  payload ← lift (load payload 0 payload_len);
  encode_record (syslog_record c payload).

(** [flb_log_event_encoder_reset], and the hand-over of what was committed. *)
Definition encoder_reset : ST gw unit :=
  modify (fun g => g <| g_records := [] |>).

Definition ingest_records : ST gw unit :=
  records ← gets g_records;
  if bool_decide (records = []) then mret tt else emit (Ingest records).

(** * Message handlers *)

(** The address list of a HELLO: [None] when a string cannot be read.  The list
    is made with room for one byte, so that the appends of each address
    reallocate it. *)
Fixpoint hello_macs (count : nat) (first : bool) (body : bytes)
    (body_len off : Z) (json : bytes) : ST gw (option bytes) :=
  match count with
  | O => mret (Some json)
  | Datatypes.S k =>
      '(mac, off) ← lift (read_string body body_len off 32);
      match mac with
      | None => mret None
      | Some mac =>
          _ ← untested;
          let json := if first then json else json ++ str "," in
          let json := json_escape_append (json ++ [JQ]) (Some mac) ++ [JQ] in
          hello_macs k false body body_len off json
      end
  end.

(** The part of [process_hello] for schema 2 and later: the host type and the
    addresses as JSON, [None] for the return code -1. *)
Definition hello_v2_fields (body : bytes) (body_len off : Z)
    : ST gw (option (bytes * bytes)) :=
  '(host_type, off) ← lift (read_string body body_len off 16);
  match host_type with
  | None => mret None
  | Some host_type =>
      if u32 (off + 2) >? body_len then mret None else
      mac_count ← lift (get_be16 (drop (Z.to_nat off) body));
      let off := u32 (off + 2) in
      ok ← alloc_succeeds;
      if negb ok then mret None else
      macs ← hello_macs (Z.to_nat mac_count) true body body_len off (str "[");
      match macs with
      | None => mret None
      | Some json => _ ← untested; mret (Some (host_type, json ++ str "]"))
      end
  end.

Definition process_hello (conn : nat) (h : wzcp_header) (body : bytes) : ST gw Z :=
  let body_len := wh_body_len h in
  if body_len <? 4 then mret (-1) else
  schema_version ← lift (get_be16 body);
  if schema_version <? 1 then mret (-1) else
  '(agent_id, off) ← lift (read_string body body_len 4 128);
  match agent_id with
  | None => mret (-1)
  | Some agent_id =>
  '(agent_name, off) ← lift (read_string body body_len off 256);
  match agent_name with
  | None => mret (-1)
  | Some agent_name =>
  '(agent_version, off) ← lift (read_string body body_len off 64);
  match agent_version with
  | None => mret (-1)
  | Some agent_version =>
  v2 ← (if schema_version >=? 2
        then r ← hello_v2_fields body body_len off; mret (Some r)
        else mret None);
  match v2 with
  | Some None => mret (-1)
  | _ =>
      let host_type := match v2 with
                       | Some (Some (t, _)) =>
                           if bool_decide (cstr t = []) then None else Some (cstr t)
                       | _ => None
                       end in
      let macs := match v2 with Some (Some (_, m)) => Some m | _ => None end in
      _ ← agent_state_mark_seen (Some (cstr agent_id)) (Some (cstr agent_name))
            (Some (cstr agent_version)) host_type macs (Some conn);
      _ ← conn_set_classification conn SESSION_PROTO_AGENT_WZCP SESSION_GROUP_AGENT;
      send_ack conn (wh_seq h)
  end end end end.

(** The loop over the events of a batch: [true] when all were appended. *)
Fixpoint append_events (count : nat) (conn : nat) (h : wzcp_header)
    (body : bytes) (off : Z) : ST gw bool :=
  match count with
  | O => mret true
  | Datatypes.S k =>
      if u32 (off + 20) >? wh_body_len h then mret false else
      kind ← lift (load1 body off);
      event_id ← lift (get_be64 (drop (Z.to_nat (off + 10)) body));
      payload_len ← lift (get_be16 (drop (Z.to_nat (off + 18)) body));
      let off := u32 (off + 20) in
      if u32 (off + payload_len) >? wh_body_len h then mret false else
      r ← append_record conn h kind event_id (drop (Z.to_nat off) body) payload_len;
      if r <? 0 then mret false else
      append_events k conn h body (u32 (off + payload_len))
  end.

Definition process_event_batch (conn : nat) (h : wzcp_header) (body : bytes)
    : ST gw Z :=
  if wh_body_len h <? 2 then mret (-1) else
  count ← lift (get_be16 body);
  _ ← encoder_reset;
  ok ← append_events (Z.to_nat count) conn h body 2;
  if negb ok then mret (-1) else
  _ ← ingest_records;
  send_ack conn (wh_seq h).

(** * Syslog *)

(** The loop over the buffer: [rest] are the bytes from position [i] on. *)
Fixpoint syslog_loop (conn : nat) (buf rest : bytes) (i line_start consumed : Z)
    : ST gw (option Z) :=
  match rest with
  | [] => mret (Some consumed)
  | c :: rest =>
      if negb (c =? 10) then syslog_loop conn buf rest (i + 1) line_start consumed
      else
      let line_len := i - line_start in
      last ← (if line_len >? 0 then lift (load1 buf (line_start + line_len - 1))
              else mret 0);
      let line_len := if (line_len >? 0) && (last =? 13)
                      then line_len - 1 else line_len in
      r ← (if line_len >? 0
           then append_syslog_record conn (drop (Z.to_nat line_start) buf)
                  (u16 line_len)
           else mret 0);
      if r <? 0 then mret None else
      syslog_loop conn buf rest (i + 1) (i + 1) (i + 1)
  end.

Definition process_syslog_lines (conn : nat) : ST gw Z :=
  c ← get_conn conn;
  _ ← encoder_reset;
  let buf := take (Z.to_nat (conn_buf_len c)) (conn_buf_data c) in
  r ← syslog_loop conn buf buf 0 0 0;
  match r with
  | None => mret (-1)
  | Some consumed => _ ← ingest_records; mret consumed
  end.

(** * Frame dispatch *)

Definition handle_message (conn : nat) (h : wzcp_header) (body : bytes)
    : ST gw Z :=
  if wh_msg_type h =? WZCP_MSG_HELLO then process_hello conn h body
  else if wh_msg_type h =? WZCP_MSG_HEARTBEAT then
    c ← get_conn conn;
    _ ← match conn_agent_key c with
        | Some key => agent_state_mark_heartbeat key
        | None => mret tt
        end;
    send_ack conn (wh_seq h)
  else if wh_msg_type h =? WZCP_MSG_EVENT_BATCH then
    c ← get_conn conn;
    _ ← match conn_agent_key c with
        | Some key => agent_state_mark_heartbeat key
        | None => mret tt
        end;
    process_event_batch conn h body
  else mret 0.

(** One round of the loop over the received bytes [buf]. *)
Definition process_frame (conn : nat) (buf : bytes) (consumed : Z)
    : ST gw (Z + Z) :=
  let avail := zlen buf - consumed in
  if avail <? 4 + WZCP_HEADER_SIZE then mret (inr consumed) else
  let inp := drop (Z.to_nat consumed) buf in
  frame_len ← lift (get_be32 inp);
  if (frame_len <? WZCP_HEADER_SIZE) || (frame_len >? WZCP_MAX_FRAME)
  then mret (inr (-1)) else
  if avail <? 4 + frame_len then mret (inr consumed) else
  '(rc, h) ← lift (unpack_header (drop 4 inp));
  if (rc <? 0) || negb (wh_body_len h =? frame_len - WZCP_HEADER_SIZE)
  then mret (inr (-1)) else
  ret ← handle_message conn h (drop (Z.to_nat (4 + WZCP_HEADER_SIZE)) inp);
  if ret <? 0 then mret (inr (-1)) else
  mret (inl (consumed + 4 + frame_len)).

Definition process_frames (conn : nat) : ST gw Z :=
  _ ← conn_set_classification conn SESSION_PROTO_AGENT_WZCP SESSION_GROUP_AGENT;
  c ← get_conn conn;
  let buf := take (Z.to_nat (conn_buf_len c)) (conn_buf_data c) in
  loop (Datatypes.S (length buf)) (process_frame conn buf) 0.

Definition process_buffer (conn : nat) : ST gw Z :=
  c ← get_conn conn;
  let buf := take (Z.to_nat (conn_buf_len c)) (conn_buf_data c) in
  wzcp ← lift (looks_like_wzcp buf (conn_buf_len c));
  if wzcp : bool then process_frames conn else
  syslog ← lift (looks_like_syslog buf (conn_buf_len c));
  if syslog : bool then
    _ ← conn_set_classification conn SESSION_PROTO_SYSLOG SESSION_GROUP_DEVICE;
    process_syslog_lines conn
  else if conn_buf_len c >=? 4 + WZCP_HEADER_SIZE then mret (-1) else mret 0.

Definition consume_bytes (buf : bytes) (n len : Z) : option bytes :=
  if (n >? 0) && (n <=? len) then
    data ← load buf n (len - n); store buf 0 data
  else Some buf.

(** * Public API *)

Definition conn_add (connection : Z) : ST gw (option nat) :=
  ok ← malloc "conn";
  if negb ok then mret None else
  _ ← set_ctx (fun c => c <| ctx_session_seq := u64 (ctx_session_seq c + 1) |>);
  ctx ← gets g_ctx;
  let session_id := str "session-" ++ dec (ctx_session_seq ctx) in
  let buf_size := s32 (ctx_chunk_size ctx) in
  ok ← malloc "buf";
  if negb ok then _ ← free "conn"; mret None else
  tag ← malloc "protocol_tag";
  group ← malloc "client_group";
  if negb tag || negb group then
    _ ← (if tag : bool then free "protocol_tag" else mret tt);
    _ ← (if group : bool then free "client_group" else mret tt);
    _ ← free "buf"; _ ← free "conn"; mret None
  else
  conn ← gets g_fresh;
  _ ← modify (fun g => g
        <| g_fresh := Datatypes.S (g_fresh g) |>
        <| g_heap := <[conn :=
             {| conn_connection := connection;
                conn_buf_data := replicate (Z.to_nat buf_size) 0;
                conn_buf_len := 0; conn_buf_size := buf_size;
                conn_busy := false; conn_pending_close := false;
                conn_next_heartbeat := 0; conn_agent_key := None;
                conn_protocol_tag := Some SESSION_PROTO_UNKNOWN;
                conn_client_group := Some SESSION_GROUP_UNKNOWN;
                conn_session_id := session_id |}]> (g_heap g) |>);
  _ ← schedule_next_heartbeat conn;
  registered ← resource_granted;
  if negb registered then
    _ ← free "buf"; _ ← free "conn";
    _ ← modify (fun g => g <| g_heap := delete conn (g_heap g) |>);
    mret None
  else
  _ ← modify (fun g => g <| g_connections := g_connections g ++ [conn] |>);
  mret (Some conn).

Definition conn_del (conn : nat) : ST gw Z :=
  c ← get_conn conn;
  _ ← match conn_agent_key c with
      | Some key => agent_state_mark_disconnected key
      | None => mret tt
      end;
  _ ← emit (Release "connection");
  _ ← modify (fun g => g <| g_connections :=
                filter (fun i => i <> conn) (g_connections g) |>);
  _ ← free "buf";
  _ ← free_opt "agent_key" (conn_agent_key c);
  _ ← free_opt "protocol_tag" (conn_protocol_tag c);
  _ ← free_opt "client_group" (conn_client_group c);
  _ ← free "conn";
  _ ← modify (fun g => g <| g_heap := delete conn (g_heap g) |>);
  mret 0.

(** [busy := false], then [conn_del]; the event handler returns -1. *)
Definition close_conn (conn : nat) : ST gw Z :=
  _ ← set_conn conn (fun c => c <| conn_busy := false |>);
  _ ← conn_del conn; mret (-1).

(** Make room in the buffer: [None] to go on, or the handler's result. *)
Definition ensure_room (conn : nat) : ST gw (option Z) :=
  c ← get_conn conn;
  if conn_buf_size c - conn_buf_len c <? 1 then
    ctx ← gets g_ctx;
    if u64 (conn_buf_size c + ctx_chunk_size ctx) >? ctx_buffer_size ctx
    then r ← close_conn conn; mret (Some r) else
    let size := s32 (conn_buf_size c + s32 (ctx_chunk_size ctx)) in
    ok ← alloc_succeeds;
    if negb ok
    then _ ← set_conn conn (fun c => c <| conn_busy := false |>); mret (Some (-1))
    else
    _ ← set_conn conn (fun c => c
          <| conn_buf_data := conn_buf_data c ++
               replicate (Z.to_nat (size - conn_buf_size c)) 0 |>
          <| conn_buf_size := size |>);
    mret None
  else mret None.

(** Read once and process what is buffered. *)
Definition read_and_process (conn : nat) : ST gw (option Z) :=
  c ← get_conn conn;
  data ← socket_read (conn_connection c) (conn_buf_size c - conn_buf_len c);
  if zlen data <=? 0 then r ← close_conn conn; mret (Some r) else
  buf ← lift (store (conn_buf_data c) (conn_buf_len c) data);
  _ ← set_conn conn (fun c => c
        <| conn_buf_data := buf |>
        <| conn_buf_len := conn_buf_len c + zlen data |>);
  processed ← process_buffer conn;
  if processed <? 0 then r ← close_conn conn; mret (Some r) else
  c ← get_conn conn;
  buf ← lift (consume_bytes (conn_buf_data c) processed (conn_buf_len c));
  _ ← set_conn conn (fun c => c
        <| conn_buf_data := buf |>
        <| conn_buf_len := conn_buf_len c - processed |>);
  mret None.

(** The event handler; [mask_read] and [mask_close] are bits of the event mask. *)
Definition conn_event (conn : nat) (mask_read mask_close : bool) : ST gw Z :=
  _ ← set_conn conn (fun c => c <| conn_busy := true |>);
  r ← (if mask_read then
         room ← ensure_room conn;
         match room with
         | Some r => mret (Some r)
         | None => read_and_process conn
         end
       else mret None);
  match r with
  | Some r => mret r
  | None =>
      if mask_close then close_conn conn else
      _ ← set_conn conn (fun c => c <| conn_busy := false |>);
      c ← get_conn conn;
      if conn_pending_close c then _ ← conn_del conn; mret (-1) else mret 0
  end.

(** * Collector callbacks *)

(** [connection] is what [flb_downstream_conn_get] answers. *)
Definition collect (connection : option Z) : ST gw Z :=
  match connection with
  | None => mret 0
  | Some connection =>
      _ ← emit (Acquire "connection");
      conn ← conn_add connection;
      match conn with
      | Some _ => mret 0
      | None => _ ← emit (Release "connection"); mret (-1)
      end
  end.

Definition heartbeat_one (now : Z) (conn : nat) : ST gw unit :=
  c ← get_conn conn;
  if match conn_protocol_tag c with
     | None => true
     | Some t => negb (streq t SESSION_PROTO_AGENT_WZCP)
     end then mret tt else
  if now <? conn_next_heartbeat c then mret tt else
  _ ← set_ctx (fun c => c <| ctx_gateway_seq := u64 (ctx_gateway_seq c + 1) |>);
  seq ← gets (fun g => ctx_gateway_seq (g_ctx g));
  r ← send_frame conn WZCP_MSG_HEARTBEAT 0 seq None 0;
  if negb (r =? 0) then _ ← conn_del conn; mret tt
  else schedule_next_heartbeat conn.

(** The safe iteration: the next element is fetched before the body runs. *)
Fixpoint for_each (f : nat -> ST gw unit) (conns : list nat) : ST gw unit :=
  match conns with
  | [] => mret tt
  | conn :: rest => _ ← f conn; for_each f rest
  end.

Definition heartbeat_collect : ST gw Z :=
  now ← time_now;
  conns ← gets g_connections;
  _ ← for_each (heartbeat_one now) conns; mret 0.

(** * What a handler may change

    [became conn c' l r t g g']: the connection [conn] is now [c'], the agent
    table [l], the encoder's records [r], the effects [t] happened, and nothing
    else changed. *)

Definition became (conn : nat) (c' : xsiam_agent_conn) (l : list xsiam_agent_state)
    (r : list log_record) (t : list effect) (g g' : gw) : Prop :=
  exists w, emits t (g_world g) w /\
    g' = Gw (g_ctx g) l (g_connections g) (<[conn := c']> (g_heap g)) (g_fresh g)
           r (g_rand g) w.

Lemma became_trans conn c1 c2 l1 l2 r1 r2 t1 t2 g g1 g2 :
  became conn c1 l1 r1 t1 g g1 -> became conn c2 l2 r2 t2 g1 g2 ->
  became conn c2 l2 r2 (t1 ++ t2) g g2.
Proof.
  intros (w1 & H1 & ->) (w2 & H2 & ->). exists w2.
  split; [eapply emits_compose; [exact H1|exact H2]|].
  cbn [g_ctx g_connections g_heap g_fresh g_rand]. by rewrite insert_insert_eq.
Qed.

Lemma to_became conn c l t g g' :
  g_heap g !! conn = Some c -> to l t g g' -> became conn c l (g_records g) t g g'.
Proof.
  intros Hc (w & Hw & ->). exists w. split; [exact Hw|].
  rewrite insert_id by done. reflexivity.
Qed.

Lemma became_refl conn c g :
  g_heap g !! conn = Some c -> became conn c (g_agents g) (g_records g) [] g g.
Proof. intros Hc. apply to_became; [done|apply to_refl]. Qed.

Lemma became_conn conn c l r t g g' :
  became conn c l r t g g' -> g_heap g' !! conn = Some c.
Proof. intros (w & _ & ->). cbn. apply lookup_insert_eq. Qed.

Lemma became_agents conn c l r t g g' :
  became conn c l r t g g' -> g_agents g' = l.
Proof. by intros (w & _ & ->). Qed.

Lemma became_records conn c l r t g g' :
  became conn c l r t g g' -> g_records g' = r.
Proof. by intros (w & _ & ->). Qed.

Lemma became_env conn c l r t g g' :
  became conn c l r t g g' -> env (g_world g') = env (g_world g).
Proof. by intros (w & (_ & _ & E) & ->). Qed.

Lemma became_ctx conn c l r t g g' :
  became conn c l r t g g' -> g_ctx g' = g_ctx g.
Proof. by intros (w & _ & ->). Qed.

(** A handler relabels its connection but leaves its socket and buffer alone. *)
Definition relabel (c : xsiam_agent_conn) (key tag group : option bytes) :=
  c <| conn_agent_key := key |> <| conn_protocol_tag := tag |>
    <| conn_client_group := group |>.

Definition same_socket (c c' : xsiam_agent_conn) : Prop :=
  exists key tag group, c' = relabel c key tag group.

Lemma same_socket_refl c : same_socket c c.
Proof. exists (conn_agent_key c), (conn_protocol_tag c), (conn_client_group c). by destruct c. Qed.

Lemma same_socket_trans c1 c2 c3 :
  same_socket c1 c2 -> same_socket c2 c3 -> same_socket c1 c3.
Proof. intros (? & ? & ? & ->) (k & t & gr & ->). by exists k, t, gr. Qed.

(** The agent table stays duplicate free and well formed, and no agent is lost. *)
Definition table_ok (ctx : xsiam_agent_ctx) (l l' : list xsiam_agent_state) : Prop :=
  (NoDup (ids l) -> NoDup (ids l')) /\ ids l `prefix_of` ids l' /\
  (bytes_ok (tenant_or_default ctx) -> Forall agent_wf l -> Forall agent_wf l').

Lemma table_ok_refl ctx l : table_ok ctx l l.
Proof. by split. Qed.

Lemma table_ok_trans ctx l1 l2 l3 :
  table_ok ctx l1 l2 -> table_ok ctx l2 l3 -> table_ok ctx l1 l3.
Proof. intros (H1 & P1 & W1) (H2 & P2 & W2). split_and!; [auto|by etrans|auto]. Qed.

Definition handled (conn : nat) (c : xsiam_agent_conn) (g g' : gw) : Prop :=
  exists c' l r t, became conn c' l r t g g' /\ same_socket c c' /\
    table_ok (g_ctx g) (g_agents g) l.

Lemma handled_trans conn c g g1 g2 :
  handled conn c g g1 ->
  (forall c1, same_socket c c1 -> g_heap g1 !! conn = Some c1 -> handled conn c1 g1 g2) ->
  handled conn c g g2.
Proof.
  intros (c1 & l1 & r1 & t1 & H1 & S1 & T1) H2.
  destruct (H2 c1 S1) as (c2 & l2 & r2 & t2 & H2' & S2 & T2);
    [by eapply became_conn|].
  exists c2, l2, r2, (t1 ++ t2). split_and!.
  - by eapply became_trans.
  - by eapply same_socket_trans.
  - rewrite (became_agents _ _ _ _ _ _ _ H1), (became_ctx _ _ _ _ _ _ _ H1) in T2.
    by eapply table_ok_trans.
Qed.

Lemma handled_untested_ok conn c g g' :
  handled conn c g g' -> untested_ok (g_world g) -> untested_ok (g_world g').
Proof. intros (c1 & l & r & t & (w & (_ & _ & E) & ->) & _). by apply untested_ok_env. Qed.

Lemma to_handled conn c l t g g' :
  g_heap g !! conn = Some c -> to l t g g' -> table_ok (g_ctx g) (g_agents g) l ->
  handled conn c g g'.
Proof.
  intros Hc Ht Hl. exists c, l, (g_records g), t.
  split_and!; [by apply to_became|apply same_socket_refl|done].
Qed.

Lemma handled_refl conn c g : g_heap g !! conn = Some c -> handled conn c g g.
Proof. intros. eapply to_handled; [done|apply to_refl|apply table_ok_refl]. Qed.

(** Sequencing two handlers of one connection. *)
Lemma wp_handled_bind {A B} (m : ST gw A) (k : A -> ST gw B) conn c g (R : B -> Prop)
    (P : A -> gw -> Prop) :
  wp m (fun a g' => handled conn c g g' /\ P a g') g ->
  (forall a g1 c1, P a g1 -> same_socket c c1 -> g_heap g1 !! conn = Some c1 ->
     handled conn c g g1 ->
     wp (k a) (fun b g' => handled conn c1 g1 g' /\ R b) g1) ->
  wp (m ≫= k) (fun b g' => handled conn c g g' /\ R b) g.
Proof.
  intros Hm Hk. apply wp_bind. eapply wp_mono; [exact Hm|].
  intros a g1 [H1 HP]. destruct (H1) as (c1 & l & r & t & Hb & S1 & _).
  pose proof (became_conn _ _ _ _ _ _ _ Hb) as Hc1.
  eapply wp_mono; [by eapply (Hk a g1 c1)|]. intros b g2 [H2 HR].
  split; [|done]. eapply handled_trans; [exact H1|].
  intros c1' _ Hc1'. rewrite Hc1 in Hc1'. by injection Hc1' as <-.
Qed.

(** * Sending *)

Lemma writes_emits fd a w w' :
  writes fd a w w' -> exists t, emits t w w' /\ Forall (is_wire fd) t /\ sent_to fd t = a.
Proof. intros (I & E & t & T & F & S). exists t. by split_and!. Qed.

Lemma steps_writes_to fd a g g' :
  steps (writes fd a) g g' ->
  exists t, to (g_agents g) t g g' /\ Forall (is_wire fd) t /\ sent_to fd t = a.
Proof.
  intros (f & -> & H). destruct (writes_emits _ _ _ _ H) as (t & He & F & S).
  exists t. split_and!; [|done|done]. apply steps_to. by exists f.
Qed.

(** What a sender promises of the bytes [whole]: 0 and all of them went out, or
    -1 and a proper prefix of them; -1 only when a write failed. *)
Definition sent (fd : Z) (whole : bytes) (g : gw) (rc : Z) (g' : gw) : Prop :=
  exists t k, to (g_agents g) t g g' /\ Forall (is_wire fd) t /\
    sent_to fd t = take k whole /\
    (rc = 0 /\ k = length whole \/
     rc = -1 /\ (k < length whole)%nat /\ ~ write_ok (g_world g)).

Lemma write_all_spec fd buf g : wp (write_all fd buf) (sent fd buf g) g.
Proof.
  unfold write_all.
  apply (wp_loop (fun sent g' => 0 <= sent <= zlen buf /\
      steps (writes fd (take (Z.to_nat sent) buf)) g g')
    (fun sent => Z.to_nat (zlen buf - sent))).
  - split; [zlia|]. rewrite take_0. by apply steps_refl, writes_nil.
  - unfold zlen. lia.
  - intros n g1 [Hs Hp]. destruct (Z.ltb_spec n (zlen buf)).
    + apply wp_bind, wp_socket_write. intros ret k g2 Hk Hr Hok Hp2.
      rewrite zlen_drop in Hk by lia.
      assert (steps (writes fd (take (Z.to_nat (n + k)) buf)) g g2) as Hp'.
      { rewrite Z2Nat.inj_add, <- take_take_drop by lia.
        eapply steps_trans; [|exact Hp|exact Hp2]. apply writes_compose. }
      assert (write_ok (g_world g) -> write_ok (world_of g1)) as Hw.
      { destruct Hp as (f & -> & _ & E & _). by apply write_ok_env. }
      destruct (orb _ _) eqn:Hor; apply wp_ret.
      * destruct (steps_writes_to _ _ _ _ Hp') as (t & ? & ? & ?).
        exists t, (Z.to_nat (n + k)). split_and!; [done|done|done|].
        right. split; [done|].
        assert (~ write_ok (g_world g)) as Hno.
        { intros Hw0. destruct (Hok (Hw Hw0)); [rewrite zlen_drop; lia|lia]. }
        split; [|done]. destruct (Z.ltb_spec ret 0) as [Hneg|]; [specialize (Hr Hneg)|];
          unfold zlen in *; lia.
      * split; [split; [lia|done]|lia].
    + apply wp_ret. destruct (steps_writes_to _ _ _ _ Hp) as (t & ? & ? & ?).
      exists t, (Z.to_nat n). split_and!; [done|done|done|]. left.
      unfold zlen in *. lia.
Qed.

Definition sent_all (fd : Z) (pre : bytes) (g0 g1 : gw) : Prop :=
  exists t, to (g_agents g0) t g0 g1 /\ Forall (is_wire fd) t /\ sent_to fd t = pre.

Lemma sent_all_nil fd g g1 : to (g_agents g) [] g g1 -> sent_all fd [] g g1.
Proof. intros H. exists []. by split_and!. Qed.

Lemma to_env l t g g' : to l t g g' -> env (g_world g') = env (g_world g).
Proof. by intros (w & (_ & _ & E) & ->). Qed.

(** One part of a longer message. *)
Lemma wp_write_part fd whole pre buf rest g0 g1 (Q : Z -> gw -> Prop) :
  whole = pre ++ buf ++ rest -> sent_all fd pre g0 g1 ->
  (forall g2, sent_all fd (pre ++ buf) g0 g2 -> Q 0 g2) ->
  (forall g2, sent fd whole g0 (-1) g2 -> Q (-1) g2) ->
  wp (write_all fd buf) Q g1.
Proof.
  intros -> (t & Ht & Hw & Hs) H0 H1.
  eapply wp_mono; [apply write_all_spec|]. intros rc g2 (u & k & Hu & Fu & Su & Hrc).
  pose proof (to_trans_agents _ _ _ _ _ _ Ht Hu) as Htu.
  assert (Forall (is_wire fd) (t ++ u)) as F by (by apply Forall_app_2).
  destruct Hrc as [[-> ->]|(-> & Hk & Hno)].
  - apply H0. exists (t ++ u). split_and!; [done|done|].
    by rewrite sent_to_app, Hs, Su, firstn_all.
  - apply H1. exists (t ++ u), (length pre + k)%nat. split_and!; [done|done| |right].
    + rewrite sent_to_app, Hs, Su, take_app_add, take_app_le by lia. done.
    + split_and!; [done|rewrite !length_app; lia|].
      intros Hok. apply Hno. eapply write_ok_env; [|exact Hok]. by eapply to_env.
Qed.

Definition gw_header (msg_type agent_id seq ts body_len : Z) : bytes :=
  be_bytes 4 WZCP_MAGIC ++ [WZCP_VERSION; WZCP_HEADER_SIZE; 0; msg_type] ++
  be_bytes 4 agent_id ++ be_bytes 8 seq ++ be_bytes 8 ts ++ be_bytes 4 body_len.

Definition gw_frame (msg_type agent_id seq ts : Z) (body : bytes) : bytes :=
  be_bytes 4 (WZCP_HEADER_SIZE + zlen body) ++
  gw_header msg_type agent_id seq ts (zlen body) ++ body.

Lemma gw_put_be64_spec v : put_be64 v = be_bytes 8 v.
Proof. apply wr64_spec. Qed.

Lemma gw_send_frame_spec conn c msg_type agent_id seq body g :
  g_heap g !! conn = Some c ->
  let data := or_default body [] in
  zlen data < 2 ^ 31 ->
  wp (send_frame conn msg_type agent_id seq body (zlen data)) (fun r g' =>
    exists ts, sent (conn_connection c) (gw_frame msg_type agent_id seq ts data) g r g') g.
Proof.
  intros Hc data Hl. unfold send_frame. apply wp_bind. eapply wp_get_conn; [exact Hc|].
  cbv zeta. apply wp_bind. unfold now_ms. apply wp_bind, wp_clock_now.
  intros ts g1 H1%steps_quiet_to. apply wp_ret. set (now := u64 _). clearbody now.
  rewrite (uwrap_small 32) by (unfold fits, WZCP_HEADER_SIZE; zlia).
  rewrite !gw_put_be64_spec.
  change (put_be32 (WZCP_HEADER_SIZE + zlen data))
    with (be_bytes 4 (WZCP_HEADER_SIZE + zlen data)).
  set (hdr := put_be32 WZCP_MAGIC ++ _).
  change hdr with (gw_header msg_type agent_id seq now (zlen data)). clear hdr.
  set (fd := conn_connection c).
  assert (Hfail : forall g2, sent fd (gw_frame msg_type agent_id seq now data) g (-1) g2 ->
    exists ts, sent fd (gw_frame msg_type agent_id seq ts data) g (-1) g2) by eauto.
  assert (Hdone : forall g2, sent_all fd (gw_frame msg_type agent_id seq now data) g g2 ->
    exists ts, sent fd (gw_frame msg_type agent_id seq ts data) g 0 g2).
  { intros g2 (t & Ht & F & Hs). exists now, t, (length (gw_frame msg_type agent_id seq now data)).
    split_and!; [done|done|by rewrite firstn_all|by left]. }
  apply wp_bind. eapply wp_write_part; [symmetry; apply app_nil_l|by apply sent_all_nil| |].
  2:{ intros g2 H2. apply wp_ret, Hfail, H2. }
  intros g2 H2. cbn [Z.eqb negb app]. apply wp_bind.
  eapply (wp_write_part _ _ _ _ data); [|exact H2| |].
  1:{ reflexivity. }
  2:{ intros g3 H3. apply wp_ret, Hfail, H3. }
  intros g3 H3. cbn [Z.eqb negb].
  assert (Hend : data = [] -> exists ts,
    sent fd (gw_frame msg_type agent_id seq ts data) g 0 g3).
  { intros E. apply Hdone. unfold gw_frame. rewrite E in *. by rewrite app_nil_r. }
  destruct body as [body|]; [|by apply wp_ret, Hend].
  change data with body in *. destruct (Z.gtb_spec (zlen body) 0).
  - apply wp_bind. eapply wp_lift.
    { rewrite load_some by lia. change (Z.to_nat 0) with 0%nat.
      by rewrite drop_0, to_nat_zlen, firstn_all. }
    eapply (wp_write_part _ (gw_frame msg_type agent_id seq now body) _ _ []); [|exact H3| |].
    + unfold gw_frame. by rewrite app_nil_r, app_assoc.
    + intros g4 H4. apply Hdone. unfold gw_frame. by rewrite app_assoc.
    + intros g4 H4. apply Hfail, H4.
  - apply wp_ret, Hend. destruct body; [done|zlia].
Qed.

Definition ack_frame (seq ts : Z) : bytes :=
  gw_frame WZCP_MSG_ACK 0 seq ts (be_bytes 8 seq).

Lemma send_ack_spec conn c seq g :
  g_heap g !! conn = Some c ->
  wp (send_ack conn seq) (fun r g' =>
    exists ts, sent (conn_connection c) (ack_frame seq ts) g r g') g.
Proof.
  intros Hc. unfold send_ack. rewrite gw_put_be64_spec.
  apply (gw_send_frame_spec conn c WZCP_MSG_ACK 0 seq (Some (be_bytes 8 seq)) g Hc).
  done.
Qed.

Lemma sent_handled conn c fd whole g r g' :
  g_heap g !! conn = Some c -> sent fd whole g r g' -> handled conn c g g'.
Proof.
  intros Hc (t & k & Ht & _). eapply to_handled; [done|exact Ht|apply table_ok_refl].
Qed.

(** * Parsing *)

Lemma gw_get_be16_take p : bytes_ok p -> (2 <= length p)%nat ->
  get_be16 p = Some (be_val (take 2 p)).
Proof. apply rd16_spec. Qed.

(** [read_string] on any body: it stays inside the first [body_len] bytes, and
    a string it returns is the length-prefixed one at the offset. *)
Lemma read_string_spec body body_len off out_size :
  bytes_ok body -> 0 <= off <= body_len -> body_len <= zlen body ->
  body_len < 2 ^ 31 -> 0 < out_size ->
  exists r off', read_string body body_len off out_size = Some (r, off') /\
    off <= off' <= body_len /\
    match r with
    | Some data => bytes_ok data /\ zlen data < out_size /\ off' = off + 2 + zlen data
    | None => True
    end.
Proof.
  intros Hb Ho Hl Hm Hs. unfold read_string.
  rewrite (uwrap_small 32 (off + 2)) by (unfold fits; lia).
  destruct ((off + 2 >? body_len) || (out_size =? 0)) eqn:E1.
  { eexists None, off. split_and!; done || lia. }
  assert (Hlen : (2 <= length (drop (Z.to_nat off) body))%nat)
    by (rewrite length_drop; unfold zlen in *; lia).
  rewrite gw_get_be16_take by (done || by apply Forall_drop).
  cbn [mbind option_bind]. set (len := be_val _).
  assert (0 <= len < 2 ^ 16) as Hlenr.
  { unfold len. assert (bytes_ok (take 2 (drop (Z.to_nat off) body))) as B
      by (by apply Forall_take, Forall_drop).
    apply be_val_bound in B. unfold zlen in B. rewrite length_take in B.
    rewrite Nat.min_l in B by done. exact B. }
  cbv zeta. rewrite (uwrap_small 32 (off + 2 + len)) by (unfold fits; lia).
  destruct ((off + 2 + len >? body_len) || (len >=? out_size)) eqn:E2.
  { eexists None, _. split_and!; done || lia. }
  destruct (load body (off + 2) len) as [data|] eqn:E3.
  2:{ rewrite load_some in E3 by lia. done. }
  cbn [mbind option_bind]. pose proof (load_length _ _ _ _ E3).
  eexists (Some data), _. split_and!; [done|lia|lia|by eapply load_ok|lia|lia].
Qed.

(** * Classification *)

Lemma wp_reclassify blk old tag (Q : option bytes -> gw -> Prop) g :
  (forall s t g', to (g_agents g) t g g' -> Forall is_alloc t ->
     (s = Some tag \/ ~ alloc_ok (g_world g) /\ s = old) -> Q s g') ->
  wp (reclassify blk old tag) Q g.
Proof.
  intros H. unfold reclassify. destruct old as [o|].
  - unfold streq. destruct (bool_decide_reflect (o = tag)) as [->|]; cbn [negb].
    + apply wp_ret. eapply H; [apply to_refl|constructor|by left].
    + by apply wp_replace_opt_str.
  - by apply wp_replace_opt_str.
Qed.

Lemma set_classification_spec conn c tag group g :
  g_heap g !! conn = Some c ->
  wp (conn_set_classification conn tag group) (fun _ g' => exists tag' group' t,
    became conn (relabel c (conn_agent_key c) tag' group') (g_agents g)
      (g_records g) t g g' /\ Forall is_alloc t /\
    (alloc_ok (g_world g) -> tag' = Some tag /\ group' = Some group)) g.
Proof.
  intros Hc. unfold conn_set_classification.
  apply wp_bind. eapply wp_get_conn; [exact Hc|].
  apply wp_bind, wp_reclassify. intros tag' t1 g1 H1 F1 Htag.
  assert (g_heap g1 !! conn = Some c) as Hc1 by (destruct H1 as (w & _ & ->); exact Hc).
  assert (env (g_world g1) = env (g_world g)) as E1 by (by eapply to_env).
  apply wp_bind. eapply wp_set_conn; [exact Hc1|].
  apply wp_bind, wp_reclassify. intros group' t2 g2 H2 F2 Hgroup.
  eapply wp_set_conn.
  { destruct H2 as (w & _ & ->). cbn [g_heap]. apply lookup_insert_eq. }
  exists tag', group', (t1 ++ t2). split_and!; [|by apply Forall_app_2|].
  - destruct H1 as (w1 & Hw1 & ->), H2 as (w2 & Hw2 & ->). exists w2.
    split; [eapply emits_compose; [exact Hw1|exact Hw2]|].
    cbn [g_heap g_ctx g_connections g_fresh g_rand g_records g_agents update eta_gw].
    rewrite insert_insert_eq. unfold relabel. by destruct c.
  - intros Hok. split.
    + destruct Htag as [->|[Hno _]]; [done|by destruct Hno].
    + destruct Hgroup as [->|[Hno _]]; [done|]. destruct Hno.
      by eapply alloc_ok_env.
Qed.

Lemma set_classification_handled conn c tag group g :
  g_heap g !! conn = Some c ->
  wp (conn_set_classification conn tag group) (fun _ g' => handled conn c g g') g.
Proof.
  intros Hc. eapply wp_mono; [by apply set_classification_spec|].
  intros _ g' (tag' & group' & t & Hb & _). eexists _, _, _, t.
  split_and!; [exact Hb|by eexists _, _, _|apply table_ok_refl].
Qed.

(** * Records *)

Definition recorded (rs : list log_record) (t : list effect) (g g' : gw) : Prop :=
  exists w, emits t (g_world g) w /\
    g' = Gw (g_ctx g) (g_agents g) (g_connections g) (g_heap g) (g_fresh g) rs
           (g_rand g) w.

Lemma recorded_became conn c rs t g g' :
  g_heap g !! conn = Some c -> recorded rs t g g' ->
  became conn c (g_agents g) rs t g g'.
Proof.
  intros Hc (w & Hw & ->). exists w. split; [exact Hw|]. by rewrite insert_id.
Qed.

Lemma recorded_trans r1 r2 t1 t2 g1 g2 g3 :
  recorded r1 t1 g1 g2 -> recorded r2 t2 g2 g3 -> recorded r2 (t1 ++ t2) g1 g3.
Proof.
  intros (w1 & H1 & ->) (w2 & H2 & ->). exists w2.
  split; [eapply emits_compose; [exact H1|exact H2]|done].
Qed.

Lemma recorded_refl g : recorded (g_records g) [] g g.
Proof.
  exists (g_world g). split; [|by destruct g]. split_and!; [by rewrite app_nil_r|done..].
Qed.

Lemma recorded_handled conn c rs t g g' :
  g_heap g !! conn = Some c -> recorded rs t g g' -> handled conn c g g'.
Proof.
  intros Hc H. eexists c, _, rs, t. split_and!;
    [by apply recorded_became|apply same_socket_refl|apply table_ok_refl].
Qed.

(** The encoder never fails. *)
Definition encoder_ok (w : world) : Prop := forall n, answer (w_encoder w) n = true.

Lemma encoder_ok_env w w' : env w' = env w -> encoder_ok w -> encoder_ok w'.
Proof.
  intros E H n. assert (answer (w_encoder w') = answer (w_encoder w)) as ->
    by (unfold env in E; congruence). apply H.
Qed.

Lemma wp_encoder (Q : bool -> gw -> Prop) g :
  (forall ok g', recorded (g_records g) [] g g' ->
     (encoder_ok (g_world g) -> ok = true) -> Q ok g') ->
  wp encoder_succeeds Q g.
Proof.
  intros H. apply wp_consult_quiet; [done|]. intros ok g' -> Hs.
  apply H; [|by intros Hok; apply Hok].
  destruct (steps_quiet_to _ _ Hs) as (w & Hw & ->). exists w. split; [exact Hw|done].
Qed.

Lemma recorded_env rs t g g' : recorded rs t g g' -> env (g_world g') = env (g_world g).
Proof. by intros (w & (_ & _ & E) & ->). Qed.

Lemma encode_record_spec r g :
  wp (encode_record r) (fun rc g' =>
    rc = 0 /\ recorded (g_records g ++ [r]) [] g g' \/
    rc = -1 /\ recorded (g_records g) [] g g' /\ ~ encoder_ok (g_world g)) g.
Proof.
  unfold encode_record.
  assert (Hfail : forall g1 (ok : bool), recorded (g_records g) [] g g1 ->
    (encoder_ok (g_world g) -> ok = true) -> ok = false ->
    wp (mret (-1)) (fun rc g' => rc = 0 /\ recorded (g_records g ++ [r]) [] g g' \/
      rc = -1 /\ recorded (g_records g) [] g g' /\ ~ encoder_ok (g_world g)) g1).
  { intros g1 ok H Hok Hno. apply wp_ret. right. split_and!; [done|done|].
    intros He. rewrite (Hok He) in Hno. done. }
  assert (Hstep : forall g1 (k : bool -> ST gw Z) Q, recorded (g_records g) [] g g1 ->
    (forall g2 (ok : bool), recorded (g_records g) [] g g2 ->
      (encoder_ok (g_world g) -> ok = true) -> wp (k ok) Q g2) ->
    wp (encoder_succeeds ≫= k) Q g1).
  { intros g1 k Q H1 HQ. apply wp_bind, wp_encoder. intros ok g2 H2 Hok.
    assert (g_records g1 = g_records g) as E by (by destruct H1 as (? & _ & ->)).
    rewrite E in H2. apply HQ; [exact (recorded_trans _ _ [] [] _ _ _ H1 H2)|].
    intros He. apply Hok. eapply encoder_ok_env; [by eapply recorded_env|done]. }
  apply Hstep; [apply recorded_refl|]. intros g1 [|] H1 Hok1; cbn [negb]; [|by eapply Hfail].
  apply Hstep; [done|]. intros g2 [|] H2 Hok2; cbn [negb]; [|by eapply Hfail].
  apply Hstep; [done|]. intros g3 [|] H3 Hok3; cbn [negb]; [|by eapply Hfail].
  apply Hstep; [done|]. intros g4 [|] H4 Hok4; cbn [negb]; [|by eapply Hfail].
  apply wp_bind, wp_modify, wp_ret. left. split; [done|].
  destruct H4 as (w & Hw & ->). exists w. split; [exact Hw|done].
Qed.

Lemma encoder_reset_spec g (Q : unit -> gw -> Prop) :
  (forall g', recorded [] [] g g' -> Q tt g') -> wp encoder_reset Q g.
Proof.
  intros H. apply wp_modify, H. exists (g_world g).
  split; [split_and!; [by rewrite app_nil_r|done..]|done].
Qed.

Definition ingested (rs : list log_record) : list effect :=
  if bool_decide (rs = []) then [] else [Ingest rs].

Lemma ingest_records_spec g (Q : unit -> gw -> Prop) :
  (forall g', to (g_agents g) (ingested (g_records g)) g g' -> Q tt g') ->
  wp ingest_records Q g.
Proof.
  intros H. unfold ingest_records, ingested in *. apply wp_bind, wp_gets.
  destruct (bool_decide _).
  - apply wp_ret, H, to_refl.
  - apply wp_emit, H, steps_to, steps_emit.
Qed.

(** * The message handlers are safe

    On any body and any answers of the environment a handler runs to a return
    code, and changes nothing but its connection's labels, the agent table, the
    encoder and the outside. *)

(** The address list: the text of a JSON array of the strings read. *)
Definition macs_text (macs : list bytes) : bytes :=
  str "[" ++ commas (map literal macs).

Lemma literal_text s : [JQ] ++ json_escape s ++ [JQ] = literal s.
Proof. done. Qed.

Lemma macs_text_render macs : macs_text macs ++ str "]" = render (JArr (map JStr macs)).
Proof.
  unfold macs_text. cbn [render]. rewrite map_map. cbn [app].
  rewrite <- app_assoc. reflexivity.
Qed.

Lemma macs_array_ok macs : Forall bytes_ok macs -> json_ok (JArr (map JStr macs)).
Proof. induction 1; [done|]. by split. Qed.

Lemma macs_text_snoc macs m :
  macs_text (macs ++ [m]) =
  (if bool_decide (macs = []) then macs_text macs else macs_text macs ++ str ",") ++ literal m.
Proof.
  unfold macs_text. destruct macs as [|m0 macs]; [done|].
  rewrite bool_decide_false, map_app by done.
  change (map literal [m]) with [literal m]. rewrite commas_snoc by done.
  rewrite <- !app_assoc. reflexivity.
Qed.

Lemma hello_macs_safe count macs body body_len off g :
  bytes_ok body -> 0 <= off <= body_len -> body_len <= zlen body ->
  body_len < 2 ^ 31 -> Forall bytes_ok macs -> untested_ok (g_world g) ->
  wp (hello_macs count (bool_decide (macs = [])) body body_len off (macs_text macs))
    (fun r g' => to (g_agents g) [] g g' /\
      match r with
      | Some json => exists macs', json = macs_text macs' /\ Forall bytes_ok macs'
      | None => True
      end) g.
Proof.
  intros Hb Ho Hl Hm. revert macs off g Ho.
  induction count as [|count IH]; intros macs off g Ho Hmacs Hun; cbn [hello_macs].
  { apply wp_ret. split; [apply to_refl|by exists macs]. }
  destruct (read_string_spec body body_len off 32) as (r & off' & E & Ho' & Hr); try done.
  apply wp_bind. eapply wp_lift; [exact E|]. clear E.
  destruct r as [mac|]; [|by apply wp_ret; split; [apply to_refl|]].
  destruct Hr as (Hmac & _). apply wp_bind, wp_gw_untested; [exact Hun|].
  intros g1 H1. cbv zeta.
  assert (E : json_escape_append
    ((if bool_decide (macs = []) then macs_text macs else macs_text macs ++ str ",") ++ [JQ])
    (Some mac) ++ [JQ] = macs_text (macs ++ [cstr mac])).
  { rewrite macs_text_snoc, <- literal_text. unfold json_escape_append.
    by rewrite <- !app_assoc. }
  rewrite E. replace false with (bool_decide (macs ++ [cstr mac] = []))
    by (apply bool_decide_false; by destruct macs).
  eapply wp_mono; [apply IH; [lia| |by eapply to_untested_ok]|].
  - apply Forall_app_2; [done|]. apply Forall_cons_2; [by apply cstr_ok|by apply Forall_nil_2].
  - intros r g2 [H2 Hr]. split; [exact (to_trans_agents _ [] [] _ _ _ H1 H2)|exact Hr].
Qed.

Lemma hello_v2_safe body body_len off conn c g :
  g_heap g !! conn = Some c ->
  bytes_ok body -> 0 <= off <= body_len -> body_len <= zlen body ->
  body_len < 2 ^ 31 -> untested_ok (g_world g) ->
  wp (hello_v2_fields body body_len off) (fun r g' => to (g_agents g) [] g g' /\
    match r with
    | Some (ht, macs) => bytes_ok ht /\ macs_text_ok (Some macs)
    | None => True
    end) g.
Proof.
  intros Hc Hb Ho Hl Hm Hun. unfold hello_v2_fields.
  destruct (read_string_spec body body_len off 16) as (r & off1 & E & Ho1 & Hr); try done.
  apply wp_bind. eapply wp_lift; [exact E|]. cbn [fst snd].
  destruct r as [ht|]; [|by apply wp_ret; split; [apply to_refl|]].
  rewrite (uwrap_small 32) by (unfold fits; lia).
  destruct (Z.gtb_spec (off1 + 2) body_len); [by apply wp_ret; split; [apply to_refl|]|].
  apply wp_bind. eapply wp_lift.
  { apply gw_get_be16_take; [by apply Forall_drop|].
    rewrite length_drop. unfold zlen in *. lia. }
  cbv zeta. apply wp_bind, wp_gw_alloc. intros [|] g1 H1 _; cbn [negb]; [|by apply wp_ret].
  apply wp_bind. eapply wp_mono.
  { apply (hello_macs_safe _ []); try done; [lia|by eapply to_untested_ok]. }
  intros r g2 [H2 Hjson]. pose proof (to_trans_agents _ [] [] _ _ _ H1 H2) as H02.
  destruct r as [json|]; [|by apply wp_ret].
  destruct Hjson as (macs & -> & Hmacs).
  apply wp_bind, wp_gw_untested; [by eapply to_untested_ok|]. intros g3 H3.
  apply wp_ret. split; [exact (to_trans_agents _ [] [] _ _ _ H02 H3)|].
  split; [by apply Hr|]. exists (JArr (map JStr macs)).
  split; [by rewrite macs_text_render|by apply macs_array_ok].
Qed.

Lemma mark_seen_handled id name version host_type macs conn c g :
  bytes_ok id -> text_ok name -> text_ok version -> text_ok host_type -> macs_text_ok macs ->
  g_heap g !! conn = Some c -> untested_ok (g_world g) ->
  wp (agent_state_mark_seen (Some id) name version host_type macs (Some conn))
    (fun _ g' => handled conn c g g') g.
Proof.
  intros Hid Hn Hv Ht Hm Hc Hun. destruct id as [|i0 id].
  { unfold agent_state_mark_seen. apply wp_bind, wp_gw_time. intros now g1 H1.
    apply wp_ret. eapply to_handled; [done|exact H1|apply table_ok_refl]. }
  eapply wp_mono; [by apply mark_seen_spec|].
  intros _ g' (l & key & t & w & [Hw _] & -> & Hl).
  exists (c <| conn_agent_key := key |>), l, (g_records g), t. split_and!.
  - exists w. split; [exact Hw|done].
  - exists key, (conn_protocol_tag c), (conn_client_group c). by destruct c.
  - destruct Hl as [(-> & _)|(ok & now0 & now & fresh & -> & Hf & _)]; [apply table_ok_refl|].
    pose proof (fresh_entry_id _ _ _ _ Hf).
    split_and!; [by apply upsert_NoDup|by apply ids_upsert|]. intros Hten.
    apply Forall_upsert; [intros a; by apply seen_agent_wf|exact (fresh_entry_wf _ _ _ _ Hten Hid Hf)].
Qed.

Lemma send_ack_handled conn c seq g :
  g_heap g !! conn = Some c -> wp (send_ack conn seq) (fun _ g' => handled conn c g g') g.
Proof.
  intros Hc. eapply wp_mono; [by apply send_ack_spec|].
  intros r g' (ts & Hs). by eapply sent_handled.
Qed.

(** Chaining handlers of the same connection. *)
Lemma wp_then_handled {A B} (m : ST gw A) (k : A -> ST gw B) conn c g g1 :
  handled conn c g g1 ->
  (forall c1, g_heap g1 !! conn = Some c1 -> wp m (fun _ g' => handled conn c1 g1 g') g1) ->
  (forall a g2, handled conn c g g2 -> wp (k a) (fun _ g' => handled conn c g g') g2) ->
  wp (m ≫= k) (fun _ g' => handled conn c g g') g1.
Proof.
  intros H1 Hm Hk. destruct (H1) as (c1 & l & r & t & Hb & _).
  pose proof (became_conn _ _ _ _ _ _ _ Hb) as Hc1.
  apply wp_bind. eapply wp_mono; [by apply Hm|]. intros a g2 H2. apply Hk.
  eapply handled_trans; [exact H1|]. intros c1' _ Hc1'. congruence.
Qed.

Lemma wp_last_handled {A} (m : ST gw A) conn c g g1 :
  handled conn c g g1 ->
  (forall c1, g_heap g1 !! conn = Some c1 -> wp m (fun _ g' => handled conn c1 g1 g') g1) ->
  wp m (fun _ g' => handled conn c g g') g1.
Proof.
  intros H1 Hm. destruct (H1) as (c1 & l & r & t & Hb & _).
  pose proof (became_conn _ _ _ _ _ _ _ Hb) as Hc1.
  eapply wp_mono; [by apply Hm|]. intros a g2 H2.
  eapply handled_trans; [exact H1|]. intros c1' _ Hc1'. congruence.
Qed.

Lemma process_hello_safe conn c h body g :
  g_heap g !! conn = Some c -> bytes_ok body -> 0 <= wh_body_len h <= zlen body ->
  wh_body_len h < 2 ^ 31 -> untested_ok (g_world g) ->
  wp (process_hello conn h body) (fun _ g' => handled conn c g g') g.
Proof.
  intros Hc Hb Hl Hm Hun. unfold process_hello. cbv zeta.
  destruct (Z.ltb_spec (wh_body_len h) 4); [by apply wp_ret, handled_refl|].
  apply wp_bind. eapply wp_lift.
  { apply gw_get_be16_take; [done|]. unfold zlen in *. lia. }
  destruct (_ <? 1); [by apply wp_ret, handled_refl|].
  destruct (read_string_spec body (wh_body_len h) 4 128) as (r1 & o1 & E1 & Ho1 & Hok1);
    [done|lia|lia|done|lia|].
  apply wp_bind. eapply wp_lift; [exact E1|]. destruct r1 as [id|];
    [|by apply wp_ret, handled_refl].
  destruct (read_string_spec body (wh_body_len h) o1 256) as (r2 & o2 & E2 & Ho2 & Hok2);
    [done|lia|lia|done|lia|].
  apply wp_bind. eapply wp_lift; [exact E2|]. destruct r2 as [name|];
    [|by apply wp_ret, handled_refl].
  destruct (read_string_spec body (wh_body_len h) o2 64) as (r3 & o3 & E3 & Ho3 & Hok3);
    [done|lia|lia|done|lia|].
  apply wp_bind. eapply wp_lift; [exact E3|]. destruct r3 as [version|];
    [|by apply wp_ret, handled_refl].
  assert (Hv2 : wp (if be_val (take 2 body) >=? 2
        then r ← hello_v2_fields body (wh_body_len h) o3; mret (Some r)
        else mret None) (fun v2 g' => to (g_agents g) [] g g' /\
          match v2 with
          | Some (Some (ht, macs)) => bytes_ok ht /\ macs_text_ok (Some macs)
          | _ => True
          end) g).
  { destruct (_ >=? 2); [|by apply wp_ret; split; [apply to_refl|]].
    apply wp_bind. eapply wp_mono; [eapply hello_v2_safe; try done; lia|].
    intros r g1 H1. by apply wp_ret. }
  apply wp_bind. eapply wp_mono; [exact Hv2|]. intros v2 g1 [H1 Hok].
  assert (H1' : handled conn c g g1)
    by (eapply to_handled; [done|exact H1|apply table_ok_refl]).
  assert (Hrest : forall ht macs, text_ok ht -> macs_text_ok macs -> wp
    (_ ← agent_state_mark_seen (Some (cstr id)) (Some (cstr name))
            (Some (cstr version)) ht macs (Some conn);
      _ ← conn_set_classification conn SESSION_PROTO_AGENT_WZCP SESSION_GROUP_AGENT;
      send_ack conn (wh_seq h)) (fun _ g' => handled conn c g g') g1).
  { intros ht macs Hht Hmacs.
    eapply wp_then_handled; [exact H1'|intros; apply mark_seen_handled; try done;
      try (by eapply handled_untested_ok);
      apply cstr_ok; (apply Hok1 || apply Hok2 || apply Hok3)|].
    intros [] g2 H2.
    eapply wp_then_handled; [exact H2|intros; by apply set_classification_handled|].
    intros [] g3 H3.
    eapply wp_last_handled; [exact H3|intros; by apply send_ack_handled]. }
  destruct v2 as [[[ht macs]|]|]; [|by apply wp_ret|by apply Hrest].
  apply Hrest; [|by apply Hok]. case_bool_decide; [done|]. by apply cstr_ok, Hok.
Qed.

Lemma append_record_spec conn c h kind event_id payload n g :
  g_heap g !! conn = Some c -> 0 <= n <= zlen payload ->
  wp (append_record conn h kind event_id payload n) (fun rc g' =>
    rc = 0 /\ recorded (g_records g ++
      [wzcp_record c h kind event_id (take (Z.to_nat n) payload)]) [] g g' \/
    rc = -1 /\ recorded (g_records g) [] g g' /\ ~ encoder_ok (g_world g)) g.
Proof.
  intros Hc Hn. unfold append_record. apply wp_bind. eapply wp_get_conn; [exact Hc|].
  apply wp_bind. eapply wp_lift.
  { rewrite load_some by lia. change (Z.to_nat 0) with 0%nat. by rewrite drop_0. }
  apply encode_record_spec.
Qed.

Lemma be_val_take2 p : bytes_ok p -> 0 <= be_val (take 2 p) < 2 ^ 16.
Proof.
  intros H. assert (bytes_ok (take 2 p)) as B by by apply Forall_take.
  apply be_val_bound in B.
  assert (2 ^ (8 * zlen (take 2 p)) <= 2 ^ 16); [|lia].
  apply Z.pow_le_mono_r; [lia|]. unfold zlen. rewrite length_take. lia.
Qed.

Lemma append_events_safe count conn c h body off g :
  g_heap g !! conn = Some c -> bytes_ok body -> 0 <= off ->
  wh_body_len h <= zlen body -> wh_body_len h < 2 ^ 31 -> off <= wh_body_len h ->
  wp (append_events count conn h body off) (fun _ g' =>
    exists rs, recorded rs [] g g') g.
Proof.
  intros Hc Hb Ho Hl Hm Hoff. revert off g Hc Ho Hoff.
  induction count as [|count IH]; intros off g Hc Ho Hoff; cbn [append_events].
  { apply wp_ret. eexists. apply recorded_refl. }
  rewrite (uwrap_small 32 (off + 20)) by (unfold fits; lia).
  destruct (Z.gtb_spec (off + 20) (wh_body_len h)).
  { apply wp_ret. eexists. apply recorded_refl. }
  assert (Hd : forall k, 0 <= k -> k + 8 <= 20 -> (8 <= length (drop (Z.to_nat (off + k)) body))%nat)
    by (intros; rewrite length_drop; unfold zlen in *; lia).
  assert (exists k, load1 body off = Some k) as [kind Ek].
  { unfold load1. rewrite (proj2 (Z.leb_le 0 off)) by lia.
    apply lookup_lt_is_Some. unfold zlen in *. lia. }
  apply wp_bind. eapply wp_lift; [exact Ek|].
  apply wp_bind. eapply wp_lift.
  { apply (rd64_spec (drop (Z.to_nat (off + 10)) body)); [by apply Forall_drop|].
    apply Hd; lia. }
  apply wp_bind. eapply wp_lift.
  { apply gw_get_be16_take; [by apply Forall_drop|].
    rewrite length_drop. unfold zlen in *. lia. }
  set (n := be_val (take 2 _)).
  assert (0 <= n < 2 ^ 16) by (apply be_val_take2; by apply Forall_drop).
  cbv zeta. rewrite (uwrap_small 32 (off + 20 + n)) by (unfold fits; lia).
  destruct (Z.gtb_spec (off + 20 + n) (wh_body_len h)).
  { apply wp_ret. eexists. apply recorded_refl. }
  apply wp_bind. eapply wp_mono.
  { eapply append_record_spec; [exact Hc|]. rewrite zlen_drop; lia. }
  intros rc g1 Hrc.
  assert (exists rs, recorded rs [] g g1) as [rs Hg1]
    by (destruct Hrc as [[_ ?]|(_ & ? & _)]; by eexists).
  destruct (rc <? 0); [apply wp_ret; by eexists|].
  eapply wp_mono; [apply IH; [|lia|lia]|].
  - destruct Hg1 as (w & _ & ->). exact Hc.
  - intros r g2 [rs2 Hg2]. exists rs2. exact (recorded_trans _ _ [] [] _ _ _ Hg1 Hg2).
Qed.

Lemma process_event_batch_safe conn c h body g :
  g_heap g !! conn = Some c -> bytes_ok body -> 0 <= wh_body_len h <= zlen body ->
  wh_body_len h < 2 ^ 31 ->
  wp (process_event_batch conn h body) (fun _ g' => handled conn c g g') g.
Proof.
  intros Hc Hb Hl Hm. unfold process_event_batch.
  destruct (Z.ltb_spec (wh_body_len h) 2); [by apply wp_ret, handled_refl|].
  apply wp_bind. eapply wp_lift.
  { apply gw_get_be16_take; [done|]. unfold zlen in *. lia. }
  eapply wp_then_handled; [by apply handled_refl| |].
  { intros c1 Hc1. apply encoder_reset_spec. intros g1 H1. by eapply recorded_handled. }
  intros [] g1 H1.
  eapply wp_then_handled; [exact H1| |].
  { intros c1 Hc1. eapply wp_mono; [eapply append_events_safe; try done; lia|].
    intros ok g2 [rs H2]. by eapply recorded_handled. }
  intros [|] g2 H2; cbn [negb]; [|by apply wp_ret].
  eapply wp_then_handled; [exact H2| |].
  { intros c1 Hc1. apply ingest_records_spec. intros g3 H3.
    eapply to_handled; [done|exact H3|apply table_ok_refl]. }
  intros [] g3 H3.
  eapply wp_last_handled; [exact H3|intros; by apply send_ack_handled].
Qed.

Lemma mark_heartbeat_handled conn c key g :
  g_heap g !! conn = Some c -> untested_ok (g_world g) ->
  wp (agent_state_mark_heartbeat key) (fun _ g' => handled conn c g g') g.
Proof.
  intros Hc Hun. eapply wp_mono; [by apply mark_heartbeat_spec|].
  intros _ g' (now & t & Ht & _). eapply to_handled; [done|exact Ht|].
  split_and!; try (rewrite ids_update_agent by apply keeps_id_heartbeat; done).
  intros _. by apply Forall_update_agent.
Qed.

Lemma handle_message_safe conn c h body g :
  g_heap g !! conn = Some c -> bytes_ok body -> 0 <= wh_body_len h <= zlen body ->
  wh_body_len h < 2 ^ 31 -> untested_ok (g_world g) ->
  wp (handle_message conn h body) (fun _ g' => handled conn c g g') g.
Proof.
  intros Hc Hb Hl Hm Hun. unfold handle_message.
  assert (Hkey : wp (match conn_agent_key c with
        | Some key => agent_state_mark_heartbeat key
        | None => mret tt
        end) (fun _ g' => handled conn c g g') g).
  { destruct (conn_agent_key c); [by apply mark_heartbeat_handled|by apply wp_ret, handled_refl]. }
  destruct (_ =? _); [by apply process_hello_safe|].
  destruct (_ =? _).
  { apply wp_bind. eapply wp_get_conn; [exact Hc|].
    eapply wp_then_handled; [by apply handled_refl| |].
    - intros c1 Hc1. rewrite Hc in Hc1. by injection Hc1 as <-.
    - intros [] g1 H1. eapply wp_last_handled; [exact H1|intros; by apply send_ack_handled]. }
  destruct (_ =? _); [|by apply wp_ret, handled_refl].
  apply wp_bind. eapply wp_get_conn; [exact Hc|].
  eapply wp_then_handled; [by apply handled_refl| |].
  - intros c1 Hc1. rewrite Hc in Hc1. by injection Hc1 as <-.
  - intros [] g1 H1.
    eapply wp_last_handled; [exact H1|intros; by apply process_event_batch_safe].
Qed.

(** * Syslog lines *)

(** The complete lines of a text (each without its newline), [cur] being the
    part of the current line already passed; what follows the last newline; and
    how far the last newline reaches. *)
Fixpoint lines_of (cur rest : bytes) : list bytes :=
  match rest with
  | [] => []
  | c :: t => if c =? 10 then cur :: lines_of [] t else lines_of (cur ++ [c]) t
  end.

Fixpoint tail_of (cur rest : bytes) : bytes :=
  match rest with
  | [] => cur
  | c :: t => if c =? 10 then tail_of [] t else tail_of (cur ++ [c]) t
  end.

Lemma lines_tail cur rest :
  cur ++ rest = concat (map (fun l => l ++ [10]) (lines_of cur rest)) ++ tail_of cur rest.
Proof.
  revert cur. induction rest as [|c t IH]; intros cur; cbn [lines_of tail_of].
  - by rewrite app_nil_r.
  - destruct (Z.eqb_spec c 10) as [->|].
    + cbn [map concat]. rewrite <- !app_assoc, <- IH. done.
    + rewrite <- IH, <- app_assoc. done.
Qed.

Lemma tail_no_newline cur rest :
  Forall (fun c => c <> 10) cur -> Forall (fun c => c <> 10) (tail_of cur rest).
Proof.
  revert cur. induction rest as [|c t IH]; intros cur H; cbn [tail_of]; [done|].
  destruct (Z.eqb_spec c 10); apply IH; [constructor|].
  apply Forall_app_2; [done|by repeat constructor].
Qed.

(** One line's record: without one trailing carriage return, not at all when
    that leaves nothing, and cut to a 16-bit length. *)
Definition strip_cr (l : bytes) : bytes :=
  match last l with
  | Some c => if c =? 13 then take (length l - 1) l else l
  | None => l
  end.

Definition line_payload (l : bytes) : list bytes :=
  let l := strip_cr l in
  if bool_decide (l = []) then [] else [take (Z.to_nat (u16 (zlen l))) l].

Definition line_payloads (lines : list bytes) : list bytes :=
  concat (map line_payload lines).

Lemma last_drop_take (buf : bytes) s n :
  (0 < n)%nat -> (s + n <= length buf)%nat ->
  last (take n (drop s buf)) = buf !! (s + n - 1)%nat.
Proof.
  intros Hn Hl. rewrite last_lookup, length_take, length_drop.
  rewrite lookup_take_lt by lia. rewrite lookup_drop. f_equal. lia.
Qed.

(** The loop emits exactly the payloads of the complete lines, and reports how
    many bytes they take. *)
Lemma syslog_loop_spec conn c buf n start done_ g :
  g_heap g !! conn = Some c -> (start <= n)%nat -> (n <= length buf)%nat ->
  zlen buf < 2 ^ 31 ->
  let cur := take (n - start) (drop start buf) in
  wp (syslog_loop conn buf (drop n buf) (Z.of_nat n) (Z.of_nat start) done_)
    (fun r g' => exists rs, recorded rs [] g g' /\
      match r with
      | None => ~ encoder_ok (g_world g)
      | Some k =>
          rs = g_records g ++ map (syslog_record c)
                 (line_payloads (lines_of cur (drop n buf))) /\
          k = if bool_decide (lines_of cur (drop n buf) = []) then done_
              else zlen buf - zlen (tail_of cur (drop n buf))
      end) g.
Proof.
  intros Hc Hsn Hnl Hmax. cbv zeta.
  remember (drop n buf) as rest eqn:Er.
  revert n start done_ g Hc Hsn Hnl Er.
  induction rest as [|b rest IH]; intros n start done_ g Hc Hsn Hnl Er; cbn [syslog_loop].
  { apply wp_ret. eexists. split; [apply recorded_refl|]. by rewrite app_nil_r. }
  assert (n < length buf)%nat as Hn.
  { destruct (decide (n < length buf)%nat); [done|].
    rewrite drop_ge in Er by lia. done. }
  assert (buf !! n = Some b /\ rest = drop (Datatypes.S n) buf) as [Hb Hrest].
  { destruct (lookup_lt_is_Some_2 buf n Hn) as [x Hx].
    rewrite (drop_S _ _ _ Hx) in Er. by injection Er as -> ->. }
  set (cur := take (n - start) (drop start buf)).
  cbn [lines_of tail_of]. destruct (Z.eqb_spec b 10) as [->|Hne]; cbn [negb].
  2:{ (* an ordinary byte joins the current line *)
      assert (cur ++ [b] = take (Datatypes.S n - start) (drop start buf)) as ->.
      { unfold cur. replace (Datatypes.S n - start)%nat with (Datatypes.S (n - start)) by lia.
        rewrite (take_S_r _ _ b); [done|]. rewrite lookup_drop.
        by replace (start + (n - start))%nat with n by lia. }
      replace (Z.of_nat n + 1) with (Z.of_nat (Datatypes.S n)) by lia.
      apply IH; [done|lia|lia|done]. }
  assert (Hcl : zlen cur = Z.of_nat n - Z.of_nat start).
  { unfold cur, zlen. rewrite length_take, length_drop. lia. }
  cbv zeta. rewrite <- Hcl. apply wp_bind.
  (* the byte before the newline *)
  assert (Hlast : wp (if zlen cur >? 0
      then lift (load1 buf (Z.of_nat start + zlen cur - 1)) else mret 0)
      (fun x g' => g' = g /\ (zlen cur > 0 -> last cur = Some x)) g).
  { destruct (Z.gtb_spec (zlen cur) 0); [|apply wp_ret; split; [done|lia]].
    assert (exists x, last cur = Some x) as [x Hx].
    { apply last_is_Some. intros E. rewrite E in *. done. }
    eapply wp_lift; [|split; [done|intros _; exact Hx]].
    unfold load1. rewrite (proj2 (Z.leb_le 0 _)) by lia.
    rewrite <- Hx. unfold cur in *. rewrite last_drop_take by lia. f_equal. lia. }
  eapply wp_mono; [exact Hlast|]. intros x g1 [-> Hx]. clear Hlast.
  assert (Hstrip : (if (zlen cur >? 0) && (x =? 13) then zlen cur - 1 else zlen cur)
    = zlen (strip_cr cur) /\ strip_cr cur = take (length (strip_cr cur)) (drop start buf)).
  { unfold strip_cr. destruct (Z.gtb_spec (zlen cur) 0) as [Hp|Hp].
    - rewrite (Hx ltac:(lia)). cbn [andb]. destruct (x =? 13).
      + split; [unfold zlen in *; rewrite length_take; lia|].
        rewrite length_take. unfold cur. rewrite !take_take.
        unfold zlen, cur in *. rewrite length_take, length_drop in *. f_equal. lia.
      + split; [done|]. unfold cur. rewrite length_take. by rewrite <- take_take, take_take, Nat.min_id || (rewrite length_drop; f_equal; lia).
    - assert (cur = []) as -> by (destruct cur; [done|zlia]). done. }
  destruct Hstrip as [-> Hs].
  cbn [line_payloads map concat]. unfold line_payload at 1. cbv zeta.
  set (l := strip_cr cur) in *.
  assert (Hrec : wp (if zlen l >? 0
       then append_syslog_record conn (drop (Z.to_nat (Z.of_nat start)) buf) (u16 (zlen l))
       else mret 0) (fun rc g' =>
         rc = 0 /\ recorded (g_records g ++ map (syslog_record c)
           (if bool_decide (l = []) then [] else [take (Z.to_nat (u16 (zlen l))) l])) [] g g' \/
         rc = -1 /\ recorded (g_records g) [] g g' /\ ~ encoder_ok (g_world g)) g).
  { destruct (Z.gtb_spec (zlen l) 0) as [Hp|Hp].
    - rewrite bool_decide_eq_false_2 by (intros E; rewrite E in Hp; done).
      unfold append_syslog_record. apply wp_bind. eapply wp_get_conn; [exact Hc|].
      rewrite Nat2Z.id. apply wp_bind. eapply wp_lift.
      + rewrite load_some; [|lia|apply (uwrap_fits 16); lia|].
        * change (Z.to_nat 0) with 0%nat. by rewrite drop_0.
        * rewrite Hs in Hp. pose proof (f_equal zlen Hs) as Hz.
          assert (u16 (zlen l) <= zlen l) by (apply Z.mod_le; lia).
          rewrite zlen_take_nat in Hz. rewrite zlen_drop_nat in *. unfold zlen in *. lia.
      + replace (take (Z.to_nat (u16 (zlen l))) (drop start buf))
          with (take (Z.to_nat (u16 (zlen l))) l); [apply encode_record_spec|].
        rewrite Hs at 2. rewrite take_take. f_equal.
        assert (u16 (zlen l) <= zlen l) by (apply Z.mod_le; lia).
        assert (0 <= u16 (zlen l)) by (apply (uwrap_fits 16); lia).
        unfold zlen in *. lia.
    - assert (l = []) as -> by (destruct l; [done|zlia]).
      rewrite bool_decide_eq_true_2 by done. apply wp_ret. left. split; [done|].
      rewrite app_nil_r. apply recorded_refl. }
  apply wp_bind. eapply wp_mono; [exact Hrec|]. clear Hrec.
  intros rc g1 [[-> H1]|(-> & H1 & Hno)]; cbn [Z.ltb Z.compare].
  2:{ apply wp_ret. by exists (g_records g). }
  assert (Hc1 : g_heap g1 !! conn = Some c) by (destruct H1 as (w & _ & ->); exact Hc).
  replace (Z.of_nat n + 1) with (Z.of_nat (Datatypes.S n)) by lia.
  eapply wp_mono; [apply (IH (Datatypes.S n) (Datatypes.S n)); [done|lia|lia|done]|].
  intros r g2 (rs & H2 & Hr). exists rs.
  split; [exact (recorded_trans _ _ [] [] _ _ _ H1 H2)|].
  rewrite Nat.sub_diag, take_0 in Hr.
  destruct r as [k|].
  - destruct Hr as [-> ->]. split.
    + destruct H1 as (w & _ & ->). cbn [g_records].
      by rewrite map_app, app_assoc.
    + rewrite (bool_decide_eq_false_2 (cur :: _ = [])) by done.
      destruct (bool_decide_reflect (lines_of [] rest = [])) as [E|]; [|done].
      pose proof (lines_tail [] rest) as Ht. rewrite E in Ht. cbn in Ht.
      rewrite <- Ht, Hrest. unfold zlen. rewrite length_drop. lia.
  - intros Hok. apply Hr. eapply encoder_ok_env; [by eapply recorded_env|done].
Qed.

(** The bytes received and not yet consumed. *)
Definition conn_data (c : xsiam_agent_conn) : bytes :=
  take (Z.to_nat (conn_buf_len c)) (conn_buf_data c).

(** The buffer invariant. *)
Record conn_wf (c : xsiam_agent_conn) : Prop := {
  cwf_len : 0 <= conn_buf_len c <= conn_buf_size c;
  cwf_size : conn_buf_size c = zlen (conn_buf_data c);
  cwf_max : conn_buf_size c < 2 ^ 31;
  cwf_bytes : bytes_ok (conn_buf_data c);
}.

Lemma zlen_conn_data c : conn_wf c -> zlen (conn_data c) = conn_buf_len c.
Proof. intros []. unfold conn_data. rewrite zlen_take; lia. Qed.

Lemma conn_data_ok c : conn_wf c -> bytes_ok (conn_data c).
Proof. intros []. by apply Forall_take. Qed.

Lemma same_socket_wf c c' : same_socket c c' -> conn_wf c -> conn_wf c'.
Proof. intros (k & t & gr & ->) []. by constructor. Qed.

Lemma process_syslog_spec conn c g :
  g_heap g !! conn = Some c -> conn_wf c ->
  wp (process_syslog_lines conn) (fun r g' => exists rs t,
    recorded rs t g g' /\
    (r = -1 /\ t = [] /\ ~ encoder_ok (g_world g) \/
     r = zlen (conn_data c) - zlen (tail_of [] (conn_data c)) /\
     rs = map (syslog_record c) (line_payloads (lines_of [] (conn_data c))) /\
     t = ingested rs)) g.
Proof.
  intros Hc Hwf. unfold process_syslog_lines.
  apply wp_bind. eapply wp_get_conn; [exact Hc|].
  apply wp_bind, encoder_reset_spec. intros g1 H1. cbv zeta. fold (conn_data c).
  assert (Hc1 : g_heap g1 !! conn = Some c) by (destruct H1 as (w & _ & ->); exact Hc).
  assert (Hr1 : g_records g1 = []) by (by destruct H1 as (w & _ & ->)).
  pose proof (zlen_conn_data c Hwf) as Hl. destruct Hwf.
  pose proof (syslog_loop_spec conn c (conn_data c) 0 0 0 g1 Hc1 ltac:(lia) ltac:(lia)
    ltac:(lia)) as W. cbv zeta in W. rewrite drop_0, Nat.sub_diag, take_0, Hr1 in W.
  apply wp_bind. eapply wp_mono; [exact W|]. intros r g2 (rs & H2 & Hr).
  pose proof (recorded_trans _ _ [] [] _ _ _ H1 H2) as H12. cbn [app] in H12.
  destruct r as [k|].
  - destruct Hr as [-> ->]. cbn [app] in *. apply wp_bind, ingest_records_spec.
    intros g3 H3. apply wp_ret.
    set (rs := map (syslog_record c) (line_payloads (lines_of [] (conn_data c)))) in *.
    exists rs, (ingested rs). split; [|right; split_and!; [|done|done]].
    + assert (g_records g2 = rs) as Er by (by destruct H12 as (w2 & Hw2 & ->)).
      rewrite Er in H3. clearbody rs.
      destruct H12 as (w2 & Hw2 & ->), H3 as (w3 & Hw3 & ->). exists w3.
      split; [change (ingested rs) with ([] ++ ingested rs);
        eapply emits_compose; [exact Hw2|exact Hw3]|done].
    + destruct (bool_decide_reflect (lines_of [] (conn_data c) = [])) as [E|]; [|done].
      pose proof (lines_tail [] (conn_data c)) as Ht. rewrite E in Ht. cbn in Ht.
      rewrite <- Ht. lia.
  - apply wp_ret. exists rs, []. split; [done|]. left. split_and!; [done|done|].
    intros Hok. apply Hr. eapply encoder_ok_env; [by eapply recorded_env|done].
Qed.

(** * Frames *)

Lemma gw_get_be32_spec p : bytes_ok p -> (4 <= length p)%nat ->
  get_be32 p = Some (be_val (take 4 p)).
Proof. apply rd32_spec. Qed.

Lemma gw_get_be64_spec p : bytes_ok p -> (8 <= length p)%nat ->
  get_be64 p = Some (be_val (take 8 p)).
Proof. apply rd64_spec. Qed.

Lemma be_val_take4 p : bytes_ok p -> 0 <= be_val (take 4 p) < 2 ^ 32.
Proof.
  intros H. assert (bytes_ok (take 4 p)) as B by by apply Forall_take.
  apply be_val_bound in B.
  assert (2 ^ (8 * zlen (take 4 p)) <= 2 ^ 32); [|lia].
  apply Z.pow_le_mono_r; [lia|]. unfold zlen. rewrite length_take. lia.
Qed.

(** Unpacking any 32 bytes; acceptance means the announced body is bounded. *)
Lemma unpack_header_safe p :
  bytes_ok p -> (32 <= length p)%nat ->
  exists rc h, unpack_header p = Some (rc, h) /\ fits 32 (wh_body_len h) /\
    (rc = 0 /\ wh_body_len h <= WZCP_MAX_FRAME \/ rc = -1).
Proof.
  intros Hb Hl. unfold unpack_header.
  assert (Hd : forall n k, (n + k <= 32)%nat -> (k <= length (drop n p))%nat)
    by (intros; rewrite length_drop; lia).
  assert (Hk : forall n, (n < 32)%nat -> exists x, load1 p (Z.of_nat n) = Some x).
  { intros n Hn. unfold load1. rewrite (proj2 (Z.leb_le 0 _)) by lia.
    rewrite Nat2Z.id. apply lookup_lt_is_Some. lia. }
  rewrite (gw_get_be32_spec p) by first [done|lia]. cbn [mbind option_bind].
  destruct (Hk 4%nat) as [x4 E4]; [lia|]. change (Z.of_nat 4) with 4 in E4. rewrite E4.
  destruct (Hk 5%nat) as [x5 E5]; [lia|]. change (Z.of_nat 5) with 5 in E5. rewrite E5.
  destruct (Hk 6%nat) as [x6 E6]; [lia|]. change (Z.of_nat 6) with 6 in E6. rewrite E6.
  destruct (Hk 7%nat) as [x7 E7]; [lia|]. change (Z.of_nat 7) with 7 in E7. rewrite E7.
  cbn [mbind option_bind].
  rewrite (gw_get_be32_spec (drop 8 p)) by (first [by apply Forall_drop|apply Hd; lia]).
  rewrite (gw_get_be64_spec (drop 12 p)) by (first [by apply Forall_drop|apply Hd; lia]).
  rewrite (gw_get_be64_spec (drop 20 p)) by (first [by apply Forall_drop|apply Hd; lia]).
  rewrite (gw_get_be32_spec (drop 28 p)) by (first [by apply Forall_drop|apply Hd; lia]).
  cbn [mbind option_bind].
  match goal with |- context [be_val (take 4 (drop 28 p)) >? _] =>
    pose proof (be_val_take4 (drop 28 p) ltac:(by apply Forall_drop)) as B end.
  destruct (orb _ _) eqn:E.
  - eexists (-1), _. split_and!; [done|exact B|by right].
  - eexists 0, _. split_and!; [done|exact B|]. left. split; [done|].
    cbn [wh_body_len]. lia.
Qed.

Lemma process_frame_safe conn c c0 buf consumed g :
  g_heap g !! conn = Some c -> same_socket c0 c -> bytes_ok buf -> zlen buf < 2 ^ 31 ->
  0 <= consumed <= zlen buf -> untested_ok (g_world g) ->
  wp (process_frame conn buf consumed) (fun r g' => handled conn c g g' /\
    match r with
    | inl consumed' => consumed < consumed' <= zlen buf
    | inr k => k = -1 \/ k = consumed
    end) g.
Proof.
  intros Hc _ Hb Hm Hk Hun. unfold process_frame. cbv zeta.
  unfold WZCP_HEADER_SIZE at 1.
  destruct (Z.ltb_spec (zlen buf - consumed) (4 + 32)).
  { apply wp_ret. split; [by apply handled_refl|by right]. }
  set (inp := drop (Z.to_nat consumed) buf).
  assert (Hi : bytes_ok inp) by (by apply Forall_drop).
  assert (Hil : zlen inp = zlen buf - consumed) by (unfold inp; rewrite zlen_drop; lia).
  apply wp_bind. eapply wp_lift.
  { apply gw_get_be32_spec; [done|]. unfold zlen in *. lia. }
  set (frame_len := be_val (take 4 inp)).
  assert (0 <= frame_len < 2 ^ 32) by (by apply be_val_take4).
  unfold WZCP_HEADER_SIZE, WZCP_MAX_FRAME in *.
  destruct (orb _ _) eqn:E1.
  { apply wp_ret. split; [by apply handled_refl|by left]. }
  destruct (Z.ltb_spec (zlen buf - consumed) (4 + frame_len)).
  { apply wp_ret. split; [by apply handled_refl|by right]. }
  destruct (unpack_header_safe (drop 4 inp)) as (rc & h & Eh & Hbl & Hrc);
    [by apply Forall_drop|rewrite length_drop; unfold zlen in *; lia|].
  apply wp_bind. eapply wp_lift; [exact Eh|].
  cbv beta iota. destruct (orb (rc <? 0) _) eqn:E2.
  { apply wp_ret. split; [by apply handled_refl|by left]. }
  assert (wh_body_len h = frame_len - 32) as Ebl by lia.
  change (Z.to_nat (4 + 32)) with 36%nat.
  eapply (wp_handled_bind _ _ conn c g _ (fun _ _ => True)).
  - eapply wp_mono; [apply (handle_message_safe conn c); [done|by apply Forall_drop| | |exact Hun]|].
    + rewrite Ebl, zlen_drop_nat. lia.
    + lia.
    + intros r g1 Hg1. by split.
  - intros ret g1 c1 _ _ Hc1 _. destruct (ret <? 0); apply wp_ret.
    + split; [by apply handled_refl|by left].
    + split; [by apply handled_refl|lia].
Qed.

Lemma process_frames_safe conn c g :
  g_heap g !! conn = Some c -> conn_wf c -> untested_ok (g_world g) ->
  wp (process_frames conn) (fun r g' => handled conn c g g' /\
    (r = -1 \/ 0 <= r <= conn_buf_len c)) g.
Proof.
  intros Hc Hwf Hun. unfold process_frames.
  eapply (wp_handled_bind _ _ conn c g _ (fun _ _ => True)).
  { eapply wp_mono; [by apply set_classification_handled|]. intros [] g1 H1. by split. }
  intros [] g1 c1 _ S1 Hc1 Hg1. pose proof (handled_untested_ok _ _ _ _ Hg1 Hun) as Hun1.
  pose proof (same_socket_wf _ _ S1 Hwf) as Hwf1.
  apply wp_bind. eapply wp_get_conn; [exact Hc1|]. cbv zeta. fold (conn_data c1).
  assert (conn_buf_len c1 = conn_buf_len c) as El by (by destruct S1 as (? & ? & ? & ->)).
  pose proof (zlen_conn_data c1 Hwf1) as Hl. rewrite <- El, <- Hl.
  apply (wp_loop (fun consumed g' => handled conn c1 g1 g' /\
      0 <= consumed <= zlen (conn_data c1))
    (fun consumed => Z.to_nat (zlen (conn_data c1) - consumed))).
  - split; [by apply handled_refl|zlia].
  - unfold zlen. lia.
  - intros consumed g2 [H2 Hk]. destruct (H2) as (c2 & l & r & t & Hb2 & S2 & _).
    pose proof (became_conn _ _ _ _ _ _ _ Hb2) as Hc2.
    eapply wp_mono; [apply (process_frame_safe conn c2 c1); try done;
      [by apply conn_data_ok|rewrite Hl; destruct Hwf1; lia|by eapply handled_untested_ok]|].
    intros [consumed'|k] g3 [H3 Hr].
    + split; [split; [|lia]|lia]. eapply handled_trans; [exact H2|].
      intros c2' _ Hc2'. congruence.
    + split; [|destruct Hr; [by left|right; lia]]. eapply handled_trans; [exact H2|].
      intros c2' _ Hc2'. congruence.
Qed.

Lemma looks_like_wzcp_safe buf :
  bytes_ok buf -> exists b, looks_like_wzcp buf (zlen buf) = Some b.
Proof.
  intros Hb. unfold looks_like_wzcp, WZCP_HEADER_SIZE.
  destruct (Z.ltb_spec (zlen buf) (4 + 32)); [by eexists|].
  rewrite (gw_get_be32_spec buf) by (done || (unfold zlen in *; lia)).
  cbn [mbind option_bind].
  destruct (orb _ _); [by eexists|].
  rewrite gw_get_be32_spec
    by (first [by apply Forall_drop|rewrite length_drop; unfold zlen in *; lia]).
  by eexists.
Qed.

Lemma looks_like_syslog_safe buf :
  exists b, looks_like_syslog buf (zlen buf) = Some b.
Proof.
  unfold looks_like_syslog. destruct (Z.leb_spec (zlen buf) 0); [by eexists|].
  destruct buf as [|b0 buf]; [done|]. cbn [load1 Z.leb lookup list_lookup].
  change (load1 (b0 :: buf) 0) with (Some b0). cbn [mbind option_bind].
  destruct (Z.gtb_spec (zlen (b0 :: buf)) 2) as [H2|H2].
  - destruct buf as [|b1 buf]; [done|].
    change (load1 (b0 :: b1 :: buf) 1) with (Some b1).
    destruct (b0 =? 60); cbn [andb mbind option_bind];
      [destruct ((b1 >=? 48) && (b1 <=? 57)) eqn:E|]; rewrite ?E; by eexists.
  - rewrite andb_false_r. cbn [andb mbind option_bind]. by eexists.
Qed.

Lemma process_buffer_safe conn c g :
  g_heap g !! conn = Some c -> conn_wf c -> untested_ok (g_world g) ->
  wp (process_buffer conn) (fun r g' => handled conn c g g' /\
    (r = -1 \/ 0 <= r <= conn_buf_len c)) g.
Proof.
  intros Hc Hwf Hun. unfold process_buffer.
  apply wp_bind. eapply wp_get_conn; [exact Hc|]. cbv zeta. fold (conn_data c).
  rewrite <- (zlen_conn_data c Hwf).
  destruct (looks_like_wzcp_safe (conn_data c)) as [w Ew]; [by apply conn_data_ok|].
  apply wp_bind. eapply wp_lift; [exact Ew|]. rewrite (zlen_conn_data c Hwf).
  destruct w; [by apply process_frames_safe|].
  rewrite <- (zlen_conn_data c Hwf).
  destruct (looks_like_syslog_safe (conn_data c)) as [b Eb].
  apply wp_bind. eapply wp_lift; [exact Eb|]. rewrite (zlen_conn_data c Hwf).
  destruct b.
  - eapply (wp_handled_bind _ _ conn c g _ (fun _ _ => True)).
    { eapply wp_mono; [by apply set_classification_handled|]. intros [] g1 H1. by split. }
    intros [] g1 c1 _ S1 Hc1 _. pose proof (same_socket_wf _ _ S1 Hwf) as Hwf1.
    assert (conn_buf_len c1 = conn_buf_len c) as El by (by destruct S1 as (? & ? & ? & ->)).
    eapply wp_mono; [by apply process_syslog_spec|]. intros r g2 (rs & t & H2 & Hr).
    split; [by eapply recorded_handled|]. rewrite <- El, <- (zlen_conn_data c1 Hwf1).
    destruct Hr as [[-> _]|(-> & _)]; [by left|right].
    pose proof (f_equal zlen (lines_tail [] (conn_data c1))) as Ht.
    cbn [app] in Ht. rewrite zlen_app in Ht. zlia.
  - destruct Hwf. destruct (_ >=? _); apply wp_ret;
      (split; [by apply handled_refl|]); [by left|right; lia].
Qed.

(** * The plugin's invariant

    Besides the data structures it holds an assumption on the environment,
    [gwf_memory]: the allocations that the code does not test succeed.  Those it
    tests may all fail. *)

Definition table_wf (l : list xsiam_agent_state) : Prop :=
  NoDup (ids l) /\ Forall agent_wf l.

Record gw_wf (g : gw) : Prop := {
  gwf_live : forall i, i ∈ g_connections g <-> is_Some (g_heap g !! i);
  gwf_nodup : NoDup (g_connections g);
  gwf_fresh : forall i, i ∈ g_connections g -> (i < g_fresh g)%nat;
  gwf_conns : forall i c, g_heap g !! i = Some c -> conn_wf c;
  gwf_bound : forall i c, g_heap g !! i = Some c ->
    conn_buf_size c <= Z.max (ctx_chunk_size (g_ctx g)) (ctx_buffer_size (g_ctx g));
  gwf_agents : table_wf (g_agents g);
  gwf_tenant : bytes_ok (tenant_or_default (g_ctx g));
  gwf_chunk : 0 < ctx_chunk_size (g_ctx g) < 2 ^ 31;
  gwf_buffer : 0 <= ctx_buffer_size (g_ctx g) < 2 ^ 31;
  gwf_input : forall fd, bytes_ok (w_input (g_world g) fd);
  gwf_memory : untested_ok (g_world g);
}.

Lemma emits_input t w w' : emits t w w' -> w_input w' = w_input w.
Proof. by intros (_ & -> & _). Qed.

(** A step of one connection that leaves its buffer well formed. *)
Lemma became_wf conn c c' l r t g g' :
  gw_wf g -> g_heap g !! conn = Some c -> became conn c' l r t g g' ->
  conn_wf c' -> conn_buf_size c' <= Z.max (ctx_chunk_size (g_ctx g)) (ctx_buffer_size (g_ctx g)) ->
  table_wf l -> gw_wf g'.
Proof.
  intros [] Hc (w & Hw & ->) Hc' Hsz Hl.
  assert (Hlook : forall i x, <[conn := c']> (g_heap g) !! i = Some x ->
    i = conn /\ x = c' \/ g_heap g !! i = Some x).
  { intros i x. destruct (decide (conn = i)) as [<-|].
    - rewrite lookup_insert_eq. intros [= <-]. by left.
    - rewrite lookup_insert_ne by done. by right. }
  constructor; cbn [g_connections g_heap g_fresh g_ctx g_agents g_world]; try done.
  - intros i. rewrite gwf_live0. destruct (decide (conn = i)) as [<-|].
    + rewrite lookup_insert_eq, Hc. split; by eexists.
    + by rewrite lookup_insert_ne.
  - intros i x [[-> ->]|H]%Hlook; eauto.
  - intros i x [[-> ->]|H]%Hlook; eauto.
  - intros fd. rewrite (emits_input _ _ _ Hw). done.
  - eapply untested_ok_env; [apply Hw|done].
Qed.

Lemma handled_wf conn c g g' :
  gw_wf g -> g_heap g !! conn = Some c -> handled conn c g g' -> gw_wf g'.
Proof.
  intros Hwf Hc (c' & l & r & t & Hb & S & Hl & _ & Hl').
  eapply became_wf; [done|exact Hc|exact Hb| | |].
  - eapply same_socket_wf; [done|]. by eapply gwf_conns.
  - destruct S as (? & ? & ? & ->). exact (gwf_bound g Hwf _ _ Hc).
  - destruct (gwf_agents g Hwf). split; [by apply Hl|]. apply Hl'; [apply Hwf|done].
Qed.

(** ** Closing *)

(** What closing does to the agent table. *)
Definition closed_table (key : option bytes) (g : gw) (l : list xsiam_agent_state)
    (post : list effect) : Prop :=
  match key with
  | Some key =>
      if is_online key (g_agents g) then exists status now,
        l = update_agent key (disconnected_agent status now) (g_agents g) /\
        posted (g_ctx g) (str "disconnect") (Some key) post /\ status_after g status
      else l = g_agents g /\ post = []
  | None => l = g_agents g /\ post = []
  end.

Definition free_opt_effect {A} (block : string) (p : option A) : list effect :=
  match p with Some _ => [Release block] | None => [] end.

Definition close_effects (c : xsiam_agent_conn) : list effect :=
  [Release "connection"; Release "buf"] ++
  free_opt_effect "agent_key" (conn_agent_key c) ++
  free_opt_effect "protocol_tag" (conn_protocol_tag c) ++
  free_opt_effect "client_group" (conn_client_group c) ++ [Release "conn"].

Definition removed (conn : nat) (l : list xsiam_agent_state) (t : list effect)
    (g g' : gw) : Prop :=
  exists w, emits t (g_world g) w /\
    g' = Gw (g_ctx g) l (filter (fun i => i <> conn) (g_connections g))
           (delete conn (g_heap g)) (g_fresh g) (g_records g) (g_rand g) w.

Lemma wp_effect e {B} (k : unit -> ST gw B) l t0 (Q : B -> gw -> Prop) g0 g :
  to l t0 g0 g -> (forall g', to l (t0 ++ [e]) g0 g' -> wp (k tt) Q g') ->
  wp (emit e ≫= k) Q g.
Proof.
  intros H HQ. apply wp_bind, wp_emit, HQ. destruct H as (w & Hw & ->).
  eexists. split; [eapply emits_compose; [exact Hw|]|reflexivity].
  by split_and!.
Qed.

Lemma wp_free_opt_effect {A} blk (p : option A) {B} (k : unit -> ST gw B) l t0
    (Q : B -> gw -> Prop) g0 g :
  to l t0 g0 g -> (forall g', to l (t0 ++ free_opt_effect blk p) g0 g' -> wp (k tt) Q g') ->
  wp (free_opt blk p ≫= k) Q g.
Proof.
  intros H HQ. destruct p; [by eapply wp_effect|].
  apply wp_bind, wp_ret, HQ. by rewrite app_nil_r.
Qed.

Lemma conn_del_spec conn c g :
  g_heap g !! conn = Some c -> untested_ok (g_world g) ->
  wp (conn_del conn) (fun r g' => r = 0 /\ exists l post,
    removed conn l (post ++ close_effects c) g g' /\
    closed_table (conn_agent_key c) g l post) g.
Proof.
  intros Hc Hun. unfold conn_del. apply wp_bind. eapply wp_get_conn; [exact Hc|].
  assert (Hdisc : wp (match conn_agent_key c with
      | Some key => agent_state_mark_disconnected key
      | None => mret tt
      end) (fun _ g' => exists l post, to l post g g' /\
        closed_table (conn_agent_key c) g l post) g).
  { unfold closed_table. destruct (conn_agent_key c) as [key|].
    - eapply wp_mono; [by apply mark_disconnected_spec|]. intros [] g1 H.
      destruct (is_online key (g_agents g)).
      + destruct H as (status & now & t & H1 & Hp & Hs). eexists _, t.
        split; [exact H1|]. by exists status, now.
      + by exists (g_agents g), [].
    - apply wp_ret. exists (g_agents g), []. split; [apply to_refl|done]. }
  apply wp_bind. eapply wp_mono; [exact Hdisc|].
  intros [] g1 (l & post & (w & Hw & ->) & Hcl).
  apply wp_bind, wp_emit, wp_bind, wp_modify.
  set (w1 := w <| w_trace := w_trace w ++ [Release "connection"] |>).
  assert (Hw1 : emits (post ++ [Release "connection"]) (g_world g) w1)
    by (eapply emits_compose; [exact Hw|by split_and!]).
  set (g2 := Gw (g_ctx g) l (filter (fun i => i <> conn) (g_connections g)) (g_heap g)
    (g_fresh g) (g_records g) (g_rand g) w1).
  match goal with |- wp ?m ?Q _ => change (wp m Q g2) end.
  assert (H2 : to l [] g2 g2) by (apply (to_refl g2)).
  eapply wp_effect; [exact H2|]. intros g3 H3.
  eapply wp_free_opt_effect; [exact H3|]. intros g4 H4.
  eapply wp_free_opt_effect; [exact H4|]. intros g5 H5.
  eapply wp_free_opt_effect; [exact H5|]. intros g6 H6.
  eapply wp_effect; [exact H6|]. intros g7 (w7 & Hw7 & ->).
  apply wp_bind, wp_modify, wp_ret. split; [done|]. exists l, post. split; [|done].
  exists w7. split; [|reflexivity].
  pose proof (emits_compose _ _ _ _ _ Hw1 Hw7) as Hall.
  unfold close_effects. rewrite <- !app_assoc in Hall. cbn [app] in Hall. exact Hall.
Qed.

Lemma removed_wf conn l t g g' :
  gw_wf g -> removed conn l t g g' -> table_wf l ->
  gw_wf g' /\ conn ∉ g_connections g'.
Proof.
  intros [] (w & Hw & ->) Hl. split.
  - constructor; cbn [g_connections g_heap g_fresh g_ctx g_agents g_world]; try done.
    + intros i. rewrite list_elem_of_filter, gwf_live0.
      destruct (decide (conn = i)) as [<-|].
      * rewrite lookup_delete_eq. split; [tauto|]. intros [? ?]. done.
      * rewrite lookup_delete_ne by done. split; [tauto|done].
    + by apply NoDup_filter.
    + intros i [_ Hi]%list_elem_of_filter. eauto.
    + intros i c. rewrite lookup_delete_Some. intros [_ Hi]. eauto.
    + intros i c. rewrite lookup_delete_Some. intros [_ Hi]. eauto.
    + intros fd. by rewrite (emits_input _ _ _ Hw).
    + eapply untested_ok_env; [apply Hw|done].
  - cbn. rewrite list_elem_of_filter. tauto.
Qed.

Lemma closed_table_wf key g l post :
  closed_table key g l post -> table_wf (g_agents g) -> table_wf l.
Proof.
  unfold closed_table. destruct key as [key|]; [|by intros [-> _]].
  destruct (is_online key (g_agents g)); [|by intros [-> _]].
  intros (status & now & -> & _ & _ & Hs) [Hnd Hwf]. split; [by rewrite ids_update_agent|].
  apply Forall_update_agent; [|done]. intros a. apply disconnected_agent_wf.
  destruct Hs as [-> |Hs]; [by repeat constructor|].
  apply list_elem_of_fmap in Hs as (a' & -> & Ha'). rewrite Forall_forall in Hwf.
  destruct (Hwf a' Ha') as [Hb _]. unfold agent_bytes_ok in Hb.
  rewrite !Forall_cons in Hb. by destruct Hb as (B1 & B2 & B3 & B4 & B5 & B6 & B7 & B8 & _).
Qed.

(** ** The event handler *)

(** [busy] only. *)
Lemma set_busy_spec conn c b g :
  g_heap g !! conn = Some c ->
  wp (set_conn conn (fun c => c <| conn_busy := b |>)) (fun _ g' =>
    became conn (c <| conn_busy := b |>) (g_agents g) (g_records g) [] g g') g.
Proof.
  intros Hc. eapply wp_set_conn; [exact Hc|]. exists (g_world g).
  split; [split_and!; [by rewrite app_nil_r|done..]|by destruct g].
Qed.

(** Other connections are not touched. *)
Definition others_kept (conn : nat) (g g' : gw) : Prop :=
  forall i, i <> conn -> g_heap g' !! i = g_heap g !! i.

Lemma became_others conn c l r t g g' : became conn c l r t g g' -> others_kept conn g g'.
Proof. intros (w & _ & ->) i Hi. cbn. by rewrite lookup_insert_ne. Qed.

Lemma removed_others conn l t g g' : removed conn l t g g' -> others_kept conn g g'.
Proof. intros (w & _ & ->) i Hi. cbn. by rewrite lookup_delete_ne. Qed.

Lemma others_trans conn g1 g2 g3 :
  others_kept conn g1 g2 -> others_kept conn g2 g3 -> others_kept conn g1 g3.
Proof. intros H1 H2 i Hi. by rewrite H2, H1. Qed.

(** The outcome of an event: the connection is still there, or it is gone. *)
Definition event_outcome (conn : nat) (g : gw) (r : Z) (g' : gw) : Prop :=
  gw_wf g' /\ others_kept conn g g' /\ (r = 0 \/ r = -1) /\
  (conn ∈ g_connections g' \/ r = -1 /\ conn ∉ g_connections g') /\
  (r = 0 -> conn ∈ g_connections g').

Lemma conn_del_outcome conn c g0 g (r0 : Z) :
  gw_wf g -> g_heap g !! conn = Some c -> others_kept conn g0 g ->
  wp (conn_del conn) (fun r g' => r = 0 /\ event_outcome conn g0 (-1) g') g.
Proof.
  intros Hwf Hc Ho. eapply wp_mono; [apply conn_del_spec; [exact Hc|apply Hwf]|].
  intros r g' (-> & l & post & Hr & Hcl). split; [done|].
  destruct (removed_wf conn l _ _ _ Hwf Hr) as [Hwf' Hnot].
  { eapply closed_table_wf; [exact Hcl|apply Hwf]. }
  split_and!; [done| |by right|by right|done].
  eapply others_trans; [exact Ho|by eapply removed_others].
Qed.

Lemma became_same_wf conn c c' r t g g' :
  gw_wf g -> g_heap g !! conn = Some c ->
  became conn c' (g_agents g) r t g g' -> conn_wf c' ->
  conn_buf_size c' <= Z.max (ctx_chunk_size (g_ctx g)) (ctx_buffer_size (g_ctx g)) ->
  gw_wf g'.
Proof. intros Hwf Hc Hb Hc' Hs. eapply became_wf; try done. apply Hwf. Qed.

Lemma busy_wf conn c b g g' :
  gw_wf g -> g_heap g !! conn = Some c ->
  became conn (c <| conn_busy := b |>) (g_agents g) (g_records g) [] g g' -> gw_wf g'.
Proof.
  intros Hwf Hc Hb. eapply became_same_wf; [done|exact Hc|exact Hb| |].
  - destruct (gwf_conns g Hwf _ _ Hc). by constructor.
  - exact (gwf_bound g Hwf _ _ Hc).
Qed.

Lemma close_conn_outcome conn c g0 g :
  gw_wf g -> g_heap g !! conn = Some c -> others_kept conn g0 g ->
  wp (close_conn conn) (fun r g' => r = -1 /\ event_outcome conn g0 (-1) g') g.
Proof.
  intros Hwf Hc Ho. unfold close_conn. apply wp_bind.
  eapply wp_mono; [by apply set_busy_spec|]. intros [] g1 H1.
  apply wp_bind. eapply wp_mono.
  { eapply (conn_del_outcome conn _ g0 g1 0); [by eapply busy_wf|by eapply became_conn|].
    eapply others_trans; [exact Ho|by eapply became_others]. }
  intros r g2 [_ H2]. by apply wp_ret.
Qed.

(** Going on with a well-formed connection. *)
Definition ongoing (conn : nat) (g0 g : gw) : Prop :=
  gw_wf g /\ others_kept conn g0 g /\ conn ∈ g_connections g.

Lemma ongoing_conn conn g0 g : ongoing conn g0 g -> exists c, g_heap g !! conn = Some c.
Proof. intros (Hwf & _ & Hin). by apply (gwf_live g Hwf) in Hin as [c Hc]; exists c. Qed.

Lemma became_ongoing conn c c' l r t g0 g g' :
  ongoing conn g0 g -> g_heap g !! conn = Some c -> became conn c' l r t g g' ->
  conn_wf c' -> conn_buf_size c' <= Z.max (ctx_chunk_size (g_ctx g)) (ctx_buffer_size (g_ctx g)) ->
  table_wf l -> ongoing conn g0 g'.
Proof.
  intros (Hwf & Ho & Hin) Hc Hb Hc' Hs Hl.
  split; [by eapply became_wf|]. split.
  - eapply others_trans; [exact Ho|by eapply became_others].
  - by destruct Hb as (w & _ & ->).
Qed.

Lemma ensure_room_spec conn g0 g :
  ongoing conn g0 g ->
  wp (ensure_room conn) (fun r g' =>
    match r with
    | Some r => r = -1 /\ event_outcome conn g0 r g'
    | None => ongoing conn g0 g' /\
        exists c, g_heap g' !! conn = Some c /\ 0 < conn_buf_size c - conn_buf_len c
    end) g.
Proof.
  intros Hon. destruct (ongoing_conn _ _ _ Hon) as [c Hc]. destruct (Hon) as (Hwf & Ho & Hin).
  unfold ensure_room. apply wp_bind. eapply wp_get_conn; [exact Hc|].
  destruct (Z.ltb_spec (conn_buf_size c - conn_buf_len c) 1).
  2:{ apply wp_ret. split; [done|]. exists c. split; [done|lia]. }
  apply wp_bind, wp_gets.
  pose proof (gwf_chunk g Hwf). pose proof (gwf_buffer g Hwf).
  destruct (gwf_conns g Hwf _ _ Hc) as [Hlen Hsize Hmax Hbytes].
  rewrite uwrap_small by (unfold fits; lia).
  destruct (Z.gtb_spec (conn_buf_size c + ctx_chunk_size (g_ctx g))
    (ctx_buffer_size (g_ctx g))).
  { apply wp_bind. eapply wp_mono; [by eapply close_conn_outcome|].
    intros r g1 [-> He]. by apply wp_ret. }
  cbv zeta. rewrite (s32_small (ctx_chunk_size _)), s32_small by lia.
  apply wp_bind, wp_gw_alloc. intros [|] g1 Hg1 _; cbn [negb].
  - assert (Hc1 : g_heap g1 !! conn = Some c) by (destruct Hg1 as (w & _ & ->); exact Hc).
    apply (to_became conn c) in Hg1; [|done].
    apply wp_bind. eapply wp_set_conn; [exact Hc1|]. apply wp_ret.
    set (c' := c <| conn_buf_data := _ |> <| conn_buf_size := _ |>).
    set (size := conn_buf_size c + ctx_chunk_size (g_ctx g)) in *.
    assert (conn_wf c') as Hwf'.
    { constructor; cbn [c' conn_buf_len conn_buf_size conn_buf_data update eta_conn].
      - lia.
      - rewrite zlen_app, zlen_replicate. lia.
      - lia.
      - apply Forall_app_2; [done|]. by apply Forall_replicate. }
    split.
    + eapply (became_ongoing conn c c' (g_agents g) (g_records g) []);
        [exact Hon|exact Hc| |exact Hwf'|cbn; lia|apply Hwf].
      destruct Hg1 as (w & Hw & ->). exists w. split; [exact Hw|].
      cbn [g_ctx g_agents g_connections g_heap g_fresh g_records g_rand g_world update eta_gw].
      by rewrite insert_insert_eq.
    + exists c'. split; [cbn [g_heap update eta_gw]; apply lookup_insert_eq|].
      cbn [c' conn_buf_len conn_buf_size update eta_conn]. lia.
  - assert (Hc1 : g_heap g1 !! conn = Some c) by (destruct Hg1 as (w & _ & ->); exact Hc).
    apply (to_became conn c) in Hg1; [|done].
    apply wp_bind. eapply wp_mono; [by apply set_busy_spec|].
    intros [] g2 Hg2. apply wp_ret. split; [done|].
    assert (ongoing conn g0 g1) as Hon1.
    { eapply became_ongoing; [exact Hon|exact Hc|exact Hg1|by constructor| |apply Hwf].
      exact (gwf_bound g Hwf _ _ Hc). }
    destruct Hon1 as (Hwf1 & Ho1 & Hin1). split_and!.
    + by eapply busy_wf.
    + eapply others_trans; [exact Ho1|by eapply became_others].
    + by right.
    + left. by destruct Hg2 as (w & _ & ->).
    + done.
Qed.

(** The input may be read; the rest of the invariant does not mention it. *)
Lemma reads_ongoing conn g0 g g' fd n :
  ongoing conn g0 g -> steps (reads fd n) g g' ->
  ongoing conn g0 g' /\ g_heap g' = g_heap g /\ g_ctx g' = g_ctx g.
Proof.
  intros (Hwf & Ho & Hin) (f & -> & (_ & E & Hi)). split; [|done]. split; [|done].
  destruct Hwf. constructor; try done; [|by eapply untested_ok_env].
  intros fd'. change (bytes_ok (w_input (f (g_world g)) fd')).
  change (forall fd', w_input (f (g_world g)) fd' =
    if fd' =? fd then drop (Z.to_nat n) (w_input (g_world g) fd)
    else w_input (g_world g) fd') in Hi.
  rewrite Hi. destruct (fd' =? fd); [apply Forall_drop|]; apply gwf_input0.
Qed.

Lemma consume_bytes_spec buf n len :
  0 <= n <= len -> len <= zlen buf -> bytes_ok buf ->
  exists buf', consume_bytes buf n len = Some buf' /\ zlen buf' = zlen buf /\
    bytes_ok buf' /\
    take (Z.to_nat (len - n)) buf' = drop (Z.to_nat n) (take (Z.to_nat len) buf).
Proof.
  intros Hn Hl Hb. unfold consume_bytes.
  destruct (Z.gtb_spec n 0) as [Hp|Hp]; cbn [andb].
  - rewrite (proj2 (Z.leb_le _ _)) by lia. rewrite load_some by lia. cbn [mbind option_bind].
    set (data := take (Z.to_nat (len - n)) (drop (Z.to_nat n) buf)).
    assert (zlen data = len - n) as Ld.
    { unfold data. rewrite zlen_take; [done|]. rewrite zlen_drop; lia. }
    assert (bytes_ok data) by (by apply Forall_take, Forall_drop).
    change buf with ([] ++ buf) at 1. rewrite store_at by zlia. cbn [app].
    eexists. split; [done|]. split_and!.
    + rewrite zlen_app, zlen_drop_nat. unfold zlen in *. lia.
    + apply Forall_app_2; [done|by apply Forall_drop].
    + rewrite <- Ld, to_nat_zlen, take_app_length. unfold data.
      rewrite skipn_firstn_comm. f_equal. lia.
  - assert (n = 0) as -> by lia. eexists. split_and!; [done|done|done|].
    change (Z.to_nat 0) with 0%nat. by rewrite drop_0, Z.sub_0_r.
Qed.

Lemma read_and_process_spec conn c g0 g :
  ongoing conn g0 g -> g_heap g !! conn = Some c -> 0 < conn_buf_size c - conn_buf_len c ->
  wp (read_and_process conn) (fun r g' =>
    match r with
    | Some r => r = -1 /\ event_outcome conn g0 r g'
    | None => ongoing conn g0 g'
    end) g.
Proof.
  intros Hon Hc Hroom. unfold read_and_process.
  apply wp_bind. eapply wp_get_conn; [exact Hc|].
  apply wp_bind, wp_socket_read; [lia|]. intros data g1 Hdata Hdl Hread _.
  assert (bytes_ok data) as Hdok.
  { rewrite Hdata. apply Forall_take. apply Hon. }
  destruct (reads_ongoing _ _ _ _ _ _ Hon Hread) as (Hon1 & Eh & Ec).
  rewrite <- Eh in Hc. destruct (Hon1) as (Hwf1 & Ho1 & Hin1).
  destruct (Z.leb_spec (zlen data) 0).
  { apply wp_bind. eapply wp_mono; [by eapply close_conn_outcome|].
    intros r g2 [-> He]. by apply wp_ret. }
  destruct (gwf_conns g1 Hwf1 _ _ Hc) as [Hlen Hsize Hmax Hbytes].
  assert (exists buf, store (conn_buf_data c) (conn_buf_len c) data = Some buf /\
    zlen buf = zlen (conn_buf_data c) /\ bytes_ok buf) as (buf & Eb & Lb & Bb).
  { destruct (store_some (conn_buf_data c) (conn_buf_len c) data) as (buf & Eb & Lb);
      [lia|lia|]. exists buf. split_and!; [done|done|].
    unfold store in Eb. destruct (_ && _); [|done]. injection Eb as <-.
    apply Forall_app_2; [by apply Forall_take|].
    apply Forall_app_2; [done|by apply Forall_drop]. }
  apply wp_bind. eapply wp_lift; [exact Eb|].
  apply wp_bind. eapply wp_set_conn; [exact Hc|].
  set (c2 := c <| conn_buf_data := _ |> <| conn_buf_len := _ |>).
  set (g2 := g1 <| g_heap := _ |>).
  assert (Hc2wf : conn_wf c2) by (constructor; cbn; lia || done).
  assert (Hb2 : became conn c2 (g_agents g1) (g_records g1) [] g1 g2).
  { exists (g_world g1). split; [split_and!; [by rewrite app_nil_r|done..]|reflexivity]. }
  assert (Hon2 : ongoing conn g0 g2).
  { eapply became_ongoing; [exact Hon1|exact Hc|exact Hb2|done| |apply Hwf1].
    exact (gwf_bound g1 Hwf1 _ _ Hc). }
  pose proof (became_conn _ _ _ _ _ _ _ Hb2) as Hc2. clearbody g2.
  apply wp_bind. eapply wp_mono; [apply process_buffer_safe; [done|done|apply Hon2]|].
  intros r g3 [H3 Hr]. destruct (Hon2) as (Hwf2 & Ho2 & Hin2).
  pose proof (handled_wf _ _ _ _ Hwf2 Hc2 H3) as Hwf3.
  destruct (H3) as (c3 & l3 & r3 & t3 & Hb3 & S3 & _).
  pose proof (became_conn _ _ _ _ _ _ _ Hb3) as Hc3.
  assert (Ho3 : others_kept conn g0 g3)
    by (eapply others_trans; [exact Ho2|by eapply became_others]).
  destruct (Z.ltb_spec r 0).
  { apply wp_bind. eapply wp_mono; [by eapply close_conn_outcome|].
    intros r' g4 [-> He]. by apply wp_ret. }
  destruct Hr as [->|Hr]; [lia|].
  assert (Hin3 : conn ∈ g_connections g3) by (by destruct Hb3 as (w & _ & ->)).
  apply wp_bind. eapply wp_get_conn; [exact Hc3|].
  pose proof (gwf_conns g3 Hwf3 _ _ Hc3) as Hwfc3.
  assert (conn_buf_len c3 = conn_buf_len c2) as El by (by destruct S3 as (? & ? & ? & ->)).
  destruct (consume_bytes_spec (conn_buf_data c3) r (conn_buf_len c3))
    as (buf' & Ecb & Lb' & Bb' & _); [lia|destruct Hwfc3; lia|apply Hwfc3|].
  apply wp_bind. eapply wp_lift; [exact Ecb|].
  apply wp_bind. eapply wp_set_conn; [exact Hc3|]. apply wp_ret.
  set (c4 := c3 <| conn_buf_data := _ |> <| conn_buf_len := _ |>).
  eapply (became_ongoing conn c3 c4 (g_agents g3) (g_records g3) [] g0 g3);
    [split_and!; [done|exact Ho3|done]|exact Hc3| | | |apply Hwf3].
  - exists (g_world g3). split; [split_and!; [by rewrite app_nil_r|done..]|reflexivity].
  - destruct Hwfc3. constructor; cbn; lia || done.
  - exact (gwf_bound g3 Hwf3 _ _ Hc3).
Qed.

Lemma conn_event_spec conn mask_read mask_close g :
  gw_wf g -> conn ∈ g_connections g ->
  wp (conn_event conn mask_read mask_close) (event_outcome conn g) g.
Proof.
  intros Hwf Hin. assert (Hon : ongoing conn g g) by (by split_and!).
  destruct (ongoing_conn _ _ _ Hon) as [c Hc]. unfold conn_event.
  apply wp_bind. eapply wp_mono; [by apply set_busy_spec|]. intros [] g1 H1.
  assert (Hon1 : ongoing conn g g1).
  { eapply became_ongoing; [exact Hon|exact Hc|exact H1| | |apply Hwf].
    - destruct (gwf_conns g Hwf _ _ Hc). by constructor.
    - exact (gwf_bound g Hwf _ _ Hc). }
  clear H1. apply wp_bind.
  assert (Hread : wp (if mask_read then
         room ← ensure_room conn;
         match room with
         | Some r => mret (Some r)
         | None => read_and_process conn
         end
       else mret None) (fun r g' =>
         match r with
         | Some r => r = -1 /\ event_outcome conn g r g'
         | None => ongoing conn g g'
         end) g1).
  { destruct mask_read; [|by apply wp_ret].
    apply wp_bind. eapply wp_mono; [by apply ensure_room_spec|].
    intros [r|] g2 H2; [by apply wp_ret|]. destruct H2 as (Hon2 & c2 & Hc2 & Hroom).
    by eapply read_and_process_spec. }
  eapply wp_mono; [exact Hread|]. clear Hread.
  intros [r|] g2 H2; [by apply wp_ret, H2|].
  destruct (ongoing_conn _ _ _ H2) as [c2 Hc2]. destruct (H2) as (Hwf2 & Ho2 & Hin2).
  destruct mask_close.
  { eapply wp_mono; [by eapply close_conn_outcome|]. by intros r g3 [-> H3]. }
  apply wp_bind. eapply wp_mono; [by apply set_busy_spec|]. intros [] g3 H3.
  pose proof (busy_wf _ _ _ _ _ Hwf2 Hc2 H3) as Hwf3.
  pose proof (became_conn _ _ _ _ _ _ _ H3) as Hc3.
  assert (Ho3 : others_kept conn g g3)
    by (eapply others_trans; [exact Ho2|by eapply became_others]).
  apply wp_bind. eapply wp_get_conn; [exact Hc3|].
  destruct (conn_pending_close _).
  - apply wp_bind. eapply wp_mono; [by eapply (conn_del_outcome conn _ g g3 0)|].
    intros r g4 [_ H4]. by apply wp_ret.
  - apply wp_ret. assert (conn ∈ g_connections g3) by (by destruct H3 as (w & _ & ->)).
    split_and!; [done|done|by left|by left|done].
Qed.
