(* ===== verification/GwArango.v ===== *)
(** The gateway's database writer,
    gateway/plugins/in_xsiam_agent/xsiam_agent_arango.c: the JSON documents of
    the dirty agents, the cursor request that upserts them, and the flush that
    clears the dirty marks. *)
From S2P Require Import Prelude Json GwState.
#[local] Open Scope Z_scope.

(** * JSON serialisation helpers *)

(** One byte of a string; the loop of the code stops at the terminator. *)
Definition json_escape_byte (c : Z) : bytes :=
  if c =? 92 then [92; 92]
  else if c =? 34 then [92; 34]
  else if c =? 10 then [92; 110]
  else if c =? 13 then [92; 114]
  else if c =? 9 then [92; 116]
  else if c <? 32 then [92; 117; 48; 48] ++ hex2 c
  else [c].

Definition json_escape_append (s : bytes) (value : option bytes) : bytes :=
  s ++ concat (map json_escape_byte (cstr (match value with Some v => v | None => [] end))).

Definition append_json_string_field (s name value : bytes) : bytes :=
  let s := s ++ [JQ] in
  let s := s ++ name in
  let s := s ++ [JQ] ++ str ":" ++ [JQ] in
  let s := json_escape_append s (Some value) in
  s ++ [JQ].

Definition append_json_time_field (s name : bytes) (value : Z) : bytes :=
  append_json_string_field s name (iso8601 value).

(** * Documents

    The text is made with room for [PAYLOAD_SIZE] bytes and grows with the
    appends, whose results are not tested. *)

Definition PAYLOAD_SIZE : Z := 4096.

Definition append_agent_doc (s : bytes) (st : xsiam_agent_state) : ST gw bytes :=
  device_key ← alloc_succeeds;
  let key := if device_key : bool then str "device-" ++ st_agent_id st
             else st_agent_id st in
  let comma (s : bytes) := s ++ str "," in
  let s := s ++ str "{" in
  let s := append_json_string_field s (str "_key") key in
  let s := append_json_string_field (comma s) (str "device_id") key in
  let s := append_json_string_field (comma s) (str "tenant_id") (st_tenant_id st) in
  let s := append_json_string_field (comma s) (str "agent_id") (st_agent_id st) in
  let s := append_json_string_field (comma s) (str "gateway_id") (st_gateway_id st) in
  let s := append_json_string_field (comma s) (str "hostname") (st_hostname st) in
  let s := append_json_string_field (comma s) (str "host_type") (st_host_type st) in
  let s := append_json_string_field (comma s) (str "ip") (st_ip st) in
  let s := s ++ str "," ++ quoted (str "ip_addresses") ++ str ":[]," ++
           quoted (str "mac_addresses") ++ str ":" in
  let s := s ++ st_mac_addresses_json st in
  let s := append_json_string_field (comma s) (str "os_type") (str "windows") in
  let s := append_json_string_field (comma s) (str "os_version") [] in
  let s := append_json_string_field (comma s) (str "agent_version") (st_agent_version st) in
  let s := append_json_string_field (comma s) (str "agent_status") (st_agent_status st) in
  let s := s ++ str "," ++ quoted (str "is_connected") ++
           (if st_is_connected st then str ":true," else str ":false,") in
  let s := append_json_string_field s (str "protocol") (str "wzcp") in
  let s := s ++ str "," ++ quoted (str "protocol_version") ++ str ":1," in
  let s := append_json_time_field s (str "installed_at") (st_installed_at st) in
  let s := append_json_time_field (comma s) (str "enrolled_at") (st_installed_at st) in
  let s := append_json_time_field (comma s) (str "last_heartbeat") (st_last_heartbeat st) in
  let s := append_json_time_field (comma s) (str "last_seen") (st_last_seen st) in
  let s := append_json_time_field (comma s) (str "created_at") (st_created_at st) in
  let s := append_json_time_field (comma s) (str "updated_at") (st_updated_at st) in
  let s := s ++ str "}" in
  _ ← grow PAYLOAD_SIZE s;
  mret s.

Definition AQL : bytes :=
  str "FOR doc IN @devices UPSERT {agent_id: doc.agent_id} INSERT doc UPDATE MERGE(OLD, UNSET(doc, '_key')) IN devices".

(** The documents of the dirty agents in list order; [count] counts them. *)
Fixpoint append_dirty (agents : list xsiam_agent_state) (s : bytes) (count : Z)
    : ST gw (bytes * Z) :=
  match agents with
  | [] => mret (s, count)
  | st :: rest =>
      if st_dirty st then
        let s := if count >? 0 then s ++ str "," else s in
        s ← append_agent_doc s st;
        append_dirty rest s (count + 1)
      else append_dirty rest s count
  end.

Definition build_arango_payload : ST gw (option bytes * Z) :=
  ok ← alloc_succeeds;
  if negb ok then mret (None, 0) else
  let s := str "{" ++ quoted (str "query") ++ str ":" ++ quoted AQL ++ str "," ++
           quoted (str "bindVars") ++ str ":{" ++ quoted (str "devices") ++ str ":[" in
  agents ← gets g_agents;
  '(s, count) ← append_dirty agents s 0;
  let s := s ++ str "]}}" in
  _ ← grow PAYLOAD_SIZE s;
  mret (Some s, count).

(** * The flush *)

Fixpoint clear_dirty (agents : list xsiam_agent_state) : ST gw (list xsiam_agent_state) :=
  match agents with
  | [] => mret []
  | st :: rest =>
      st ← (if st_dirty st then
              now ← now_sec;
              mret (st <| st_dirty := false |> <| st_last_db_flush := now |>)
            else mret st);
      rest ← clear_dirty rest;
      mret (st :: rest)
  end.

(** [snprintf] into the 256 bytes of [uri]. *)
Definition cursor_uri (database : option bytes) : bytes :=
  take 255 (str "/_db/" ++ (match database with Some d => d | None => str "(null)" end) ++
            str "/_api/cursor").

Definition basic_auth (user pass : option bytes) : bytes :=
  let text p := match p with Some p => p | None => [] end in
  text user ++ str ":" ++ text pass.

Definition cursor_headers (ctx : xsiam_agent_ctx) : list (bytes * bytes) :=
  [(str "Content-Type", str "application/json");
   (str "Authorization", basic_auth (ctx_arango_user ctx) (ctx_arango_pass ctx))].

Definition arango_flush_dirty_agents : ST gw Z :=
  ctx ← gets g_ctx;
  if negb (ctx_db_sync ctx) || negb (ctx_arango_upstream ctx) then mret 0 else
  '(payload, count) ← build_arango_payload;
  match payload with
  | None => mret 0
  | Some payload =>
      if count =? 0 then mret 0 else
      r ← http_post (cursor_uri (ctx_arango_database ctx)) (cursor_headers ctx) payload;
      match r with
      | HttpNoConn | HttpNoClient => mret (-1)
      | HttpDone ret status =>
          if (ret =? 0) && (status >=? 200) && (status <? 300) then
            agents ← gets g_agents;
            agents ← clear_dirty agents;
            _ ← modify (fun g => g <| g_agents := agents |>);
            mret 0
          else mret (-1)
      end
  end.

(** The collector callback. *)
Definition db_collect : ST gw Z :=
  _ ← arango_flush_dirty_agents; mret 0.

(** * What the writer promises *)

(** An agent's document, given its key and its address list. *)
Definition agent_fields (key : bytes) (macs : json) (st : xsiam_agent_state)
    : list (bytes * json) :=
  let text v := JStr (cstr v) in
    [(str "_key", text key); (str "device_id", text key);
     (str "tenant_id", text (st_tenant_id st)); (str "agent_id", text (st_agent_id st));
     (str "gateway_id", text (st_gateway_id st)); (str "hostname", text (st_hostname st));
     (str "host_type", text (st_host_type st)); (str "ip", text (st_ip st));
     (str "ip_addresses", JArr []); (str "mac_addresses", macs);
     (str "os_type", JStr (str "windows")); (str "os_version", JStr []);
     (str "agent_version", text (st_agent_version st));
     (str "agent_status", text (st_agent_status st));
     (str "is_connected", JBool (st_is_connected st));
     (str "protocol", JStr (str "wzcp")); (str "protocol_version", JInt (str "1"));
     (str "installed_at", JStr (iso8601 (st_installed_at st)));
     (str "enrolled_at", JStr (iso8601 (st_installed_at st)));
     (str "last_heartbeat", JStr (iso8601 (st_last_heartbeat st)));
     (str "last_seen", JStr (iso8601 (st_last_seen st)));
     (str "created_at", JStr (iso8601 (st_created_at st)));
     (str "updated_at", JStr (iso8601 (st_updated_at st)))].

Definition agent_json (key : bytes) (macs : json) (st : xsiam_agent_state) : json :=
  JObj (agent_fields key macs st).

(** The request: the statement and the documents it is run on. *)
Definition cursor_json (docs : list json) : json :=
  JObj [(str "query", JStr AQL);
        (str "bindVars", JObj [(str "devices", JArr docs)])].

Definition field_text (kv : bytes * json) : bytes :=
  literal (fst kv) ++ 58 :: render (snd kv).

Lemma escape_append_spec s v :
  json_escape_append s v = s ++ escape (cstr (match v with Some v => v | None => [] end)).
Proof. done. Qed.

Lemma string_field_text s name v :
  escape name = name ->
  append_json_string_field s name v = s ++ field_text (name, JStr (cstr v)).
Proof.
  intros Hn. unfold append_json_string_field, field_text. cbn [fst snd render].
  unfold literal. rewrite Hn, escape_append_spec, <- !app_assoc. cbn [app].
  by rewrite <- !app_assoc.
Qed.

Lemma plain_cstr l : Forall (fun c => 32 <= c < 128) l -> cstr l = l.
Proof. intros H. apply cstr_id. eapply Forall_impl; [exact H|]. cbn. lia. Qed.

Lemma time_field_text s name t :
  escape name = name ->
  append_json_time_field s name t = s ++ field_text (name, JStr (iso8601 t)).
Proof.
  intros Hn. unfold append_json_time_field. rewrite string_field_text by done.
  by rewrite (plain_cstr (iso8601 t)) by apply iso8601_plain.
Qed.

Lemma agent_doc_spec st macs s g :
  st_mac_addresses_json st = render macs -> untested_ok (g_world g) ->
  wp (append_agent_doc s st) (fun s' g' => exists key,
    s' = s ++ render (agent_json key macs st) /\
    (key = str "device-" ++ st_agent_id st \/
     ~ alloc_ok (g_world g) /\ key = st_agent_id st) /\
    to (g_agents g) [] g g') g.
Proof.
  intros Hm Hun. unfold append_agent_doc. apply wp_bind, wp_gw_alloc.
  intros ok g1 H1 Hok. cbv zeta.
  apply wp_bind, wp_gw_grow; [by eapply to_untested_ok|]. intros g2 H2. apply wp_ret.
  set (key := if ok then _ else _). exists key.
  split_and!; [| |exact (to_trans_agents _ [] [] _ _ _ H1 H2)].
  2: { destruct ok; [by left|right]. split; [|done]. intros Ha. by specialize (Hok Ha). }
  clearbody key. clear H1 H2 Hun Hok g1 g2 g ok.
  rewrite !string_field_text, !time_field_text by done. rewrite Hm.
  change (render (agent_json key macs st)) with
    (123 :: commas (map field_text (agent_fields key macs st)) ++ [125]).
  unfold agent_fields. cbn [map].
  change (str "," ++ quoted (str "ip_addresses") ++ str ":[]," ++
           quoted (str "mac_addresses") ++ str ":")
    with ([44] ++ field_text (str "ip_addresses", JArr []) ++ [44] ++
          literal (str "mac_addresses") ++ [58]).
  change (str "," ++ quoted (str "protocol_version") ++ str ":1,")
    with ([44] ++ field_text (str "protocol_version", JInt (str "1")) ++ [44]).
  replace (str "," ++ quoted (str "is_connected") ++
           (if st_is_connected st then str ":true," else str ":false,"))
    with ([44] ++ field_text (str "is_connected", JBool (st_is_connected st)) ++ [44])
    by (by destruct (st_is_connected st)).
  change (field_text (str "mac_addresses", macs))
    with (literal (str "mac_addresses") ++ [58] ++ render macs).
  change (str ",") with [44]. change (str "{") with [123]. change (str "}") with [125].
  generalize (literal (str "mac_addresses")) (render macs). intros name text.
  change (cstr []) with (@nil Z). change (cstr (str "windows")) with (str "windows").
  change (cstr (str "wzcp")) with (str "wzcp").
  repeat match goal with |- context [field_text ?kv] =>
    generalize (field_text kv); intros ? end.
  cbn [commas]. cbn [app]. repeat (rewrite <- !app_assoc; cbn [app]). reflexivity.
Qed.

(** The document of an agent, with its address list.  Its key is the identifier
    behind a prefix, which is left out when there is no memory for it. *)
Definition doc_of (w : world) (st : xsiam_agent_state) (doc : json) : Prop :=
  exists key macs, doc = agent_json key macs st /\ macs_ok st macs /\
    (key = str "device-" ++ st_agent_id st \/ ~ alloc_ok w /\ key = st_agent_id st).

Lemma doc_of_env w w' st doc : env w' = env w -> doc_of w' st doc -> doc_of w st doc.
Proof.
  intros E (key & macs & -> & Hm & Hk). exists key, macs. split_and!; [done|done|].
  destruct Hk as [Hk|[Hno Hk]]; [by left|right]. split; [|done].
  intros Ha. apply Hno. by eapply alloc_ok_env.
Qed.

Definition dirty (l : list xsiam_agent_state) : list xsiam_agent_state :=
  filter (fun st => st_dirty st = true) l.

Lemma append_dirty_spec agents s0 docs g :
  Forall (fun st => exists macs, macs_ok st macs) agents -> untested_ok (g_world g) ->
  wp (append_dirty agents (s0 ++ commas (map render docs)) (zlen docs))
    (fun '(s', count) g' => exists docs',
       s' = s0 ++ commas (map render (docs ++ docs')) /\ count = zlen (docs ++ docs') /\
       Forall2 (doc_of (g_world g)) (dirty agents) docs' /\ to (g_agents g) [] g g') g.
Proof.
  intros Hall. revert docs g.
  induction Hall as [|st rest [macs Hm] Hall IH]; intros docs g Hun; cbn [append_dirty].
  { apply wp_ret. exists []. rewrite app_nil_r. split_and!; [done..|by constructor|apply to_refl]. }
  unfold dirty. rewrite filter_cons. destruct (st_dirty st) eqn:Hd.
  2: { rewrite decide_False by done. by apply IH. }
  rewrite decide_True by done. apply wp_bind.
  eapply wp_mono; [apply (agent_doc_spec st macs); [apply Hm|done]|].
  intros s1 g1 (key & -> & Hk & H1).
  set (doc := agent_json key macs st).
  replace ((if zlen docs >? 0 then _ else _) ++ render doc)
    with (s0 ++ commas (map render (docs ++ [doc]))).
  2: { rewrite map_app. destruct docs as [|d docs]; cbn [map].
       - change (zlen (@nil json) >? 0) with false. cbn iota. cbn [map app commas].
         rewrite app_nil_r. reflexivity.
       - rewrite commas_snoc by done. destruct (Z.gtb_spec (zlen (d :: docs)) 0); [|zlia].
         by rewrite <- !app_assoc. }
  replace (zlen docs + 1) with (zlen (docs ++ [doc])) by zlia.
  eapply wp_mono; [by apply IH; eapply to_untested_ok|].
  intros [s2 count] g2 (docs' & -> & -> & H2 & H3).
  exists (doc :: docs'). rewrite <- app_assoc. split_and!; [done..| |].
  - constructor; [by exists key, macs|]. eapply Forall2_impl; [exact H2|].
    intros st' doc'. apply doc_of_env. by destruct H1 as (w & (_ & _ & E) & ->).
  - by eapply (to_trans_agents _ [] []).
Qed.

(** Building the payload asks for memory only. *)
Abbreviation keeps_http := (keeps (fun g : gw => w_http (g_world g))).

Lemma keeps_http_alloc : keeps_http alloc_succeeds.
Proof. by intros g ok g' [= _ <-]. Qed.

Lemma keeps_http_grow size text : keeps_http (grow size text).
Proof.
  unfold grow. destruct (_ <=? _); [apply moves_ret, _|].
  apply moves_bind; [apply _|by intros g ok g' [= _ <-]|].
  intros []; [apply moves_ret, _|apply moves_ub].
Qed.

Lemma keeps_http_dirty agents s count : keeps_http (append_dirty agents s count).
Proof.
  revert s count. induction agents as [|st rest IH]; intros s count; cbn [append_dirty];
    [apply moves_ret, _|].
  destruct (st_dirty st); [|apply IH]. apply moves_bind; [apply _| |intros; apply IH].
  apply moves_bind; [apply _|apply keeps_http_alloc|]. intros ok. cbv zeta.
  apply moves_bind; [apply _|apply keeps_http_grow|]. intros. apply moves_ret, _.
Qed.

Lemma keeps_http_payload : keeps_http build_arango_payload.
Proof.
  apply moves_bind; [apply _|apply keeps_http_alloc|].
  intros [|]; [|apply moves_ret, _]. cbn [negb].
  apply moves_bind; [apply _|apply moves_gets, _|]. intros agents.
  apply moves_bind; [apply _|apply keeps_http_dirty|]. intros [s count]. cbv zeta.
  apply moves_bind; [apply _|apply keeps_http_grow|]. intros. apply moves_ret, _.
Qed.

Lemma build_payload_spec g :
  Forall (fun st => exists macs, macs_ok st macs) (g_agents g) -> untested_ok (g_world g) ->
  wp build_arango_payload (fun '(payload, count) g' =>
    to (g_agents g) [] g g' /\
    match payload with
    | Some text => next (w_alloc (g_world g)) = true /\
        exists docs, text = render (cursor_json docs) /\
        count = zlen docs /\ Forall2 (doc_of (g_world g)) (dirty (g_agents g)) docs
    | None => next (w_alloc (g_world g)) = false
    end) g.
Proof.
  intros Hall Hun. unfold build_arango_payload.
  apply wp_bind, wp_consult_quiet; [done|]. intros ok g1 -> H1%steps_quiet_to.
  change (world_of g) with (g_world g).
  destruct (next (w_alloc (g_world g))); cbn [negb]; [|by apply wp_ret].
  apply wp_bind, wp_gets. replace (g_agents g1) with (g_agents g)
    by (by destruct H1 as (w & _ & ->)). apply wp_bind.
  set (s0 := str "{" ++ _).
  eapply wp_mono; [rewrite <- (app_nil_r s0); apply (append_dirty_spec _ s0 []);
    [exact Hall|by eapply to_untested_ok]|].
  intros [s count] g2 (docs & -> & -> & H2 & H3). cbn [app] in *. cbv zeta.
  pose proof (to_trans_agents _ [] [] _ _ _ H1 H3) as H03.
  apply wp_bind, wp_gw_grow; [by eapply to_untested_ok|]. intros g3 H4. apply wp_ret.
  split; [exact (to_trans_agents _ [] [] _ _ _ H03 H4)|]. split; [done|].
  exists docs. split_and!; [|done|].
  2: { eapply Forall2_impl; [exact H2|]. intros st' doc'. apply doc_of_env.
       by destruct H1 as (w & (_ & _ & E) & ->). }
  unfold s0, cursor_json. cbn [render map commas fst snd].
  generalize (commas (map render docs)). intros text.
  change (str "]}}") with [93; 125; 125].
  assert (Hpre : s0 = [123] ++ literal (str "query") ++ [58] ++ literal AQL ++ [44] ++
    literal (str "bindVars") ++ [58] ++ [123] ++ literal (str "devices") ++ [58; 91])
    by (by vm_compute).
  fold s0. rewrite Hpre. cbn [app]. repeat (rewrite <- !app_assoc; cbn [app]). reflexivity.
Qed.

(** Clearing the marks changes nothing else about an agent. *)
Definition cleared (st st' : xsiam_agent_state) : Prop :=
  if st_dirty st then exists now, st' = st <| st_dirty := false |> <| st_last_db_flush := now |>
  else st' = st.

Lemma clear_dirty_spec agents g :
  wp (clear_dirty agents) (fun agents' g' =>
    Forall2 cleared agents agents' /\ to (g_agents g) [] g g') g.
Proof.
  revert g. induction agents as [|st rest IH]; intros g; cbn [clear_dirty].
  { apply wp_ret. split; [done|apply to_refl]. }
  apply wp_bind. eapply (wp_mono _ (fun st' g' => cleared st st' /\ to (g_agents g) [] g g')).
  { unfold cleared. destruct (st_dirty st); [|by apply wp_ret; split; [|apply to_refl]].
    apply wp_bind, wp_gw_time. intros now g1 H1. apply wp_ret. split; [by exists now|done]. }
  intros st' g1 [Hc H1]. apply wp_bind. eapply wp_mono; [apply IH|].
  intros rest' g2 [Hr H2]. apply wp_ret. split; [by constructor|].
  by eapply (to_trans_agents _ [] []).
Qed.

(** There is something to send, somewhere to send it and memory for the text. *)
Definition flush_due (g : gw) : bool :=
  ctx_db_sync (g_ctx g) && ctx_arango_upstream (g_ctx g) &&
  next (w_alloc (g_world g)) && negb (bool_decide (dirty (g_agents g) = [])).

Definition http_success (ret status : Z) : Prop := ret = 0 /\ 200 <= status < 300.

(** What a flush does: nothing, or one request with the dirty agents, after which
    the marks are cleared if and only if the database answered with success. *)
Definition flush_outcome (g : gw) (r : Z) (g' : gw) : Prop :=
  exists l t, to l t g g' /\
    if flush_due g then
      match next (w_http (g_world g)) with
      | HttpDone ret status => exists docs,
          t = [HttpPost (cursor_uri (ctx_arango_database (g_ctx g)))
                 (cursor_headers (g_ctx g)) (render (cursor_json docs))] /\
          Forall2 (doc_of (g_world g)) (dirty (g_agents g)) docs /\
          (http_success ret status /\ r = 0 /\ Forall2 cleared (g_agents g) l \/
           ~ http_success ret status /\ r = -1 /\ l = g_agents g)
      | _ => r = -1 /\ l = g_agents g /\ t = []
      end
    else r = 0 /\ l = g_agents g /\ t = [].

Lemma flush_outcome_cases g r g' :
  flush_outcome g r g' -> exists l t, to l t g g' /\
    (l = g_agents g \/ Forall2 cleared (g_agents g) l) /\
    (t = [] \/ exists uri headers body, t = [HttpPost uri headers body]).
Proof.
  intros (l & t & H & Ho). exists l, t. split; [done|]. destruct (flush_due g).
  2: { destruct Ho as (_ & ? & ?). split; by left. }
  destruct (next _).
  - destruct Ho as (_ & ? & ?). split; by left.
  - destruct Ho as (_ & ? & ?). split; by left.
  - destruct Ho as (docs & -> & _ & Hl). split; [|right; by do 3 eexists].
    destruct Hl as [(_ & _ & ?)|(_ & _ & ?)]; [by right|by left].
Qed.

Lemma flush_nothing g g' :
  flush_due g = false -> to (g_agents g) [] g g' -> flush_outcome g 0 g'.
Proof. intros E H. exists (g_agents g), []. split; [exact H|]. by rewrite E. Qed.

Lemma http_success_test ret status :
  reflect (http_success ret status) ((ret =? 0) && (status >=? 200) && (status <? 300)).
Proof. apply iff_reflect. unfold http_success. lia. Qed.

Lemma flush_spec g :
  Forall (fun st => exists macs, macs_ok st macs) (g_agents g) -> untested_ok (g_world g) ->
  wp arango_flush_dirty_agents (fun r g' => flush_outcome g r g') g.
Proof.
  intros Hall Hun. unfold arango_flush_dirty_agents. apply wp_bind, wp_gets.
  destruct (ctx_db_sync (g_ctx g)) eqn:Es; cbn [negb orb].
  2: { apply wp_ret, flush_nothing; [|apply to_refl]. unfold flush_due. by rewrite Es. }
  destruct (ctx_arango_upstream (g_ctx g)) eqn:Eu; cbn [negb].
  2: { apply wp_ret, flush_nothing; [|apply to_refl]. unfold flush_due. by rewrite Es, Eu. }
  apply wp_bind. eapply wp_mono;
    [eapply (wp_moves _ _ _ _ keeps_http_payload); by apply build_payload_spec|].
  intros [[text|] count] g1 [[H1 Hp] Hh].
  2: { apply wp_ret, flush_nothing; [|done]. unfold flush_due. by rewrite Es, Eu, Hp. }
  destruct Hp as (Ea & docs & -> & -> & Hdocs).
  destruct (Z.eqb_spec (zlen docs) 0) as [E0|Hne].
  { apply wp_ret, flush_nothing; [|done]. unfold flush_due. rewrite Es, Eu, Ea.
    destruct docs; [|zlia]. apply Forall2_nil_inv_r in Hdocs. by rewrite Hdocs. }
  assert (Hdue : flush_due g = true).
  { unfold flush_due. rewrite Es, Eu, Ea. cbn [andb]. apply negb_true_iff, bool_decide_false.
    intros E. rewrite E in Hdocs. apply Forall2_nil_inv_l in Hdocs. by rewrite Hdocs in Hne. }
  apply wp_bind, wp_gw_post; rewrite Hh.
  - intros r g2 Er Hr H2. pose proof (to_trans_agents _ [] [] _ _ _ H1 H2) as H12.
    destruct Hr as [-> | ->]; apply wp_ret; (exists (g_agents g), []; split; [exact H12|]);
      by rewrite Hdue, Er.
  - intros ret status g2 Er H2. pose proof (to_trans_agents _ [] _ _ _ _ H1 H2) as H12.
    destruct (http_success_test ret status) as [Hok|Hno].
    + apply wp_bind, wp_gets. replace (g_agents g2) with (g_agents g)
        by (by destruct H12 as (w & _ & ->)).
      apply wp_bind. eapply wp_mono; [apply clear_dirty_spec|].
      intros l g3 [Hl H3]. apply wp_bind, wp_modify, wp_ret.
      pose proof (to_trans_agents _ _ [] _ _ _ H12 H3) as (w & Hw & ->).
      rewrite app_nil_r in Hw. eexists l, _. split; [exists w; split; [exact Hw|done]|].
      rewrite Hdue, Er. exists docs. split_and!; [done|done|by left].
    + apply wp_ret. eexists _, _. split; [exact H12|]. rewrite Hdue, Er.
      exists docs. split_and!; [done|done|by right].
Qed.

Lemma plain_bytes_ok l : Forall (fun c => 32 <= c < 128) l -> bytes_ok l.
Proof. intros H. eapply Forall_impl; [exact H|]. unfold byte_ok. cbn. lia. Qed.

Lemma doc_json_ok w st doc : agent_bytes_ok st -> doc_of w st doc -> json_ok doc.
Proof.
  intros Hb (key & macs & -> & [_ Hm] & Hk).
  unfold agent_bytes_ok in Hb. rewrite !Forall_cons in Hb.
  destruct Hb as (B1 & B2 & B3 & B4 & B5 & B6 & B7 & B8 & _).
  assert (Hkey : bytes_ok key).
  { destruct Hk as [-> |[_ ->]]; [|done]. apply Forall_app_2; [by repeat constructor|done]. }
  cbn [json_ok agent_json agent_fields foldr fst snd].
  repeat match goal with
    | |- _ /\ _ => split
    | |- True => exact I
    | |- bytes_ok (cstr _) => apply cstr_ok; assumption
    | |- bytes_ok (iso8601 _) => apply plain_bytes_ok, iso8601_plain
    | |- json_ok macs => exact Hm
    | |- bytes_ok _ => by repeat constructor
    | |- _ => done
    end.
Qed.

Lemma cursor_json_ok docs : Forall json_ok docs -> json_ok (cursor_json docs).
Proof.
  intros H. cbn [json_ok cursor_json foldr fst snd].
  repeat split; try (by repeat constructor).
  induction H; [done|]. by split.
Qed.

Lemma cleared_dirty l l' : Forall2 cleared l l' -> dirty l' = [].
Proof.
  induction 1 as [|st st' l l' Hc _ IH]; [done|]. unfold dirty in *. rewrite filter_cons, IH.
  rewrite decide_False; [done|]. unfold cleared in Hc.
  destruct (st_dirty st) eqn:Hd; [by destruct Hc as [now ->]|by rewrite Hc, Hd].
Qed.

Lemma cleared_ids l l' : Forall2 cleared l l' -> ids l' = ids l.
Proof.
  induction 1 as [|st st' l l' Hc _ IH]; [done|]. cbn. f_equal; [|exact IH].
  unfold cleared in Hc. destruct (st_dirty st); [by destruct Hc as [now ->]|by rewrite Hc].
Qed.

Lemma docs_json_ok w agents docs :
  Forall agent_wf agents -> Forall2 (doc_of w) (dirty agents) docs ->
  json_decode (render (cursor_json docs)) = Some (cursor_json docs).
Proof.
  intros Hwf Hdocs. apply json_decode_render, cursor_json_ok.
  assert (Hd : Forall agent_bytes_ok (dirty agents)).
  { apply Forall_forall. intros st [_ Hin]%list_elem_of_filter.
    rewrite Forall_forall in Hwf. by apply Hwf. }
  revert Hd. induction Hdocs; [by constructor|]. intros [Hb Hd]%Forall_cons.
  constructor; [by eapply doc_json_ok|auto].
Qed.

(** C7: the database flush, exactly.  When the database is off, has no upstream,
    no agent is dirty or there is no memory for the text, it returns 0 and nothing
    happens.  Otherwise it asks for one request: when there is no connection or
    client for it, it returns -1 and nothing happens; when it is made, it is the
    cursor request of the configured database with the configured credentials,
    its body is valid JSON and decodes to the upsert statement with the documents
    of exactly the dirty agents, in list order, and: if and only if the transfer
    succeeds with a 2xx status, 0 is returned and every dirty mark is cleared,
    with the time of the flush and nothing else changed; otherwise -1 is returned
    and every agent is as it was, still to be sent.  Assumed is that the appends
    to the growing text, which the code does not test, find memory. *)
Theorem arango_flush_posts_dirty g :
  Forall agent_wf (g_agents g) -> untested_ok (g_world g) ->
  exists r g', arango_flush_dirty_agents g = Some (r, g') /\
    let unchanged := g_agents g' = g_agents g /\
                     w_trace (g_world g') = w_trace (g_world g) in
    if flush_due g then
      match next (w_http (g_world g)) with
      | HttpNoConn | HttpNoClient => r = -1 /\ unchanged
      | HttpDone ret status => exists docs body,
          w_trace (g_world g') = w_trace (g_world g) ++
            [HttpPost (cursor_uri (ctx_arango_database (g_ctx g)))
               (cursor_headers (g_ctx g)) body] /\
          json_decode body = Some (cursor_json docs) /\
          Forall2 (doc_of (g_world g)) (dirty (g_agents g)) docs /\ docs <> [] /\
          (http_success ret status /\ r = 0 /\ dirty (g_agents g') = [] /\
             Forall2 cleared (g_agents g) (g_agents g') \/
           ~ http_success ret status /\ r = -1 /\ g_agents g' = g_agents g)
      end
    else r = 0 /\ unchanged.
Proof.
  intros Hwf Hun.
  assert (Hm : Forall (fun st => exists macs, macs_ok st macs) (g_agents g)).
  { eapply Forall_impl; [exact Hwf|]. by intros st [_ Hst]. }
  destruct (proj1 (wp_run _ _ _) (flush_spec g Hm Hun))
    as (r & g' & Hrun & l & t & (w & (T & _) & ->) & H).
  exists r, (Gw (g_ctx g) l (g_connections g) (g_heap g) (g_fresh g) (g_records g) (g_rand g) w).
  split; [exact Hrun|]. clear Hrun. cbn [g_agents g_world] in *.
  destruct (flush_due g) eqn:Hdue.
  2: { destruct H as (-> & -> & ->). by rewrite app_nil_r in T. }
  destruct (next (w_http (g_world g))) as [| |ret status].
  - destruct H as (-> & -> & ->). by rewrite app_nil_r in T.
  - destruct H as (-> & -> & ->). by rewrite app_nil_r in T.
  - destruct H as (docs & -> & Hdocs & Hl). exists docs, (render (cursor_json docs)).
    split_and!; [exact T|by eapply docs_json_ok|exact Hdocs| |].
    + intros ->. apply Forall2_nil_inv_r in Hdocs. unfold flush_due in Hdue.
      rewrite Hdocs in Hdue. by rewrite andb_false_r in Hdue.
    + destruct Hl as [(Hs & -> & Hl)|(Hs & -> & ->)]; [left|by right].
      split_and!; [apply Hs..|done|by eapply cleared_dirty|done].
Qed.

(** * Event bodies

    The bodies of the lifecycle events are put together without escaping, so
    they are the intended object only for strings that need none. *)

Definition event_json (ctx : xsiam_agent_ctx) (event : bytes) (agent_id : option bytes)
    : json :=
  JObj ([(str "event", JStr event);
         (str "fb_instance_id", JStr (ctx_fb_instance_id ctx));
         (str "tenant_id", JStr (tenant_or_default ctx))] ++
        match agent_id with
        | Some (c :: id) => [(str "agent_id", JStr (c :: id))]
        | _ => []
        end).

Definition plain (s : bytes) : Prop := escape s = s /\ bytes_ok s.

Lemma event_body_render ctx event agent_id :
  plain event -> plain (ctx_fb_instance_id ctx) -> plain (tenant_or_default ctx) ->
  (forall id, agent_id = Some id -> plain id) ->
  event_body ctx event agent_id = render (event_json ctx event agent_id).
Proof.
  intros [He _] [Hf _] [Ht _] Hid. unfold event_body, event_json. cbn [render].
  destruct agent_id as [[|c id]|]; cbn [app map commas fst snd render];
    unfold literal; rewrite He, Hf, Ht; try (destruct (Hid _ eq_refl) as [-> _]);
    generalize event, (ctx_fb_instance_id ctx), (tenant_or_default ctx); intros e f t;
    try (generalize (c :: id); intros i); cbn; repeat (rewrite <- !app_assoc; cbn [app]);
    reflexivity.
Qed.

Lemma event_json_ok ctx event agent_id :
  plain event -> plain (ctx_fb_instance_id ctx) -> plain (tenant_or_default ctx) ->
  (forall id, agent_id = Some id -> plain id) -> json_ok (event_json ctx event agent_id).
Proof.
  intros [_ He] [_ Hf] [_ Ht] Hid. unfold event_json.
  destruct agent_id as [[|c id]|]; cbn [app json_ok foldr fst snd];
    try (destruct (Hid _ eq_refl) as [_ Hi]);
    repeat match goal with
      | |- _ /\ _ => split
      | |- True => exact I
      | |- bytes_ok (str _) => by repeat constructor
      | |- _ => done
      end.
Qed.

(** The body of a lifecycle event decodes to the object with the event, the
    gateway's instance, the tenant and the agent, for strings without quotes,
    backslashes and control characters. *)
Theorem event_body_decodes ctx event agent_id :
  plain event -> plain (ctx_fb_instance_id ctx) -> plain (tenant_or_default ctx) ->
  (forall id, agent_id = Some id -> plain id) ->
  json_decode (event_body ctx event agent_id) = Some (event_json ctx event agent_id).
Proof.
  intros. rewrite event_body_render by done. by apply json_decode_render, event_json_ok.
Qed.

(** An agent identifier that holds a quote is not escaped: the agent chooses
    further fields of the event, here a second [event] field. *)
Theorem event_body_injection :
  let id := str "a1" ++ [JQ] ++ str "," ++ quoted (str "event") ++ str ":" ++ [JQ] ++
            str "disconnect" in
  json_decode (event_body sample_ctx (str "connect") (Some id)) =
  Some (JObj [(str "event", JStr (str "connect")); (str "fb_instance_id", JStr (str "fb"));
              (str "tenant_id", JStr (str "t1")); (str "agent_id", JStr (str "a1"));
              (str "event", JStr (str "disconnect"))]).
Proof. by vm_compute. Qed.

(** * Concrete runs *)

(** A growing text for which there is no memory: the flush of an agent whose name
    is as long as a HELLO allows is undefined behaviour. *)
Theorem flush_append_crashes :
  let long := replicate 255 7 in
  let g := sample_gw [] (replicate 4 ((sample_agent (str "a1")) <| st_hostname := long |>)) [] in
  let g := g <| g_world := (g_world g) <| w_untested := always false |> |> in
  arango_flush_dirty_agents g = None.
Proof. by vm_compute. Qed.

Example arango_flush_posts_dirty_witness :
  let g := sample_gw [] [sample_agent (str "a1"); sample_agent (str "a2")] [] in
  exists r g', arango_flush_dirty_agents g = Some (r, g') /\
    let unchanged := g_agents g' = g_agents g /\
                     w_trace (g_world g') = w_trace (g_world g) in
    if flush_due g then
      match next (w_http (g_world g)) with
      | HttpNoConn | HttpNoClient => r = -1 /\ unchanged
      | HttpDone ret status => exists docs body,
          w_trace (g_world g') = w_trace (g_world g) ++
            [HttpPost (cursor_uri (ctx_arango_database (g_ctx g)))
               (cursor_headers (g_ctx g)) body] /\
          json_decode body = Some (cursor_json docs) /\
          Forall2 (doc_of (g_world g)) (dirty (g_agents g)) docs /\ docs <> [] /\
          (http_success ret status /\ r = 0 /\ dirty (g_agents g') = [] /\
             Forall2 cleared (g_agents g) (g_agents g') \/
           ~ http_success ret status /\ r = -1 /\ g_agents g' = g_agents g)
      end
    else r = 0 /\ unchanged.
Proof.
  intros g. apply (arango_flush_posts_dirty g); [|done].
  repeat constructor; cbn; try done; (exists (JArr []); by split).
Defined.

Example event_body_decodes_witness :
  json_decode (event_body sample_ctx (str "connect") (Some (str "a1"))) =
  Some (event_json sample_ctx (str "connect") (Some (str "a1"))).
Proof.
  apply (event_body_decodes sample_ctx (str "connect") (Some (str "a1")));
    try (by split; [|repeat constructor]).
  intros id [= <-]. by split; [|repeat constructor].
Defined.
