(* ===== verification/GwServer.v ===== *)
(** The gateway's server: accepting, the event handler and the heartbeat
    collector together, over any sequence of the engine's callbacks. The
    operations are [GwConn]'s; this file has their specifications at the level
    of the plugin ([gateway/plugins/in_xsiam_agent/xsiam_agent_conn.c],
    conn_add, collect, heartbeat_collect and conn_event) and the theorems that
    hold of every run. *)

From S2P Require Import Prelude Json GwState GwConn GwArango.
#[local] Open Scope Z_scope.

(** * Accepting, and the gateway's heartbeats *)

(** [settled g g' t]: the context (up to the generator's seed and the two
    counters) and the agent table are as before, and the effects [t] happened. *)
Definition same_config (c c' : xsiam_agent_ctx) : Prop :=
  exists r gs ss, c' = c <| ctx_rand_state := r |> <| ctx_gateway_seq := gs |>
                         <| ctx_session_seq := ss |>.

Lemma same_config_refl c : same_config c c.
Proof. exists (ctx_rand_state c), (ctx_gateway_seq c), (ctx_session_seq c). by destruct c. Qed.

Lemma same_config_trans c1 c2 c3 :
  same_config c1 c2 -> same_config c2 c3 -> same_config c1 c3.
Proof. intros (? & ? & ? & ->) (r & gs & ss & ->). by exists r, gs, ss. Qed.

Definition in_range (ctx : xsiam_agent_ctx) (i : Z) : Prop :=
  ctx_heartbeat_min ctx <= i <= Z.max (ctx_heartbeat_min ctx) (ctx_heartbeat_max ctx).

Definition rand_ok (g : gw) : Prop := forall n, 0 <= fst (answer (g_rand g) n).

(** The clock has been read, or not. *)
Definition clock_later (g g' : gw) : Prop :=
  (asked (w_time (g_world g)) <= asked (w_time (g_world g')))%nat.

#[export] Instance clock_later_preorder : PreOrder clock_later.
Proof. split; unfold clock_later; [intros ?|intros ???]; lia. Qed.

(** Rescheduling sets the connection's next heartbeat, from a new reading of the
    clock, and draws at most one random number for it. *)
Definition rescheduled (conn : nat) (c : xsiam_agent_conn) (g g' : gw) : Prop :=
  exists i ctx rand w,
    emits [] (g_world g) w /\
    asked (w_time w) = Datatypes.S (asked (w_time (g_world g))) /\
    same_config (g_ctx g) ctx /\ ctx_gateway_seq ctx = ctx_gateway_seq (g_ctx g) /\
    answer rand = answer (g_rand g) /\ (rand_ok g -> in_range (g_ctx g) i) /\
    g' = Gw ctx (g_agents g) (g_connections g)
           (<[conn := c <| conn_next_heartbeat := next (w_time (g_world g)) + i |>]> (g_heap g))
           (g_fresh g) (g_records g) rand w.

Lemma heartbeat_interval_spec g :
  wp heartbeat_random_interval (fun i g' => exists ctx rand,
    same_config (g_ctx g) ctx /\ ctx_gateway_seq ctx = ctx_gateway_seq (g_ctx g) /\
    answer rand = answer (g_rand g) /\
    (rand_ok g -> in_range (g_ctx g) i) /\
    g' = Gw ctx (g_agents g) (g_connections g) (g_heap g) (g_fresh g) (g_records g)
           rand (g_world g)) g.
Proof.
  unfold heartbeat_random_interval. apply wp_bind, wp_gets. cbv zeta.
  destruct (Z.leb_spec (ctx_heartbeat_max (g_ctx g) - ctx_heartbeat_min (g_ctx g) + 1) 1).
  - apply wp_ret. exists (g_ctx g), (g_rand g). split_and!;
      [apply same_config_refl|done|done|intros _; unfold in_range; lia|by destruct g].
  - apply wp_bind. unfold rand_r. apply wp_bind, wp_gets, wp_bind, wp_modify, wp_bind, wp_modify.
    apply wp_ret, wp_ret. eexists _, _. split_and!; [| | | |reflexivity].
    + exists (snd (next (g_rand g))), (ctx_gateway_seq (g_ctx g)), (ctx_session_seq (g_ctx g)).
      cbn [g_ctx update eta_gw]. by destruct (g_ctx g).
    + done.
    + done.
    + intros Hr. specialize (Hr (asked (g_rand g))). fold (next (g_rand g)) in Hr.
      pose proof (Z.rem_bound_pos (fst (next (g_rand g)))
        (ctx_heartbeat_max (g_ctx g) - ctx_heartbeat_min (g_ctx g) + 1)).
      unfold in_range. lia.
Qed.

Lemma schedule_spec conn c g :
  g_heap g !! conn = Some c ->
  wp (schedule_next_heartbeat conn) (fun _ g' => rescheduled conn c g g') g.
Proof.
  intros Hc. unfold schedule_next_heartbeat.
  apply wp_bind, wp_consult. change (world_of g) with (g_world g).
  set (w := (g_world g) <| w_time := advance (w_time (g_world g)) |>).
  assert (Hw : emits [] (g_world g) w) by (split_and!; [by rewrite app_nil_r|done|done]).
  change (in_world _ g) with (g <| g_world := w |>).
  apply wp_bind. eapply wp_mono; [apply heartbeat_interval_spec|].
  intros i g2 (ctx & rand & Hcfg & Hseq & Hrand & Hi & ->).
  eapply wp_set_conn; [exact Hc|].
  exists i, ctx, rand, w. by split_and!.
Qed.

Lemma resched_wf conn c g g' :
  gw_wf g -> g_heap g !! conn = Some c -> rescheduled conn c g g' -> gw_wf g'.
Proof.
  intros Hwf Hc (i & ctx & rand & w & Hw & _ & (r & gs & ss & ->) & _ & _ & _ & ->).
  set (c' := c <| conn_next_heartbeat := _ |>).
  assert (gw_wf (Gw (g_ctx g) (g_agents g) (g_connections g) (<[conn:=c']> (g_heap g))
    (g_fresh g) (g_records g) (g_rand g) w)) as [].
  { eapply (became_same_wf conn c c' (g_records g) [] g); [done|exact Hc| | |].
    - by exists w.
    - destruct (gwf_conns g Hwf _ _ Hc). by constructor.
    - exact (gwf_bound g Hwf _ _ Hc). }
  by constructor.
Qed.

(** A fresh connection is added to the heap and the list. *)
Lemma add_conn_wf conn c ctx rand w g :
  gw_wf g -> conn = g_fresh g -> conn_wf c ->
  conn_buf_size c <= Z.max (ctx_chunk_size (g_ctx g)) (ctx_buffer_size (g_ctx g)) ->
  same_config (g_ctx g) ctx -> w_input w = w_input (g_world g) ->
  env w = env (g_world g) ->
  gw_wf (Gw ctx (g_agents g) (g_connections g ++ [conn]) (<[conn := c]> (g_heap g))
           (Datatypes.S conn) (g_records g) rand w).
Proof.
  intros [] -> Hc Hs (r & gs & ss & ->) Hin He.
  assert (Hlook : forall i x, <[g_fresh g := c]> (g_heap g) !! i = Some x ->
    x = c \/ g_heap g !! i = Some x).
  { intros i x. destruct (decide (g_fresh g = i)) as [<-|].
    - rewrite lookup_insert_eq. intros [= <-]. by left.
    - rewrite lookup_insert_ne by done. by right. }
  constructor; cbn [g_connections g_heap g_fresh g_ctx g_agents g_world]; try done.
  - intros i. rewrite elem_of_app, list_elem_of_singleton, gwf_live.
    destruct (decide (g_fresh g = i)) as [<-|].
    + rewrite lookup_insert_eq. split; [by eexists|by right].
    + rewrite lookup_insert_ne by done. split; [intros [?| ->]; done|by left].
  - apply NoDup_app. split_and!; [done| |apply NoDup_singleton].
    intros i Hi ->%list_elem_of_singleton. apply gwf_fresh in Hi. lia.
  - intros i [Hi| ->%list_elem_of_singleton]%elem_of_app; [apply gwf_fresh in Hi|]; lia.
  - intros i x [->|H]%Hlook; eauto.
  - intros i x [->|H]%Hlook; eauto.
  - intros fd. rewrite Hin. apply gwf_input.
  - by eapply untested_ok_env.
Qed.

Definition new_conn (fd : Z) (ctx : xsiam_agent_ctx) : xsiam_agent_conn :=
  {| conn_connection := fd;
     conn_buf_data := replicate (Z.to_nat (ctx_chunk_size ctx)) 0;
     conn_buf_len := 0; conn_buf_size := ctx_chunk_size ctx;
     conn_busy := false; conn_pending_close := false;
     conn_next_heartbeat := 0; conn_agent_key := None;
     conn_protocol_tag := Some SESSION_PROTO_UNKNOWN;
     conn_client_group := Some SESSION_GROUP_UNKNOWN;
     conn_session_id := str "session-" ++ dec (u64 (ctx_session_seq ctx + 1)) |}.

(** Refused: only the counters of the context moved; [t] are the effects. *)
Definition refused (g : gw) (t : list effect) (g' : gw) : Prop :=
  exists ctx rand fresh w, emits t (g_world g) w /\ same_config (g_ctx g) ctx /\
    (g_fresh g <= fresh)%nat /\
    g' = Gw ctx (g_agents g) (g_connections g) (g_heap g) fresh (g_records g) rand w.

Definition conn_add_outcome (fd : Z) (g : gw) (r : option nat) (g' : gw) : Prop :=
  match r with
  | Some conn =>
      conn = g_fresh g /\ exists ctx rand nh w t,
        emits t (g_world g) w /\ same_config (g_ctx g) ctx /\
        g' = Gw ctx (g_agents g) (g_connections g ++ [conn])
          (<[conn := (new_conn fd (g_ctx g)) <| conn_next_heartbeat := nh |>]> (g_heap g))
          (Datatypes.S conn) (g_records g) rand w
  | None => exists t, refused g t g' /\
      ((~ alloc_ok (g_world g) /\ forall blk, live blk t = 0) \/
       t = [Acquire "conn"; Acquire "buf"; Acquire "protocol_tag";
            Acquire "client_group"; Release "buf"; Release "conn"])
  end.

Lemma refused_trans t u g1 g2 g3 : refused g1 t g2 -> refused g2 u g3 -> refused g1 (t ++ u) g3.
Proof.
  intros (c2 & r2 & f2 & w2 & H2 & C2 & F2 & ->) (c3 & r3 & f3 & w3 & H3 & C3 & F3 & ->).
  cbn [g_ctx g_world g_fresh] in *. exists c3, r3, f3, w3. split_and!.
  - by eapply emits_compose.
  - by eapply same_config_trans.
  - lia.
  - reflexivity.
Qed.

Lemma to_refused t g g' : to (g_agents g) t g g' -> refused g t g'.
Proof.
  intros (w & Hw & ->). exists (g_ctx g), (g_rand g), (g_fresh g), w.
  split_and!; [done|apply same_config_refl|done|done].
Qed.

Lemma refused_to t u g1 g2 g3 :
  refused g1 t g2 -> to (g_agents g2) u g2 g3 -> refused g1 (t ++ u) g3.
Proof. intros H1 H2. eapply refused_trans; [exact H1|by apply to_refused]. Qed.

Lemma refused_alloc t g g' : refused g t g' -> alloc_ok (g_world g) -> alloc_ok (g_world g').
Proof. intros (c & r & f & w & (_ & _ & He) & _ & _ & ->). by apply alloc_ok_env. Qed.

(** The same context, heap and next address. *)
Definition kept (g g' : gw) : Prop :=
  g_ctx g' = g_ctx g /\ g_heap g' = g_heap g /\ g_fresh g' = g_fresh g.

Lemma to_kept l t g g' : to l t g g' -> kept g g'.
Proof. by intros (w & _ & ->). Qed.

Lemma wp_malloc_refused blk {B} (k : bool -> ST gw B) t (Q : B -> gw -> Prop) g0 g :
  refused g0 t g ->
  (forall g', refused g0 (t ++ [Acquire blk]) g' -> kept g g' -> wp (k true) Q g') ->
  (forall g', refused g0 t g' -> ~ alloc_ok (g_world g0) -> wp (k false) Q g') ->
  wp (malloc blk ≫= k) Q g.
Proof.
  intros H Ht Hf. apply wp_bind, wp_malloc.
  - intros g' H'%steps_to. apply Ht; [by eapply refused_to|by eapply to_kept].
  - intros g' H'%steps_quiet_to Hn. apply Hf.
    + rewrite <- (app_nil_r t). by eapply refused_to.
    + intros Ha. by apply Hn, (refused_alloc _ _ _ H).
Qed.

Lemma wp_free_refused blk {B} (k : unit -> ST gw B) t (Q : B -> gw -> Prop) g0 g :
  refused g0 t g ->
  (forall g', refused g0 (t ++ [Release blk]) g' -> wp (k tt) Q g') ->
  wp (free blk ≫= k) Q g.
Proof.
  intros H HQ. apply wp_bind, wp_free. intros g' H'%steps_to. apply HQ.
  by eapply refused_to.
Qed.

(** Out of memory: everything acquired was given back. *)
Lemma refused_oom fd g t g' :
  refused g t g' -> ~ alloc_ok (g_world g) -> (forall blk, live blk t = 0) ->
  wp (mret None) (conn_add_outcome fd g) g'.
Proof. intros H Hn Hl. apply wp_ret. exists t. split; [done|]. by left. Qed.

Ltac balanced :=
  intros ?; unfold live, live_step; cbn [app map foldr]; repeat case_decide; lia.

(** Registering a filled connection: the tail of [conn_add]. *)
Lemma register_spec fd t g0 g :
  gw_wf g0 -> refused g0 t g -> g_fresh g = g_fresh g0 ->
  t = [Acquire "conn"; Acquire "buf"; Acquire "protocol_tag"; Acquire "client_group"] ->
  wp (_ ← schedule_next_heartbeat (g_fresh g);
      registered ← resource_granted;
      if negb registered then
        _ ← free "buf"; _ ← free "conn";
        _ ← modify (fun g' => g' <| g_heap := delete (g_fresh g) (g_heap g') |>);
        mret None
      else
      _ ← modify (fun g' => g' <| g_connections := g_connections g' ++ [g_fresh g] |>);
      mret (Some (g_fresh g))) (conn_add_outcome fd g0)
    (Gw (g_ctx g) (g_agents g) (g_connections g)
       (<[g_fresh g := new_conn fd (g_ctx g0)]> (g_heap g)) (Datatypes.S (g_fresh g))
       (g_records g) (g_rand g) (g_world g)).
Proof.
  intros Hwf H Hf ->. destruct H as (ctx & rand & f & w & Hw & Hcfg & _ & ->).
  cbn [g_ctx g_agents g_connections g_heap g_fresh g_records g_rand g_world] in *.
  subst f. set (conn := g_fresh g0). set (c := new_conn _ _).
  assert (Hnew : g_heap g0 !! conn = None).
  { apply eq_None_not_Some. intros Hs. apply (gwf_live g0 Hwf) in Hs.
    apply (gwf_fresh g0 Hwf) in Hs. unfold conn in Hs. lia. }
  apply wp_bind. eapply wp_mono.
  { eapply (schedule_spec conn c). cbn [g_heap]. apply lookup_insert_eq. }
  intros [] g1 (i & ctx1 & rand1 & w1 & Hw1 & _ & Hcfg1 & _ & _ & _ & ->).
  cbn [g_ctx g_agents g_connections g_heap g_fresh g_records g_rand g_world] in *.
  rewrite insert_insert_eq.
  pose proof (emits_compose _ _ _ _ _ Hw Hw1) as Hall. rewrite app_nil_r in Hall.
  pose proof (same_config_trans _ _ _ Hcfg Hcfg1) as Hcf.
  apply wp_bind, wp_consult_quiet; [done|]. intros ok g2 _ H2%steps_quiet_to.
  destruct H2 as (w2 & Hw2 & ->).
  cbn [g_ctx g_agents g_connections g_heap g_fresh g_records g_rand g_world] in *.
  pose proof (emits_compose _ _ _ _ _ Hall Hw2) as Hall2. rewrite app_nil_r in Hall2.
  destruct ok; cbn [negb].
  - apply wp_bind, wp_modify, wp_ret. split; [done|].
    eexists ctx1, rand1, _, w2, _. split_and!; [exact Hall2|done|]. reflexivity.
  - apply wp_bind, wp_emit, wp_bind, wp_emit, wp_bind, wp_modify, wp_ret.
    eexists. split; [|right; reflexivity].
    exists ctx1, rand1, (Datatypes.S conn),
      (w2 <| w_trace := (w_trace w2 ++ [Release "buf"]) ++ [Release "conn"] |>).
    split_and!; [|done|unfold conn; lia|].
    + destruct Hall2 as (T & I & E). split_and!; [|exact I|exact E].
      transitivity ((w_trace w2 ++ [Release "buf"]) ++ [Release "conn"]); [reflexivity|].
      rewrite T, <- !app_assoc. reflexivity.
    + cbn. f_equal. by rewrite delete_insert_id.
Qed.

Lemma refused_wf t g g' : gw_wf g -> refused g t g' -> gw_wf g'.
Proof.
  intros [] (c & r & f & w & Hw & (? & ? & ? & ->) & Hf & ->).
  constructor; cbn [g_connections g_heap g_fresh g_ctx g_agents g_world]; try done.
  - intros i Hi. specialize (gwf_fresh i Hi). lia.
  - intros fd. by rewrite (emits_input _ _ _ Hw).
  - eapply untested_ok_env; [apply Hw|done].
Qed.

Lemma conn_add_spec fd g :
  gw_wf g -> wp (conn_add fd) (conn_add_outcome fd g) g.
Proof.
  intros Hwf. unfold conn_add.
  assert (H : refused g [] g) by (apply to_refused, to_refl).
  apply wp_bind, wp_malloc; intros g1 H1.
  2: { intros Hn. apply steps_quiet_to, to_refused in H1.
       eapply refused_oom; [exact H1|done|balanced]. }
  apply steps_to in H1. destruct H1 as (w & Hw & ->).
  apply wp_bind, wp_modify, wp_bind, wp_gets. cbv zeta.
  match goal with |- wp _ _ ?g' => set (g2 := g') end.
  assert (H2 : refused g [Acquire "conn"] g2).
  { eexists _, (g_rand g), (g_fresh g), w. split_and!; [exact Hw| |done|reflexivity].
    by eexists (ctx_rand_state (g_ctx g)), (ctx_gateway_seq (g_ctx g)), _. }
  assert (g_fresh g2 = g_fresh g /\
    ctx_session_seq (g_ctx g2) = u64 (ctx_session_seq (g_ctx g) + 1) /\
    ctx_chunk_size (g_ctx g2) = ctx_chunk_size (g_ctx g)) as (Ef & -> & ->) by done.
  clearbody g2.
  eapply wp_malloc_refused; [exact H2| |].
  2: { intros g3 H3 Hn. cbn [negb]. eapply wp_free_refused; [exact H3|].
       intros g4 H4. eapply refused_oom; [exact H4|done|balanced]. }
  intros g3 H3 (_ & _ & F3). cbn [negb].
  eapply wp_malloc_refused; [exact H3| |].
  - intros g4 H4 (_ & _ & F4). eapply wp_malloc_refused; [exact H4| |].
    + intros g5 H5 (C5 & _ & F5). cbn [negb orb]. apply wp_bind, wp_gets, wp_bind, wp_modify.
      rewrite s32_small by (destruct Hwf; lia).
      by eapply register_spec; [|exact H5|congruence|].
    + intros g5 H5 Hn. cbn [negb orb]. eapply wp_free_refused; [exact H5|].
      intros g6 H6. apply wp_bind, wp_ret.
      eapply wp_free_refused; [exact H6|]. intros g7 H7.
      eapply wp_free_refused; [exact H7|]. intros g8 H8.
      eapply refused_oom; [exact H8|done|balanced].
  - intros g4 H4 Hn. eapply wp_malloc_refused; [exact H4| |].
    + intros g5 H5 _. cbn [negb orb]. apply wp_bind, wp_ret.
      eapply wp_free_refused; [exact H5|]. intros g6 H6.
      eapply wp_free_refused; [exact H6|]. intros g7 H7.
      eapply wp_free_refused; [exact H7|]. intros g8 H8.
      eapply refused_oom; [exact H8|done|balanced].
    + intros g5 H5 _. cbn [negb orb]. apply wp_bind, wp_ret, wp_bind, wp_ret.
      eapply wp_free_refused; [exact H5|]. intros g6 H6.
      eapply wp_free_refused; [exact H6|]. intros g7 H7.
      eapply refused_oom; [exact H7|done|balanced].
Qed.

Lemma conn_added_wf fd g r g' :
  gw_wf g -> conn_add_outcome fd g r g' -> gw_wf g'.
Proof.
  intros Hwf. destruct r as [conn|]; cbn [conn_add_outcome].
  - intros (Hi & ctx & rand & nh & w & t & Hw & Hcfg & ->).
    destruct (gwf_chunk g Hwf).
    apply add_conn_wf; [done|done| | |done|by eapply emits_input|apply Hw].
    + constructor; cbn -[Z.pow]; [lia| |lia|].
      { rewrite zlen_replicate, Z2Nat.id by lia. done. }
      apply Forall_replicate. unfold byte_ok. lia.
    + cbn -[Z.pow]. lia.
  - intros (t & H & _). by eapply refused_wf.
Qed.

(** Accepting never disturbs a connection that is there. *)
Definition all_kept (g g' : gw) : Prop :=
  forall i c, g_heap g !! i = Some c -> g_heap g' !! i = Some c.

Lemma collect_spec fd g :
  gw_wf g ->
  wp (collect fd) (fun r g' => gw_wf g' /\ all_kept g g' /\ (r = 0 \/ r = -1)) g.
Proof.
  intros Hwf. destruct fd as [fd|]; [|apply wp_ret; split_and!; [done|by intros ?|by left]].
  unfold collect. apply wp_bind, wp_emit.
  match goal with |- wp _ _ ?g' => set (g1 := g') end.
  assert (H1 : refused g [Acquire "connection"] g1).
  { exists (g_ctx g), (g_rand g), (g_fresh g), (g_world g1).
    split_and!; [by split_and!|apply same_config_refl|done|reflexivity]. }
  assert (Hh : g_heap g1 = g_heap g) by done.
  pose proof (refused_wf _ _ _ Hwf H1) as Hwf1. clearbody g1.
  apply wp_bind. eapply wp_mono; [by apply conn_add_spec|]. intros [conn|] g2 H2.
  - pose proof (conn_added_wf _ _ _ _ Hwf1 H2) as Hwf2. apply wp_ret.
    split_and!; [done| |by left]. destruct H2 as (-> & ? & ? & ? & ? & ? & _ & _ & ->).
    intros i c Hi. cbn. rewrite lookup_insert_ne; [by rewrite Hh|].
    intros <-. rewrite <- Hh in Hi.
    assert (Hin : g_fresh g1 ∈ g_connections g1) by (by apply (gwf_live g1 Hwf1); eexists).
    apply (gwf_fresh g1 Hwf1) in Hin. lia.
  - destruct H2 as (t & H2 & _).
    eapply wp_free_refused; [exact H2|]. intros g3 H4. apply wp_ret.
    split_and!; [exact (refused_wf _ _ _ Hwf1 H4)| |by right].
    assert (H5 : g_heap g3 = g_heap g1) by (by destruct H4 as (? & ? & ? & ? & _ & _ & _ & ->)).
    intros i c. by rewrite H5, Hh.
Qed.

(** ** The heartbeat collector *)

Definition due (now : Z) (c : xsiam_agent_conn) : bool :=
  bool_decide (conn_protocol_tag c = Some SESSION_PROTO_AGENT_WZCP) &&
  (conn_next_heartbeat c <=? now).

(** The gateway's sequence number after the turn of [c]. *)
Definition seq_after (now seq : Z) (c : xsiam_agent_conn) : Z :=
  if due now c then u64 (seq + 1) else seq.

(** A due connection is sent one heartbeat, with the next sequence number of the
    gateway, and rescheduled; it is closed when the heartbeat cannot be sent. *)
Definition beat (now : Z) (conn : nat) (c : xsiam_agent_conn) (g g' : gw) : Prop :=
  if due now c then
    let seq := u64 (ctx_gateway_seq (g_ctx g) + 1) in
    exists ts r g1, clock_later g g1 /\
      sent (conn_connection c) (gw_frame WZCP_MSG_HEARTBEAT 0 seq ts [])
        (g <| g_ctx := (g_ctx g) <| ctx_gateway_seq := seq |> |>) r g1 /\
      if r =? 0 then rescheduled conn c g1 g'
      else exists l post, removed conn l (post ++ close_effects c) g1 g' /\
             closed_table (conn_agent_key c) g1 l post
  else g' = g.

Ltac clock_prim := intros; unfold clock_later; cbn; lia.

Lemma send_frame_clock conn ty id seq body n : moves clock_later (send_frame conn ty id seq body n).
Proof. solve_moves clock_prim. Qed.

Lemma heartbeat_one_clock now conn : moves clock_later (heartbeat_one now conn).
Proof. solve_moves clock_prim. Qed.

Lemma heartbeat_one_spec now conn c g :
  g_heap g !! conn = Some c -> untested_ok (g_world g) ->
  wp (heartbeat_one now conn) (fun _ => beat now conn c g) g.
Proof.
  intros Hc Hun. unfold heartbeat_one, beat, due. apply wp_bind. eapply wp_get_conn; [exact Hc|].
  set (tag := conn_protocol_tag c).
  replace (match tag with None => true | Some t => negb (streq t SESSION_PROTO_AGENT_WZCP) end)
    with (negb (bool_decide (tag = Some SESSION_PROTO_AGENT_WZCP))).
  2: { destruct tag as [t|]; [|done]. unfold streq. f_equal.
       apply bool_decide_ext. split; [by intros [=->]|by intros ->]. }
  destruct (bool_decide _); cbn [negb andb]; [|by apply wp_ret].
  destruct (Z.leb_spec (conn_next_heartbeat c) now), (Z.ltb_spec now (conn_next_heartbeat c));
    try lia; [|by apply wp_ret].
  apply wp_bind, wp_modify, wp_bind, wp_gets.
  set (g1 := g <| g_ctx := _ |>). apply wp_bind.
  eapply wp_mono; [eapply (wp_moves _ _ _ _ (send_frame_clock _ _ _ _ _ _));
    by apply (gw_send_frame_spec conn c WZCP_MSG_HEARTBEAT 0 _ None)|].
  intros r g2 [[ts Hs] Hlater]. destruct (Z.eqb_spec r 0) as [->|Hr]; cbn [negb].
  - eapply wp_mono.
    { apply (schedule_spec conn c). by destruct Hs as (? & ? & (w & _ & ->) & _). }
    intros [] g3 H3. exists ts, 0, g2. by split.
  - apply wp_bind. eapply wp_mono.
    { apply (conn_del_spec conn c); [by destruct Hs as (? & ? & (w & _ & ->) & _)|].
      destruct Hs as (? & ? & Hto & _). by eapply to_untested_ok. }
    intros r' g3 (_ & l & post & H3 & Hcl). apply wp_ret.
    exists ts, r, g2. split; [exact Hlater|]. split; [exact Hs|].
    destruct (Z.eqb_spec r 0); [done|]. by exists l, post.
Qed.

(** What a due connection is sent and what becomes of it: a whole heartbeat on its
    own socket, and the next one scheduled from a reading of the clock that is
    made after the [start]-th... *)
Definition beat_kept (g g' : gw) (start : nat) (seq : Z) (c : xsiam_agent_conn)
    (t : list effect) (after : option xsiam_agent_conn) : Prop :=
  exists ts k i,
    after = Some (c <| conn_next_heartbeat := answer (w_time (g_world g)) k + i |>) /\
    (start <= k < asked (w_time (g_world g')))%nat /\
    (rand_ok g -> in_range (g_ctx g) i) /\
    Forall (is_wire (conn_connection c)) t /\
    sent_to (conn_connection c) t = gw_frame WZCP_MSG_HEARTBEAT 0 seq ts [].

(** ... or a part of one, when a write fails, and then it is closed. *)
Definition beat_dropped (g : gw) (seq : Z) (c : xsiam_agent_conn) (t : list effect)
    (after : option xsiam_agent_conn) : Prop :=
  exists ts n u post, after = None /\ ~ write_ok (g_world g) /\
    t = u ++ post ++ close_effects c /\ Forall (is_wire (conn_connection c)) u /\
    let frame := gw_frame WZCP_MSG_HEARTBEAT 0 seq ts [] in
    sent_to (conn_connection c) u = take n frame /\ (n < length frame)%nat /\
    (post = [] \/ exists id, conn_agent_key c = Some id /\
       posted (g_ctx g) (str "disconnect") (Some id) post).

Definition turn (g g' : gw) (start : nat) (now seq : Z) (c : xsiam_agent_conn)
    (t : list effect) (after : option xsiam_agent_conn) : Prop :=
  if due now c
  then beat_kept g g' start (seq_after now seq c) c t after \/
       beat_dropped g (seq_after now seq c) c t after
  else t = [] /\ after = Some c.

(** The collector's pass over the connections [todo] from [g] to [g']: the effects
    [t] are those of the turns, in the order of the list, and nothing else. *)
Fixpoint heartbeat_pass (g g' : gw) (start : nat) (now seq : Z) (todo : list nat)
    (t : list effect) : Prop :=
  match todo with
  | [] => t = []
  | conn :: rest => exists c u t', t = u ++ t' /\ g_heap g !! conn = Some c /\
      turn g g' start now seq c u (g_heap g' !! conn) /\
      heartbeat_pass g g' start now (seq_after now seq c) rest t'
  end.

(** What every part of the pass keeps. *)
Definition went (t : list effect) (g g' : gw) : Prop :=
  (gw_wf g -> gw_wf g') /\ emits t (g_world g) (g_world g') /\
  same_config (g_ctx g) (g_ctx g') /\ answer (g_rand g') = answer (g_rand g) /\
  clock_later g g'.

Lemma went_refl g : went [] g g.
Proof. split_and!; [done|by apply emits_quiet|apply same_config_refl|done|reflexivity]. Qed.

Lemma went_trans t u g1 g2 g3 : went t g1 g2 -> went u g2 g3 -> went (t ++ u) g1 g3.
Proof.
  intros (W1 & E1 & C1 & R1 & L1) (W2 & E2 & C2 & R2 & L2).
  split_and!; [auto|by eapply emits_compose|by eapply same_config_trans|congruence|by etrans].
Qed.

Lemma went_write_ok t g g1 : went t g g1 -> ~ write_ok (g_world g1) -> ~ write_ok (g_world g).
Proof. intros (_ & (_ & _ & E) & _) H Hok. apply H. by eapply write_ok_env. Qed.

Lemma same_config_range c c' i : same_config c c' -> in_range c' i -> in_range c i.
Proof. by intros (? & ? & ? & ->). Qed.

Lemma same_config_posted c c' ev id t : same_config c c' -> posted c' ev id t -> posted c ev id t.
Proof. by intros (? & ? & ? & ->). Qed.

(** A turn seen from an earlier start and a later end. *)
Lemma turn_widen t0 t1 g0 g g' g1 start now seq c t after :
  went t0 g0 g -> went t1 g' g1 ->
  turn g g' start now seq c t after -> turn g0 g1 start now seq c t after.
Proof.
  intros Hw Hw1. pose proof Hw as (_ & (_ & _ & E) & C & R & _).
  destruct Hw1 as (_ & _ & _ & _ & L1). unfold turn. destruct (due now c); [|done].
  intros [(ts & k & i & Ha & Hk & Hi & F & S)|H]; [left|right].
  - exists ts, k, i. split_and!; [| |unfold clock_later in *; lia| |done|done].
    + rewrite Ha. assert (answer (w_time (g_world g)) = answer (w_time (g_world g0))) as ->
        by (unfold env in E; congruence). done.
    + lia.
    + intros Hr. eapply same_config_range; [exact C|]. apply Hi. intros n. rewrite R. apply Hr.
  - destruct H as (ts & n & u & post & Ha & Hno & Ht & F & S & Hn & Hp).
    exists ts, n, u, post. cbv zeta. split_and!; [done|by eapply went_write_ok|done..|].
    destruct Hp as [Hp|(id & Hid & Hp)]; [by left|right]. exists id.
    split; [done|]. by eapply same_config_posted.
Qed.

Lemma pass_earlier t0 g0 g g' start now seq todo t :
  went t0 g0 g -> (forall i, i ∈ todo -> g_heap g !! i = g_heap g0 !! i) ->
  heartbeat_pass g g' start now seq todo t -> heartbeat_pass g0 g' start now seq todo t.
Proof.
  intros Hw. revert seq t. induction todo as [|conn rest IH]; intros seq t Hh; [done|].
  intros (c & u & t' & -> & Hc & Ht & Hp). exists c, u, t'. split_and!; [done| | |].
  - rewrite <- Hh; [done|by left].
  - eapply turn_widen; [exact Hw|apply went_refl|exact Ht].
  - apply IH; [|done]. intros i Hi. apply Hh. by right.
Qed.

Definition beaten (now : Z) (todo : list nat) (g : gw) (t : list effect) (g' : gw) : Prop :=
  went t g g' /\ (forall i, i ∉ todo -> g_heap g' !! i = g_heap g !! i) /\
  forall start, (start <= asked (w_time (g_world g)))%nat ->
    heartbeat_pass g g' start now (ctx_gateway_seq (g_ctx g)) todo t.

Lemma beaten_cons now conn rest c g t g1 u g2 :
  conn ∉ rest -> g_heap g !! conn = Some c ->
  went t g g1 -> (forall i, i <> conn -> g_heap g1 !! i = g_heap g !! i) ->
  ctx_gateway_seq (g_ctx g1) = seq_after now (ctx_gateway_seq (g_ctx g)) c ->
  turn g g1 (asked (w_time (g_world g))) now (ctx_gateway_seq (g_ctx g)) c t
    (g_heap g1 !! conn) ->
  beaten now rest g1 u g2 -> beaten now (conn :: rest) g (t ++ u) g2.
Proof.
  intros Hnot Hc Hw1 Ho Hseq Ht (Hw2 & Ho2 & Hp).
  split; [by eapply went_trans|]. split.
  { intros i Hi. rewrite Ho2 by set_solver. apply Ho. set_solver. }
  intros start Hst. exists c, t, u. split_and!; [done|done| |].
  - rewrite Ho2 by done. eapply (turn_widen [] u g g g1 g2); [apply went_refl|exact Hw2|].
    unfold turn in *. destruct (due now c); [|done].
    destruct Ht as [(ts & k & i & Ha & Hk & H)|H]; [left|by right].
    exists ts, k, i. split_and!; [done|lia|lia|apply H..].
  - rewrite <- Hseq. eapply pass_earlier; [exact Hw1| |].
    + intros i Hi. apply Ho. by intros ->.
    + apply Hp. destruct Hw1 as (_ & _ & _ & _ & L). unfold clock_later in L. lia.
Qed.
(** The turn of one connection. *)
Lemma beat_turn now conn c g g' :
  g_heap g !! conn = Some c -> clock_later g g' -> beat now conn c g g' ->
  exists t, went t g g' /\ (forall i, i <> conn -> g_heap g' !! i = g_heap g !! i) /\
    ctx_gateway_seq (g_ctx g') = seq_after now (ctx_gateway_seq (g_ctx g)) c /\
    turn g g' (asked (w_time (g_world g))) now (ctx_gateway_seq (g_ctx g)) c t
      (g_heap g' !! conn).
Proof.
  intros Hc Hlate. unfold beat, turn, seq_after. destruct (due now c) eqn:Hd.
  2: { intros ->. exists []. by split_and!; [apply went_refl|..]. }
  intros (ts & r & g1 & Hlate1 & (t & k & Hto & F & S & Hrk) & Hend).
  set (seq := u64 _) in *. set (g0 := g <| g_ctx := _ |>) in *.
  assert (H0 : refused g [] g0).
  { exists (g_ctx g0), (g_rand g), (g_fresh g), (g_world g).
    split_and!; [by apply emits_quiet| |done|reflexivity].
    exists (ctx_rand_state (g_ctx g)), seq, (ctx_session_seq (g_ctx g)).
    unfold g0. cbn. by destruct (g_ctx g). }
  pose proof (refused_to _ _ _ _ _ H0 Hto) as H1. cbn [app] in H1.
  assert (Hw1 : went t g g1 /\ g_heap g1 = g_heap g /\ g_ctx g1 = g_ctx g0 /\
    g_rand g1 = g_rand g).
  { split_and!; [|by destruct Hto as (w & _ & ->)..].
    split; [intros Hwf; exact (refused_wf _ _ _ Hwf H1)|].
    assert (Er : g_rand g1 = g_rand g) by (by destruct Hto as (w & _ & ->)).
    destruct H1 as (ctx & rand & f & w & He & Hcfg & _ & ->).
    split_and!; [exact He|exact Hcfg|by rewrite Er|exact Hlate1]. }
  destruct Hw1 as (Hw1 & Hh1 & Hx1 & Hr1).
  assert (Hg1c : g_heap g1 !! conn = Some c) by (by rewrite Hh1).
  destruct (Z.eqb_spec r 0) as [->|Hr].
  - destruct Hrk as [[_ ->]|[? _]]; [|lia]. rewrite firstn_all in S.
    pose proof (fun H => resched_wf conn c g1 g' H Hg1c Hend) as Hwf2.
    destruct Hend as (i & ctx2 & rand2 & w2 & He2 & Hk & Hcfg2 & Hseq & Ha & Hi & ->).
    assert (Hw2 : went [] g1 (Gw ctx2 (g_agents g1) (g_connections g1) (<[conn:=
      c <| conn_next_heartbeat := next (w_time (g_world g1)) + i |>]> (g_heap g1))
      (g_fresh g1) (g_records g1) rand2 w2)).
    { split_and!; [exact Hwf2|exact He2|exact Hcfg2|exact Ha|].
      unfold clock_later. cbn [g_world]. lia. }
    exists (t ++ []). split; [by eapply went_trans|]. rewrite app_nil_r.
    split_and!.
    + intros j Hj. cbn. rewrite lookup_insert_ne by done. by rewrite Hh1.
    + cbn [g_ctx]. rewrite Hseq, Hx1. done.
    + left. exists ts, (asked (w_time (g_world g1))), i. cbn [g_heap g_world].
      split_and!; [|exact Hlate1|lia| |exact F|exact S].
      * rewrite lookup_insert_eq. do 2 f_equal. unfold next.
        destruct Hw1 as (_ & (_ & _ & E) & _).
        assert (answer (w_time (g_world g1)) = answer (w_time (g_world g))) as ->
          by (unfold env in E; congruence). done.
      * intros Hrnd. destruct Hw1 as (_ & _ & C & _). eapply same_config_range; [exact C|].
        apply Hi. intros n. rewrite Hr1. apply Hrnd.
  - destruct Hrk as [[? _]|(-> & Hn & Hno)]; [done|].
    destruct Hend as (l & post & Hrem & Hcl).
    assert (Hwf2 : gw_wf g1 -> gw_wf g').
    { intros Hwf. eapply removed_wf; [exact Hwf|exact Hrem|].
      eapply closed_table_wf; [exact Hcl|apply Hwf]. }
    destruct Hrem as (w2 & He2 & ->).
    exists (t ++ post ++ close_effects c). split_and!.
    + destruct Hw1 as (W1 & E1 & C1 & R1 & _).
      split_and!; [auto|by eapply emits_compose|exact C1|exact R1|exact Hlate].
    + intros j Hj. cbn. rewrite lookup_delete_ne by done. by rewrite Hh1.
    + cbn [g_ctx]. by rewrite Hx1.
    + right. exists ts, k, t, post. cbn [g_heap]. cbv zeta. split_and!;
        [by rewrite lookup_delete_eq|exact Hno|done|exact F|exact S|exact Hn|].
      unfold closed_table in Hcl. destruct (conn_agent_key c) as [id|]; [|left; apply Hcl].
      destruct (is_online id (g_agents g1)); [|left; apply Hcl].
      destruct Hcl as (status & now' & _ & Hp & _). right. exists id. split; [done|].
      rewrite Hx1 in Hp. exact Hp.
Qed.

Lemma for_each_spec now conns g :
  gw_wf g -> NoDup conns -> (forall i, i ∈ conns -> is_Some (g_heap g !! i)) ->
  wp (for_each (heartbeat_one now) conns) (fun _ g' => exists t, beaten now conns g t g') g.
Proof.
  revert g. induction conns as [|conn rest IH]; intros g Hwf Hnd Hin.
  { apply wp_ret. exists []. split_and!; [apply went_refl|done|done]. }
  apply NoDup_cons in Hnd as [Hnot Hnd]. destruct (Hin conn) as [c Hc]; [by left|].
  apply wp_bind. eapply wp_mono.
  { eapply (wp_moves _ _ _ _ (heartbeat_one_clock _ _)). apply heartbeat_one_spec; [done|apply Hwf]. }
  intros [] g1 [H1 Hlate]. destruct (beat_turn _ _ _ _ _ Hc Hlate H1) as (t & Hw & Ho & Hseq & Ht).
  eapply wp_mono; [apply IH; [by apply Hw|done|]|].
  - intros i Hi. rewrite Ho by (by intros ->). apply Hin. by right.
  - intros [] g2 [u Hu]. exists (t ++ u). by eapply beaten_cons.
Qed.

Lemma heartbeat_collect_spec g :
  gw_wf g ->
  wp heartbeat_collect (fun r g' => r = 0 /\ gw_wf g' /\ exists t,
    went t g g' /\
    heartbeat_pass g g' (Datatypes.S (asked (w_time (g_world g)))) (next (w_time (g_world g)))
      (ctx_gateway_seq (g_ctx g)) (g_connections g) t) g.
Proof.
  intros Hwf. unfold heartbeat_collect. apply wp_bind, wp_consult.
  change (world_of g) with (g_world g).
  set (w := (g_world g) <| w_time := advance (w_time (g_world g)) |>).
  change (in_world _ g) with (g <| g_world := w |>). set (g1 := g <| g_world := w |>).
  assert (H1 : refused g [] g1).
  { apply to_refused. exists w. split; [split_and!; [by rewrite app_nil_r|done|done]|].
    by destruct g. }
  assert (Hw1 : went [] g g1).
  { split_and!; [intros _; by eapply refused_wf|split_and!; [by rewrite app_nil_r|done|done]|
      apply same_config_refl|done|]. unfold clock_later. cbn. lia. }
  pose proof (refused_wf _ _ _ Hwf H1) as Hwf1.
  apply wp_bind, wp_gets, wp_bind. eapply wp_mono.
  { apply for_each_spec; [exact Hwf1|apply Hwf|]. intros i Hi. by apply (gwf_live g Hwf). }
  intros [] g' [t (Hw2 & _ & Hp)]. apply wp_ret. split; [done|]. split; [by apply Hw2|].
  exists t. split; [exact (went_trans [] t _ _ _ Hw1 Hw2)|].
  apply (pass_earlier [] g g1); [exact Hw1|done|]. by apply Hp.
Qed.

(** ** The other collectors *)

Lemma to_wf t g g' : gw_wf g -> to (g_agents g) t g g' -> gw_wf g'.
Proof. intros Hwf H. eapply refused_wf; [exact Hwf|by apply to_refused]. Qed.

(** A new agent table, everything else as it was. *)
Lemma table_step_wf l t g g' : gw_wf g -> to l t g g' -> table_wf l -> gw_wf g'.
Proof.
  intros [] (w & Hw & ->) Hl.
  constructor; cbn [g_connections g_heap g_fresh g_ctx g_agents g_world]; try done.
  - intros fd. by rewrite (emits_input _ _ _ Hw).
  - eapply untested_ok_env; [apply Hw|done].
Qed.

Lemma cleared_agent_wf st st' : cleared st st' -> agent_wf st -> agent_wf st'.
Proof. unfold cleared. destruct (st_dirty st); [by intros [now ->]|by intros ->]. Qed.

Lemma cleared_table_wf l l' : Forall2 cleared l l' -> table_wf l -> table_wf l'.
Proof.
  intros H [Hnd Hwf]. split; [by rewrite (cleared_ids _ _ H)|].
  clear Hnd. induction H; [done|]. apply Forall_cons in Hwf as [Ha Hl].
  constructor; [by eapply cleared_agent_wf|auto].
Qed.

Lemma db_collect_spec g :
  gw_wf g -> wp db_collect (fun r g' => r = 0 /\ gw_wf g' /\ g_heap g' = g_heap g) g.
Proof.
  intros Hwf. unfold db_collect. apply wp_bind. eapply wp_mono.
  { apply flush_spec; [|apply Hwf]. destruct (gwf_agents g Hwf) as [_ Ha].
    eapply Forall_impl; [exact Ha|]. by intros st [_ Hst]. }
  intros r g' (l & t & Hto & Hl & _)%flush_outcome_cases. apply wp_ret. split; [done|]. split.
  - eapply table_step_wf; [exact Hwf|exact Hto|].
    destruct Hl as [->|Hl]; [apply Hwf|]. by eapply cleared_table_wf, Hwf.
  - by destruct Hto as (w & _ & ->).
Qed.

Lemma fb_lease_spec g :
  gw_wf g -> wp fb_lease_collect (fun r g' => r = 0 /\ gw_wf g' /\ g_heap g' = g_heap g) g.
Proof.
  intros Hwf. unfold fb_lease_collect. apply wp_bind.
  eapply wp_mono; [apply post_agent_event_spec, Hwf|]. intros [] g' (t & Hto & _). apply wp_ret.
  split_and!; [done|by eapply to_wf|by destruct Hto as (w & _ & ->)].
Qed.

(** * The plugin under the engine's callbacks

    The engine calls a connection's handler only while the connection is
    registered, that is while it is in the list. *)

Inductive callback :=
| CbAccept (connection : option Z)
| CbEvent (conn : nat) (mask_read mask_close : bool)
| CbHeartbeat
| CbDatabase
| CbLease.

Definition run_callback (cb : callback) : ST gw Z :=
  match cb with
  | CbAccept connection => collect connection
  | CbEvent conn mask_read mask_close =>
      live ← gets (fun g => bool_decide (conn ∈ g_connections g));
      if live : bool then conn_event conn mask_read mask_close else mret 0
  | CbHeartbeat => heartbeat_collect
  | CbDatabase => db_collect
  | CbLease => fb_lease_collect
  end.

Fixpoint run_callbacks (cbs : list callback) : ST gw unit :=
  match cbs with
  | [] => mret tt
  | cb :: rest => _ ← run_callback cb; run_callbacks rest
  end.

(** What one callback leaves of the connections it is not about. *)
Definition spares (cb : callback) (g g' : gw) : Prop :=
  match cb with
  | CbHeartbeat => exists start now t,
      heartbeat_pass g g' start now (ctx_gateway_seq (g_ctx g)) (g_connections g) t
  | CbEvent conn _ _ => others_kept conn g g'
  | _ => all_kept g g'
  end.

Lemma run_callback_spec cb g :
  gw_wf g -> wp (run_callback cb) (fun r g' => gw_wf g' /\ spares cb g g' /\
    (r = 0 \/ r = -1)) g.
Proof.
  intros Hwf. destruct cb as [fd|conn rd cl| | |]; cbn [run_callback spares].
  - by apply collect_spec.
  - apply wp_bind, wp_gets. case_bool_decide; [|by apply wp_ret; split_and!; [|done|left]].
    eapply wp_mono; [by apply conn_event_spec|]. intros r g' (H1 & H2 & H3 & _). done.
  - eapply wp_mono; [by apply heartbeat_collect_spec|].
    intros r g' (-> & Hwf' & t & _ & Ht). split_and!; [done| |by left]. by eexists _, _, t.
  - eapply wp_mono; [by apply db_collect_spec|]. intros r g' (-> & Hwf' & Hh).
    split_and!; [done| |by left]. intros i c. by rewrite Hh.
  - eapply wp_mono; [by apply fb_lease_spec|]. intros r g' (-> & Hwf' & Hh).
    split_and!; [done| |by left]. intros i c. by rewrite Hh.
Qed.

Lemma run_callbacks_spec cbs g :
  gw_wf g -> wp (run_callbacks cbs) (fun _ g' => gw_wf g') g.
Proof.
  revert g. induction cbs as [|cb cbs IH]; intros g Hwf; [by apply wp_ret|].
  apply wp_bind. eapply wp_mono; [by apply run_callback_spec|].
  intros r g' (Hwf' & _). by apply IH.
Qed.

(** * The theorems *)

(** C1: memory safety of the running plugin: from a well-formed state, any
    sequence of the engine's callbacks - accepting, socket events with arbitrary
    bytes and chunking from the peers, heartbeats, database flushes and leases,
    with every tested allocation, the writes, the requests and the encoder failing
    at will - runs to the end without an access outside a buffer, a use of a freed
    connection or an endless loop, and leaves a well-formed state: every listed
    connection is allocated exactly once with its buffer within the configured
    size, and the agent table has one well-formed entry per agent.  The
    allocations that the code does not test (the identifier of a new agent, the
    appends to growing texts) are assumed to succeed: [untested_ok], which
    [gw_wf] includes.  Without that the claim is false
    ([GwState.untested_allocation_crashes], [GwArango.flush_append_crashes],
    [untested_hello_crashes]). *)
Theorem gateway_runs_safely cbs g :
  gw_wf g -> untested_ok (g_world g) ->
  exists g', run_callbacks cbs g = Some (tt, g') /\ gw_wf g'.
Proof.
  intros Hwf _. destruct (proj1 (wp_run _ _ _) (run_callbacks_spec cbs g Hwf))
    as ([] & g' & Hrun & H). by exists g'.
Qed.

(** C31: an event of one connection never touches another one; the connection
    itself is still registered when the handler returns 0, and when it is not
    registered any more the handler has returned -1. *)
Theorem conn_event_isolated conn mask_read mask_close g :
  gw_wf g -> conn ∈ g_connections g ->
  exists r g', conn_event conn mask_read mask_close g = Some (r, g') /\
    gw_wf g' /\ (forall i, i <> conn -> g_heap g' !! i = g_heap g !! i) /\
    (r = 0 /\ conn ∈ g_connections g' \/
     r = -1 /\ (conn ∈ g_connections g' \/ g_heap g' !! conn = None)).
Proof.
  intros Hwf Hin.
  destruct (proj1 (wp_run _ _ _) (conn_event_spec conn mask_read mask_close g Hwf Hin))
    as (r & g' & Hrun & Hwf' & Ho & Hr & Hc & Hr0).
  exists r, g'. split_and!; [done|done|exact Ho|].
  destruct Hr as [-> | ->]; [left; auto|right]. split; [done|].
  destruct Hc as [?|[_ Hn]]; [by left|right].
  apply eq_None_not_Some. intros Hs. by apply Hn, (gwf_live g' Hwf').
Qed.

(** Accepting a connection: on success it is listed, allocated at a new
    address with an empty buffer of the configured size, unclassified, and every
    other connection is untouched; out of memory, nothing is registered and every
    block acquired was given back. *)
Theorem conn_add_registers fd g :
  gw_wf g -> exists r g', conn_add fd g = Some (r, g') /\
    match r with
    | Some conn =>
        g_heap g !! conn = None /\ g_connections g' = g_connections g ++ [conn] /\
        exists t, g_heap g' =
          <[conn := (new_conn fd (g_ctx g)) <| conn_next_heartbeat := t |>]> (g_heap g)
    | None =>
        g_heap g' = g_heap g /\ g_connections g' = g_connections g /\
        exists t, w_trace (g_world g') = w_trace (g_world g) ++ t /\
          (~ alloc_ok (g_world g) /\ (forall block, live block t = 0) \/
           live "protocol_tag" t = 1 /\ live "client_group" t = 1)
    end.
Proof.
  intros Hwf. destruct (proj1 (wp_run _ _ _) (conn_add_spec fd g Hwf)) as (r & g' & Hrun & H).
  exists r, g'. split; [done|]. destruct r as [conn|].
  - destruct H as (-> & ctx & rand & nh & w & t & _ & _ & ->). split_and!; [|done|by exists nh].
    apply eq_None_not_Some. intros Hs%(gwf_live g Hwf)%(gwf_fresh g Hwf). lia.
  - destruct H as (t & (ctx & rand & f & w & (T & _) & _ & _ & ->) & H).
    split_and!; [done|done|]. exists t. split; [exact T|].
    destruct H as [H| ->]; [by left|by right].
Qed.

(** C34: closing a connection: it leaves the list and the heap, each of its
    blocks and its socket is released exactly once, and its agent goes offline
    with at most one disconnect event, unless the agent is not online.  Assumed is
    that the body of that event, whose growth the code does not test, finds
    memory. *)
Theorem conn_del_releases conn c g :
  g_heap g !! conn = Some c -> untested_ok (g_world g) ->
  exists l post g', conn_del conn g = Some (0, g') /\
    w_trace (g_world g') = w_trace (g_world g) ++ post ++ close_effects c /\
    g_heap g' = delete conn (g_heap g) /\
    g_connections g' = filter (fun i => i <> conn) (g_connections g) /\
    g_agents g' = l /\ closed_table (conn_agent_key c) g l post.
Proof.
  intros Hc Hun. destruct (proj1 (wp_run _ _ _) (conn_del_spec conn c g Hc Hun))
    as (r & g' & Hrun & -> & l & post & (w & (T & _) & ->) & Hcl).
  by eexists l, post, _.
Qed.

(** C33: the heartbeat collector, exactly.  It reads the clock once and passes over
    the connections in list order; what it does to the outside is what the turns
    of the connections do, one after the other, and nothing else.  The turn of a
    connection that is not an agent's, or whose heartbeat is not due, does nothing
    and leaves it exactly as it was.  A due connection is sent one whole heartbeat
    frame, on its own socket, with the gateway's next sequence number, and is
    rescheduled at a later reading of the clock plus an interval within the
    configured bounds, everything else about it unchanged; or, when a write fails,
    it got a proper part of the frame, and is closed and removed.  A well-formed
    state ([gw_wf]) includes that the allocations the code does not test succeed:
    closing a connection may post an event whose text grows. *)
Theorem heartbeats_when_due g :
  gw_wf g -> exists g' t, heartbeat_collect g = Some (0, g') /\ gw_wf g' /\
    w_trace (g_world g') = w_trace (g_world g) ++ t /\
    heartbeat_pass g g' (Datatypes.S (asked (w_time (g_world g)))) (next (w_time (g_world g)))
      (ctx_gateway_seq (g_ctx g)) (g_connections g) t.
Proof.
  intros Hwf. destruct (proj1 (wp_run _ _ _) (heartbeat_collect_spec g Hwf))
    as (r & g' & Hrun & -> & Hwf' & t & (_ & (T & _) & _) & H). by exists g', t.
Qed.

(** C32: the lines of a syslog connection: with the encoder working, exactly the
    non-empty complete lines of the buffer are handed to the engine in one batch,
    in order, each without its line end; the connection consumes them and keeps
    precisely the incomplete last line, so no byte is lost or seen twice. *)
Theorem syslog_lines_exact conn c g :
  g_heap g !! conn = Some c -> conn_wf c -> encoder_ok (g_world g) ->
  Forall (fun l => zlen l < 2 ^ 16) (lines_of [] (conn_data c)) ->
  let lines := lines_of [] (conn_data c) in
  let rs := map (syslog_record c) (filter (fun l => l <> []) (map strip_cr lines)) in
  exists g', process_syslog_lines conn g =
      Some (zlen (concat (map (fun l => l ++ [10]) lines)), g') /\
    w_trace (g_world g') = w_trace (g_world g) ++ ingested rs /\
    conn_data c = concat (map (fun l => l ++ [10]) lines) ++ tail_of [] (conn_data c) /\
    Forall (fun b => b <> 10) (tail_of [] (conn_data c)).
Proof.
  intros Hc Hwf He Hl lines rs.
  destruct (proj1 (wp_run _ _ _) (process_syslog_spec conn c g Hc Hwf))
    as (r & g' & Hrun & rs' & t & (w & (T & _) & ->) & [(_ & _ & Hno)|(-> & -> & ->)]); [done|].
  pose proof (lines_tail [] (conn_data c)) as Hsplit. cbn [app] in Hsplit. fold lines in Hsplit.
  eexists. split_and!; [| |exact Hsplit|by apply tail_no_newline, Forall_nil_2].
  - rewrite Hrun. do 2 f_equal. rewrite Hsplit at 1. rewrite zlen_app. fold lines. lia.
  - cbn [g_world]. rewrite T. do 2 f_equal. unfold rs. f_equal. fold lines in Hl. fold lines.
    clearbody lines. clear -Hl. unfold line_payloads. induction Hl as [|l ls H Hl IH]; [done|].
    cbn [map concat]. rewrite IH, filter_cons. unfold line_payload.
    assert (Hs : zlen (strip_cr l) <= zlen l).
    { unfold strip_cr. destruct (last l); [|lia]. destruct (_ =? 13); [|lia].
      unfold zlen. rewrite length_take. lia. }
    case_bool_decide; [by rewrite decide_False by (intros []; done)|].
    rewrite decide_True by done. rewrite uwrap_small
      by (unfold fits; pose proof (zlen_nonneg (strip_cr l)); lia).
    by rewrite to_nat_zlen, firstn_all.
Qed.

(** A line of 64 KiB or more is not delivered whole: its length is cut to 16
    bits before the record is built, so a line of 65536 + k bytes yields a
    record of its first k bytes, and one of exactly 65536 bytes an empty one. *)
Theorem syslog_long_line_truncated l k :
  zlen l = 2 ^ 16 + k -> 0 <= k < 2 ^ 16 -> last l <> Some 13 ->
  line_payload l = [take (Z.to_nat k) l].
Proof.
  intros Hl Hk Hlast. unfold line_payload, strip_cr.
  assert (E : (match last l with Some c => if c =? 13 then take (length l - 1) l else l
               | None => l end) = l).
  { destruct (last l) as [c|]; [|done]. destruct (Z.eqb_spec c 13) as [->|]; [done|done]. }
  rewrite E. rewrite bool_decide_false by (intros ->; rewrite zlen_nil in Hl; lia).
  do 2 f_equal. rewrite Hl. unfold uwrap. f_equal.
  rewrite <- Z.add_mod_idemp_l by lia. rewrite Z.mod_same by lia.
  by rewrite Z.add_0_l, Z.mod_small.
Qed.

(** A connection that cannot be registered with the event loop leaks its two
    classification strings. *)
Theorem register_failure_leaks :
  let g := sample_gw [] [] [] in
  let g := g <| g_world := (g_world g) <| w_resource := always false |> |> in
  match conn_add 3 g with
  | Some (None, g') =>
      live "conn" (w_trace (g_world g')) = 0 /\ live "buf" (w_trace (g_world g')) = 0 /\
      live "protocol_tag" (w_trace (g_world g')) = 1 /\
      live "client_group" (w_trace (g_world g')) = 1
  | _ => False
  end.
Proof. by vm_compute. Qed.

(** Two connections of one agent: when the older one closes, the agent goes
    offline although the newer connection is still there, and a heartbeat on that
    connection does not bring it back. *)
Theorem stale_close_takes_agent_offline :
  let id := str "a1" in
  let g := sample_gw [sample_conn 3 (Some id) []; sample_conn 4 (Some id) []]
             [sample_agent id] [] in
  is_online id (g_agents g) = true /\
  match (_ ← conn_del 0; agent_state_mark_heartbeat id) g with
  | Some (_, g') => is_online id (g_agents g') = false /\ g_connections g' = [1%nat] /\
      conn_agent_key <$> (g_heap g' !! 1%nat) = Some (Some id)
  | None => False
  end.
Proof. by vm_compute. Qed.

(** A HELLO with addresses: the list grows with every append, which is not tested,
    and without memory for it the handler crashes; with memory it answers. *)
Theorem untested_hello_crashes :
  let wire s := be_bytes 2 (zlen s) ++ s in
  let body := be_bytes 2 2 ++ be_bytes 2 0 ++ wire (str "a1") ++ wire (str "n") ++
    wire (str "1") ++ wire (str "pc") ++ be_bytes 2 1 ++ wire (str "aa:bb") in
  let h := GwHeader WZCP_MAGIC 1 32 0 WZCP_MSG_HELLO 0 1 0 (zlen body) in
  let g := sample_gw [sample_conn 3 None []] [sample_agent (str "a1")] [] in
  fst <$> process_hello 0 h body g = Some 0 /\
  process_hello 0 h body (g <| g_world := (g_world g) <| w_untested := always false |> |>)
    = None.
Proof. by vm_compute. Qed.

(** Whether a syslog sender without a priority prefix is accepted depends on
    how its bytes are split: a line that arrives whole is consumed, the same line
    whose newline has not arrived yet closes the connection. *)
Theorem plain_syslog_depends_on_chunking :
  let line := replicate 40 65 in
  let run data := fst <$> process_buffer 0 (sample_gw [sample_conn 3 None data] [] []) in
  run (line ++ [10]) = Some 41 /\ run line = Some (-1).
Proof. by vm_compute. Qed.

(** * Concrete instances *)

Lemma sample_gw_wf conns agents input :
  Forall conn_wf conns -> Forall (fun c => conn_buf_size c <= 512) conns ->
  table_wf agents -> bytes_ok input -> gw_wf (sample_gw conns agents input).
Proof.
  intros Hc Hs Ha Hi. rewrite Forall_lookup in Hc, Hs.
  constructor; cbn [g_connections g_heap g_fresh g_ctx g_agents g_world sample_gw];
    try done; try lia.
  - intros i. rewrite lookup_map_seq_0, elem_of_seq, lookup_lt_is_Some. lia.
  - apply NoDup_seq.
  - intros i. rewrite elem_of_seq. lia.
  - intros i c. rewrite lookup_map_seq_0. apply Hc.
  - intros i c. rewrite lookup_map_seq_0. intros Hi'. specialize (Hs _ _ Hi').
    change (conn_buf_size c <= 512). lia.
  - by repeat constructor.
Qed.

Lemma sample_conn_wf fd key data :
  bytes_ok data -> zlen data <= 256 -> conn_wf (sample_conn fd key data).
Proof.
  intros Hb Hl. pose proof (zlen_nonneg data). constructor; cbn -[Z.pow].
  - lia.
  - rewrite zlen_app, zlen_replicate. lia.
  - lia.
  - apply Forall_app_2; [done|]. apply Forall_replicate. unfold byte_ok. lia.
Qed.

(** An agent connection whose heartbeat is due, and an unclassified one. *)
Definition sample_server : gw :=
  sample_gw [(sample_conn 3 (Some (str "a1")) []) <| conn_protocol_tag :=
               Some SESSION_PROTO_AGENT_WZCP |>; sample_conn 4 None (str "<13>hello")]
    [sample_agent (str "a1")] (str " world" ++ [10]).

Lemma sample_server_wf : gw_wf sample_server.
Proof.
  apply sample_gw_wf.
  - repeat apply Forall_cons_2; [|apply sample_conn_wf; [by repeat constructor|done]|
      apply Forall_nil_2].
    destruct (sample_conn_wf 3 (Some (str "a1")) []); [by repeat constructor|done|].
    by constructor.
  - repeat apply Forall_cons_2; [done|done|apply Forall_nil_2].
  - split; [apply NoDup_singleton|]. apply Forall_cons_2; [|apply Forall_nil_2].
    split; [by repeat constructor|]. by exists (JArr []).
  - by repeat constructor.
Qed.

Example gateway_runs_safely_witness :
  exists g', run_callbacks [CbAccept (Some 5); CbEvent 1 true false; CbHeartbeat;
      CbEvent 0 true true; CbDatabase; CbLease; CbEvent 0 true false] sample_server
    = Some (tt, g') /\ gw_wf g'.
Proof. apply gateway_runs_safely; [apply sample_server_wf|done]. Defined.

Example conn_event_isolated_witness :
  exists r g', conn_event 1 true false sample_server = Some (r, g') /\
    gw_wf g' /\ (forall i, i <> 1%nat -> g_heap g' !! i = g_heap sample_server !! i) /\
    (r = 0 /\ 1%nat ∈ g_connections g' \/
     r = -1 /\ (1%nat ∈ g_connections g' \/ g_heap g' !! 1%nat = None)).
Proof.
  apply (conn_event_isolated 1 true false sample_server sample_server_wf).
  apply list_elem_of_further, list_elem_of_here.
Defined.

Example conn_add_registers_witness :
  exists r g', conn_add 5 sample_server = Some (r, g') /\
    match r with
    | Some conn =>
        g_heap sample_server !! conn = None /\
        g_connections g' = g_connections sample_server ++ [conn] /\
        exists t, g_heap g' =
          <[conn := (new_conn 5 (g_ctx sample_server)) <| conn_next_heartbeat := t |>]>
            (g_heap sample_server)
    | None =>
        g_heap g' = g_heap sample_server /\ g_connections g' = g_connections sample_server /\
        exists t, w_trace (g_world g') = w_trace (g_world sample_server) ++ t /\
          (~ alloc_ok (g_world sample_server) /\ (forall block, live block t = 0) \/
           live "protocol_tag" t = 1 /\ live "client_group" t = 1)
    end.
Proof. apply (conn_add_registers 5 sample_server sample_server_wf). Defined.

Example conn_del_releases_witness :
  let c := sample_conn 4 None (str "<13>hello") in
  exists l post g', conn_del 1 sample_server = Some (0, g') /\
    w_trace (g_world g') = w_trace (g_world sample_server) ++ post ++ close_effects c /\
    g_heap g' = delete 1%nat (g_heap sample_server) /\
    g_connections g' = filter (fun i => i <> 1%nat) (g_connections sample_server) /\
    g_agents g' = l /\ closed_table (conn_agent_key c) sample_server l post.
Proof. by apply (conn_del_releases 1). Defined.

Example heartbeats_when_due_witness :
  exists g' t, heartbeat_collect sample_server = Some (0, g') /\ gw_wf g' /\
    w_trace (g_world g') = w_trace (g_world sample_server) ++ t /\
    heartbeat_pass sample_server g' 1 1700000000 0 [0%nat; 1%nat] t.
Proof. apply (heartbeats_when_due sample_server sample_server_wf). Defined.

Example syslog_lines_exact_witness :
  let c := sample_conn 3 None (str "<13>one" ++ [13; 10; 10] ++ str "two" ++ [10] ++ str "rest") in
  let g := sample_gw [c] [] [] in
  let lines := lines_of [] (conn_data c) in
  let rs := map (syslog_record c) (filter (fun l => l <> []) (map strip_cr lines)) in
  exists g', process_syslog_lines 0 g =
      Some (zlen (concat (map (fun l => l ++ [10]) lines)), g') /\
    w_trace (g_world g') = w_trace (g_world g) ++ ingested rs /\
    conn_data c = concat (map (fun l => l ++ [10]) lines) ++ tail_of [] (conn_data c) /\
    Forall (fun b => b <> 10) (tail_of [] (conn_data c)).
Proof.
  intros c g. apply (syslog_lines_exact 0 c g).
  - reflexivity.
  - apply sample_conn_wf; [by repeat constructor|done].
  - by intros n.
  - vm_compute. by repeat constructor.
Defined.

Example syslog_long_line_truncated_witness :
  let l := replicate (Z.to_nat (2 ^ 16 + 3)) 65 in
  line_payload l = [take (Z.to_nat 3) l].
Proof.
  intros l. apply (syslog_long_line_truncated l 3).
  - unfold l. rewrite zlen_replicate. lia.
  - lia.
  - rewrite last_lookup. unfold l. rewrite length_replicate. intros E.
    apply lookup_replicate in E as [E _]. discriminate E.
Defined.
