(* ===== verification/OutLog.v ===== *)
(** The gateway's uploader, gateway/plugins/out_xsiam_log/out_xsiam_log.c: the
    records of a chunk become tab-separated rows, batches of rows become XLOG
    frames, and the frames are posted to the ingest server. The compressor is
    [Xlog]'s parameter; the chunk decoder's answer is an argument. *)
From S2P Require Import Prelude Ingest Xlog.
#[local] Open Scope Z_scope.

(** * Constants *)

Definition FLB_ERROR : Z := 0.
Definition FLB_OK : Z := 1.
Definition FLB_RETRY : Z := 2.
Definition XLOG_TAG_SCHEMA_VER : Z := 0x01.
Definition XLOG_COLUMNS_CSV : bytes := str "agent_id,_time,event_id,kind,tag,log".

(** * Context and decoded events *)

Record xsiam_log_ctx := LogCtx {
  lx_ingest_url : option bytes;
  lx_ingest_token : option bytes;
  lx_tag_field : option bytes;
  lx_compress_level : Z;
  lx_max_batch_rows : Z;
  lx_upstream : bool;
}.
#[export] Instance eta_log_ctx : Eta xsiam_log_ctx := fun c =>
  LogCtx (lx_ingest_url c) (lx_ingest_token c) (lx_tag_field c) (lx_compress_level c)
    (lx_max_batch_rows c) (lx_upstream c).

(** What the chunk decoder yields: the seconds of the timestamp and the body,
    [None] when it is not a map; of a map's pairs those with a string key. *)
Inductive msgpack_value :=
| MUint (n : Z)
| MStr (s : bytes)
| MOther.

Record log_event := LogEvent {
  ev_sec : Z;
  ev_body : option (list (bytes * msgpack_value));
}.

(** * The growing buffer

    It has the layout of [xlog.c]'s buffer, and doubles its capacity likewise. *)

Definition dbuf_t : Type := xlog_buf_t.
Definition dbuf_len (b : dbuf_t) : Z := zlen (xb_data b).

Section operations.
Context {S : Type} `{!HasWorld S} `{!Compressor}.

Definition dbuf_init (blk : string) (init : Z) : ST S (Z * dbuf_t) :=
  let cap := if init =? 0 then 4096 else init in
  ok ← malloc blk;
  if ok : bool then mret (0, XlogBuf [] cap) else mret (-1, XlogBuf [] 0).

Definition dbuf_grow (b : dbuf_t) (need : Z) : ST S (Z * dbuf_t) :=
  if u64 (dbuf_len b + need) <=? xb_cap b then mret (0, b) else
  nc ← lift (grow_cap 64 (u64 (xb_cap b * 2)) (u64 (dbuf_len b + need)));
  ok ← alloc_succeeds;
  if ok : bool then mret (0, XlogBuf (xb_data b) nc) else mret (-1, b).

Definition dbuf_append (b : dbuf_t) (src : bytes) (n : Z) : ST S (Z * dbuf_t) :=
  '(rc, b) ← dbuf_grow b n;
  if negb (rc =? 0) then mret (-1, b) else
  data ← lift (load src 0 n);
  if dbuf_len b + n <=? xb_cap b
  then mret (0, XlogBuf (xb_data b ++ data) (xb_cap b))
  else ub.

Definition dbuf_free (blk : string) (b : dbuf_t) : ST S dbuf_t :=
  _ ← free blk; mret (XlogBuf [] 0).

Definition out_tlv_append (body : dbuf_t) (tag : Z) (val : bytes) (vlen : Z)
    : ST S (Z * dbuf_t) :=
  '(rc, body) ← dbuf_append body (tag :: put_be16 vlen) 3;
  if negb (rc =? 0) then mret (-1, body) else
  if vlen =? 0 then mret (0, body) else
  '(rc, body) ← dbuf_append body val vlen;
  if negb (rc =? 0) then mret (-1, body) else mret (0, body).

(** * Building and sending one frame *)

(** The results of the appends are not tested. *)
Definition tlv (body : dbuf_t) (tag : Z) (val : bytes) (vlen : Z) : ST S dbuf_t :=
  '(_, body) ← out_tlv_append body tag val vlen; mret body.

Definition frame_body (body : dbuf_t) (row_count orig : Z) (comp : bytes)
    : ST S dbuf_t :=
  body ← tlv body XLOG_TAG_SCHEMA_VER (put_be16 1) 2;
  body ← tlv body XLOG_TAG_ROW_COUNT (put_be32 row_count) 4;
  body ← tlv body XLOG_TAG_ORIG_SIZE (put_be32 (u32 orig)) 4;
  body ← tlv body XLOG_TAG_COLUMNS XLOG_COLUMNS_CSV (u16 (zlen XLOG_COLUMNS_CSV));
  if zlen comp <=? 0xffff then tlv body XLOG_TAG_DATA comp (u16 (zlen comp)) else
  let hdr32 := [XLOG_TAG_DATA] ++ put_be16 (u16 (Z.land (zlen comp) 0xffff)) ++
               put_be32 (u32 (zlen comp)) in
  '(_, body) ← dbuf_append body hdr32 7;
  '(_, body) ← dbuf_append body comp (zlen comp);
  mret body.

Definition frame_bytes (frame tag : bytes) (tlen agent_id seq ts : Z) (body : bytes)
    : option bytes :=
  frame ← store frame 0 (put_be32 XLOG_MAGIC);
  frame ← store frame 4 [XLOG_VERSION];
  frame ← store frame 5 [XLOG_TYPE_LOG_BATCH];
  frame ← store frame 6 [0];
  frame ← store frame 7 [u8 tlen];
  tag ← load tag 0 tlen;
  frame ← store frame 8 tag;
  frame ← store frame (8 + tlen) (put_be64 agent_id);
  frame ← store frame (16 + tlen) (put_be64 seq);
  frame ← store frame (24 + tlen) (put_be64 ts);
  frame ← store frame (32 + tlen) (put_be32 (u32 (zlen body)));
  store frame (36 + tlen) body.

Definition post_headers (ctx : xsiam_log_ctx) : list (bytes * bytes) :=
  (str "Content-Type", str "application/x-xlog") ::
  match lx_ingest_token ctx with
  | Some (c :: t) => [(str "Authorization", take 511 (str "Bearer " ++ c :: t))]
  | _ => []
  end.

Definition post_frame (ctx : xsiam_log_ctx) (frame : bytes) : ST S Z :=
  r ← http_post (str "/internal/agent/log") (post_headers ctx) frame;
  _ ← free "frame";
  mret (match r with
        | HttpDone ret status =>
            if negb (ret =? 0) || negb (status =? 204) then FLB_RETRY else FLB_OK
        | _ => FLB_RETRY
        end).

(** Up to the request: the frame, or the result of a failure. *)
Definition build_frame (ctx : xsiam_log_ctx) (agent_id : Z)
    (tag_label : option bytes) (tsv : dbuf_t) (row_count : Z) : ST S (Z + bytes) :=
  let bound := ZSTD_compressBound (dbuf_len tsv) in
  ok ← malloc "comp";
  if negb ok then mret (inl FLB_RETRY) else
  match ZSTD_compress bound (xb_data tsv) (lx_compress_level ctx) with
  | None => _ ← free "comp"; mret (inl FLB_ERROR)
  | Some comp =>
      '(rc, body) ← dbuf_init "body" (u64 (zlen comp + 128));
      if negb (rc =? 0) then _ ← free "comp"; mret (inl FLB_RETRY) else
      body ← frame_body body row_count (dbuf_len tsv) comp;
      _ ← free "comp";
      let tag := match tag_label with Some t => t | None => str "agent_log" end in
      let tlen := if zlen tag >? 255 then 255 else zlen tag in
      let total := 8 + tlen + 28 + dbuf_len body in
      ok ← malloc "frame";
      if negb ok then _ ← dbuf_free "body" body; mret (inl FLB_RETRY) else
      seq ← time_now;
      ts ← frame_ts_ms false;
      frame ← lift (frame_bytes (replicate (Z.to_nat total) 0) tag tlen agent_id
                      (u64 seq) ts (xb_data body));
      _ ← dbuf_free "body" body;
      mret (inr frame)
  end.

Definition send_xlog_frame (ctx : xsiam_log_ctx) (agent_id : Z)
    (tag_label : option bytes) (tsv : dbuf_t) (row_count : Z) : ST S Z :=
  if dbuf_len tsv =? 0 then mret FLB_OK else
  built ← build_frame ctx agent_id tag_label tsv row_count;
  match built with
  | inl r => mret r
  | inr frame => post_frame ctx frame
  end.
End operations.

(** * From an event to a row *)

(** The fields of one event, and the tag buffer the events share. *)
Record row_fields := RowFields {
  rf_agent_id : Z;
  rf_event_id : Z;
  rf_kind : Z;
  rf_log : bytes;
  rf_tag : bytes;
}.
#[export] Instance eta_row_fields : Eta row_fields := fun r =>
  RowFields (rf_agent_id r) (rf_event_id r) (rf_kind r) (rf_log r) (rf_tag r).

(** One pair of the map. *)
Definition read_pair (r : row_fields) (kv : bytes * msgpack_value) : row_fields :=
  let '(k, val) := kv in
  if streq k (str "agent_id") then
    match val with MUint n => r <| rf_agent_id := n |> | _ => r end
  else if streq k (str "event_id") then
    match val with MUint n => r <| rf_event_id := n |> | _ => r end
  else if streq k (str "kind") then
    match val with MUint n => r <| rf_kind := u8 n |> | _ => r end
  else if streq k (str "log") then
    match val with MStr s => r <| rf_log := s |> | _ => r end
  else if streq k (str "session_protocol") then
    match val with MStr s => r <| rf_tag := cstr (take 127 s) |> | _ => r end
  else r.

Definition read_event (cur_tag : bytes) (ev : log_event) : row_fields :=
  foldl read_pair (RowFields 0 0 0 [] cur_tag)
    (match ev_body ev with Some kvs => kvs | None => [] end).

(** What [snprintf] prints into [row]; it always fits. *)
Definition row_prefix (r : row_fields) (sec : Z) : bytes :=
  dec (rf_agent_id r) ++ [9] ++ iso8601 sec ++ [9] ++ dec (rf_event_id r) ++ [9] ++
  dec (rf_kind r) ++ [9] ++ rf_tag r ++ [9].

Definition ROW_SIZE : Z := 4096.

(** The number of bytes of the prefix that are kept; the bound is computed on
    [size_t]. *)
Definition row_prefix_len (rlen log_len : Z) : Z :=
  let limit := u64 (ROW_SIZE - log_len - 2) in
  if (rlen <? 0) || (rlen >=? limit) then s32 limit else rlen.

(** * URLs *)

Definition starts_with (p s : bytes) : bool := bool_decide (take (length p) s = p).

(** [strchr]: the part before the first [c] and the part after it. *)
Fixpoint split_at (c : Z) (s : bytes) : bytes * option bytes :=
  match s with
  | [] => ([], None)
  | x :: rest =>
      if x =? c then ([], Some rest)
      else let '(a, b) := split_at c rest in (x :: a, b)
  end.

Definition parse_url (ingest_url : option bytes) : bytes * Z :=
  let url := match ingest_url with Some u => u | None => str "http://127.0.0.1:18090" end in
  let host_start := if starts_with (str "http://") url then drop 7 url
                    else if starts_with (str "https://") url then drop 8 url
                    else url in
  let '(host, port) :=
    match split_at 58 host_start with
    | (before, Some after) => (take 255 before, atoi after)
    | (_, None) => (take 255 host_start, 18090)
    end in
  (fst (split_at 47 host), port).

(** * Plugin callbacks *)

Section callbacks.
Context {S : Type} `{!HasWorld S} `{!Compressor}.

(** The row is appended in three pieces, whose results are not tested. *)
Definition append_event (tsv : dbuf_t) (cur_tag : bytes) (ev : log_event)
    : ST S (dbuf_t * row_fields) :=
  let r := read_event cur_tag ev in
  let row := row_prefix r (ev_sec ev) in
  let log_len := zlen (rf_log r) in
  '(_, tsv) ← dbuf_append tsv row (row_prefix_len (zlen row) log_len);
  tsv ← (if log_len >? 0
         then '(_, tsv) ← dbuf_append tsv (rf_log r) log_len; mret tsv
         else mret tsv);
  '(_, tsv) ← dbuf_append tsv [10] 1;
  mret (tsv, r).

(** The loop over the decoded events: the first result that is not [FLB_OK], or
    what is left to send with the agent and the tag of the last row. *)
Fixpoint flush_events (ctx : xsiam_log_ctx) (events : list log_event) (tsv : dbuf_t)
    (row_count cur_agent_id : Z) (cur_tag : bytes)
    : ST S (Z + dbuf_t * Z * Z * bytes) :=
  match events with
  | [] => mret (inr (tsv, row_count, cur_agent_id, cur_tag))
  | ev :: rest =>
      '(tsv, r) ← append_event tsv cur_tag ev;
      let row_count := u32 (row_count + 1) in
      let max_rows := if lx_max_batch_rows ctx >? 0 then lx_max_batch_rows ctx else 8192 in
      if s32 row_count >=? max_rows then
        sr ← send_xlog_frame ctx (rf_agent_id r) (Some (rf_tag r)) tsv row_count;
        if negb (sr =? FLB_OK)
        then _ ← dbuf_free "tsv" tsv; _ ← free "decoder"; mret (inl sr)
        else flush_events ctx rest (XlogBuf [] (xb_cap tsv)) 0 (rf_agent_id r) (rf_tag r)
      else flush_events ctx rest tsv row_count (rf_agent_id r) (rf_tag r)
  end.

(** [decoded] is [None] when the decoder cannot be set up. *)
Definition cb_flush (ctx : xsiam_log_ctx) (decoded : option (list log_event))
    : ST S Z :=
  match decoded with
  | None => mret FLB_ERROR
  | Some events =>
      _ ← emit (Acquire "decoder");
      '(rc, tsv) ← dbuf_init "tsv" 65536;
      if negb (rc =? 0) then _ ← free "decoder"; mret FLB_RETRY else
      r ← flush_events ctx events tsv 0 0 (str "agent_log");
      match r with
      | inl sr => mret sr
      | inr (tsv, row_count, agent_id, tag) =>
          _ ← free "decoder";
          final ← (if row_count >? 0
                   then send_xlog_frame ctx agent_id (Some tag) tsv row_count
                   else mret FLB_OK);
          _ ← dbuf_free "tsv" tsv;
          mret final
      end
  end.

(** [options] is what the configuration map fills in; the result is the context
    registered with the engine and the address it connects to. *)
Definition cb_init (options : xsiam_log_ctx)
    : ST S (Z * option (xsiam_log_ctx * (bytes * Z))) :=
  ok ← malloc "ctx";
  if negb ok then mret (-1, None) else
  configured ← resource_granted;
  if negb configured then _ ← free "ctx"; mret (-1, None) else
  let address := parse_url (lx_ingest_url options) in
  upstream ← resource_granted;
  if negb upstream then _ ← free "ctx"; mret (-1, None) else
  _ ← emit (Acquire "upstream");
  mret (0, Some (options <| lx_upstream := true |>, address)).

Definition cb_exit (data : option xsiam_log_ctx) : ST S Z :=
  match data with
  | None => mret 0
  | Some ctx =>
      _ ← (if lx_upstream ctx then free "upstream" else mret tt);
      _ ← free "ctx"; mret 0
  end.
End callbacks.

Example parse_url_default : parse_url None = (str "127.0.0.1", 18090).
Proof. by vm_compute. Qed.
Example parse_url_https :
  parse_url (Some (str "https://ingest.example.org:9000/x")) = (str "ingest.example.org", 9000).
Proof. by vm_compute. Qed.
Example parse_url_plain : parse_url (Some (str "10.0.0.1/path")) = (str "10.0.0.1", 18090).
Proof. by vm_compute. Qed.

(** * Buffers *)

Section buffers.
Context {S : Type} `{!HasWorld S} `{!Compressor}.
Implicit Types s : S.

(** The buffer behaves as [xlog.c]'s. *)
Lemma dbuf_append_eq b src n s : dbuf_append b src n s = buf_append b src n s.
Proof.
  unfold dbuf_append, buf_append. change dbuf_grow with (@buf_grow S _).
  unfold mbind, ST_bind. destruct (buf_grow b n s) as [[[rc b1] s1]|] eqn:E; [|done].
  destruct (Z.eqb_spec rc XLOG_OK) as [->|Hrc]; [done|].
  assert (rc = -1) as ->; [|done]. revert E. unfold buf_grow.
  destruct (_ <=? _); [by intros [= <- _ _]|].
  unfold mbind, ST_bind, lift. destruct (grow_cap _ _ _); [|done].
  destruct (alloc_succeeds s) as [[[|] s2]|]; [|by intros [= <- _ _]|done].
  by intros [= <- _ _].
Qed.

Lemma dbuf_append_fits b src n s :
  buf_wf b -> 0 <= n <= zlen src -> dbuf_len b + n <= xb_cap b ->
  dbuf_append b src n s =
    Some (0, XlogBuf (xb_data b ++ take (Z.to_nat n) src) (xb_cap b), s).
Proof. intros. rewrite dbuf_append_eq. by apply buf_append_fits. Qed.

Lemma fits_wf d cap : zlen d <= cap -> 0 < cap < 2 ^ 62 -> buf_wf (XlogBuf d cap).
Proof. by split. Qed.

Lemma tlv_fits d cap tag val vlen s :
  0 <= vlen <= zlen val -> vlen < 2 ^ 16 -> zlen d + 3 + vlen <= cap -> 0 < cap < 2 ^ 62 ->
  tlv (XlogBuf d cap) tag val vlen s =
    Some (XlogBuf (d ++ field tag (take (Z.to_nat vlen) val)) cap, s).
Proof.
  intros Hv Hv' Hf Hc. unfold tlv, out_tlv_append.
  assert (E : field tag (take (Z.to_nat vlen) val) =
    (tag :: put_be16 vlen) ++ take (Z.to_nat vlen) val).
  { unfold field. by rewrite zlen_take by lia. }
  unfold mbind, ST_bind.
  rewrite dbuf_append_fits; [|apply fits_wf; lia|by split; [|done]|unfold dbuf_len; cbn; lia].
  cbn [Z.eqb negb xb_data xb_cap].
  change (take (Z.to_nat 3) (tag :: put_be16 vlen)) with (tag :: put_be16 vlen).
  rewrite E. destruct (Z.eqb_spec vlen 0) as [->|Hne].
  - cbn [mret ST_ret]. by rewrite app_nil_r.
  - assert (Hl : zlen (d ++ tag :: put_be16 vlen) = zlen d + 3)
      by (by rewrite zlen_app).
    rewrite dbuf_append_fits;
      [|apply fits_wf; lia|done|unfold dbuf_len; cbn [xb_data xb_cap]; lia].
    cbn [Z.eqb negb xb_data xb_cap mret ST_ret]. by rewrite <- app_assoc.
Qed.

Lemma tlv_whole d cap tag val vlen s :
  vlen = zlen val -> vlen < 2 ^ 16 -> zlen d + 3 + vlen <= cap -> cap < 2 ^ 62 ->
  tlv (XlogBuf d cap) tag val vlen s = Some (XlogBuf (d ++ field tag val) cap, s).
Proof.
  intros -> Hv Hf Hc. pose proof (zlen_nonneg val). pose proof (zlen_nonneg d).
  rewrite tlv_fits by lia. by rewrite to_nat_zlen, firstn_all.
Qed.

Lemma zlen_put16 v : zlen (put_be16 v) = 2.
Proof. done. Qed.
Lemma zlen_put32 v : zlen (put_be32 v) = 4.
Proof. done. Qed.

(** The body never outgrows its first capacity, so the untested appends cannot
    fail. *)
Lemma frame_body_spec rows orig comp s :
  zlen comp < 2 ^ 31 ->
  frame_body (XlogBuf [] (zlen comp + 128)) rows orig comp s =
    Some (XlogBuf (encoded_body rows (u32 orig) XLOG_COLUMNS_CSV comp) (zlen comp + 128), s).
Proof.
  intros Hc. pose proof (zlen_nonneg comp). unfold frame_body.
  set (cap := zlen comp + 128). unfold mbind, ST_bind. cbv zeta.
  change (u16 (zlen XLOG_COLUMNS_CSV)) with (zlen XLOG_COLUMNS_CSV).
  assert (Hcols : zlen XLOG_COLUMNS_CSV = 36) by done.
  rewrite tlv_whole; [|done|done|rewrite zlen_nil; unfold cap; lia|unfold cap; lia].
  rewrite tlv_whole; [|done|done| |unfold cap; lia].
  2: { rewrite !zlen_app, !zlen_field, zlen_nil, !zlen_put16. unfold cap; lia. }
  rewrite tlv_whole; [|done|done| |unfold cap; lia].
  2: { rewrite !zlen_app, !zlen_field, zlen_nil, !zlen_put16, !zlen_put32. unfold cap; lia. }
  rewrite tlv_whole; [|done|done| |unfold cap; lia].
  2: { rewrite !zlen_app, !zlen_field, zlen_nil, !zlen_put16, !zlen_put32, Hcols.
       unfold cap; lia. }
  set (head := (((([] ++ _) ++ _) ++ _) ++ _)).
  assert (Hh : head = encoded_head rows (u32 orig) XLOG_COLUMNS_CSV).
  { unfold head, encoded_head. rewrite app_nil_l, <- !app_assoc. reflexivity. }
  assert (Hl : zlen head = 58).
  { unfold head. by rewrite !zlen_app, !zlen_field, zlen_nil, !zlen_put16, !zlen_put32, Hcols. }
  clearbody head. unfold encoded_body, encoded_data. rewrite <- Hh, Z.gtb_ltb.
  destruct (Z.leb_spec (zlen comp) 0xffff).
  - rewrite (proj2 (Z.ltb_ge _ _)) by lia. rewrite uwrap_small by (unfold fits; lia).
    apply tlv_whole; [done|lia|unfold cap; lia|unfold cap; lia].
  - rewrite (proj2 (Z.ltb_lt _ _)) by lia.
    rewrite dbuf_append_fits; [|apply fits_wf; unfold cap; lia|by split|
      unfold dbuf_len, cap; cbn [xb_data xb_cap]; lia].
    cbn [xb_data xb_cap]. rewrite dbuf_append_fits;
      [|apply fits_wf; [rewrite zlen_app, zlen_take by done|]; unfold cap; lia|lia|
       unfold dbuf_len, cap; cbn [xb_data xb_cap]; rewrite zlen_app, zlen_take by done; lia].
    cbn [xb_data xb_cap mret ST_ret]. rewrite to_nat_zlen, firstn_all.
    do 3 f_equal. rewrite <- app_assoc. f_equal.
    change 0xffff with (Z.ones 16). rewrite Z.land_ones by lia.
    unfold uwrap at 1. rewrite Zmod_mod. fold (u16 (zlen comp)).
    change (put_be16 (u16 (zlen comp))) with (be_bytes 2 (u16 (zlen comp))).
    change (put_be32 (u32 (zlen comp))) with (be_bytes 4 (u32 (zlen comp))).
    rewrite !be_bytes_uwrap by done. reflexivity.
Qed.

Lemma frame_bytes_spec frame tag agent seq ts body :
  zlen tag <= 255 -> zlen frame = 36 + zlen tag + zlen body -> zlen body < 2 ^ 32 ->
  frame_bytes frame tag (zlen tag) agent seq ts body =
    Some (batch_frame tag agent seq ts body).
Proof.
  exact (write_frame_spec frame (XlogBatch tag None agent seq (XlogBuf [] 0) 0) ts body).
Qed.
End buffers.

(** * One frame *)

Definition is_post (e : effect) : bool :=
  match e with HttpPost _ _ _ => true | _ => false end.

(** The requests among the effects. *)
Definition posts (t : list effect) : list effect := filter (fun e => is_post e = true) t.

Lemma posts_app t u : posts (t ++ u) = posts t ++ posts u.
Proof. apply filter_app. Qed.

Definition balanced (t : list effect) : Prop := forall blk, live blk t = 0.

Lemma balanced_app t u : balanced t -> balanced u -> balanced (t ++ u).
Proof. intros H1 H2 blk. by rewrite live_app, H1, H2. Qed.

Definition post_of (ctx : xsiam_log_ctx) (frame : bytes) : effect :=
  HttpPost (str "/internal/agent/log") (post_headers ctx) frame.

Ltac balance := intros blk; unfold live, live_step, post_of; cbn [app map foldr];
  repeat case_decide; subst; lia.

Section frames.
Context {S : Type} `{!HasWorld S} `{!Compressor} `{Laws : !CompressorLaws}.
Implicit Types s : S.

Lemma steps_env t s s' : steps (emits t) s s' -> env (world_of s') = env (world_of s).
Proof. by intros (f & -> & (_ & _ & E)). Qed.

Lemma steps_alloc_ok t s s' :
  steps (emits t) s s' -> alloc_ok (world_of s) <-> alloc_ok (world_of s').
Proof. intros E%steps_env. split; by apply alloc_ok_env. Qed.

(** The frame of a batch of rows, and the request that carries it. *)
Definition frame_of (ctx : xsiam_log_ctx) (agent_id : Z) (tag : bytes) (rows : Z)
    (tsv frame : bytes) : Prop :=
  exists comp seq ts, fits 64 seq /\ fits 64 ts /\ zlen comp < 2 ^ 31 /\
    ZSTD_compress (ZSTD_compressBound (zlen tsv)) tsv (lx_compress_level ctx) = Some comp /\
    frame = batch_frame (take 255 tag) agent_id seq ts
              (encoded_body rows (u32 (zlen tsv)) XLOG_COLUMNS_CSV comp).

(** What the server's answer, or its absence, makes of the request. *)
Definition answered (ctx : xsiam_log_ctx) (frame : bytes) (answer : http_answer) : Z * list effect :=
  match answer with
  | HttpDone ret status =>
      (if (ret =? 0) && (status =? 204) then FLB_OK else FLB_RETRY, [post_of ctx frame])
  | _ => (FLB_RETRY, [])
  end.

(** What sending promises: nothing leaks; a batch that is built is posted unless
    there is no connection; and with memory available it is built unless the
    compressor fails. *)
Definition sending (ctx : xsiam_log_ctx) (agent_id : Z) (tag : bytes) (rows : Z)
    (tsv : bytes) (s : S) (r : Z) (s' : S) : Prop :=
  exists t, steps (emits t) s s' /\ balanced t /\
    (posts t = [] /\ (r = FLB_RETRY \/ r = FLB_ERROR) /\
       (alloc_ok (world_of s) -> r = FLB_ERROR /\
          ZSTD_compress (ZSTD_compressBound (zlen tsv)) tsv (lx_compress_level ctx) = None) \/
     exists frame, frame_of ctx agent_id tag rows tsv frame /\
       (r, posts t) = answered ctx frame (next (w_http (world_of s)))).

Lemma post_frame_spec ctx frame s :
  wp (post_frame ctx frame) (fun r s' =>
    let '(r', sent) := answered ctx frame (next (w_http (world_of s))) in
    r = r' /\ steps (emits (sent ++ [Release "frame"])) s s') s.
Proof.
  unfold post_frame. apply wp_bind, wp_http_post.
  - intros r s1 -> Hr Hs. apply wp_bind, wp_free. intros s2 Hs2. apply wp_ret.
    destruct Hr as [-> | ->]; (split; [done|]); exact (steps_emits_trans [] _ _ _ _
        (steps_emits_quiet _ _ _ _ (steps_emits_refl _) Hs) Hs2).
  - intros ret status s1 -> Hs. apply wp_bind, wp_free. intros s2 Hs2. apply wp_ret.
    split; [by destruct (ret =? 0), (status =? 204)|]. exact (steps_emits_trans [_] _ _ _ _ Hs Hs2).
Qed.

Definition clip_tag (tag : bytes) : Z := if zlen tag >? 255 then 255 else zlen tag.

Lemma clip_tag_spec tag : 0 <= clip_tag tag <= 255 /\ zlen (take 255 tag) = clip_tag tag.
Proof.
  unfold clip_tag. change 255%nat with (Z.to_nat 255). unfold zlen. rewrite length_take.
  destruct (Z.gtb_spec (Z.of_nat (length tag)) 255); lia.
Qed.

Lemma load_clipped tag :
  load tag 0 (clip_tag tag) = load (take 255 tag) 0 (clip_tag tag).
Proof.
  destruct (clip_tag_spec tag) as [Hc Hl].
  assert (clip_tag tag <= zlen tag)
    by (unfold clip_tag; destruct (Z.gtb_spec (zlen tag) 255); lia).
  rewrite !load_some by lia. change (Z.to_nat 0) with 0%nat. rewrite !drop_0.
  rewrite take_take. by rewrite Nat.min_l by lia.
Qed.

(** A frame that is built is the only block left. *)
Lemma build_frame_spec ctx agent_id tag b rows s :
  xb_data b <> [] -> zlen (xb_data b) <= 2 ^ 30 ->
  wp (build_frame ctx agent_id (Some tag) b rows) (fun built s' =>
    exists t, steps (emits t) s s' /\ posts t = [] /\
      match built with
      | inl r => balanced t /\ (r = FLB_RETRY \/ r = FLB_ERROR) /\
          (alloc_ok (world_of s) -> r = FLB_ERROR /\
             ZSTD_compress (ZSTD_compressBound (dbuf_len b)) (xb_data b) (lx_compress_level ctx) = None)
      | inr frame => balanced (t ++ [Release "frame"]) /\
          frame_of ctx agent_id tag rows (xb_data b) frame
      end) s.
Proof.
  intros Hne Hlen. unfold build_frame. change (dbuf_len b) with (zlen (xb_data b)). cbv zeta.
  set (Q := fun (built : Z + bytes) (s' : S) => exists t, _).
  assert (Hno : forall t s1 s', steps (emits t) s s1 -> ~ alloc_ok (world_of s1) ->
    steps (emits t) s s' -> balanced t -> posts t = [] -> Q (inl FLB_RETRY) s').
  { intros t s1 s' Ht1 Hno Ht Hb Hp. exists t. split_and!; [done..|by left|].
    intros Ha. by apply (steps_alloc_ok _ _ _ Ht1) in Ha. }
  apply wp_bind, wp_malloc.
  2: { intros s1 Hs1 Ha. apply wp_ret.
       apply (Hno [] s); [apply steps_emits_refl|done| |balance|done].
       by eapply steps_emits_quiet; [apply steps_emits_refl|]. }
  intros s1 Hs1. cbn [negb].
  destruct (ZSTD_compress _ _ _) as [comp|] eqn:Hcomp.
  2: { apply wp_bind, wp_free. intros s2 Hs2. apply wp_ret. eexists.
       split_and!; [exact (steps_emits_trans _ _ _ _ _ Hs1 Hs2)|done|balance|by right|done]. }
  assert (Hcl : zlen comp < 2 ^ 31).
  { pose proof (compress_fits _ _ _ _ Hcomp). pose proof (zlen_nonneg (xb_data b)).
    pose proof (bound_range (zlen (xb_data b))). lia. }
  pose proof (zlen_nonneg comp) as Hc0.
  rewrite (uwrap_small 64) by (unfold fits; lia).
  unfold dbuf_init at 1. destruct (Z.eqb_spec (zlen comp + 128) 0); [lia|].
  apply wp_bind, wp_bind, wp_malloc.
  2: { intros s2 Hs2 Ha. apply wp_ret. cbn [Z.eqb negb]. apply wp_bind, wp_free.
       intros s3 Hs3. apply wp_ret. eexists. split_and!;
         [exact (steps_emits_trans _ _ _ _ _ (steps_emits_quiet _ _ _ _ Hs1 Hs2) Hs3)|
          done|balance|by left|].
       intros Ha1. by apply (steps_alloc_ok _ _ _ Hs1) in Ha1. }
  intros s2 Hs2. apply wp_ret. cbn [Z.eqb negb].
  pose proof (steps_emits_trans _ _ _ _ _ Hs1 Hs2) as Hs12.
  apply wp_bind. unfold wp at 1. rewrite frame_body_spec by done.
  set (body := encoded_body _ _ _ _).
  assert (Hbl : 0 <= zlen body < 2 ^ 32).
  { split; [apply zlen_nonneg|]. by apply zlen_encoded_body. }
  apply wp_bind, wp_free. intros s3 Hs3.
  pose proof (steps_emits_trans _ _ _ _ _ Hs12 Hs3) as Hs13.
  fold (clip_tag tag). destruct (clip_tag_spec tag) as [Htl Ht]. set (tlen := clip_tag tag) in *.
  change (dbuf_len (XlogBuf body _)) with (zlen body).
  apply wp_bind, wp_malloc.
  2: { intros s4 Hs4 Ha. cbn [negb]. apply wp_bind. unfold dbuf_free.
       apply wp_bind, wp_free. intros s5 Hs5. apply wp_ret, wp_ret. eexists. split_and!;
         [exact (steps_emits_trans _ _ _ _ _ (steps_emits_quiet _ _ _ _ Hs13 Hs4) Hs5)|
          done|balance|by left|].
       intros Ha1. by apply (steps_alloc_ok _ _ _ Hs13) in Ha1. }
  intros s4 Hs4. cbn [negb]. pose proof (steps_emits_trans _ _ _ _ _ Hs13 Hs4) as Hs14.
  apply wp_bind, wp_time_now. intros now s5 _ Hs5.
  apply wp_bind. eapply wp_mono;
    [apply frame_ts_ms_spec, (steps_emits_quiet _ _ _ _ Hs14 Hs5)|].
  intros ts s6 [Hts Hs6].
  apply wp_bind. eapply wp_lift.
  { assert (E : forall fr, frame_bytes fr tag tlen agent_id (u64 now) ts body =
      frame_bytes fr (take 255 tag) (zlen (take 255 tag)) agent_id (u64 now) ts body).
    { intros fr. unfold frame_bytes. by rewrite Ht, <- load_clipped. }
    cbn [xb_data]. rewrite E. apply frame_bytes_spec.
    - lia.
    - rewrite zlen_replicate, Ht. lia.
    - lia. }
  apply wp_bind. unfold dbuf_free. apply wp_bind, wp_free. intros s7 Hs7. apply wp_ret, wp_ret.
  eexists. split_and!; [exact (steps_emits_trans _ _ _ _ _ Hs6 Hs7)|done|balance|].
  exists comp, (u64 now), ts. split_and!; [by apply uwrap_fits|done|done|done|done].
Qed.

Lemma build_frame_http ctx agent_id tag b rows :
  moves (fun s s' => w_http (world_of s') = w_http (world_of s)) (build_frame ctx agent_id tag b rows).
Proof. solve_moves ltac:(intros; by rewrite world_of_in_world). Qed.

Lemma send_spec ctx agent_id tag b rows s :
  xb_data b <> [] -> zlen (xb_data b) <= 2 ^ 30 ->
  wp (send_xlog_frame ctx agent_id (Some tag) b rows)
    (sending ctx agent_id tag rows (xb_data b) s) s.
Proof.
  intros Hne Hlen. unfold send_xlog_frame. change (dbuf_len b) with (zlen (xb_data b)).
  destruct (Z.eqb_spec (zlen (xb_data b)) 0) as [E|_];
    [by destruct (xb_data b); [|zlia]|].
  apply wp_bind. eapply wp_mono;
    [eapply (wp_moves _ _ _ _ (build_frame_http _ _ _ _ _)); by apply build_frame_spec|].
  intros [r|frame] s1 [(t & Hs1 & Hp & Hb0) Eh].
  { apply wp_ret. destruct Hb0 as (Hb & Hr & Ha). exists t. split_and!; [done..|by left]. }
  destruct Hb0 as [Hb Hf]. eapply wp_mono; [apply post_frame_spec|]. rewrite Eh.
  intros r s2. destruct (answered _ _ _) as [r' sent] eqn:Ea. intros [-> Hs2]. exists (t ++ sent ++ [Release "frame"]).
  assert (Hsent : sent = [] \/ sent = [post_of ctx frame])
    by (destruct (next _) as [| |ret status]; injection Ea as _ <-; auto).
  split; [exact (steps_emits_trans _ _ _ _ _ Hs1 Hs2)|]. split.
  - intros blk. specialize (Hb blk). rewrite !live_app in *. by destruct Hsent as [-> | ->].
  - right. exists frame. split; [done|]. rewrite posts_app, Hp, Ea. by destruct Hsent as [-> | ->].
Qed.
End frames.

(** * Rows and batches *)

Definition row_bytes (r : row_fields) (sec : Z) : bytes :=
  let prefix := row_prefix r sec in
  take (Z.to_nat (row_prefix_len (zlen prefix) (zlen (rf_log r)))) prefix ++ rf_log r ++ [10].

(** The rows of the events, each with the agent and the tag in force after it. *)
Record line := Line { ln_row : bytes; ln_agent : Z; ln_tag : bytes }.

Fixpoint lines_of_events (tag : bytes) (events : list log_event) : list line :=
  match events with
  | [] => []
  | ev :: rest =>
      let r := read_event tag ev in
      Line (row_bytes r (ev_sec ev)) (rf_agent_id r) (rf_tag r)
        :: lines_of_events (rf_tag r) rest
  end.

Definition rows_of (lines : list line) : bytes := concat (map ln_row lines).

(** Cutting the rows into batches of [max]; [cur] are the rows collected. *)
Fixpoint batches (max : Z) (cur lines : list line) : list (list line) :=
  match lines with
  | [] => match cur with [] => [] | _ => [cur] end
  | l :: rest =>
      let cur := cur ++ [l] in
      if zlen cur >=? max then cur :: batches max [] rest else batches max cur rest
  end.

Lemma row_prefix_len_bounds p n : 0 <= p < ROW_SIZE -> 0 <= n < 2 ^ 31 ->
  0 <= row_prefix_len p n <= p.
Proof.
  intros Hp Hn. unfold row_prefix_len, ROW_SIZE in *.
  set (limit := u64 _).
  assert (Hl : fits 64 limit) by (apply uwrap_fits; lia). unfold fits in Hl.
  destruct (Z.ltb_spec p 0); [lia|]. cbn [orb].
  rewrite Z.geb_leb. destruct (Z.leb_spec limit p); [|lia].
  rewrite s32_small by lia. lia.
Qed.

Lemma dec_digits_length fuel n acc :
  (length (dec_digits fuel n acc) <= fuel + length acc)%nat.
Proof.
  revert n acc. induction fuel as [|fuel IH]; intros n acc; cbn [dec_digits]; [lia|].
  destruct (n <? 10); cbn [length]; [lia|].
  etrans; [apply IH|]. cbn [length]. lia.
Qed.

Lemma dec_length n : zlen (dec n) <= 20.
Proof. unfold dec, zlen. pose proof (dec_digits_length 20 n []). cbn [length] in *. lia. Qed.

Lemma iso8601_length t : zlen (iso8601 t) <= 40.
Proof.
  unfold iso8601. destruct (civil_from_days _) as [[y m] d]. rewrite !zlen_app.
  pose proof (dec_length y).
  change (zlen (two_digits m)) with 2. change (zlen (two_digits d)) with 2.
  repeat match goal with |- context [zlen (two_digits ?x)] =>
    change (zlen (two_digits x)) with 2 end.
  change (zlen (str "-")) with 1. change (zlen (str "T")) with 1.
  change (zlen (str ":")) with 1. change (zlen (str "Z")) with 1. lia.
Qed.

Lemma row_prefix_short r sec : zlen (rf_tag r) <= 127 -> 0 <= zlen (row_prefix r sec) < 300.
Proof.
  intros H. unfold row_prefix. rewrite !zlen_app. change (zlen [9]) with 1.
  pose proof (dec_length (rf_agent_id r)). pose proof (dec_length (rf_event_id r)).
  pose proof (dec_length (rf_kind r)). pose proof (iso8601_length sec).
  pose proof (zlen_nonneg (dec (rf_agent_id r))). pose proof (zlen_nonneg (dec (rf_event_id r))).
  pose proof (zlen_nonneg (dec (rf_kind r))). pose proof (zlen_nonneg (iso8601 sec)).
  pose proof (zlen_nonneg (rf_tag r)). lia.
Qed.

Lemma read_event_tag tag ev : zlen tag <= 127 -> zlen (rf_tag (read_event tag ev)) <= 127.
Proof.
  intros H. unfold read_event.
  assert (Hg : forall kvs r, zlen (rf_tag r) <= 127 ->
    zlen (rf_tag (foldl read_pair r kvs)) <= 127).
  { induction kvs as [|[k v] kvs IH]; intros r Hr; [done|]. cbn [foldl]. apply IH.
    unfold read_pair. repeat destruct (streq _ _); destruct v as [n|str|]; try done.
    cbn. unfold zlen. pose proof (cstr_length (take 127 str)).
    rewrite length_take in *. lia. }
  by apply Hg.
Qed.

Section flush.
Context {S : Type} `{!HasWorld S} `{!Compressor} `{Laws : !CompressorLaws}.
Implicit Types s : S.

(** A frame carries a batch, under the agent and the tag of its last row. *)
Definition carries (ctx : xsiam_log_ctx) (batch : list line) (frame : bytes) : Prop :=
  exists l, last batch = Some l /\
    frame_of ctx (ln_agent l) (ln_tag l) (zlen batch) (rows_of batch) frame.

Lemma dbuf_append_spec b src n s :
  buf_wf b -> 0 <= n <= zlen src -> dbuf_len b + n <= 2 ^ 60 ->
  wp (dbuf_append b src n) (fun r s' => steps quiet s s' /\ buf_wf (snd r) /\
    (xb_data (snd r) = xb_data b ++ take (Z.to_nat n) src \/
     snd r = b /\ ~ alloc_ok (world_of s))) s.
Proof.
  intros Hb Hn Hl. unfold wp. rewrite dbuf_append_eq.
  eapply wp_mono; [by apply buf_append_spec|].
  intros [rc b'] s' (Hs & (Hwf & [[_ Hd]|Hrc]) & Hoom); cbn [fst snd] in *.
  - split_and!; [done|done|by left].
  - destruct (Hoom Hrc) as (-> & _ & Hno). split_and!; [done|done|by right].
Qed.


Lemma quiet_emits s s' : steps quiet s s' -> steps (emits []) s s'.
Proof. intros Hq. eapply steps_emits_quiet; [apply steps_emits_refl|done]. Qed.

(** One untested append: the bytes are there, or memory failed. *)
Lemma append_untested b src n w s0 s :
  buf_wf b -> 0 <= n <= zlen src -> dbuf_len b + n <= 2 ^ 60 ->
  w = take (Z.to_nat n) src -> steps quiet s0 s ->
  wp (dbuf_append b src n) (fun r s' => steps quiet s0 s' /\ buf_wf (snd r) /\
    zlen (xb_data (snd r)) <= zlen (xb_data b) + n /\
    (alloc_ok (world_of s0) -> xb_data (snd r) = xb_data b ++ w)) s.
Proof.
  intros Hb Hn Hl -> Hs. eapply wp_mono; [by apply dbuf_append_spec|].
  intros [rc b'] s' (Hs' & Hwf & Hd); cbn [snd] in *.
  split_and!; [by eapply steps_quiet_trans|done| |].
  - destruct Hd as [-> |[-> _]]; [rewrite zlen_app, zlen_take; lia|lia].
  - intros Hok. destruct Hd as [|[_ Hno]]; [done|]. exfalso. apply Hno.
    by rewrite <- (steps_alloc_ok [] s0 s) by (by apply quiet_emits).
Qed.

Lemma append_event_spec b tag ev s :
  buf_wf b -> zlen tag <= 127 ->
  let r := read_event tag ev in
  let row := row_bytes r (ev_sec ev) in
  dbuf_len b + zlen row <= 2 ^ 30 ->
  wp (append_event b tag ev) (fun '(b', r') s' => r' = r /\ steps quiet s s' /\
    buf_wf b' /\ dbuf_len b' <= dbuf_len b + zlen row /\
    (alloc_ok (world_of s) -> xb_data b' = xb_data b ++ row)) s.
Proof.
  intros Hb Ht r row Hl. unfold append_event. fold r. cbv zeta.
  assert (Htag : zlen (rf_tag r) <= 127) by (by apply read_event_tag).
  pose proof (row_prefix_short r (ev_sec ev) Htag) as Hp.
  pose proof (zlen_nonneg (rf_log r)) as Hlog. pose proof (zlen_nonneg (xb_data b)) as Hd0.
  set (prefix := row_prefix r (ev_sec ev)) in *.
  set (plen := row_prefix_len (zlen prefix) (zlen (rf_log r))).
  assert (Hrow : zlen row = zlen (take (Z.to_nat plen) prefix) + zlen (rf_log r) + 1).
  { unfold row, row_bytes. fold prefix plen. rewrite !zlen_app. change (zlen [10]) with 1. lia. }
  pose proof (zlen_nonneg (take (Z.to_nat plen) prefix)) as Htp.
  unfold dbuf_len in *.
  assert (Hpl : 0 <= plen <= zlen prefix)
    by (apply row_prefix_len_bounds; unfold ROW_SIZE; lia).
  rewrite zlen_take in Hrow by lia.
  apply wp_bind. eapply wp_mono.
  { apply (append_untested b prefix plen (take (Z.to_nat plen) prefix) s s Hb Hpl); [unfold dbuf_len; lia|reflexivity|
      apply steps_quiet_refl]. }
  intros [rc1 b1] s1 (Hs1 & Hb1 & Hl1 & Hd1); cbn [snd] in *.
  apply wp_bind. eapply (wp_mono _ (fun b2 s' => steps quiet s s' /\ buf_wf b2 /\
    zlen (xb_data b2) <= zlen (xb_data b1) + zlen (rf_log r) /\
    (alloc_ok (world_of s) -> xb_data b2 = xb_data b1 ++ rf_log r))).
  { destruct (Z.gtb_spec (zlen (rf_log r)) 0).
    - apply wp_bind. eapply wp_mono.
      { apply (append_untested b1 (rf_log r) (zlen (rf_log r)) (rf_log r) s s1 Hb1);
          [lia|unfold dbuf_len; lia|by rewrite to_nat_zlen, firstn_all|done]. }
      intros [rc2 b2] s2 H2. by apply wp_ret.
    - apply wp_ret. split_and!; [done|done|lia|]. intros _.
      assert (rf_log r = []) as -> by (destruct (rf_log r); [done|zlia]).
      by rewrite app_nil_r. }
  intros b2 s2 (Hs2 & Hb2 & Hl2 & Hd2). apply wp_bind. eapply wp_mono.
  { apply (append_untested b2 [10] 1 [10] s s2 Hb2); [by split|unfold dbuf_len; lia|done|done]. }
  intros [rc3 b3] s3 (Hs3 & Hb3 & Hl3 & Hd3); cbn [snd] in *. apply wp_ret.
  split_and!; [done|done|done|lia|]. intros Hok.
  rewrite (Hd3 Hok), (Hd2 Hok), (Hd1 Hok). unfold row, row_bytes. fold prefix plen.
  by rewrite <- !app_assoc.
Qed.

(** ** Sending the rows collected *)

Definition last_is (cur : list line) (agent : Z) (tag : bytes) : Prop :=
  forall l, last cur = Some l -> ln_agent l = agent /\ ln_tag l = tag.

(** The rows of a batch are never empty: each ends with a newline. *)
Definition newline_ended (cur : list line) : Prop :=
  Forall (fun l => ln_row l <> []) cur.

Lemma rows_nonempty cur : cur <> [] -> newline_ended cur -> rows_of cur <> [].
Proof.
  intros Hne Hn E. destruct cur as [|l cur]; [done|].
  apply Forall_cons in Hn as [Hl _]. unfold rows_of in E. cbn in E.
  by apply app_eq_nil in E as [? _].
Qed.

Definition sent_batch (ctx : xsiam_log_ctx) (cur : list line) (s : S) (r : Z) (s' : S) : Prop :=
  exists t, steps (emits t) s s' /\ balanced t /\
    (alloc_ok (world_of s) ->
      (exists frame, posts t = [post_of ctx frame] /\ carries ctx cur frame /\
         (r = FLB_OK \/ r = FLB_RETRY)) \/
      posts t = [] /\ (r = FLB_RETRY \/ r = FLB_ERROR)).

Lemma send_batch_spec ctx agent tag b cur s :
  zlen (xb_data b) <= 2 ^ 30 -> cur <> [] -> newline_ended cur -> last_is cur agent tag ->
  (alloc_ok (world_of s) -> xb_data b = rows_of cur) ->
  wp (send_xlog_frame ctx agent (Some tag) b (zlen cur)) (sent_batch ctx cur s) s.
Proof.
  intros Hl Hne Hn Hlast Hd. destruct (decide (xb_data b = [])) as [E|Hdne].
  - unfold send_xlog_frame. change (dbuf_len b) with (zlen (xb_data b)). rewrite E.
    apply wp_ret. exists []. split_and!; [apply steps_emits_refl|done|].
    intros Hok. specialize (Hd Hok). rewrite E in Hd. by destruct (rows_nonempty cur).
  - eapply wp_mono; [by apply send_spec|]. intros r s' (t & Hs & Hb & Hp).
    exists t. split_and!; [done|done|]. intros Hok.
    destruct Hp as [(Hp & Hr & _)|(frame & Hf & Hp)]; [by right|].
    destruct (next _) as [| |ret status]; injection Hp as -> ->; [right; tauto..|left].
    exists frame. split_and!; [done| |by destruct (_ && _); [left|right]].
    destruct (last cur) as [l|] eqn:El; [|by apply last_None in El].
    exists l. split; [done|]. destruct (Hlast l El) as [-> ->]. by rewrite <- (Hd Hok).
Qed.

(** ** The loop over the events *)

Definition max_rows (ctx : xsiam_log_ctx) : Z :=
  if lx_max_batch_rows ctx >? 0 then lx_max_batch_rows ctx else 8192.

(** The state of the loop: the buffer holds the rows [cur]. *)
Record collecting (ctx : xsiam_log_ctx) (s : S) (cur : list line) (b : dbuf_t)
    (count agent : Z) (tag : bytes) : Prop := {
  col_wf : buf_wf b;
  col_len : dbuf_len b <= zlen (rows_of cur);
  col_data : alloc_ok (world_of s) -> xb_data b = rows_of cur;
  col_count : count = zlen cur;
  col_last : cur <> [] -> last_is cur agent tag;
  col_tag : zlen tag <= 127;
  col_rows : newline_ended cur;
}.

(** The requests of a list of batches. *)
Definition posted_all (ctx : xsiam_log_ctx) (sent : list (list line)) (t : list effect) : Prop :=
  exists frames, posts t = map (post_of ctx) frames /\ Forall2 (carries ctx) sent frames.

Lemma posted_all_nil ctx t : posts t = [] -> posted_all ctx [] t.
Proof. intros Hp. exists []. by split; [|constructor]. Qed.

Lemma posted_all_app ctx a b t u :
  posted_all ctx a t -> posted_all ctx b u -> posted_all ctx (a ++ b) (t ++ u).
Proof.
  intros (f1 & H1 & F1) (f2 & H2 & F2). exists (f1 ++ f2).
  rewrite posts_app, H1, H2, map_app. by split; [|apply Forall2_app].
Qed.

Definition released (t : list effect) : Prop :=
  forall blk, live blk t = live blk [Release "tsv"; Release "decoder"].

Definition rest_of (cur : list line) : list (list line) :=
  match cur with [] => [] | _ => [cur] end.

(** How the loop ends: early with a result that is not [FLB_OK], some of the
    batches sent and everything released; or with all but the last batch sent. *)
Definition flushed (ctx : xsiam_log_ctx) (all : list (list line)) (s : S)
    (r : Z + dbuf_t * Z * Z * bytes) (s' : S) : Prop :=
  exists t, steps (emits t) s s' /\
  match r with
  | inl sr => sr <> FLB_OK /\ released t /\
      (alloc_ok (world_of s) -> exists sent, sent `prefix_of` all /\ posted_all ctx sent t)
  | inr (b, count, agent, tag) => balanced t /\
      exists cur, collecting ctx s cur b count agent tag /\ dbuf_len b <= 2 ^ 30 /\
        (alloc_ok (world_of s) -> exists sent, all = sent ++ rest_of cur /\ posted_all ctx sent t)
  end.

Lemma rows_of_snoc cur l : rows_of (cur ++ [l]) = rows_of cur ++ ln_row l.
Proof. unfold rows_of. rewrite map_app, concat_app. cbn. by rewrite app_nil_r. Qed.

Lemma zlen_rows_cons l ls : zlen (rows_of (l :: ls)) = zlen (ln_row l) + zlen (rows_of ls).
Proof. unfold rows_of. cbn. apply zlen_app. Qed.

Lemma collecting_from t ctx s s' cur b count agent tag :
  steps (emits t) s s' -> collecting ctx s' cur b count agent tag ->
  collecting ctx s cur b count agent tag.
Proof.
  intros Hs []. constructor; try done. intros Hok. apply col_data0.
  by apply (steps_alloc_ok t s s').
Qed.

(** Going on after effects that sent some batches. *)
Lemma flushed_after ctx done_ all t s s' r s'' :
  steps (emits t) s s' -> balanced t ->
  (alloc_ok (world_of s) -> posted_all ctx done_ t) ->
  flushed ctx all s' r s'' -> flushed ctx (done_ ++ all) s r s''.
Proof.
  intros Hs Hb Hp (u & Hu & Hr). exists (t ++ u).
  pose proof (steps_alloc_ok t s s' Hs) as Hok. split; [by eapply steps_emits_trans|].
  destruct r as [sr|[[[b count] agent] tag]].
  - destruct Hr as (Hsr & Hrel & Hrest). split_and!; [done| |].
    + intros blk. by rewrite live_app, Hb, Z.add_0_l.
    + intros Ha. destruct (Hrest (proj1 Hok Ha)) as (sent & Hpre & Hsent).
      exists (done_ ++ sent). split; [by apply prefix_app|]. by apply posted_all_app; [apply Hp|].
  - destruct Hr as (Hbal & cur & Hcol & Hlen & Hrest). split; [by apply balanced_app|].
    exists cur. split_and!; [by eapply collecting_from|done|].
    intros Ha. destruct (Hrest (proj1 Hok Ha)) as (sent & -> & Hsent).
    exists (done_ ++ sent). split; [by rewrite <- app_assoc|]. by apply posted_all_app; [apply Hp|].
Qed.

Lemma flush_events_spec ctx events cur b count agent tag s :
  collecting ctx s cur b count agent tag -> lx_max_batch_rows ctx < 2 ^ 31 ->
  zlen cur < max_rows ctx -> zlen cur + zlen events < 2 ^ 31 ->
  zlen (rows_of cur) + zlen (rows_of (lines_of_events tag events)) <= 2 ^ 30 ->
  wp (flush_events ctx events b count agent tag)
    (flushed ctx (batches (max_rows ctx) cur (lines_of_events tag events)) s) s.
Proof.
  revert cur b count agent tag s.
  induction events as [|ev events IH]; intros cur b count agent tag s Hcol Hmax Hcur Hn Hlen;
    cbn [flush_events lines_of_events batches].
  { apply wp_ret. exists []. split; [apply steps_emits_refl|]. split; [done|].
    exists cur. split; [done|]. destruct Hcol. split.
    - cbn [lines_of_events] in Hlen. change (rows_of []) with (@nil Z) in Hlen.
      rewrite zlen_nil in Hlen. lia.
    - intros _. exists []. split; [|by apply posted_all_nil]. by destruct cur. }
  destruct Hcol. subst count. set (r := read_event tag ev) in *.
  set (l := Line (row_bytes r (ev_sec ev)) (rf_agent_id r) (rf_tag r)) in *.
  assert (Hlen' : zlen (rows_of cur) + zlen (ln_row l) +
    zlen (rows_of (lines_of_events (rf_tag r) events)) <= 2 ^ 30).
  { cbn [lines_of_events] in Hlen. fold r l in Hlen. rewrite zlen_rows_cons in Hlen. lia. }
  pose proof (zlen_nonneg (rows_of (lines_of_events (rf_tag r) events))).
  pose proof (zlen_nonneg events). pose proof (zlen_nonneg cur).
  rewrite zlen_cons in Hn. apply wp_bind. eapply wp_mono.
  { apply append_event_spec; [done|done|]. fold r. change (row_bytes r (ev_sec ev)) with (ln_row l).
    lia. }
  fold r. change (row_bytes r (ev_sec ev)) with (ln_row l).
  intros [b1 r1] s1 (-> & Hs1 & Hb1 & Hl1 & Hd1). cbv zeta.
  assert (Hcol1 : collecting ctx s1 (cur ++ [l]) b1 (zlen cur + 1) (rf_agent_id r) (rf_tag r)).
  { constructor.
    - done.
    - rewrite rows_of_snoc, zlen_app. lia.
    - intros Hok. assert (Hok0 : alloc_ok (world_of s))
        by (by apply (steps_alloc_ok [] s s1), Hok; apply quiet_emits).
      by rewrite (Hd1 Hok0), (col_data0 Hok0), rows_of_snoc.
    - by rewrite zlen_app.
    - intros _ l'. rewrite last_snoc. by intros [= <-].
    - by apply read_event_tag.
    - apply Forall_app_2; [done|]. apply Forall_cons_2; [|by apply Forall_nil_2].
      cbn. unfold row_bytes. intros E. by do 2 apply app_eq_nil in E as [_ E]. }
  pose proof (quiet_emits _ _ Hs1) as He1.
  rewrite uwrap_small by (unfold fits; lia). rewrite s32_small by lia.
  fold (max_rows ctx). fold (rows_of (cur ++ [l])).
  assert (Hz : zlen (cur ++ [l]) = zlen cur + 1) by (by rewrite zlen_app). rewrite Hz.
  pose proof (rows_of_snoc cur l) as Hrows. rewrite Z.geb_leb.
  destruct (Z.leb_spec (max_rows ctx) (zlen cur + 1)) as [Hfull|Hroom].
  2: { eapply wp_mono.
       { apply (IH (cur ++ [l])); [by destruct Hcol1; constructor|done|lia|lia|].
         rewrite Hrows, zlen_app. lia. }
       intros r' s' Hr'. by eapply (flushed_after ctx [] _ [] s s1);
         [exact He1|done|intros _; by apply posted_all_nil|exact Hr']. }
  rewrite <- Hz. destruct Hcol1. apply wp_bind. eapply wp_mono.
  { apply (send_batch_spec ctx (rf_agent_id r) (rf_tag r)); try done.
    - unfold dbuf_len in *. rewrite Hrows, zlen_app in col_len1. lia.
    - by destruct cur.
    - apply col_last1. by destruct cur. }
  intros sr s2 (t & Ht & Hbal & Hp).
  destruct (Z.eqb_spec sr FLB_OK) as [->|Hsr]; cbn [negb].
  - eapply wp_mono.
    { apply (IH []); [|done|change (zlen (@nil line)) with 0; unfold max_rows;
        destruct (Z.gtb_spec (lx_max_batch_rows ctx) 0); lia|
        change (zlen (@nil line)) with 0; lia|change (rows_of []) with (@nil Z);
        rewrite zlen_nil; pose proof (zlen_nonneg (rows_of cur));
        pose proof (zlen_nonneg (ln_row l)); lia].
      destruct col_wf1. constructor; try done; [|by apply Forall_nil_2].
      split; cbn [xb_data xb_cap]; [change (zlen (@nil Z)) with 0; lia|done]. }
    intros r' s' Hr'. eapply (flushed_after ctx [cur ++ [l]] _ t s s2);
      [exact (steps_emits_trans [] _ _ _ _ He1 Ht)|done| |exact Hr'].
    intros Hok. destruct (Hp (proj1 (steps_alloc_ok [] _ _ He1) Hok))
      as [(frame & Hps & Hcar & _)|[_ [E|E]]]; [|discriminate E..].
    exists [frame]. split; [done|]. by repeat constructor.
  - apply wp_bind. unfold dbuf_free. apply wp_bind, wp_free. intros s3 Hs3.
    apply wp_ret. apply wp_bind, wp_free. intros s4 Hs4. apply wp_ret.
    exists (t ++ [Release "tsv"] ++ [Release "decoder"]).
    split; [exact (steps_emits_trans [] _ _ _ _ He1 (steps_emits_trans _ _ _ _ _ Ht
      (steps_emits_trans _ _ _ _ _ Hs3 Hs4)))|].
    split; [done|]. split; [intros blk; by rewrite live_app, Hbal|].
    intros Hok. assert (Hno : posts [Release "tsv"; Release "decoder"] = []) by done.
    destruct (Hp (proj1 (steps_alloc_ok [] _ _ He1) Hok)) as [(frame & Hps & Hcar & _)|[Hps _]].
    + exists [cur ++ [l]]. split; [by apply (prefix_app [_] []), prefix_nil|].
      exists [frame]. rewrite posts_app, Hps. split; [done|]. by repeat constructor.
    + exists []. split; [apply prefix_nil|]. apply posted_all_nil. by rewrite posts_app, Hps.
Qed.

Lemma cb_flush_spec ctx events s :
  lx_max_batch_rows ctx < 2 ^ 31 -> zlen events < 2 ^ 31 ->
  let lines := lines_of_events (str "agent_log") events in
  zlen (rows_of lines) <= 2 ^ 30 ->
  wp (cb_flush ctx (Some events)) (fun r s' => exists t, steps (emits t) s s' /\ balanced t /\
    (alloc_ok (world_of s) -> exists sent,
       sent `prefix_of` batches (max_rows ctx) [] lines /\ posted_all ctx sent t /\
       (r = FLB_OK -> sent = batches (max_rows ctx) [] lines))) s.
Proof.
  intros Hmax Hn lines Hlen. unfold cb_flush. pose proof (zlen_nonneg events).
  apply wp_bind, wp_emit. match goal with |- wp _ _ ?s0 => set (s1 := s0) end.
  assert (Hs1 : steps (emits [Acquire "decoder"]) s s1) by apply steps_emit.
  clearbody s1. unfold dbuf_init. cbn [Z.eqb]. apply wp_bind, wp_bind, wp_malloc.
  2: { intros s2 Hs2 Hno. apply wp_ret. cbn [Z.eqb negb]. apply wp_bind, wp_free.
       intros s3 Hs3. apply wp_ret. eexists.
       split; [exact (steps_emits_trans _ _ _ _ _ (steps_emits_quiet _ _ _ _ Hs1 Hs2) Hs3)|].
       split; [balance|]. intros Hok. destruct Hno. by apply (steps_alloc_ok _ _ _ Hs1). }
  intros s2 Hs2. apply wp_ret. cbn [Z.eqb negb].
  pose proof (steps_emits_trans _ _ _ _ _ Hs1 Hs2) as Hs12. cbn [app] in Hs12.
  apply wp_bind. eapply wp_mono.
  { apply (flush_events_spec ctx events [] _ 0 0 (str "agent_log") s2); [|done| | |done].
    - constructor; try done. by apply Forall_nil_2.
    - change (zlen (@nil line)) with 0. unfold max_rows.
      destruct (Z.gtb_spec (lx_max_batch_rows ctx) 0); lia.
    - change (zlen (@nil line)) with 0. lia. }
  fold lines. intros r s3 (t & Ht & Hr).
  pose proof (steps_emits_trans _ _ _ _ _ Hs12 Ht) as Hs13.
  pose proof (steps_alloc_ok _ _ _ Hs12) as Hok.
  destruct r as [sr|[[[b count] agent] tag]].
  - destruct Hr as (Hsr & Hrel & Hsent). apply wp_ret. eexists. split; [exact Hs13|].
    split; [intros blk; rewrite live_app, Hrel; revert blk; balance|].
    intros Ha. destruct (Hsent (proj1 Hok Ha)) as (sent & Hpre & frames & Hp & Hf).
    exists sent. split_and!; [done|by exists frames; rewrite posts_app|]. by intros ->.
  - destruct Hr as (Hbal & cur & [] & Hblen & Hsent). subst count.
    apply wp_bind, wp_free. intros s4 Hs4.
    pose proof (steps_emits_trans _ _ _ _ _ Hs13 Hs4) as Hs14.
    assert (Hend : forall final s5 u, steps (emits u) s4 s5 -> balanced u ->
      (alloc_ok (world_of s2) -> exists sent', sent' `prefix_of` rest_of cur /\
         posted_all ctx sent' u /\ (final = FLB_OK -> sent' = rest_of cur)) ->
      wp (_ ← dbuf_free "tsv" b; mret final) (fun r s' => exists t, steps (emits t) s s' /\
        balanced t /\ (alloc_ok (world_of s) -> exists sent,
          sent `prefix_of` batches (max_rows ctx) [] lines /\ posted_all ctx sent t /\
          (r = FLB_OK -> sent = batches (max_rows ctx) [] lines))) s5).
    { intros final s5 u Hu Hbu Hsu. unfold dbuf_free. apply wp_bind, wp_bind, wp_free.
      intros s6 Hs6. apply wp_ret, wp_ret. eexists.
      split; [exact (steps_emits_trans _ _ _ _ _ (steps_emits_trans _ _ _ _ _ Hs14 Hu) Hs6)|].
      split; [intros blk; rewrite !live_app, Hbal, Hbu; revert blk; balance|].
      intros Ha. destruct (Hsent (proj1 Hok Ha)) as (sent & Hall & Hps).
      destruct (Hsu (proj1 Hok Ha)) as (sent' & Hpre & Hps' & Hfin).
      exists (sent ++ sent'). rewrite Hall. split_and!.
      - by apply prefix_app.
      - assert (Hq : forall x, posts [x] = [] -> posted_all ctx [] [x])
          by (intros; by apply posted_all_nil).
        rewrite <- (app_nil_l (sent ++ sent')), <- (app_nil_r ([] ++ sent ++ sent')).
        apply posted_all_app; [|by apply Hq]. rewrite <- !app_assoc.
        apply (posted_all_app ctx []); [by apply posted_all_nil|].
        apply posted_all_app; [done|]. by apply (posted_all_app ctx []); [apply Hq|].
      - intros Hr. by rewrite Hfin. }
    destruct (Z.gtb_spec (zlen cur) 0).
    + apply wp_bind. eapply wp_mono.
      { apply (send_batch_spec ctx agent tag b cur); [exact Hblen|by intros ->|done|
          apply col_last0; by intros ->|].
        intros Ha. apply col_data0. apply (steps_alloc_ok _ _ _ Ht).
        by apply (steps_alloc_ok _ _ _ Hs4). }
      intros final s5 (u & Hu & Hbu & Hpu). apply (Hend final s5 u); [done|done|].
      intros Ha. assert (Hne : rest_of cur = [cur]) by (by destruct cur). rewrite Hne.
      assert (Ha4 : alloc_ok (world_of s4))
        by (by apply (steps_alloc_ok _ _ _ Hs4), (steps_alloc_ok _ _ _ Ht)).
      destruct (Hpu Ha4) as [(frame & Hps & Hcar & _)|[Hps Hr]].
      * exists [cur]. split_and!; [done| |done]. exists [frame]. split; [done|]. by repeat constructor.
      * exists []. split_and!; [apply prefix_nil|by apply posted_all_nil|].
        by destruct Hr as [-> | ->].
    + apply wp_bind, wp_ret. apply (Hend FLB_OK s4 []); [apply steps_emits_refl|done|].
      assert (cur = []) as -> by (destruct cur; [done|zlia]).
      intros _. exists []. split_and!; [done|by apply posted_all_nil|done].
Qed.
End flush.

(** * The theorems *)

(** Batching only cuts the rows: nothing is lost, repeated or reordered. *)
Lemma batches_concat max cur lines : concat (batches max cur lines) = cur ++ lines.
Proof.
  revert cur. induction lines as [|l lines IH]; intros cur; cbn [batches].
  - destruct cur; [done|]. cbn. by rewrite !app_nil_r.
  - destruct (_ >=? _); cbn [concat]; rewrite IH; by rewrite <- app_assoc.
Qed.

Lemma batches_sizes max cur lines : 1 <= max -> zlen cur < max ->
  Forall (fun b => 1 <= zlen b <= max) (batches max cur lines).
Proof.
  intros Hm. revert cur. induction lines as [|l lines IH]; intros cur Hc; cbn [batches].
  - destruct cur as [|l cur]; [by apply Forall_nil_2|].
    apply Forall_cons_2; [|by apply Forall_nil_2]. pose proof (zlen_nonneg cur).
    rewrite zlen_cons in *. lia.
  - assert (Hz : zlen (cur ++ [l]) = zlen cur + 1) by (by rewrite zlen_app).
    pose proof (zlen_nonneg cur). rewrite Z.geb_leb. destruct (Z.leb_spec max (zlen (cur ++ [l]))).
    + apply Forall_cons_2; [lia|]. apply IH. change (zlen (@nil line)) with 0. lia.
    + apply IH. lia.
Qed.

Lemma max_rows_range ctx : lx_max_batch_rows ctx < 2 ^ 31 -> 1 <= max_rows ctx < 2 ^ 31.
Proof. intros H. unfold max_rows. destruct (Z.gtb_spec (lx_max_batch_rows ctx) 0); lia. Qed.

Section theorems.
Context {S : Type} `{!HasWorld S} `{!Compressor} `{Laws : !CompressorLaws}.
Implicit Types s : S.

(** C13: a flush leaks nothing: whatever fails - memory at any point, the
    compressor, the connection, the server's answer - and whatever the events
    hold, [cb_flush] ends with every block and the decoder released, and never
    writes outside a buffer. *)
Theorem cb_flush_leak_free ctx events s :
  lx_max_batch_rows ctx < 2 ^ 31 -> zlen events < 2 ^ 31 ->
  zlen (rows_of (lines_of_events (str "agent_log") events)) <= 2 ^ 30 ->
  exists r s' t, cb_flush ctx (Some events) s = Some (r, s') /\
    w_trace (world_of s') = w_trace (world_of s) ++ t /\ forall block, live block t = 0.
Proof.
  intros Hm Hn Hl. destruct (proj1 (wp_run _ _ _) (cb_flush_spec ctx events s Hm Hn Hl))
    as (r & s' & Hrun & t & (f & -> & (T & _)) & Hb & _). by exists r, (in_world f s), t.
Qed.

(** C14: a flush delivers the rows of its chunk: with memory available, the
    requests made are the frames of the first batches of the rows, in order, each
    batch posted at most once and all of them when the result is [FLB_OK]; the
    batches are the rows of the events cut into pieces of at most the configured
    size, none empty. *)
Theorem cb_flush_delivers ctx events s :
  lx_max_batch_rows ctx < 2 ^ 31 -> zlen events < 2 ^ 31 ->
  let lines := lines_of_events (str "agent_log") events in
  let all := batches (max_rows ctx) [] lines in
  zlen (rows_of lines) <= 2 ^ 30 -> alloc_ok (world_of s) ->
  concat all = lines /\ Forall (fun b => 1 <= zlen b <= max_rows ctx) all /\
  exists r s' t sent frames, cb_flush ctx (Some events) s = Some (r, s') /\
    w_trace (world_of s') = w_trace (world_of s) ++ t /\
    posts t = map (post_of ctx) frames /\ Forall2 (carries ctx) sent frames /\
    sent `prefix_of` all /\ (r = FLB_OK -> sent = all).
Proof.
  intros Hm Hn lines all Hl Hok. pose proof (max_rows_range ctx Hm) as Hmax.
  split; [apply batches_concat|]. split.
  { apply batches_sizes; [lia|]. change (zlen (@nil line)) with 0. lia. }
  destruct (proj1 (wp_run _ _ _) (cb_flush_spec ctx events s Hm Hn Hl))
    as (r & s' & Hrun & t & (f & -> & (T & _)) & _ & Hd).
  destruct (Hd Hok) as (sent & Hpre & (frames & Hp & Hf) & Hall).
  by exists r, (in_world f s), t, sent, frames.
Qed.

(** C38: what a batch is posted as is read back by the server. Sending rows for an
    agent posts, when there is a connection, exactly one frame to the ingest path,
    and the result is [FLB_OK] if and only if the transfer succeeds with status
    204; without a connection nothing is posted and the chunk is retried. The server's decoder
    recovers from the frame the agent, the clipped tag, the number of rows, their
    size, the columns and the payload, and leaves what follows the frame; the
    payload decompresses to the rows. This is with memory available and for a
    payload of at most 65535 bytes (beyond it the length in the frame is cut, as
    for the agent's frames). *)
Theorem batch_frame_decodes ctx agent_id tag tsv rows comp s :
  alloc_ok (world_of s) -> xb_data tsv <> [] -> zlen (xb_data tsv) <= 2 ^ 30 ->
  fits 64 agent_id -> fits 32 rows ->
  ZSTD_compress (ZSTD_compressBound (zlen (xb_data tsv))) (xb_data tsv)
    (lx_compress_level ctx) = Some comp -> zlen comp < 2 ^ 16 ->
  exists r s' t, send_xlog_frame ctx agent_id (Some tag) tsv rows s = Some (r, s') /\
    w_trace (world_of s') = w_trace (world_of s) ++ t /\
    match next (w_http (world_of s)) with
    | HttpDone ret status =>
        (r = if (ret =? 0) && (status =? 204) then FLB_OK else FLB_RETRY) /\
        exists frame seq ts body_len,
          posts t = [HttpPost (str "/internal/agent/log") (post_headers ctx) frame] /\
          (forall rest, ReadBatch (frame ++ rest) = Some
            (mkFrameHeader Version TypeLogBatch 0 (take 255 tag) agent_id seq ts body_len,
             mkLogBatch 1 rows (zlen (xb_data tsv)) (splitColumns XLOG_COLUMNS_CSV) comp, rest)) /\
          ZSTD_decompress comp = Some (xb_data tsv)
    | _ => r = FLB_RETRY /\ posts t = []
    end.
Proof.
  intros Hok Hne Hl Ha Hr Hcomp Hsmall.
  destruct (proj1 (wp_run _ _ _) (send_spec ctx agent_id tag tsv rows s Hne Hl))
    as (r & s' & Hrun & t & (f & -> & (T & _)) & _ & Hd).
  exists r, (in_world f s), t. split; [done|]. split; [done|].
  destruct Hd as [(_ & _ & Hno)|(frame & Hf & Hans)].
  { apply Hno in Hok as [_ Hnone]. by rewrite Hcomp in Hnone. }
  destruct (next _) as [| |ret status]; injection Hans as -> ->; [done..|]. split; [done|].
  destruct Hf as (comp' & seq & ts & Hseq & Hts & Hcl & Hcomp' & ->).
  assert (comp' = comp) as -> by congruence. exists (batch_frame (take 255 tag) agent_id seq ts
    (encoded_body rows (u32 (zlen (xb_data tsv))) XLOG_COLUMNS_CSV comp)), seq, ts.
  pose proof (zlen_nonneg (xb_data tsv)).
  rewrite encoded_body_small, (uwrap_small 32) by (done || (unfold fits; lia)). eexists.
  split; [reflexivity|]. split; [|by eapply compress_lossless].
  intros rest. apply ReadBatch_frame; try done.
  - destruct (clip_tag_spec tag) as [? ->]. lia.
  - unfold fits. lia.
  - by eapply compress_nonempty.
Qed.
End theorems.

(** The columns of an event are dropped when its log nearly fills the row
    buffer: for a log of exactly 4094 bytes the row is the log alone, for every
    agent, time, event, kind and tag. *)
Theorem row_columns_dropped r sec :
  zlen (rf_log r) = 4094 -> row_bytes r sec = rf_log r ++ [10].
Proof.
  intros H. unfold row_bytes, row_prefix_len. rewrite H.
  change (u64 (ROW_SIZE - 4094 - 2)) with 0. pose proof (zlen_nonneg (row_prefix r sec)).
  rewrite Z.geb_leb, (proj2 (Z.leb_le _ _)), orb_true_r by lia. done.
Qed.

(** * Concrete runs *)

Definition sample_log_ctx (max : Z) : xsiam_log_ctx :=
  LogCtx None None None 3 max true.

Definition sample_event (agent : Z) (log : bytes) : log_event :=
  LogEvent 1700000000 (Some [(str "agent_id", MUint agent); (str "event_id", MUint 4);
    (str "kind", MUint 1); (str "session_protocol", MStr (str "agent_wzcp"));
    (str "log", MStr log)]).

Definition sample_http (answers : list http_answer) : world :=
  (sample_world 4096 (fun _ => [])) <| w_http :=
    Oracle (fun n => nth n answers (HttpDone 0 500)) 0%nat |>.

(** A failure after the first batch makes the whole chunk be retried: the
    first batch has been accepted by the server (status 204), yet the result asks
    for the chunk again, so its rows will be posted twice. *)
Theorem flush_retry_duplicates :
  let ctx := sample_log_ctx 1 in
  let events := [sample_event 1 (str "one"); sample_event 2 (str "two")] in
  match cb_flush ctx (Some events) (sample_http [HttpDone 0 204; HttpDone 0 500]) with
  | Some (r, w) => r = FLB_RETRY /\ zlen (posts (w_trace w)) = 2
  | None => False
  end.
Proof. by vm_compute. Qed.

Example sample_row :
  row_bytes (read_event (str "agent_log") (sample_event 7 (str "logon"))) 1700000000 =
  str "7" ++ [9] ++ str "2023-11-14T22:13:20Z" ++ [9] ++ str "4" ++ [9] ++ str "1" ++ [9] ++
  str "agent_wzcp" ++ [9] ++ str "logon" ++ [10].
Proof. by vm_compute. Qed.

Example cb_flush_leak_free_witness :
  let ctx := sample_log_ctx 2 in
  let events := [sample_event 1 (str "one"); sample_event 2 (str "two"); sample_event 3 []] in
  let w := (sample_http [HttpNoConn]) <| w_alloc := Oracle (fun n => (n <? 3)%nat) 0%nat |> in
  exists r s' t, cb_flush ctx (Some events) w = Some (r, s') /\
    w_trace (world_of s') = w_trace (world_of w) ++ t /\ forall block, live block t = 0.
Proof.
  intros ctx events w. apply (cb_flush_leak_free ctx events w); vm_compute; done.
Defined.

Example cb_flush_delivers_witness :
  let ctx := sample_log_ctx 2 in
  let events := [sample_event 1 (str "one"); sample_event 2 (str "two"); sample_event 3 []] in
  let w := sample_http [HttpDone 0 204; HttpDone 0 204] in
  let lines := lines_of_events (str "agent_log") events in
  let all := batches (max_rows ctx) [] lines in
  concat all = lines /\ Forall (fun b => 1 <= zlen b <= max_rows ctx) all /\
  exists r s' t sent frames, cb_flush ctx (Some events) w = Some (r, s') /\
    w_trace (world_of s') = w_trace (world_of w) ++ t /\
    posts t = map (post_of ctx) frames /\ Forall2 (carries ctx) sent frames /\
    sent `prefix_of` all /\ (r = FLB_OK -> sent = all).
Proof.
  intros ctx events w. apply (cb_flush_delivers ctx events w);
    [vm_compute; done..|by intros n].
Defined.

Example batch_frame_decodes_witness :
  let ctx := sample_log_ctx 2 in
  let batch := lines_of_events (str "agent_log") [sample_event 1 (str "one"); sample_event 2 (str "two")] in
  let tsv := XlogBuf (rows_of batch) 65536 in
  let w := sample_http [HttpDone 0 204] in
  exists r w' t, send_xlog_frame ctx 2 (Some (str "agent_wzcp")) tsv 2 w = Some (r, w') /\
    w_trace w' = w_trace w ++ t /\ r = FLB_OK /\
    exists frame seq ts body_len,
      posts t = [HttpPost (str "/internal/agent/log") (post_headers ctx) frame] /\
      (forall rest, ReadBatch (frame ++ rest) = Some
        (mkFrameHeader Version TypeLogBatch 0 (str "agent_wzcp") 2 seq ts body_len,
         mkLogBatch 1 2 (zlen (rows_of batch)) (splitColumns XLOG_COLUMNS_CSV) (rows_of batch), rest)) /\
      ZSTD_decompress (rows_of batch) = Some (rows_of batch).
Proof.
  intros ctx batch tsv w.
  destruct (batch_frame_decodes ctx 2 (str "agent_wzcp") tsv 2 (rows_of batch) w)
    as (r & w' & t & Hrun & Ht & Hr & frame & seq & ts & n & Hp & Hread & Hz).
  - by intros n.
  - vm_compute. done.
  - vm_compute. done.
  - vm_compute. done.
  - vm_compute. done.
  - apply passthrough_small. vm_compute. done.
  - vm_compute. done.
  - exists r, w', t. split; [exact Hrun|]. split; [exact Ht|]. split; [exact Hr|].
    exists frame, seq, ts, n. split; [exact Hp|]. split; [exact Hread|exact Hz].
Defined.

Example row_columns_dropped_witness :
  let r := RowFields 7 1 1 (replicate (Z.to_nat 4094) 65) (str "t") in
  row_bytes r 0 = rf_log r ++ [10].
Proof. intros r. apply (row_columns_dropped r 0). unfold r. cbn [rf_log]. by rewrite zlen_replicate. Defined.
