(* ===== verification/GwPlugin.v ===== *)
(** The gateway agent plugin's entry, gateway/plugins/in_xsiam_agent/xsiam_agent.c:
    the configuration map and how the engine fills the context with it
    (gateway/src/flb_config_map.c), start-up and shutdown. Every engine object is a
    labelled resource of the trace. *)
From S2P Require Import Prelude GwState GwConn GwArango GwServer.
#[local] Open Scope Z_scope.

(** * The configuration map *)

Definition lower (c : Z) : Z := if (65 <=? c) && (c <=? 90) then c + 32 else c.
Definition strcaseeq (a b : bytes) : bool := streq (map lower a) (map lower b).

(** The type of an option and the field of the context it is stored in. *)
Inductive config_field :=
| FLB_CONFIG_MAP_STR (set : bytes -> xsiam_agent_ctx -> xsiam_agent_ctx)
| FLB_CONFIG_MAP_INT (set : Z -> xsiam_agent_ctx -> xsiam_agent_ctx)
| FLB_CONFIG_MAP_BOOL (set : bool -> xsiam_agent_ctx -> xsiam_agent_ctx).

Record flb_config_map := ConfigMap {
  cm_name : bytes;
  cm_def_value : option bytes;
  cm_field : config_field;
}.

Definition config_map : list flb_config_map :=
  [ConfigMap (str "chunk_size") None
     (FLB_CONFIG_MAP_STR (fun v c => c <| ctx_chunk_size_str := Some v |>));
   ConfigMap (str "buffer_size") None
     (FLB_CONFIG_MAP_STR (fun v c => c <| ctx_buffer_size_str := Some v |>));
   ConfigMap (str "heartbeat_min") (Some (str "60"))
     (FLB_CONFIG_MAP_INT (fun v c => c <| ctx_heartbeat_min := v |>));
   ConfigMap (str "heartbeat_max") (Some (str "180"))
     (FLB_CONFIG_MAP_INT (fun v c => c <| ctx_heartbeat_max := v |>));
   ConfigMap (str "db_sync") (Some (str "true"))
     (FLB_CONFIG_MAP_BOOL (fun v c => c <| ctx_db_sync := v |>));
   ConfigMap (str "arango_host") (Some XSIAM_DB_HOST)
     (FLB_CONFIG_MAP_STR (fun v c => c <| ctx_arango_host := Some v |>));
   ConfigMap (str "arango_port") (Some (str "8529"))
     (FLB_CONFIG_MAP_INT (fun v c => c <| ctx_arango_port := v |>));
   ConfigMap (str "arango_user") (Some XSIAM_DB_USER)
     (FLB_CONFIG_MAP_STR (fun v c => c <| ctx_arango_user := Some v |>));
   ConfigMap (str "arango_pass") (Some XSIAM_DB_PASS)
     (FLB_CONFIG_MAP_STR (fun v c => c <| ctx_arango_pass := Some v |>));
   ConfigMap (str "arango_database") (Some XSIAM_DB_NAME)
     (FLB_CONFIG_MAP_STR (fun v c => c <| ctx_arango_database := Some v |>));
   ConfigMap (str "db_flush_interval") (Some (str "5"))
     (FLB_CONFIG_MAP_INT (fun v c => c <| ctx_db_flush_interval := v |>));
   ConfigMap (str "heartbeat_flush_interval") (Some (str "180"))
     (FLB_CONFIG_MAP_INT (fun v c => c <| ctx_heartbeat_flush_interval := v |>));
   ConfigMap (str "tenant_id") (Some (str "tenant-default"))
     (FLB_CONFIG_MAP_STR (fun v c => c <| ctx_tenant_id := Some v |>));
   ConfigMap (str "event_host") None
     (FLB_CONFIG_MAP_STR (fun v c => c <| ctx_event_host := Some v |>));
   ConfigMap (str "event_port") (Some (str "18090"))
     (FLB_CONFIG_MAP_INT (fun v c => c <| ctx_event_port := v |>))].

Definition flb_utils_bool (val : bytes) : option bool :=
  if strcaseeq val (str "true") || strcaseeq val (str "on") || strcaseeq val (str "yes")
  then Some true
  else if strcaseeq val (str "false") || strcaseeq val (str "off") || strcaseeq val (str "no")
  then Some false
  else None.

(** Storing a value in the context; [None] is the error of an invalid boolean. *)
Definition write_field (f : config_field) (val : bytes) (ctx : xsiam_agent_ctx)
    : option xsiam_agent_ctx :=
  match f with
  | FLB_CONFIG_MAP_STR set => Some (set val ctx)
  | FLB_CONFIG_MAP_INT set => Some (set (atoi val) ctx)
  | FLB_CONFIG_MAP_BOOL set => b ← flb_utils_bool val; Some (set b ctx)
  end.

(** The properties of the instance, in order, after the environment variables in
    their values were substituted. *)
Definition properties : Type := list (bytes * bytes).

Definition properties_override_default (props : properties) (name : bytes) : bool :=
  existsb (fun kv => strcaseeq (fst kv) name) props.

(** First the defaults that no property overrides, then the properties. *)
Fixpoint set_defaults (props : properties) (m : list flb_config_map)
    (ctx : xsiam_agent_ctx) : option xsiam_agent_ctx :=
  match m with
  | [] => Some ctx
  | e :: rest =>
      ctx ← match cm_def_value e with
            | None => Some ctx
            | Some d => if properties_override_default props (cm_name e) then Some ctx
                        else write_field (cm_field e) d ctx
            end;
      set_defaults props rest ctx
  end.

Fixpoint set_properties (props : properties) (m : list flb_config_map)
    (ctx : xsiam_agent_ctx) : option xsiam_agent_ctx :=
  match props with
  | [] => Some ctx
  | (key, val) :: rest =>
      ctx ← match List.find (fun e => strcaseeq key (cm_name e)) m with
            | Some e => write_field (cm_field e) val ctx
            | None => Some ctx
            end;
      set_properties rest m ctx
  end.

Definition flb_config_map_set (props : properties) (m : list flb_config_map)
    (ctx : xsiam_agent_ctx) : option xsiam_agent_ctx :=
  ctx ← set_defaults props m ctx; set_properties props m ctx.

(** * Start-up *)

(** What the plugin uses of the input instance: the configured address and the
    properties. *)
Record flb_input_instance := Instance {
  in_listen : option bytes;
  in_port : Z;
  in_properties : properties;
}.

Definition flb_input_net_default_listener (listen : bytes) (port : Z)
    (ins : flb_input_instance) : flb_input_instance :=
  Instance (Some (match in_listen ins with Some l => l | None => listen end))
    (if in_port ins =? 0 then port else in_port ins) (in_properties ins).

(** The context as [calloc] returns it, with no collector registered. *)
Definition blank_ctx (rand_state : Z) : xsiam_agent_ctx :=
  {| ctx_listen := None; ctx_tcp_port := None; ctx_arango_host := None;
     ctx_arango_user := None; ctx_arango_pass := None; ctx_arango_database := None;
     ctx_arango_port := 0; ctx_db_sync := false; ctx_db_flush_interval := 0;
     ctx_heartbeat_flush_interval := 0; ctx_event_host := None; ctx_event_port := 0;
     ctx_event_enabled := false; ctx_fb_instance_id := []; ctx_tenant_id := None;
     ctx_chunk_size_str := None; ctx_buffer_size_str := None; ctx_chunk_size := 0;
     ctx_buffer_size := 0; ctx_heartbeat_min := 0; ctx_heartbeat_max := 0;
     ctx_collector_id := -1; ctx_heartbeat_collector_id := -1;
     ctx_db_collector_id := -1; ctx_fb_lease_collector_id := -1; ctx_gateway_seq := 0;
     ctx_session_seq := 0; ctx_rand_state := rand_state; ctx_downstream := false;
     ctx_arango_upstream := false; ctx_event_upstream := false;
     ctx_log_encoder := false |}.

(** [(size_t)atoi(s) * 1024]. *)
Definition kilobytes (s : bytes) : Z := u64 (u64 (atoi s) * 1024).

Definition set_buffer_sizes (ctx : xsiam_agent_ctx) : xsiam_agent_ctx :=
  let chunk := match ctx_chunk_size_str ctx with Some s => kilobytes s | None => 32768 end in
  let buffer := match ctx_buffer_size_str ctx with
                | Some s => kilobytes s
                | None => u64 (chunk * 8)
                end in
  ctx <| ctx_chunk_size := chunk |> <| ctx_buffer_size := buffer |>.

Definition positive_or (default v : Z) : Z := if v <=? 0 then default else v.

Definition set_limits (ctx : xsiam_agent_ctx) : xsiam_agent_ctx :=
  let min := positive_or 60 (ctx_heartbeat_min ctx) in
  let max := positive_or 180 (ctx_heartbeat_max ctx) in
  ctx <| ctx_arango_port := positive_or XSIAM_DB_PORT (ctx_arango_port ctx) |>
      <| ctx_db_flush_interval :=
           positive_or XSIAM_DB_FLUSH_INTERVAL (ctx_db_flush_interval ctx) |>
      <| ctx_heartbeat_flush_interval :=
           positive_or XSIAM_DB_HEARTBEAT_FLUSH_INTERVAL (ctx_heartbeat_flush_interval ctx) |>
      <| ctx_heartbeat_min := min |>
      <| ctx_heartbeat_max := if max <? min then min else max |>.

Definition set_instance_id (ctx : xsiam_agent_ctx) : xsiam_agent_ctx :=
  let '(id, r) := gen_uuid_v4 (ctx_rand_state ctx) in
  ctx <| ctx_fb_instance_id := id |> <| ctx_rand_state := r |>.

Definition set_events (ctx : xsiam_agent_ctx) : xsiam_agent_ctx :=
  match ctx_event_host ctx with
  | Some (_ :: _) =>
      ctx <| ctx_event_port := positive_or XSIAM_EVENT_PORT (ctx_event_port ctx) |>
          <| ctx_event_enabled := true |>
  | _ => ctx
  end.

Section startup.
Context {S : Type} `{!HasWorld S}.

(** An engine object: granted, and then labelled in the trace, or refused. *)
Definition engine_create (object : string) : ST S bool :=
  ok ← resource_granted;
  if ok : bool then _ ← emit (Acquire object); mret true else mret false.

(** The engine numbers the collectors of an instance from zero. *)
Definition set_collector (collector : string) (next_id : Z) : ST S Z :=
  ok ← engine_create collector;
  mret (if ok : bool then next_id else -1).

Fixpoint release_all (objects : list string) : ST S unit :=
  match objects with
  | [] => mret tt
  | o :: rest => _ ← free o; release_all rest
  end.

(** An error path: release what was acquired, and return -1. *)
Definition init_failed {A} (objects : list string) : ST S (Z * option A) :=
  _ ← release_all objects; mret (-1, None).

(** [flb_strdup] of a default where the configuration gave nothing; the result is
    not tested. *)
Definition strdup_default (block : string) (p : option bytes) (default : bytes)
    : ST S (option bytes) :=
  match p with
  | Some _ => mret p
  | None => ok ← malloc block; mret (if ok : bool then Some default else None)
  end.

Definition set_arango_defaults (ctx : xsiam_agent_ctx) : ST S xsiam_agent_ctx :=
  host ← strdup_default "arango_host" (ctx_arango_host ctx) XSIAM_DB_HOST;
  user ← strdup_default "arango_user" (ctx_arango_user ctx) XSIAM_DB_USER;
  pass ← strdup_default "arango_pass" (ctx_arango_pass ctx) XSIAM_DB_PASS;
  db ← strdup_default "arango_database" (ctx_arango_database ctx) XSIAM_DB_NAME;
  mret (ctx <| ctx_arango_host := host |> <| ctx_arango_user := user |>
            <| ctx_arango_pass := pass |> <| ctx_arango_database := db |>).

(** What each error path releases, last acquired first. *)
Definition base_objects : list string := ["log_encoder"; "tcp_port"; "ctx"].
Definition server_objects : list string :=
  ["heartbeat_collector"; "collector"; "downstream"] ++ base_objects.

(** The database writer: [None] when it cannot be set up, in which case
    everything was released. *)
Definition init_db (ctx : xsiam_agent_ctx) : ST S (option xsiam_agent_ctx) :=
  if negb (ctx_db_sync ctx) then mret (Some ctx) else
  ok ← engine_create "arango_upstream";
  if negb ok then _ ← release_all server_objects; mret None else
  ret ← set_collector "db_collector" 2;
  if ret =? -1
  then _ ← release_all ("arango_upstream"%string :: server_objects); mret None else
  mret (Some (ctx <| ctx_arango_upstream := true |> <| ctx_db_collector_id := ret |>)).

(** Lifecycle events: a failure only disables them. *)
Definition init_events (ctx : xsiam_agent_ctx) : ST S xsiam_agent_ctx :=
  if negb (ctx_event_enabled ctx) then mret ctx else
  ok ← engine_create "event_upstream";
  if negb ok then mret (ctx <| ctx_event_enabled := false |>) else
  let ctx := ctx <| ctx_event_upstream := true |> in
  ret ← set_collector "fb_lease_collector" (if ctx_db_sync ctx then 3 else 2);
  mret (if ret =? -1 then ctx else ctx <| ctx_fb_lease_collector_id := ret |>).

(** The engine objects. *)
Definition init_engine (ctx : xsiam_agent_ctx) : ST S (Z * option xsiam_agent_ctx) :=
  ok ← engine_create "log_encoder";
  if negb ok then init_failed ["tcp_port"; "ctx"] else
  ok ← engine_create "downstream";
  if negb ok then init_failed base_objects else
  ret ← set_collector "collector" 0;
  if ret =? -1 then init_failed ("downstream"%string :: base_objects) else
  let ctx := ctx <| ctx_log_encoder := true |> <| ctx_downstream := true |>
                 <| ctx_collector_id := ret |> in
  ret ← set_collector "heartbeat_collector" 1;
  if ret =? -1 then init_failed (["collector"; "downstream"] ++ base_objects) else
  ctx ← init_db (ctx <| ctx_heartbeat_collector_id := ret |>);
  match ctx with
  | None => mret (-1, None)
  | Some ctx => ctx ← init_events ctx; mret (0, Some ctx)
  end.

(** [addr] is the address of the context, which seeds its generator. A text port
    that could not be allocated is passed to [strtoul]. *)
Definition init (ins : flb_input_instance) (addr : Z)
    : ST S (Z * option xsiam_agent_ctx) :=
  ok ← malloc "ctx";
  if negb ok then mret (-1, None) else
  now ← time_now;
  let ctx := blank_ctx (Z.lxor (u32 now) (u32 addr)) in
  match flb_config_map_set (in_properties ins) config_map ctx with
  | None => init_failed ["ctx"]
  | Some ctx =>
      let ins := flb_input_net_default_listener (str "0.0.0.0") 1514 ins in
      port_ok ← malloc "tcp_port";
      let ctx := ctx <| ctx_listen := in_listen ins |>
                     <| ctx_tcp_port := if port_ok : bool
                                        then Some (take 14 (dec (in_port ins)))
                                        else None |> in
      _ ← lift (ctx_tcp_port ctx);
      ctx ← set_arango_defaults (set_buffer_sizes ctx);
      init_engine (set_events (set_instance_id (set_limits ctx)))
  end.
End startup.

(** The plugin instance that starts: no agents and no connections. *)
Definition fresh_gw (ctx : xsiam_agent_ctx) (rand : oracle (Z * Z)) (w : world) : gw :=
  {| g_ctx := ctx; g_agents := []; g_connections := []; g_heap := ∅; g_fresh := 0;
     g_records := []; g_rand := rand; g_world := w |}.

(** * Shutdown *)

Definition free_if (b : bool) (block : string) : ST gw unit :=
  if b then free block else mret tt.

Definition collector_delete (collector : string) (id : Z) : ST gw unit :=
  free_if (negb (id =? -1)) collector.

Fixpoint destroy_agents (agents : list xsiam_agent_state) : ST gw unit :=
  match agents with
  | [] => mret tt
  | _ :: rest =>
      _ ← modify (fun g => g <| g_agents := rest |>);
      _ ← agent_state_destroy; destroy_agents rest
  end.

(** The first part of [exit_cb]: connections, collectors, upstreams (with the last
    flush), encoder and agents. *)
Definition exit_objects : ST gw unit :=
  conns ← gets g_connections;
  _ ← for_each (fun conn => _ ← conn_del conn; mret tt) conns;
  ctx ← gets g_ctx;
  _ ← collector_delete "collector" (ctx_collector_id ctx);
  _ ← collector_delete "heartbeat_collector" (ctx_heartbeat_collector_id ctx);
  _ ← collector_delete "db_collector" (ctx_db_collector_id ctx);
  _ ← collector_delete "fb_lease_collector" (ctx_fb_lease_collector_id ctx);
  _ ← free_if (ctx_downstream ctx) "downstream";
  _ ← (if ctx_arango_upstream ctx
       then _ ← arango_flush_dirty_agents; free "arango_upstream" else mret tt);
  _ ← free_if (ctx_event_upstream ctx) "event_upstream";
  _ ← free_if (ctx_log_encoder ctx) "log_encoder";
  agents ← gets g_agents;
  destroy_agents agents.

(** [flb_free] of a string of the configuration: valid only for a block that the
    plugin allocated and still holds.  The strings that the engine's configuration
    map stores in the context are not: they point into blocks that the map owns. *)
Definition free_config (block : string) (p : option bytes) : ST gw unit :=
  match p with
  | None => mret tt
  | Some _ =>
      held ← gets (fun g => live block (w_trace (g_world g)));
      if held >? 0 then free block else ub
  end.

Fixpoint free_configs (l : list (string * option bytes)) : ST gw unit :=
  match l with
  | [] => mret tt
  | (block, p) :: rest => _ ← free_config block p; free_configs rest
  end.

Definition ctx_strings (ctx : xsiam_agent_ctx) : list (string * option bytes) :=
  [("arango_host"%string, ctx_arango_host ctx); ("arango_user"%string, ctx_arango_user ctx);
   ("arango_pass"%string, ctx_arango_pass ctx);
   ("arango_database"%string, ctx_arango_database ctx);
   ("tenant_id"%string, ctx_tenant_id ctx); ("event_host"%string, ctx_event_host ctx)].

Definition exit_cb : ST gw Z :=
  _ ← exit_objects;
  ctx ← gets g_ctx;
  _ ← free_opt "tcp_port" (ctx_tcp_port ctx);
  _ ← free_configs (ctx_strings ctx);
  _ ← free "ctx"; mret 0.

(** * What the configuration guarantees *)

Lemma write_field_keeps (P : xsiam_agent_ctx -> Prop) f val c c' :
  (forall v c, P c -> match f with
     | FLB_CONFIG_MAP_STR set => P (set v c)
     | _ => True
     end) ->
  (forall n c, P c -> match f with FLB_CONFIG_MAP_INT set => P (set n c) | _ => True end) ->
  (forall b c, P c -> match f with FLB_CONFIG_MAP_BOOL set => P (set b c) | _ => True end) ->
  write_field f val c = Some c' -> P c -> P c'.
Proof.
  intros Hs Hi Hb. destruct f as [set|set|set]; cbn.
  - intros [= <-]. apply Hs.
  - intros [= <-]. apply Hi.
  - destruct (flb_utils_bool val); [|done]. intros [= <-]. apply Hb.
Qed.

(** A string option with a default is always given. *)
Section given.
Context (get : xsiam_agent_ctx -> option bytes) (m : list flb_config_map).
Context (e : flb_config_map) (d : bytes) (set : bytes -> xsiam_agent_ctx -> xsiam_agent_ctx).
Context (Hfind : List.find (fun e' => strcaseeq (cm_name e) (cm_name e')) m = Some e).
Context (Hd : cm_def_value e = Some d) (Hf : cm_field e = FLB_CONFIG_MAP_STR set).
Context (Hset : forall v c, is_Some (get (set v c))).
Context (Hkeep : forall e' v c c', In e' m -> write_field (cm_field e') v c = Some c' ->
  is_Some (get c) -> is_Some (get c')).

Lemma find_name key :
  strcaseeq key (cm_name e) = true ->
  List.find (fun e' => strcaseeq key (cm_name e')) m = Some e.
Proof.
  intros H%bool_decide_eq_true. rewrite <- Hfind. clear -H.
  induction m as [|x l IH]; [done|]. cbn. unfold strcaseeq at 1 3. rewrite <- H.
  by destruct (streq _ _).
Qed.

Lemma set_properties_given props c c' :
  set_properties props m c = Some c' ->
  is_Some (get c) \/ properties_override_default props (cm_name e) = true ->
  is_Some (get c').
Proof.
  revert c. induction props as [|[key val] rest IH]; intros c; cbn [set_properties].
  { intros [= <-] [?|?]; done. }
  destruct (List.find (fun e' => strcaseeq key (cm_name e')) m) as [e'|] eqn:E.
  - destruct (write_field (cm_field e') val c) as [c1|] eqn:Hw; cbn; [|discriminate].
    intros H Hor. apply (IH c1 H). destruct Hor as [Hg|Ho].
    + left. eapply Hkeep; [apply (find_some _ _ E)|exact Hw|exact Hg].
    + apply orb_true_iff in Ho as [Hk|Ho]; [left|by right].
      rewrite (find_name _ Hk) in E. injection E as <-.
      rewrite Hf in Hw. injection Hw as <-. apply Hset.
  - cbn. intros H Hor. apply (IH c H). destruct Hor as [Hg|Ho]; [by left|].
    apply orb_true_iff in Ho as [Hk|Ho]; [|by right].
    by rewrite (find_name _ Hk) in E.
Qed.

Lemma set_defaults_given props l c c' :
  (forall x, In x l -> In x m) ->
  set_defaults props l c = Some c' ->
  is_Some (get c) \/ In e l /\ properties_override_default props (cm_name e) = false ->
  is_Some (get c').
Proof.
  revert c. induction l as [|x l IH]; intros c Hl; cbn [set_defaults].
  { intros [= <-] [?|[[] _]]; done. }
  assert (Hx : In x m) by (apply Hl; by left).
  set (step := match cm_def_value x with None => _ | Some _ => _ end).
  destruct step as [c1|] eqn:Hs; cbn; [|discriminate]. intros H Hor.
  apply (IH c1 (fun y Hy => Hl y (or_intror Hy)) H). destruct Hor as [Hg|[[->|Hin] Hn]].
  - left. unfold step in Hs. destruct (cm_def_value x) as [d'|]; [|by simplify_eq].
    destruct (properties_override_default props (cm_name x)); [by simplify_eq|].
    by eapply Hkeep.
  - left. unfold step in Hs. rewrite Hd, Hn, Hf in Hs. injection Hs as <-. apply Hset.
  - by right.
Qed.

Lemma config_given props c c' :
  flb_config_map_set props m c = Some c' -> is_Some (get c').
Proof.
  unfold flb_config_map_set. destruct (set_defaults props m c) as [c1|] eqn:E; cbn; [|discriminate].
  intros H. apply (set_properties_given props c1 c' H).
  destruct (properties_override_default props (cm_name e)) eqn:Ho; [by right|left].
  apply (set_defaults_given props m c c1 (fun x Hx => Hx) E). right. split; [|done].
  exact (proj1 (find_some _ _ Hfind)).
Qed.
End given.

(** A property of the context that no option of the map disturbs. *)
Definition undisturbed (P : xsiam_agent_ctx -> Prop) : Prop :=
  forall v n b c, P c -> Forall (fun e => match cm_field e with
    | FLB_CONFIG_MAP_STR set => P (set v c)
    | FLB_CONFIG_MAP_INT set => P (set n c)
    | FLB_CONFIG_MAP_BOOL set => P (set b c)
    end) config_map.

Lemma config_keeps P : undisturbed P ->
  forall e v c c', In e config_map -> write_field (cm_field e) v c = Some c' -> P c -> P c'.
Proof.
  intros HP e v c c' Hin%list_elem_of_In.
  apply (write_field_keeps P (cm_field e) v c c'); intros x c0 H0;
    [pose proof (HP x 0 true c0 H0) as H|pose proof (HP [] x true c0 H0) as H
    |pose proof (HP [] 0 x c0 H0) as H];
    pose proof (proj1 (Forall_forall _ _) H e Hin) as E; cbv beta in E;
    by destruct (cm_field e).
Qed.

Lemma set_defaults_keeps P props l c c' :
  undisturbed P -> (forall x, In x l -> In x config_map) ->
  set_defaults props l c = Some c' -> P c -> P c'.
Proof.
  intros HP. revert c. induction l as [|x l IH]; intros c Hl; cbn [set_defaults].
  { by intros [= <-]. }
  set (step := match cm_def_value x with None => _ | Some _ => _ end).
  destruct step as [c1|] eqn:Hs; cbn; [|discriminate]. intros H Hc.
  apply (IH c1 (fun y Hy => Hl y (or_intror Hy)) H). unfold step in Hs.
  destruct (cm_def_value x) as [d|]; [|by simplify_eq].
  destruct (properties_override_default props (cm_name x)); [by simplify_eq|].
  by apply (config_keeps P HP x d c c1 (Hl x (or_introl eq_refl))).
Qed.

Lemma set_properties_keeps P props c c' :
  undisturbed P -> set_properties props config_map c = Some c' -> P c -> P c'.
Proof.
  intros HP. revert c. induction props as [|[key val] rest IH]; intros c; cbn [set_properties].
  { by intros [= <-]. }
  destruct (List.find (fun e => strcaseeq key (cm_name e)) config_map) as [e|] eqn:E; [|apply IH].
  destruct (write_field (cm_field e) val c) as [c1|] eqn:Hw; cbn; [|discriminate].
  intros H Hc. apply (IH c1 H).
  by apply (config_keeps P HP e val c c1 (proj1 (find_some _ _ E))).
Qed.

Lemma config_map_set_keeps P props c c' :
  undisturbed P -> flb_config_map_set props config_map c = Some c' -> P c -> P c'.
Proof.
  intros HP. unfold flb_config_map_set.
  destruct (set_defaults props config_map c) as [c1|] eqn:E; cbn; [|discriminate].
  intros H Hc. eapply set_properties_keeps; [done|exact H|].
  by eapply set_defaults_keeps; [| |exact E|].
Qed.

Definition strings_given (c : xsiam_agent_ctx) : Prop :=
  is_Some (ctx_arango_host c) /\ is_Some (ctx_arango_user c) /\
  is_Some (ctx_arango_pass c) /\ is_Some (ctx_arango_database c).

(** The entry [n] of the map sets [get]. *)
Ltac config_given_by get n :=
  let e := eval cbv in (nth n config_map (ConfigMap [] None (FLB_CONFIG_MAP_STR (fun _ c => c)))) in
  eapply (config_given get config_map (nth n config_map e));
  [reflexivity|reflexivity|reflexivity|intros; by eexists|
   apply (config_keeps (fun c => is_Some (get c))); intros v k b c0 H0; repeat constructor;
   first [exact H0|by eexists]|eassumption].

Lemma config_strings props c c' :
  flb_config_map_set props config_map c = Some c' -> strings_given c'.
Proof.
  intros H. split_and!;
    [config_given_by ctx_arango_host 5%nat|config_given_by ctx_arango_user 7%nat
    |config_given_by ctx_arango_pass 8%nat|config_given_by ctx_arango_database 9%nat].
Qed.

(** * What start-up acquires *)

Definition opt_label {A} (object : string) (p : option A) : list string :=
  match p with Some _ => [object] | None => [] end.
Definition flag_label (object : string) (b : bool) : list string :=
  if b then [object] else [].
Definition id_label (object : string) (id : Z) : list string :=
  flag_label object (negb (id =? -1)).

(** The objects a context holds. *)
Definition owned (ctx : xsiam_agent_ctx) : list string :=
  ["ctx"%string] ++ opt_label "tcp_port" (ctx_tcp_port ctx) ++
  flag_label "log_encoder" (ctx_log_encoder ctx) ++
  flag_label "downstream" (ctx_downstream ctx) ++
  id_label "collector" (ctx_collector_id ctx) ++
  id_label "heartbeat_collector" (ctx_heartbeat_collector_id ctx) ++
  flag_label "arango_upstream" (ctx_arango_upstream ctx) ++
  id_label "db_collector" (ctx_db_collector_id ctx) ++
  flag_label "event_upstream" (ctx_event_upstream ctx) ++
  id_label "fb_lease_collector" (ctx_fb_lease_collector_id ctx).

(** A context that the other components can work with. *)
Record configured (ctx : xsiam_agent_ctx) : Prop := {
  cfg_strings : strings_given ctx;
  cfg_port : 0 < ctx_arango_port ctx;
  cfg_flush : 0 < ctx_db_flush_interval ctx;
  cfg_heartbeat_flush : 0 < ctx_heartbeat_flush_interval ctx;
  cfg_heartbeats : 0 < ctx_heartbeat_min ctx <= ctx_heartbeat_max ctx;
  cfg_instance : is_uuid_v4 (ctx_fb_instance_id ctx) = true;
  cfg_chunk : ctx_chunk_size ctx =
    match ctx_chunk_size_str ctx with Some s => kilobytes s | None => 32768 end;
  cfg_buffer : ctx_buffer_size ctx =
    match ctx_buffer_size_str ctx with
    | Some s => kilobytes s
    | None => u64 (ctx_chunk_size ctx * 8)
    end;
}.

(** No engine object yet. *)
Record bare (ctx : xsiam_agent_ctx) : Prop := {
  bare_port : is_Some (ctx_tcp_port ctx);
  bare_encoder : ctx_log_encoder ctx = false;
  bare_downstream : ctx_downstream ctx = false;
  bare_arango : ctx_arango_upstream ctx = false;
  bare_event : ctx_event_upstream ctx = false;
  bare_collector : ctx_collector_id ctx = -1;
  bare_heartbeat : ctx_heartbeat_collector_id ctx = -1;
  bare_db : ctx_db_collector_id ctx = -1;
  bare_lease : ctx_fb_lease_collector_id ctx = -1;
}.

(** The settings that start-up does not change any more when it creates the
    engine objects. *)
Definition settings (c : xsiam_agent_ctx) :=
  (strings_given c, (ctx_tcp_port c, ctx_tenant_id c, ctx_event_host c),
   (ctx_arango_port c, ctx_db_sync c, ctx_db_flush_interval c, ctx_heartbeat_flush_interval c),
   (ctx_fb_instance_id c, ctx_chunk_size_str c, ctx_buffer_size_str c),
   (ctx_chunk_size c, ctx_buffer_size c, ctx_heartbeat_min c, ctx_heartbeat_max c)).

Definition same_settings (c c' : xsiam_agent_ctx) : Prop := settings c' = settings c.

Lemma same_settings_configured c c' : same_settings c c' -> configured c -> configured c'.
Proof.
  intros [= E1 E2 E3 E4 E5 E6 E7 E8 E9 E10 E11 E12 E13 E14 E15] [].
  constructor; rewrite ?E1, ?E5, ?E7, ?E8, ?E9, ?E10, ?E11, ?E12, ?E13, ?E14, ?E15; done.
Qed.

Lemma positive_or_pos d v : 0 < d -> 0 < positive_or d v.
Proof. intros Hd. unfold positive_or. destruct (Z.leb_spec v 0); lia. Qed.

(** The settings, from what the configuration map filled in. *)
Lemma settings_configured c :
  strings_given c -> configured (set_events (set_instance_id (set_limits (set_buffer_sizes c)))).
Proof.
  intros Hs. set (c1 := set_limits (set_buffer_sizes c)).
  assert (H1 : forall id, is_uuid_v4 id = true -> configured (c1 <| ctx_fb_instance_id := id |>)).
  { intros id Hid. destruct c. constructor; try done; cbn -[positive_or].
    1-3: by apply positive_or_pos.
    pose proof (positive_or_pos 60 ctx_heartbeat_min). case_match; lia. }
  clearbody c1. unfold set_instance_id. pose proof (gen_uuid_format (ctx_rand_state c1)) as Hu.
  destruct (gen_uuid_v4 (ctx_rand_state c1)) as [id r]. cbn [fst] in Hu. unfold set_events.
  destruct (H1 id Hu). destruct c1. cbn in *.
  destruct ctx_event_host as [[|]|]; constructor; cbn; done.
Qed.

Lemma settings_bare c :
  bare c -> bare (set_events (set_instance_id (set_limits (set_buffer_sizes c)))).
Proof.
  intros []. unfold set_events, set_instance_id, set_limits.
  destruct (gen_uuid_v4 _) as [id r]. repeat case_match; by constructor.
Qed.

Definition server_labels (sync : bool) : list string :=
  ["log_encoder"; "downstream"; "collector"; "heartbeat_collector"] ++
  (if sync then ["arango_upstream"; "db_collector"] else []).

Lemma live_release blk o : live_step blk (Release o) = - live_step blk (Acquire o).
Proof. cbn. by case_decide. Qed.

(** The balance of explicit traces, label by label. *)
Ltac accounted :=
  intros blk; unfold live, server_labels, init_failed, server_objects, base_objects, owned,
    opt_label, id_label, flag_label;
  cbn [app map foldr negb Z.eqb Pos.eqb]; rewrite ?live_release; lia.

Section startup_rules.
Context {S : Type} `{!HasWorld S}.
Implicit Types s : S.

(** Rules that accumulate the trace since [s0]. *)
Lemma wp_create o {B} (k : bool -> ST S B) t (Q : B -> S -> Prop) s0 s :
  steps (emits t) s0 s ->
  (forall s', steps (emits (t ++ [Acquire o])) s0 s' -> wp (k true) Q s') ->
  (forall s', steps (emits t) s0 s' -> wp (k false) Q s') ->
  wp (engine_create o ≫= k) Q s.
Proof.
  intros H Ht Hf. apply wp_bind. unfold engine_create.
  apply wp_bind, wp_consult_quiet; [done|]. intros ok s1 _ H1.
  pose proof (steps_emits_quiet _ _ _ _ H H1) as H2. destruct ok.
  - apply wp_bind, wp_emit, wp_ret, Ht. eapply steps_emits_trans; [exact H2|apply steps_emit].
  - by apply wp_ret, Hf.
Qed.

Lemma wp_collector o id {B} (k : Z -> ST S B) t (Q : B -> S -> Prop) s0 s :
  steps (emits t) s0 s ->
  (forall s', steps (emits (t ++ [Acquire o])) s0 s' -> wp (k id) Q s') ->
  (forall s', steps (emits t) s0 s' -> wp (k (-1)) Q s') ->
  wp (set_collector o id ≫= k) Q s.
Proof.
  intros H Ht Hf. apply wp_bind. unfold set_collector.
  eapply wp_create; [exact H|intros s1 H1..]; apply wp_ret; [by apply Ht|by apply Hf].
Qed.

Lemma release_all_spec l t s0 s :
  steps (emits t) s0 s ->
  wp (release_all l) (fun _ s' => steps (emits (t ++ map Release l)) s0 s') s.
Proof.
  revert t s. induction l as [|o l IH]; intros t s H; cbn [release_all].
  - apply wp_ret. by rewrite app_nil_r.
  - apply wp_bind, wp_free. intros s1 H1. cbn [map].
    rewrite (cons_middle (Release o)), app_assoc.
    apply IH, (steps_emits_trans _ _ _ _ _ H H1).
Qed.

(** An error path gives back everything. *)
Lemma wp_release_all l {B} (k : unit -> ST S B) t (Q : B -> S -> Prop) s0 s :
  steps (emits t) s0 s ->
  (forall s', steps (emits (t ++ map Release l)) s0 s' -> wp (k tt) Q s') ->
  wp (release_all l ≫= k) Q s.
Proof.
  intros H HQ. apply wp_bind. eapply wp_mono; [by apply release_all_spec|].
  intros []. apply HQ.
Qed.

Lemma init_failed_spec {A : Type} l t s0 s :
  steps (emits t) s0 s ->
  wp (init_failed (A:=A) l) (fun r s' => r = (-1, None) /\
    steps (emits (t ++ map Release l)) s0 s') s.
Proof.
  intros H. eapply wp_release_all; [exact H|]. intros s1 H1. by apply wp_ret.
Qed.

Definition engine_outcome (c : xsiam_agent_ctx) (t : list effect)
    (r : Z * option xsiam_agent_ctx) : Prop :=
  match snd r with
  | Some c' => fst r = 0 /\ same_settings c c' /\
      ctx_arango_upstream c' = ctx_db_sync c' /\
      ctx_event_enabled c' = ctx_event_upstream c' /\
      forall blk, live blk (map Acquire ["ctx"; "tcp_port"]) + live blk t =
                  live blk (map Acquire (owned c'))
  | None => fst r = -1 /\
      forall blk, live blk (map Acquire ["ctx"; "tcp_port"]) + live blk t = 0
  end.

(** The server's objects, and the database writer's when it is wanted. *)
Definition server_ready (c c5 : xsiam_agent_ctx) (t : list effect) : Prop :=
  let sync := ctx_db_sync c in
  c5 = c <| ctx_log_encoder := true |> <| ctx_downstream := true |>
         <| ctx_collector_id := 0 |> <| ctx_heartbeat_collector_id := 1 |>
         <| ctx_arango_upstream := sync |> <| ctx_db_collector_id := if sync then 2 else -1 |> /\
  t = map Acquire (server_labels sync).

Lemma init_db_spec c s0 s :
  bare c ->
  steps (emits (map Acquire (server_labels false))) s0 s ->
  wp (init_db (c <| ctx_log_encoder := true |> <| ctx_downstream := true |>
                 <| ctx_collector_id := 0 |> <| ctx_heartbeat_collector_id := 1 |>))
    (fun r s' => exists t, steps (emits t) s0 s' /\
       match r with
       | Some c5 => server_ready c c5 t
       | None => forall blk, live blk (map Acquire ["ctx"; "tcp_port"]) + live blk t = 0
       end) s.
Proof.
  intros [] H. unfold init_db. change (ctx_db_sync (_ <| ctx_heartbeat_collector_id := 1 |>)) with (ctx_db_sync c).
  unfold server_ready.
  destruct (ctx_db_sync c) eqn:E; cbn [negb].
  2: { apply wp_ret. eexists. split; [exact H|]. split; [|done].
       by rewrite <- bare_arango0, <- bare_db0; destruct c. }
  eapply wp_create; [exact H|intros s1 H1|intros s1 H1]; cbn [negb].
  2: { eapply wp_release_all; [exact H1|]. intros s2 H2. apply wp_ret.
       eexists. split; [exact H2|accounted]. }
  eapply wp_collector; [exact H1|intros s2 H2|intros s2 H2]; cbn [Z.eqb].
  2: { eapply wp_release_all; [exact H2|]. intros s3 H3. apply wp_ret.
       eexists. split; [exact H3|accounted]. }
  apply wp_ret. eexists. split; [exact H2|done].
Qed.

Lemma owned_ready c c5 t :
  bare c -> server_ready c c5 t ->
  owned c5 = ["ctx"; "tcp_port"]%string ++ server_labels (ctx_db_sync c) /\
  ctx_event_upstream c5 = false /\ ctx_fb_lease_collector_id c5 = -1.
Proof.
  intros [[port Hp] _ _ _ Hv _ _ _ Hl] [Hc _].
  assert (Hv5 : ctx_event_upstream c5 = false) by (by rewrite Hc).
  assert (Hl5 : ctx_fb_lease_collector_id c5 = -1) by (by rewrite Hc).
  assert (Hp5 : ctx_tcp_port c5 = Some port) by (by rewrite Hc).
  assert (Ha5 : ctx_arango_upstream c5 = ctx_db_sync c) by (by rewrite Hc).
  assert (Hb5 : ctx_db_collector_id c5 = if ctx_db_sync c then 2 else -1) by (by rewrite Hc).
  assert (H5 : ctx_log_encoder c5 = true /\ ctx_downstream c5 = true /\
    ctx_collector_id c5 = 0 /\ ctx_heartbeat_collector_id c5 = 1) by (by rewrite Hc).
  destruct H5 as (He & Hd & Hi & Hh). split_and!; [|done|done]. unfold owned.
  rewrite Hv5, Hl5, Hp5, Ha5, Hb5, He, Hd, Hi, Hh. by destruct (ctx_db_sync c).
Qed.

Lemma owned_events c event lease :
  ctx_event_upstream c = false -> ctx_fb_lease_collector_id c = -1 ->
  owned (c <| ctx_event_upstream := event |> <| ctx_fb_lease_collector_id := lease |>) =
  owned c ++ flag_label "event_upstream" event ++ id_label "fb_lease_collector" lease.
Proof.
  intros Hv Hl. unfold owned. rewrite Hv, Hl. cbn [flag_label id_label negb Z.eqb Pos.eqb].
  rewrite !app_nil_r, <- !app_assoc. reflexivity.
Qed.

Lemma owned_event c :
  ctx_event_upstream c = false -> ctx_fb_lease_collector_id c = -1 ->
  owned (c <| ctx_event_upstream := true |>) = owned c ++ ["event_upstream"%string].
Proof.
  intros Hv Hl. unfold owned.
  change (ctx_fb_lease_collector_id (c <| ctx_event_upstream := true |>))
    with (ctx_fb_lease_collector_id c).
  rewrite Hv, Hl. cbn [flag_label id_label negb Z.eqb Pos.eqb].
  rewrite !app_nil_r, <- !app_assoc. reflexivity.
Qed.

Lemma init_events_spec c c5 t s0 s :
  bare c -> server_ready c c5 t -> steps (emits t) s0 s ->
  wp (init_events c5) (fun c' s' => wp (mret (0, Some c'))
    (fun r s' => exists t, steps (emits t) s0 s' /\ engine_outcome c t r) s') s.
Proof.
  intros Hb Hr H. destruct (owned_ready c c5 t Hb Hr) as (Ho & Hv & Hl).
  destruct Hr as [Hc ->].
  assert (same_settings c c5 /\ ctx_arango_upstream c5 = ctx_db_sync c) as [Hs Ha].
  { by rewrite Hc. }
  assert (Es : ctx_db_sync c5 = ctx_db_sync c) by (by rewrite Hc).
  clear Hb Hc.
  set (sync := ctx_db_sync c) in *.
  assert (Hfin : forall c' l s',
    steps (emits (map Acquire (server_labels sync) ++ map Acquire l)) s0 s' ->
    same_settings c5 c' -> ctx_arango_upstream c' = ctx_arango_upstream c5 ->
    ctx_event_enabled c' = ctx_event_upstream c' -> owned c' = owned c5 ++ l ->
    wp (mret (0, Some c'))
      (fun r s' => exists t, steps (emits t) s0 s' /\ engine_outcome c t r) s').
  { intros c' l s' H' Hs' Ha' He Hl'. apply wp_ret. eexists. split; [exact H'|].
    split; [done|]. split; [exact (eq_trans Hs' Hs)|].
    split; [injection Hs' as _ _ _ _ _ E _ _ _ _ _ _ _ _ _; congruence|].
    split; [done|]. intros blk. rewrite Hl', Ho, !map_app, !live_app. lia. }
  unfold init_events. destruct (ctx_event_enabled c5) eqn:En; cbn [negb].
  2: { apply wp_ret. apply (Hfin c5 []); [by rewrite app_nil_r|done|done|congruence|].
       by rewrite app_nil_r. }
  eapply wp_create; [exact H|intros s1 H1|intros s1 H1]; cbn [negb].
  2: { apply wp_ret. apply (Hfin _ []); [by rewrite app_nil_r|done|done|by rewrite <- Hv|].
       by rewrite app_nil_r. }
  change (ctx_db_sync (c5 <| ctx_event_upstream := true |>)) with (ctx_db_sync c5).
  set (id := if ctx_db_sync c5 then 3 else 2).
  assert (Hid : (id =? -1) = false) by (unfold id; by destruct (ctx_db_sync c5)).
  eapply wp_collector; [exact H1|intros s2 H2|intros s2 H2].
  - rewrite <- app_assoc in H2. rewrite Hid. apply wp_ret.
    eapply (Hfin _ ["event_upstream"; "fb_lease_collector"]%string);
      [exact H2|done|done|done|]. rewrite owned_events by done.
    unfold id_label. by rewrite Hid.
  - apply wp_ret. eapply (Hfin _ ["event_upstream"%string]); [exact H2|done|done|done|].
    by apply owned_event.
Qed.

Lemma init_engine_spec c s :
  bare c ->
  wp (init_engine c) (fun r s' => exists t, steps (emits t) s s' /\ engine_outcome c t r) s.
Proof.
  intros Hb. pose proof (steps_emits_refl s) as H0.
  assert (Hfail : forall l t s1, steps (emits t) s s1 ->
    (forall blk, live blk (map Acquire ["ctx"; "tcp_port"]) + live blk (t ++ map Release l) = 0) ->
    wp (init_failed l) (fun r s' => exists t, steps (emits t) s s' /\ engine_outcome c t r) s1).
  { intros l t s1 H Hl. eapply wp_mono; [by apply init_failed_spec|].
    intros r s2 [-> H2]. eexists. split; [exact H2|by split]. }
  unfold init_engine.
  eapply wp_create; [exact H0|intros s1 H1|intros s1 H1]; cbn [negb app] in *;
    [|eapply Hfail; [exact H1|accounted]].
  eapply wp_create; [exact H1|intros s2 H2|intros s2 H2]; cbn [negb app] in *;
    [|eapply Hfail; [exact H2|accounted]].
  eapply wp_collector; [exact H2|intros s3 H3|intros s3 H3]; cbn [Z.eqb app] in *;
    [|eapply Hfail; [exact H3|accounted]].
  eapply wp_collector; [exact H3|intros s4 H4|intros s4 H4]; cbn [Z.eqb app] in *;
    [|eapply Hfail; [exact H4|accounted]].
  set (c4 := c <| ctx_log_encoder := true |> <| ctx_downstream := true |>
               <| ctx_collector_id := 0 |> <| ctx_heartbeat_collector_id := 1 |>).
  apply wp_bind. eapply (wp_mono _ (fun r s' => exists t, steps (emits t) s s' /\
    match r with
    | Some c5 => server_ready c c5 t
    | None => forall blk, live blk (map Acquire ["ctx"; "tcp_port"]) + live blk t = 0
    end)).
  { by apply init_db_spec. }
  intros [c5|] s5 (t & H5 & Hr).
  2: { apply wp_ret. exists t. split; [exact H5|by split]. }
  apply wp_bind. by eapply init_events_spec.
Qed.
End startup_rules.

Lemma config_bare props c c' :
  flb_config_map_set props config_map c = Some c' ->
  let fresh c := ctx_log_encoder c = false /\ ctx_downstream c = false /\
    ctx_arango_upstream c = false /\ ctx_event_upstream c = false /\
    ctx_collector_id c = -1 /\ ctx_heartbeat_collector_id c = -1 /\
    ctx_db_collector_id c = -1 /\ ctx_fb_lease_collector_id c = -1 in
  fresh c -> fresh c'.
Proof.
  intros H fresh. apply (config_map_set_keeps fresh props c c'); [|exact H].
  intros v n b c0 H0. repeat (apply Forall_cons_2; [exact H0|]). apply Forall_nil_2.
Qed.

Section startup_theorems.
Context {S : Type} `{!HasWorld S}.
Implicit Types s : S.

Lemma set_arango_defaults_given c s :
  strings_given c -> set_arango_defaults c s = Some (c, s).
Proof.
  intros ([h Eh] & [u Eu] & [p Ep] & [d Ed]). unfold set_arango_defaults.
  rewrite Eh, Eu, Ep, Ed. destruct c. cbn in *. by subst.
Qed.

Definition init_outcome (t : list effect) (r : Z * option xsiam_agent_ctx) : Prop :=
  match snd r with
  | Some ctx => fst r = 0 /\ configured ctx /\
      ctx_arango_upstream ctx = ctx_db_sync ctx /\
      ctx_event_enabled ctx = ctx_event_upstream ctx /\
      forall object, live object t = live object (map Acquire (owned ctx))
  | None => fst r = -1 /\ forall object, live object t = 0
  end.

Lemma init_spec ins addr s :
  alloc_ok (world_of s) ->
  wp (init ins addr) (fun r s' => exists t, steps (emits t) s s' /\ init_outcome t r) s.
Proof.
  intros Hok.
  unfold init. apply wp_bind, wp_malloc; [|by intros].
  intros s1 H1. cbn [negb]. apply wp_bind, wp_time_now. intros now s2 _ H2. cbv zeta.
  pose proof (steps_emits_quiet _ _ _ _ H1 H2) as H12. clear H1 H2 s1.
  destruct (flb_config_map_set _ _ _) as [c|] eqn:Hc.
  2: { eapply wp_mono; [by eapply init_failed_spec|]. intros r s3 [-> H3].
       eexists. split; [exact H3|]. split; [done|accounted]. }
  apply wp_bind, wp_malloc.
  2: { intros s3 _ Hn. destruct Hn. destruct H12 as (f & -> & _ & _ & He).
       by apply (alloc_ok_env _ _ He). }
  intros s3 H3. pose proof (steps_emits_trans _ _ _ _ _ H12 H3) as H03.
  apply wp_bind. eapply wp_lift; [reflexivity|].
  set (c1 := c <| ctx_listen := _ |> <| ctx_tcp_port := _ |>).
  assert (Hs : strings_given c1) by exact (config_strings _ _ _ Hc).
  assert (Hb : bare c1).
  { destruct (config_bare _ _ _ Hc) as (? & ? & ? & ? & ? & ? & ? & ?); [by split_and!|].
    constructor; [by eexists|done..]. }
  apply wp_bind. unfold wp at 1. rewrite set_arango_defaults_given by done.
  pose proof (settings_configured c1 Hs) as Hcf. apply settings_bare in Hb.
  eapply wp_mono; [by apply init_engine_spec|].
  intros [ret ctx] s4 (t & H4 & Hr). eexists.
  split; [eapply steps_emits_trans; [exact H03|exact H4]|]. unfold engine_outcome in Hr.
  cbn [fst snd] in *. destruct ctx as [ctx|].
  - destruct Hr as (-> & Hset & Ha & He & Hl).
    split; [done|]. split; [by eapply same_settings_configured|]. split; [done|].
    split; [done|]. intros o. rewrite live_app. apply Hl.
  - destruct Hr as [-> Hl]. split; [done|]. intros o. rewrite live_app. apply Hl.
Qed.

(** C12: start-up is all or nothing: for any configuration, when memory is
    available, [init] either returns 0 with a context whose settings are valid (the
    database strings given, positive intervals, ordered heartbeat limits, a
    version 4 instance identifier, the buffer sizes the options ask for), or -1;
    and the objects it has acquired and not released are exactly those the context
    holds, or none. *)
Theorem init_all_or_nothing ins addr s :
  alloc_ok (world_of s) ->
  exists ret ctx s' t, init ins addr s = Some ((ret, ctx), s') /\
    w_trace (world_of s') = w_trace (world_of s) ++ t /\
    match ctx with
    | Some ctx => ret = 0 /\ configured ctx /\
        ctx_arango_upstream ctx = ctx_db_sync ctx /\
        ctx_event_enabled ctx = ctx_event_upstream ctx /\
        forall object, live object t = live object (map Acquire (owned ctx))
    | None => ret = -1 /\ forall object, live object t = 0
    end.
Proof.
  intros Hok. destruct (proj1 (wp_run _ _ _) (init_spec ins addr s Hok))
    as ([ret ctx] & s' & Hrun & t & (f & -> & T & _) & Hr).
  by exists ret, ctx, (in_world f s), t.
Qed.
End startup_theorems.

(** * Shutdown *)

(** The objects that live as long as the plugin. *)
Definition plugin_labels : list string :=
  ["ctx"; "tcp_port"; "log_encoder"; "downstream"; "collector"; "heartbeat_collector";
   "arango_upstream"; "db_collector"; "event_upstream"; "fb_lease_collector"].

(** Effects that neither acquire nor release one of them. *)
Definition config_labels : list string :=
  ["arango_host"; "arango_user"; "arango_pass"; "arango_database"; "tenant_id"; "event_host"].

Definition foreign (t : list effect) : Prop :=
  forall o, In o (plugin_labels ++ config_labels) -> live o t = 0.

Lemma foreign_app t u : foreign t -> foreign u -> foreign (t ++ u).
Proof. intros Ht Hu o Ho. by rewrite live_app, Ht, Hu. Qed.

Lemma foreign_release b : ~ In b (plugin_labels ++ config_labels) -> foreign [Release b].
Proof. intros Hb o Ho. cbn. case_decide; [by subst|done]. Qed.

Lemma foreign_free_opt {A} b (p : option A) :
  ~ In b (plugin_labels ++ config_labels) -> foreign (free_opt_effect b p).
Proof. intros Hb. destruct p; [by apply foreign_release|done]. Qed.

Ltac not_plugin := cbn; intuition discriminate.

Lemma foreign_close c : foreign (close_effects c).
Proof.
  unfold close_effects. repeat apply foreign_app;
    first [apply foreign_free_opt; not_plugin|apply foreign_release; not_plugin|idtac].
  apply (foreign_app [_] [_]); apply foreign_release; not_plugin.
Qed.

Lemma foreign_posted ctx event id t : posted ctx event id t -> foreign t.
Proof. by intros [->|(_ & _ & ->)]. Qed.

Lemma foreign_closed key g l post : closed_table key g l post -> foreign post.
Proof.
  unfold closed_table. destruct key as [key|]; [|by intros [_ ->]].
  destruct (is_online _ _); [|by intros [_ ->]]. intros (? & ? & _ & H & _).
  by eapply foreign_posted.
Qed.

(** The connections and agents may change; the context does not. *)
Definition closes (t : list effect) (g g' : gw) : Prop :=
  g_ctx g' = g_ctx g /\ emits t (g_world g) (g_world g').

Lemma del_all_spec conns g :
  gw_wf g -> NoDup conns -> (forall i, i ∈ conns -> i ∈ g_connections g) ->
  wp (for_each (fun conn => _ ← conn_del conn; mret tt) conns) (fun _ g' =>
    gw_wf g' /\ (forall i, i ∈ g_connections g' -> i ∈ g_connections g /\ i ∉ conns) /\
    exists t, closes t g g' /\ foreign t) g.
Proof.
  revert g. induction conns as [|i conns IH]; intros g Hwf Hnd Hin; cbn [for_each].
  { apply wp_ret. split_and!; [done|by intros; split; [|apply not_elem_of_nil]|].
    exists []. split; [|done]. split; [done|by apply emits_quiet]. }
  apply NoDup_cons in Hnd as [Hi Hnd].
  destruct (proj1 (gwf_live g Hwf i) (Hin i (list_elem_of_here _ _))) as [c Hc].
  apply wp_bind, wp_bind. eapply wp_mono; [apply conn_del_spec; [exact Hc|apply Hwf]|].
  intros r g1 (_ & l & post & H1 & Hl). apply wp_ret.
  destruct (removed_wf _ _ _ _ _ Hwf H1 (closed_table_wf _ _ _ _ Hl (gwf_agents g Hwf)))
    as [Hwf1 _].
  destruct H1 as (w & Hw & Hg1).
  assert (Hc1 : g_connections g1 = filter (fun j => j <> i) (g_connections g)) by (by rewrite Hg1).
  eapply wp_mono.
  { apply IH; [done|done|]. intros j Hj. rewrite Hc1, list_elem_of_filter.
    split; [by intros ->|]. apply Hin. by apply list_elem_of_further. }
  intros [] g2 (Hwf2 & Hsub & t & [Hcx Ht] & Hf). split_and!; [done| |].
  - intros j Hj. apply Hsub in Hj as [Hj Hn]. rewrite Hc1, list_elem_of_filter in Hj.
    split; [tauto|]. intros [->|]%elem_of_cons; tauto.
  - eexists. split; [split|].
    + by rewrite Hcx, Hg1.
    + eapply emits_compose; [|exact Ht]. rewrite Hg1. exact Hw.
    + apply foreign_app; [|done]. apply foreign_app; [by eapply foreign_closed|apply foreign_close].
Qed.

Section exit_rules.
Context {B : Type} (k : unit -> ST gw B) (Q : B -> gw -> Prop) (g0 g : gw).
Context (l : list xsiam_agent_state) (t : list effect).

Lemma wp_free_if flag b :
  to l t g0 g ->
  (forall g', to l (t ++ map Release (flag_label b flag)) g0 g' -> wp (k tt) Q g') ->
  wp (free_if flag b ≫= k) Q g.
Proof.
  intros H HQ. destruct flag; [by eapply wp_effect|].
  apply wp_bind, wp_ret, HQ. by rewrite app_nil_r.
Qed.

Lemma wp_flush_destroy (destroy : bool) b :
  Forall agent_wf l -> untested_ok (g_world g0) -> to l t g0 g ->
  (forall l' u g', to l' (t ++ u ++ map Release (flag_label b destroy)) g0 g' ->
     foreign u -> wp (k tt) Q g') ->
  wp ((if destroy then _ ← arango_flush_dirty_agents; free b else mret tt) ≫= k) Q g.
Proof.
  intros Hl Hun H HQ. apply wp_bind. destruct destroy.
  2: { apply wp_ret, (HQ l []); [by rewrite app_nil_r|done]. }
  assert (Hg : g_agents g = l) by (by destruct H as (w & _ & ->)).
  apply wp_bind. eapply wp_mono.
  { apply flush_spec; [|by eapply to_untested_ok].
    rewrite Hg. eapply Forall_impl; [exact Hl|]. by intros st [_ ?]. }
  intros r g1 (l' & u & H1 & _ & Hu)%flush_outcome_cases. pose proof (to_trans _ _ _ _ _ _ _ H H1) as H2.
  apply wp_emit. assert (E : to l' [Release b] g1
    (in_world (fun w => w <| w_trace := w_trace w ++ [Release b] |>) g1)).
  { assert (g_agents g1 = l') as <- by (by destruct H1 as (w & _ & ->)).
    apply steps_to, steps_emit. }
  apply (HQ l' u).
  - rewrite app_assoc. by eapply to_trans.
  - by destruct Hu as [->|(? & ? & ? & ->)].
Qed.
End exit_rules.

Lemma destroy_agents_spec l t g0 g :
  to l t g0 g ->
  wp (destroy_agents l) (fun _ g' =>
    to [] (t ++ replicate (length l) (Release "agent_state")) g0 g') g.
Proof.
  revert t g. induction l as [|a l IH]; intros t g H; cbn [destroy_agents].
  - apply wp_ret. by rewrite app_nil_r.
  - apply wp_bind, wp_modify. pose proof (to_trans _ _ _ _ _ _ _ H (to_agents g l)) as H1.
    rewrite app_nil_r in H1. eapply wp_effect; [exact H1|]. intros g2 H2.
    cbn [length replicate]. rewrite (cons_middle (Release "agent_state")), app_assoc.
    by apply IH.
Qed.

Lemma foreign_replicate n b :
  ~ In b (plugin_labels ++ config_labels) -> foreign (replicate n (Release b)).
Proof.
  intros Hb. induction n; [done|]. apply (foreign_app [_]); [by apply foreign_release|done].
Qed.

(** The engine's objects among the plugin's, all but the context and the text of
    its port. *)
Definition engine_labels : list string :=
  ["log_encoder"; "downstream"; "collector"; "heartbeat_collector";
   "arango_upstream"; "db_collector"; "event_upstream"; "fb_lease_collector"].

Definition engine_owned (ctx : xsiam_agent_ctx) : list string :=
  flag_label "log_encoder" (ctx_log_encoder ctx) ++
  flag_label "downstream" (ctx_downstream ctx) ++
  id_label "collector" (ctx_collector_id ctx) ++
  id_label "heartbeat_collector" (ctx_heartbeat_collector_id ctx) ++
  flag_label "arango_upstream" (ctx_arango_upstream ctx) ++
  id_label "db_collector" (ctx_db_collector_id ctx) ++
  flag_label "event_upstream" (ctx_event_upstream ctx) ++
  id_label "fb_lease_collector" (ctx_fb_lease_collector_id ctx).

(** What the first part of the shutdown leaves. *)
Definition objects_gone (g : gw) (g' : gw) (t : list effect) : Prop :=
  g_ctx g' = g_ctx g /\ g_connections g' = [] /\ g_heap g' = ∅ /\ g_agents g' = [] /\
  w_trace (g_world g') = w_trace (g_world g) ++ t /\
  forall o, In o (plugin_labels ++ config_labels) ->
    live o t = live o (map Release (engine_owned (g_ctx g))).

Lemma exit_objects_spec g :
  gw_wf g -> wp exit_objects (fun _ g' => exists t, objects_gone g g' t) g.
Proof.
  intros Hwf.
  unfold exit_objects. apply wp_bind, wp_gets, wp_bind. eapply wp_mono.
  { apply del_all_spec; [done|apply Hwf|done]. }
  intros [] g1 (Hwf1 & Hsub & t1 & [Hcx Ht1] & Hf1).
  assert (Hc1 : g_connections g1 = []).
  { destruct (g_connections g1) as [|i cs]; [done|].
    destruct (Hsub i (list_elem_of_here _ _)) as [H1 H2]. done. }
  assert (Hh1 : g_heap g1 = ∅).
  { apply map_empty. intros i. apply eq_None_not_Some. intros Hi%(gwf_live g1 Hwf1).
    rewrite Hc1 in Hi. by apply not_elem_of_nil in Hi. }
  apply wp_bind, wp_gets. rewrite Hcx. set (ctx := g_ctx g).
  pose proof (to_refl g1) as H0. unfold collector_delete.
  eapply wp_free_if; [exact H0|clear H0; intros g2 H2].
  eapply wp_free_if; [exact H2|clear g2 H2; intros g2 H2].
  eapply wp_free_if; [exact H2|clear g2 H2; intros g2 H2].
  eapply wp_free_if; [exact H2|clear g2 H2; intros g2 H2].
  eapply wp_free_if; [exact H2|clear g2 H2; intros g2 H2].
  eapply wp_flush_destroy; [apply Hwf1|apply Hwf1|exact H2|clear g2 H2; intros l u g2 H2 Hu].
  eapply wp_free_if; [exact H2|clear g2 H2; intros g2 H2].
  eapply wp_free_if; [exact H2|clear g2 H2; intros g2 H2].
  apply wp_bind, wp_gets.
  assert (g_agents g2 = l) as -> by (by destruct H2 as (w & _ & ->)).
  eapply wp_mono; [by eapply destroy_agents_spec|].
  intros [] g3 (w & (Hw & _) & ->).
  eexists (t1 ++ _). split; [exact Hcx|]. split; [exact Hc1|]. split; [exact Hh1|].
  split; [done|]. split; [destruct Ht1 as (T1 & _); rewrite app_assoc, <- T1; exact Hw|].
  intros o Ho. rewrite !live_app, (Hf1 o Ho), (Hu o Ho).
  rewrite (foreign_replicate _ "agent_state" ltac:(not_plugin) o Ho).
  unfold engine_owned. rewrite !map_app, !live_app. unfold id_label, ctx.
  change (live o []) with 0. lia.
Qed.

(** The strings of the configuration are the plugin's own, to be freed. *)
Definition given_labels (l : list (string * option bytes)) : list string :=
  concat (map (fun '(b, p) => opt_label b p) l).

Definition holds (g : gw) (labels : list string) : Prop :=
  Forall (fun b => 0 < live b (w_trace (g_world g))) labels.

#[export] Instance holds_dec g labels : Decision (holds g labels).
Proof. apply _. Defined.

Definition traced (g : gw) (t : list effect) : gw :=
  g <| g_world := (g_world g) <| w_trace := w_trace (g_world g) ++ t |> |>.

Lemma live_not_in o l : o ∉ l -> live o (map Release l) = 0.
Proof.
  intros H. induction l as [|x l IH]; [done|]. apply not_elem_of_cons in H as [Hx H].
  cbn. rewrite decide_False by congruence. unfold live in IH. by rewrite IH.
Qed.

Lemma given_labels_sub l o : o ∈ given_labels l -> o ∈ map fst l.
Proof.
  induction l as [|[b p] l IH]; [done|]. unfold given_labels. cbn [map concat fst].
  intros [H|H]%elem_of_app; [|by right; apply IH].
  destruct p; [apply list_elem_of_singleton in H as ->; by left|by apply not_elem_of_nil in H].
Qed.

Lemma free_configs_run l g :
  NoDup (map fst l) ->
  free_configs l g =
    if decide (holds g (given_labels l))
    then Some (tt, traced g (map Release (given_labels l))) else None.
Proof.
  revert g. induction l as [|[b p] l IH]; intros g Hnd; cbn [free_configs].
  { rewrite decide_True by constructor. unfold traced, given_labels. cbn [map concat].
    rewrite app_nil_r. by destruct g as [? ? ? ? ? ? ? []]. }
  cbn [map fst] in Hnd. apply NoDup_cons in Hnd as [Hb Hnd].
  unfold given_labels. cbn [map concat]. fold (given_labels l). destruct p as [v|]; cbn [opt_label app].
  2: { unfold mbind, ST_bind. cbn [free_config mret ST_ret]. by apply IH. }
  unfold mbind, ST_bind. cbn [free_config]. unfold mbind, ST_bind, gets.
  destruct (Z.gtb_spec (live b (w_trace (g_world g))) 0) as [H0|H0].
  2: { rewrite decide_False; [done|]. unfold holds. rewrite Forall_cons. lia. }
  change (free b g) with (Some (tt, traced g [Release b])). cbv iota beta.
  rewrite IH by done.
  assert (Hsame : holds (traced g [Release b]) (given_labels l) <-> holds g (given_labels l)).
  { unfold holds. rewrite !Forall_forall. apply forall_proper. intros x.
    apply forall_proper. intros Hx.
    change (w_trace (g_world (traced g [Release b])))
      with (w_trace (g_world g) ++ map Release [b]).
    rewrite live_app, live_not_in; [by rewrite Z.add_0_r|].
    intros ->%list_elem_of_singleton. by apply Hb, given_labels_sub. }
  destruct (decide (holds (traced g [Release b]) (given_labels l))) as [Hh|Hh].
  - rewrite decide_True by (apply Forall_cons; split; [lia|by apply Hsame]).
    unfold traced. cbn. by rewrite <- app_assoc.
  - rewrite decide_False; [done|]. intros [_ Hx]%Forall_cons. by apply Hh, Hsame.
Qed.

Lemma engine_owned_labels ctx : Forall (fun o => In o engine_labels) (engine_owned ctx).
Proof.
  assert (H : forall b o, In o engine_labels ->
    Forall (fun o => In o engine_labels) (flag_label o b)).
  { intros [|] o Ho; [by apply Forall_cons_2; [|apply Forall_nil_2]|apply Forall_nil_2]. }
  unfold engine_owned, id_label. repeat apply Forall_app_2; apply H; cbn; tauto.
Qed.

(** The engine's objects are neither strings of the configuration, nor the context. *)
Lemma engine_owned_other ctx o :
  ~ In o engine_labels -> live o (map Release (engine_owned ctx)) = 0.
Proof.
  intros Ho. apply live_not_in. intros Hin.
  pose proof (proj1 (Forall_forall _ _) (engine_owned_labels ctx) o Hin). done.
Qed.

Definition tail_objects (ctx : xsiam_agent_ctx) : list string :=
  opt_label "tcp_port" (ctx_tcp_port ctx) ++ given_labels (ctx_strings ctx) ++ ["ctx"%string].

Lemma exit_cb_run g g1 t :
  exit_objects g = Some (tt, g1) -> objects_gone g g1 t ->
  exit_cb g = if decide (holds g (given_labels (ctx_strings (g_ctx g))))
              then Some (0, traced g1 (map Release (tail_objects (g_ctx g)))) else None.
Proof.
  intros Hrun (Hctx & _ & _ & _ & Ht & Hl).
  unfold exit_cb, mbind, ST_bind, gets. rewrite Hrun, Hctx. cbv iota beta.
  set (g2 := traced g1 (map Release (opt_label "tcp_port" (ctx_tcp_port (g_ctx g))))).
  assert (E2 : free_opt "tcp_port" (ctx_tcp_port (g_ctx g)) g1 = Some (tt, g2)).
  { unfold g2, traced. destruct (ctx_tcp_port (g_ctx g)); [done|]. cbn [opt_label map free_opt].
    rewrite app_nil_r. by destruct g1 as [? ? ? ? ? ? ? []]. }
  rewrite E2. cbv iota beta. rewrite free_configs_run.
  2: { cbn [ctx_strings map fst]. repeat (apply NoDup_cons_2; [set_solver|]). apply NoDup_nil_2. }
  assert (Hsame : holds g2 (given_labels (ctx_strings (g_ctx g))) <->
    holds g (given_labels (ctx_strings (g_ctx g)))).
  { unfold holds. rewrite !Forall_forall. apply forall_proper. intros o.
    apply forall_proper. intros Ho.
    assert (Hin : In o config_labels).
    { apply list_elem_of_In. exact (given_labels_sub _ _ Ho). }
    assert (Etr : w_trace (g_world g2) = (w_trace (g_world g) ++ t) ++
      map Release (opt_label "tcp_port" (ctx_tcp_port (g_ctx g)))) by (unfold g2; cbn; by rewrite Ht).
    rewrite Etr, !live_app, Hl by (apply in_or_app; by right).
    rewrite engine_owned_other by (cbn in *; intuition (subst; discriminate)).
    rewrite (live_not_in o (opt_label _ _)); [by rewrite !Z.add_0_r|].
    destruct (ctx_tcp_port (g_ctx g)); [|apply not_elem_of_nil].
    intros ->%list_elem_of_singleton. cbn in Hin. intuition discriminate. }
  destruct (decide (holds g2 _)) as [Hh|Hh].
  - rewrite decide_True by (by apply Hsame). cbv iota beta.
    unfold free, emit, modify, mret, ST_ret. do 2 f_equal. unfold g2, traced, tail_objects.
    cbn. rewrite !map_app. by rewrite <- !app_assoc.
  - rewrite decide_False; [done|]. by rewrite <- Hsame.
Qed.

(** C15: shutdown, exactly.  From any well-formed state the engine's part of
    [exit_cb] ([exit_objects]) closes every connection, forgets every agent and
    releases each engine object that the context holds exactly once and no other,
    whatever the last flush to the database answers.  What follows are the frees of
    the text of the port, the strings of the configuration and the context: when
    the plugin itself allocated every string that is given, [exit_cb] returns 0
    and has released these, each once; when one belongs to the engine's
    configuration map, [exit_cb] frees a block that is not its own, which is
    undefined behaviour.  [exit_frees_config_strings] shows that the second is the
    case of the default configuration.  A well-formed state ([gw_wf]) includes that
    the allocations the code does not test succeed. *)
Theorem exit_releases_all g :
  gw_wf g ->
  exists g1 t, exit_objects g = Some (tt, g1) /\
    g_connections g1 = [] /\ g_heap g1 = ∅ /\ g_agents g1 = [] /\
    w_trace (g_world g1) = w_trace (g_world g) ++ t /\
    (forall o, In o engine_labels -> live o t = live o (map Release (engine_owned (g_ctx g)))) /\
    live "tcp_port" t = 0 /\ live "ctx" t = 0 /\
    if decide (holds g (given_labels (ctx_strings (g_ctx g)))) then
      exists g', exit_cb g = Some (0, g') /\
        w_trace (g_world g') = w_trace (g_world g) ++ t ++ map Release (tail_objects (g_ctx g))
    else exit_cb g = None.
Proof.
  intros Hwf. destruct (proj1 (wp_run _ _ _) (exit_objects_spec g Hwf))
    as ([] & g1 & Hrun & t & Hgone).
  pose proof (exit_cb_run _ _ _ Hrun Hgone) as Hexit.
  destruct Hgone as (_ & Hc & Hh & Ha & Ht & Hl).
  assert (Hplug : forall o, In o ["tcp_port"; "ctx"]%string -> live o t = 0).
  { intros o Ho. rewrite Hl by (apply in_or_app; left; cbn in *; tauto). apply engine_owned_other.
    cbn in *. intuition (subst; discriminate). }
  exists g1, t. split_and!; [done|done|done|done|exact Ht| |apply Hplug; cbn; tauto
    |apply Hplug; cbn; tauto|].
  - intros o Ho. apply Hl, in_or_app. left. cbn in *. tauto.
  - destruct (decide _); [|done]. eexists. split; [exact Hexit|].
    cbn. by rewrite Ht, <- app_assoc.
Qed.

(** * The whole life of the plugin *)

Lemma fresh_wf ctx rand w :
  bytes_ok (tenant_or_default ctx) -> 0 < ctx_chunk_size ctx < 2 ^ 31 ->
  0 <= ctx_buffer_size ctx < 2 ^ 31 -> (forall fd, bytes_ok (w_input w fd)) ->
  untested_ok w -> gw_wf (fresh_gw ctx rand w).
Proof.
  intros Ht Hc Hb Hi Hun. constructor; cbn; try done.
  - intros i. rewrite lookup_empty. split; [by intros ?%not_elem_of_nil|by intros [? ?]].
  - apply NoDup_nil_2.
  - by intros i ?%not_elem_of_nil.
  - split; [apply NoDup_nil_2|done].
Qed.

(** C39: the plugin's life: when start-up succeeds with buffer sizes of at least
    one byte and below 2 GB, any sequence of the engine's callbacks runs on the
    state it leaves, whatever the peers send, and so does the engine's part of the
    shutdown after it ([exit_objects]), which leaves no connection and no agent.
    The frees of the configuration's strings that end [exit_cb] are defined if and
    only if the plugin itself allocated those that are given (in the default
    configuration it did not, [exit_frees_config_strings]).  Assumed is memory:
    all of it at start-up, and afterwards that of the allocations that are not
    tested. *)
Theorem plugin_lifecycle ins addr w0 ctx w rand cbs :
  alloc_ok w0 -> untested_ok w0 -> (forall fd, bytes_ok (w_input w0 fd)) ->
  init ins addr w0 = Some ((0, Some ctx), w) ->
  bytes_ok (tenant_or_default ctx) -> 0 < ctx_chunk_size ctx < 2 ^ 31 ->
  ctx_buffer_size ctx < 2 ^ 31 ->
  exists g g', run_callbacks cbs (fresh_gw ctx rand w) = Some (tt, g) /\ gw_wf g /\
    exit_objects g = Some (tt, g') /\ g_connections g' = [] /\ g_agents g' = [] /\
    (is_Some (exit_cb g) <-> holds g (given_labels (ctx_strings (g_ctx g)))).
Proof.
  intros Hok Hun Hi Hrun Ht Hc Hb.
  pose proof (init_spec ins addr w0 Hok) as H. unfold wp in H. rewrite Hrun in H.
  destruct H as (t & (f & -> & _ & I & E) & _ & Hcfg & _).
  assert (Hb0 : 0 <= ctx_buffer_size ctx).
  { rewrite (cfg_buffer ctx Hcfg). unfold kilobytes. case_match; apply (uwrap_fits 64); lia. }
  assert (Hwf : gw_wf (fresh_gw ctx rand (f w0))).
  { apply fresh_wf; [done..| |exact (untested_ok_env _ _ E Hun)].
    intros fd. rewrite (I : w_input (f w0) = _). apply Hi. }
  destruct (proj1 (wp_run _ _ _) (run_callbacks_spec cbs _ Hwf)) as ([] & g & Hcb & Hg).
  destruct (proj1 (wp_run _ _ _) (exit_objects_spec g Hg)) as ([] & g' & Hex & u & Hgone).
  pose proof (exit_cb_run _ _ _ Hex Hgone) as Hexit.
  destruct Hgone as (_ & Hcn & _ & Ha & _).
  exists g, g'. split_and!; [done..|]. rewrite Hexit.
  destruct (decide _); split; [done|by eexists|by intros [? ?]|done].
Qed.

(** * Concrete runs *)

(** An instance with no property set: the defaults of the map. *)
Definition sample_instance : flb_input_instance := Instance None 0 [].

Definition sample_start : world := sample_world 4096 (fun _ => []).

(** The context start-up leaves with the default configuration. *)
Definition sample_started : xsiam_agent_ctx * world :=
  match init sample_instance 0 sample_start with
  | Some ((_, Some ctx), w) => (ctx, w)
  | _ => (blank_ctx 0, sample_start)
  end.

(** Shutdown frees strings the plugin does not own: with the default configuration
    the database and tenant strings belong to the engine's configuration map, the
    plugin never allocated them, and [exit_cb] has undefined behaviour when it
    frees the first; up to there everything it did acquire from the engine is
    balanced. *)
Theorem exit_frees_config_strings :
  let g := fresh_gw (fst sample_started) (always (7, 7)) (snd sample_started) in
  exit_cb g = None /\
  match exit_objects g with
  | Some (_, g') =>
      map (fun o => live o (w_trace (g_world g'))) engine_labels = replicate 8 0 /\
      map (fun o => live o (w_trace (g_world g'))) config_labels = replicate 6 0 /\
      given_labels (ctx_strings (g_ctx g')) =
        ["arango_host"; "arango_user"; "arango_pass"; "arango_database"; "tenant_id"]%string
  | None => False
  end.
Proof. by vm_compute. Qed.

(** Start-up with no memory for the text of its port number passes a null
    pointer to [strtoul]. *)
Theorem init_oom_crashes :
  init sample_instance 0
    (sample_start <| w_alloc := Oracle (fun n => bool_decide (n = 0%nat)) 0%nat |>) = None.
Proof. by vm_compute. Qed.

Example init_all_or_nothing_witness :
  let ins := Instance None 0 [(str "DB_SYNC", str "off"); (str "heartbeat_min", str "0");
    (str "event_host", str "xsiam"); (str "chunk_size", str "64")] in
  exists ret ctx s' t, init ins 4096 sample_start = Some ((ret, ctx), s') /\
    w_trace (world_of s') = w_trace (world_of sample_start) ++ t /\
    match ctx with
    | Some ctx => ret = 0 /\ configured ctx /\
        ctx_arango_upstream ctx = ctx_db_sync ctx /\
        ctx_event_enabled ctx = ctx_event_upstream ctx /\
        forall object, live object t = live object (map Acquire (owned ctx))
    | None => ret = -1 /\ forall object, live object t = 0
    end.
Proof. intros ins. by apply (init_all_or_nothing ins 4096 sample_start). Defined.

(** A plugin that holds its strings, as when it had duplicated them. *)
Definition owning_server : gw :=
  traced sample_server (map Acquire (given_labels (ctx_strings (g_ctx sample_server)))).

Lemma owning_server_wf : gw_wf owning_server.
Proof. destruct sample_server_wf. by constructor. Qed.

Example exit_releases_all_witness :
  let g := owning_server in
  exists g1 t, exit_objects g = Some (tt, g1) /\
    g_connections g1 = [] /\ g_heap g1 = ∅ /\ g_agents g1 = [] /\
    w_trace (g_world g1) = w_trace (g_world g) ++ t /\
    (forall o, In o engine_labels -> live o t = live o (map Release (engine_owned (g_ctx g)))) /\
    live "tcp_port" t = 0 /\ live "ctx" t = 0 /\
    exists g', exit_cb g = Some (0, g') /\
      w_trace (g_world g') = w_trace (g_world g) ++ t ++ map Release (tail_objects (g_ctx g)).
Proof.
  intros g. destruct (exit_releases_all g owning_server_wf)
    as (g1 & t & H1 & H2 & H3 & H4 & H5 & H6 & H7 & H8 & H9).
  rewrite decide_True in H9
    by (unfold holds; repeat (apply Forall_cons; split; [by vm_compute|]); apply Forall_nil_2).
  exists g1, t. exact (conj H1 (conj H2 (conj H3 (conj H4 (conj H5 (conj H6
    (conj H7 (conj H8 H9)))))))).
Defined.

Example plugin_lifecycle_witness :
  let ctx := fst sample_started in
  let w := snd sample_started in
  exists g g', run_callbacks [CbAccept (Some 5); CbHeartbeat; CbDatabase; CbLease;
      CbEvent 0 true false] (fresh_gw ctx (always (7, 7)) w) = Some (tt, g) /\ gw_wf g /\
    exit_objects g = Some (tt, g') /\ g_connections g' = [] /\ g_agents g' = [] /\
    (is_Some (exit_cb g) <-> holds g (given_labels (ctx_strings (g_ctx g)))).
Proof.
  intros ctx w.
  apply (plugin_lifecycle sample_instance 0 sample_start ctx w (always (7, 7)));
    [done|done|by intros fd; constructor|by vm_compute| |by vm_compute|by vm_compute].
  repeat constructor; vm_compute; done.
Defined.

(** The buffer size is not validated: with a chunk size that is not a number
    start-up succeeds, and every connection is closed at its first event although
    its peer has sent bytes. *)
Theorem unparsed_chunk_size_closes :
  match init (Instance None 0 [(str "chunk_size", str "32k"); (str "Chunk_Size", str "max")]) 0
          sample_start with
  | Some ((ret, Some ctx), w) =>
      let w := w <| w_input := fun _ => str "<13>hello" ++ [10] |> in
      match run_callbacks [CbAccept (Some 5); CbEvent 0 true false]
              (fresh_gw ctx (always (7, 7)) w) with
      | Some (_, g) => ret = 0 /\ ctx_chunk_size ctx = 0 /\ g_connections g = [] /\
          g_records g = []
      | None => False
      end
  | _ => False
  end.
Proof. by vm_compute. Qed.
