(* ===== verification/Ring.v ===== *)
(** Circular buffers: what [WQueue], [BQueue] and [AgentBuffer] share. A buffer of
    [n] slots whose elements start at slot [start] and may wrap around holds a list
    of items; a queue that is full keeps one slot free. The contract of a bounded
    queue is a class, against which its users' theorems are proved. *)
From S2P Require Import Prelude.
#[local] Open Scope Z_scope.

(** * Slots *)

(** [i mod n] for an index that ran past the end at most once. *)
Definition wrap (n i : Z) : Z := if i <? n then i else i - n.

Lemma wrap_mod n i : 0 <= i < 2 * n -> i mod n = wrap n i.
Proof.
  intros H. unfold wrap. destruct (Z.ltb_spec i n); [apply Z.mod_small; lia|].
  symmetry. apply (Z.mod_unique_pos i n 1); lia.
Qed.

Lemma wrap_lt n i : i < n -> wrap n i = i.
Proof. intros. unfold wrap. case_match; lia. Qed.

Lemma wrap_ge n i : n <= i -> wrap n i = i - n.
Proof. intros. unfold wrap. case_match; lia. Qed.

Lemma wrap_bounds n i : 0 <= i < 2 * n -> 0 <= wrap n i < n.
Proof. intros. unfold wrap. case_match; lia. Qed.

(** The element in a slot. *)
Definition slot {A} (data : list A) (i : Z) : option A := data !! Z.to_nat i.

Lemma slot_insert {A} (data : list A) i j (x : A) :
  0 <= i -> 0 <= j < zlen data ->
  slot (<[Z.to_nat j := x]> data) i = if i =? j then Some x else slot data i.
Proof.
  intros Hi Hj. unfold slot, zlen in *. destruct (Z.eqb_spec i j) as [->|Hne].
  - apply list_lookup_insert_eq. lia.
  - apply list_lookup_insert_ne. lia.
Qed.

Lemma slot_cons {A} (x : A) l i : 0 < i -> slot (x :: l) i = slot l (i - 1).
Proof.
  intros Hi. unfold slot. replace (Z.to_nat i) with (S (Z.to_nat (i - 1))) by lia. done.
Qed.

Lemma slot_snoc {A} (l : list A) x i :
  0 <= i -> slot (l ++ [x]) i = if i =? zlen l then Some x else slot l i.
Proof.
  intros Hi. unfold slot, zlen. destruct (Z.eqb_spec i (Z.of_nat (length l))) as [->|Hne].
  - by rewrite Nat2Z.id, list_lookup_middle.
  - destruct (decide (Z.to_nat i < length l)%nat).
    + by rewrite lookup_app_l by lia.
    + rewrite !lookup_ge_None_2; [done|lia|]. rewrite length_app. cbn. lia.
Qed.

Lemma slot_some {A} (l : list A) i : 0 <= i < zlen l -> is_Some (slot l i).
Proof. intros Hi. apply lookup_lt_is_Some. unfold zlen in Hi. lia. Qed.

Lemma slot_lt {A} (l : list A) i x : 0 <= i -> slot l i = Some x -> i < zlen l.
Proof. intros Hi H%lookup_lt_Some. unfold zlen. lia. Qed.

(** Two lists are equal when their slots are. *)
Lemma slot_ext {A} (l l' : list A) :
  zlen l = zlen l' -> (forall i, 0 <= i < zlen l -> slot l i = slot l' i) -> l = l'.
Proof.
  intros Hn H. apply list_eq. intros i. destruct (decide (i < length l)%nat) as [Hi|Hi].
  - specialize (H (Z.of_nat i)). unfold slot, zlen in H. rewrite Nat2Z.id in H. apply H. lia.
  - unfold zlen in Hn. rewrite !lookup_ge_None_2 by lia. done.
Qed.

(** * The items of a circular buffer *)

Section ring.
Context {A : Type}.
Implicit Types (data items : list A).

Record ring (n start : Z) (data items : list A) : Prop := Ring {
  ring_size : zlen data = n;
  ring_start : 0 <= start < n;
  ring_room : zlen items < n;
  ring_item : forall k x, 0 <= k -> slot items k = Some x -> slot data (wrap n (start + k)) = Some x;
}.

(** The slot after the last item. *)
Definition ring_end (n start count : Z) : Z := wrap n (start + count).

Lemma ring_end_bounds n start data items :
  ring n start data items -> 0 <= ring_end n start (zlen items) < n.
Proof.
  intros []. unfold ring_end, wrap. pose proof (zlen_nonneg items). case_match; lia.
Qed.

(** Empty means that the ends meet, full that the next slot is the start. *)
Lemma ring_empty n start data items :
  ring n start data items -> (ring_end n start (zlen items) = start <-> items = []).
Proof.
  intros []. split.
  - intros H. destruct items as [|x l]; [done|]. rewrite zlen_cons in *.
    pose proof (zlen_nonneg l). unfold ring_end, wrap in H. case_match; lia.
  - intros ->. unfold ring_end, wrap. change (zlen []) with 0. case_match; lia.
Qed.

Lemma ring_full n start data items :
  ring n start data items ->
  ((ring_end n start (zlen items) + 1) mod n = start <-> zlen items = n - 1).
Proof.
  intros H. pose proof (ring_end_bounds _ _ _ _ H). destruct H.
  pose proof (zlen_nonneg items). rewrite wrap_mod by lia.
  unfold ring_end, wrap in *. split; repeat case_match; lia.
Qed.

Lemma ring_push n start data items x :
  ring n start data items -> zlen items < n - 1 ->
  ring n start (<[Z.to_nat (ring_end n start (zlen items)) := x]> data) (items ++ [x]).
Proof.
  intros H Hr. pose proof (ring_end_bounds _ _ _ _ H). destruct H.
  pose proof (zlen_nonneg items).
  constructor; [unfold zlen in *; by rewrite length_insert|done|by rewrite zlen_app, zlen_cons; change (zlen []) with 0; lia|].
  intros k y Hk. rewrite slot_snoc by done.
  assert (Hw : forall j, 0 <= j < n -> 0 <= wrap n (start + j))
    by (intros; unfold wrap; case_match; lia).
  destruct (Z.eqb_spec k (zlen items)) as [->|Hne].
  - intros [= <-]. rewrite slot_insert by (try apply Hw; lia).
    unfold ring_end. by rewrite Z.eqb_refl.
  - intros Hy. pose proof (slot_lt _ _ _ Hk Hy). rewrite slot_insert by (try apply Hw; lia).
    rewrite (proj2 (Z.eqb_neq _ _)); [by apply ring_item0|].
    unfold ring_end, wrap. repeat case_match; lia.
Qed.

Lemma ring_end_push n start count :
  0 <= start < n -> 0 <= count < n - 1 ->
  (ring_end n start count + 1) mod n = ring_end n start (count + 1).
Proof.
  intros Hs Hc. unfold ring_end. rewrite wrap_mod.
  - unfold wrap. repeat case_match; lia.
  - unfold wrap. case_match; lia.
Qed.

Lemma ring_head n start data x items :
  ring n start data (x :: items) -> slot data start = Some x.
Proof.
  intros []. specialize (ring_item0 0 x ltac:(lia) eq_refl).
  rewrite Z.add_0_r in ring_item0. unfold wrap in *. by case_match; [|lia].
Qed.

Lemma ring_pop n start data x items :
  ring n start data (x :: items) -> ring n ((start + 1) mod n) data items.
Proof.
  intros []. rewrite zlen_cons in *. pose proof (zlen_nonneg items).
  rewrite wrap_mod by lia. constructor; [done|unfold wrap; case_match; lia|lia|].
  intros k y Hk Hy. pose proof (slot_lt _ _ _ Hk Hy).
  specialize (ring_item0 (k + 1) y ltac:(lia)). rewrite slot_cons in ring_item0 by lia.
  rewrite Z.add_simpl_r in ring_item0. rewrite <- (ring_item0 Hy). f_equal.
  unfold wrap. repeat case_match; lia.
Qed.

Lemma ring_end_pop n start count :
  0 <= start < n -> 0 < count < n ->
  ring_end n ((start + 1) mod n) (count - 1) = ring_end n start count.
Proof.
  intros Hs Hc. rewrite wrap_mod by lia. unfold ring_end, wrap. repeat case_match; lia.
Qed.
End ring.

(** Slots of parts of a buffer, and after [load] and [store]. *)

Lemma slot_app {A} (l l' : list A) i :
  0 <= i -> slot (l ++ l') i = if i <? zlen l then slot l i else slot l' (i - zlen l).
Proof.
  intros Hi. unfold slot, zlen. destruct (Z.ltb_spec i (Z.of_nat (length l))).
  - by rewrite lookup_app_l by lia.
  - rewrite lookup_app_r by lia. f_equal; lia.
Qed.

Lemma slot_take {A} n (l : list A) i :
  0 <= i < n -> slot (take (Z.to_nat n) l) i = slot l i.
Proof. intros Hi. unfold slot. apply lookup_take_lt. lia. Qed.

Lemma slot_drop {A} n (l : list A) i :
  0 <= n -> 0 <= i -> slot (drop (Z.to_nat n) l) i = slot l (n + i).
Proof. intros Hn Hi. unfold slot. rewrite lookup_drop. f_equal; lia. Qed.

Lemma load_slots m off n d :
  load m off n = Some d -> zlen d = n /\ forall i, 0 <= i < n -> slot d i = slot m (off + i).
Proof.
  intros H. split; [by eapply load_length|]. unfold load in H.
  destruct (_ && _) eqn:E; [|done]. injection H as <-.
  rewrite !andb_true_iff, !Z.leb_le in E. intros i Hi.
  rewrite slot_take, slot_drop by lia. done.
Qed.

Lemma load_fits m off n : 0 <= off -> 0 <= n -> off + n <= zlen m -> is_Some (load m off n).
Proof. intros. rewrite load_some by lia. by eexists. Qed.

Lemma store_slots m off d m' :
  store m off d = Some m' -> zlen m' = zlen m /\
  (forall i, off <= i < off + zlen d -> slot m' i = slot d (i - off)) /\
  (forall i, 0 <= i -> i < off \/ off + zlen d <= i -> slot m' i = slot m i).
Proof.
  intros H. split; [by eapply store_length|]. unfold store in H.
  destruct (_ && _) eqn:E; [|done]. injection H as <-.
  rewrite !andb_true_iff, !Z.leb_le in E. pose proof (zlen_nonneg d).
  assert (Hd : (Z.to_nat off + length d)%nat = Z.to_nat (off + zlen d)) by (unfold zlen; lia).
  rewrite Hd. split.
  - intros i Hi. rewrite slot_app, zlen_take by lia. destruct (Z.ltb_spec i off); [lia|].
    rewrite slot_app by lia. destruct (Z.ltb_spec (i - off) (zlen d)); [done|lia].
  - intros i Hi Ho. rewrite slot_app by lia. rewrite zlen_take by lia.
    destruct (Z.ltb_spec i off); [by rewrite slot_take by lia|].
    rewrite slot_app by lia. destruct (Z.ltb_spec (i - off) (zlen d)); [lia|].
    rewrite slot_drop by lia. f_equal; lia.
Qed.

(** Writing a slot; outside the buffer it is undefined behaviour. *)
Definition set_slot {A} (data : list A) (i : Z) (x : A) : option (list A) :=
  if (0 <=? i) && (i <? zlen data) then Some (<[Z.to_nat i := x]> data) else None.

Lemma set_slot_some {A} (data : list A) i x :
  0 <= i < zlen data -> set_slot data i x = Some (<[Z.to_nat i := x]> data).
Proof. intros H. unfold set_slot. by rewrite (proj2 (Z.leb_le _ _)), (proj2 (Z.ltb_lt _ _)) by lia. Qed.

(** * The contract of a bounded queue

    [fifo_valid q l]: the queue [q] is well formed and holds the items [l], oldest
    first. *)
Class BoundedFifo (Q A : Type) := {
  fifo_push : Q -> A -> option Q;
  fifo_pop : Q -> option (A * Q);
  fifo_capacity : Q -> Z;
  fifo_valid : Q -> list A -> Prop;
}.

Class BoundedFifoLaws (Q A : Type) `{!BoundedFifo Q A} := {
  push_accepts q l x : fifo_valid q l -> zlen l < fifo_capacity q ->
    exists q', fifo_push q x = Some q' /\ fifo_valid q' (l ++ [x]) /\
               fifo_capacity q' = fifo_capacity q;
  push_refuses q l x : fifo_valid q l -> fifo_capacity q <= zlen l -> fifo_push q x = None;
  pop_takes q x l : fifo_valid q (x :: l) ->
    exists q', fifo_pop q = Some (x, q') /\ fifo_valid q' l /\
               fifo_capacity q' = fifo_capacity q;
  pop_empty q : fifo_valid q [] -> fifo_pop q = None;
}.

(** What its users may do, and what they see. *)
Inductive queue_op (A : Type) :=
| OpPush (x : A)
| OpPop.
Arguments OpPush {A} x.
Arguments OpPop {A}.

Inductive queue_result (A : Type) :=
| Accepted (x : A)
| Refused (x : A)
| Popped (x : A)
| WasEmpty.
Arguments Accepted {A} x.
Arguments Refused {A} x.
Arguments Popped {A} x.
Arguments WasEmpty {A}.

Section clients.
Context {Q A : Type} `{Laws : BoundedFifoLaws Q A}.

Definition queue_step (q : Q) (op : queue_op A) : queue_result A * Q :=
  match op with
  | OpPush x => match fifo_push q x with
                | Some q' => (Accepted x, q')
                | None => (Refused x, q)
                end
  | OpPop => match fifo_pop q with
             | Some (x, q') => (Popped x, q')
             | None => (WasEmpty, q)
             end
  end.

Fixpoint queue_run (q : Q) (ops : list (queue_op A)) : list (queue_result A) * Q :=
  match ops with
  | [] => ([], q)
  | op :: rest => let '(r, q) := queue_step q op in
                  let '(rs, q) := queue_run q rest in (r :: rs, q)
  end.

(** The abstract queue: a list of at most [cap] items. *)
Definition spec_step (cap : Z) (l : list A) (op : queue_op A) : queue_result A * list A :=
  match op with
  | OpPush x => if zlen l <? cap then (Accepted x, l ++ [x]) else (Refused x, l)
  | OpPop => match l with x :: l' => (Popped x, l') | [] => (WasEmpty, []) end
  end.

Fixpoint spec_run (cap : Z) (l : list A) (ops : list (queue_op A))
    : list (queue_result A) * list A :=
  match ops with
  | [] => ([], l)
  | op :: rest => let '(r, l) := spec_step cap l op in
                  let '(rs, l) := spec_run cap l rest in (r :: rs, l)
  end.

Lemma queue_step_refines q l op :
  fifo_valid q l ->
  exists q' l', queue_step q op = (fst (spec_step (fifo_capacity q) l op), q') /\
    l' = snd (spec_step (fifo_capacity q) l op) /\ fifo_valid q' l' /\
    fifo_capacity q' = fifo_capacity q.
Proof.
  intros Hv. destruct op as [x|]; cbn [queue_step spec_step].
  - destruct (Z.ltb_spec (zlen l) (fifo_capacity q)) as [Hlt|Hge].
    + destruct (push_accepts q l x Hv Hlt) as (q' & -> & Hv' & Hc). by exists q', (l ++ [x]).
    + rewrite (push_refuses q l x Hv Hge). by exists q, l.
  - destruct l as [|x l].
    + rewrite (pop_empty q Hv). by exists q, [].
    + destruct (pop_takes q x l Hv) as (q' & -> & Hv' & Hc). by exists q', l.
Qed.

(** The implementation's answers are the specification's, for every sequence of
    operations. *)
Lemma queue_run_refines q l ops :
  fifo_valid q l ->
  exists q', queue_run q ops = (fst (spec_run (fifo_capacity q) l ops), q') /\
    fifo_valid q' (snd (spec_run (fifo_capacity q) l ops)) /\
    fifo_capacity q' = fifo_capacity q.
Proof.
  revert q l. induction ops as [|op ops IH]; intros q l Hv; cbn [queue_run spec_run].
  { by exists q. }
  destruct (queue_step_refines q l op Hv) as (q1 & l1 & -> & -> & Hv1 & Hc).
  destruct (spec_step _ l op) as [r l1]. cbn [fst snd] in *.
  destruct (IH q1 l1 Hv1) as (q2 & -> & Hv2 & Hc2). rewrite Hc in *.
  destruct (spec_run _ l1 ops) as [rs l2]. exists q2. split_and!; [done|done|congruence].
Qed.

Definition accepted (r : queue_result A) : list A :=
  match r with Accepted x => [x] | _ => [] end.
Definition popped (r : queue_result A) : list A :=
  match r with Popped x => [x] | _ => [] end.

(** Nothing is lost, duplicated or reordered: what was there and what was accepted
    is, in order, what was popped and what is left. *)
Lemma spec_run_conserves cap l ops :
  let '(rs, l') := spec_run cap l ops in
  l ++ concat (map accepted rs) = concat (map popped rs) ++ l' /\
  (zlen l <= cap -> zlen l' <= cap).
Proof.
  revert l. induction ops as [|op ops IH]; intros l; cbn [spec_run].
  { split; [by rewrite app_nil_r|done]. }
  destruct (spec_step cap l op) as [r l1] eqn:E. specialize (IH l1).
  destruct (spec_run cap l1 ops) as [rs l2]. destruct IH as [IH IHc].
  cbn [map concat]. destruct op as [x|]; cbn [spec_step] in E.
  - destruct (Z.ltb_spec (zlen l) cap); injection E as <- <-; cbn [accepted popped app].
    + split; [by rewrite <- IH, <- app_assoc|]. intros _. apply IHc. zlia.
    + done.
  - destruct l as [|x l]; injection E as <- <-; cbn [accepted popped app].
    + done.
    + split; [by f_equal|]. rewrite zlen_cons. intros. apply IHc. lia.
Qed.
End clients.
