(* ===== verification/WQueue.v ===== *)
(** The agent's pointer queue, agents/shared/queue_op.c: a bounded circular buffer
    of pointers (0 is the null pointer), and the blocking operations threads use on
    it. Every operation runs under the queue's mutex, so threads interleave whole
    operations; a call that waits on a condition variable is one that returns the
    mutex and is later woken, or whose deadline passes, woken or not. *)
From S2P Require Import Prelude Ring.
#[local] Open Scope Z_scope.

(** * The queue *)

Record w_queue_t := WQueue {
  wq_data : list Z;
  wq_begin : Z;
  wq_end : Z;
  wq_size : Z;
  wq_elements : Z;
}.
#[export] Instance eta_w_queue : Eta w_queue_t := fun q =>
  WQueue (wq_data q) (wq_begin q) (wq_end q) (wq_size q) (wq_elements q).

(** [mem] is the memory [os_malloc] returns for [size] pointers. *)
Definition queue_init (size : Z) (mem : list Z) : w_queue_t := WQueue mem 0 0 size 0.

Definition queue_free {S} `{!HasWorld S} (q : option w_queue_t) : ST S unit :=
  match q with
  | Some _ => _ ← free "data"; free "queue"
  | None => mret tt
  end.

Definition queue_full (q : w_queue_t) : bool :=
  u64 (wq_begin q + 1) mod wq_size q =? wq_end q.

Definition queue_empty (q : w_queue_t) : bool := wq_begin q =? wq_end q.

(** [None] is an access outside [data]. *)
Definition queue_push (q : w_queue_t) (data : Z) : option (Z * w_queue_t) :=
  if queue_full q then Some (-1, q) else
  mem ← set_slot (wq_data q) (wq_begin q) data;
  Some (0, q <| wq_data := mem |> <| wq_begin := u64 (wq_begin q + 1) mod wq_size q |>
             <| wq_elements := u32 (wq_elements q + 1) |>).

Definition queue_pop (q : w_queue_t) : option (Z * w_queue_t) :=
  if queue_empty q then Some (0, q) else
  data ← slot (wq_data q) (wq_end q);
  Some (data, q <| wq_end := u64 (wq_end q + 1) mod wq_size q |>
                <| wq_elements := u32 (wq_elements q - 1) |>).

(** * The blocking operations

    What a call does while it holds the mutex: it returns a result and names the
    condition variables it signals, or it waits. *)
Inductive w_cond := available | available_not_empty.

Inductive attempt :=
| Returns (result : Z) (signals : list w_cond)
| WaitsOn (c : w_cond).

Definition queue_full_ex (q : w_queue_t) : bool := queue_full q.
Definition queue_empty_ex (q : w_queue_t) : bool := queue_empty q.

Definition queue_push_ex (q : w_queue_t) (data : Z) : option (attempt * w_queue_t) :=
  '(result, q) ← queue_push q data;
  Some (Returns result (if result =? 0 then [available] else []), q).

Definition queue_push_ex_block (q : w_queue_t) (data : Z) : option (attempt * w_queue_t) :=
  if queue_full q then Some (WaitsOn available_not_empty, q) else
  '(result, q) ← queue_push q data;
  Some (Returns result [available_not_empty; available], q).

Definition queue_pop_ex (q : w_queue_t) : option (attempt * w_queue_t) :=
  '(data, q) ← queue_pop q;
  if data =? 0 then Some (WaitsOn available, q)
  else Some (Returns data [available_not_empty], q).

(** [timeout]: has the deadline passed? *)
Definition queue_pop_ex_timedwait (q : w_queue_t) (timeout : bool)
    : option (attempt * w_queue_t) :=
  '(data, q) ← queue_pop q;
  if data =? 0
  then Some (if timeout : bool then Returns 0 [] else WaitsOn available, q)
  else Some (Returns data [available_not_empty], q).

Definition try_queue_pop_ex (q : w_queue_t) : option (attempt * w_queue_t) :=
  '(data, q) ← queue_pop q;
  Some (Returns data (if negb (data =? 0) then [available_not_empty] else []), q).

(** * The queue as a bounded FIFO *)

Record wq_valid (q : w_queue_t) (items : list Z) : Prop := {
  wqv_ring : ring (wq_size q) (wq_end q) (wq_data q) items;
  wqv_begin : wq_begin q = ring_end (wq_size q) (wq_end q) (zlen items);
  wqv_size : wq_size q < 2 ^ 63;
  wqv_elements : wq_elements q = u32 (zlen items);
}.

Lemma init_valid size mem :
  0 < size < 2 ^ 63 -> zlen mem = size -> wq_valid (queue_init size mem) [].
Proof.
  intros Hs Hm. constructor; [|change (0 = wrap size 0); unfold wrap; case_match; lia|cbn; lia|done].
  constructor; [done|cbn; lia|change (0 < size); lia|by intros].
Qed.

(** The next slot, on [size_t]. *)
Lemma next_slot q items i :
  wq_valid q items -> 0 <= i < wq_size q -> u64 (i + 1) mod wq_size q = (i + 1) mod wq_size q.
Proof. intros [] Hi. rewrite uwrap_small; [done|]. unfold fits. lia. Qed.

Lemma queue_full_iff q items :
  wq_valid q items -> queue_full q = (zlen items =? wq_size q - 1).
Proof.
  intros Hv. pose proof (wqv_ring _ _ Hv) as Hr. pose proof (ring_end_bounds _ _ _ _ Hr) as Hb.
  unfold queue_full. rewrite (next_slot _ _ _ Hv), (wqv_begin _ _ Hv)
    by (rewrite (wqv_begin _ _ Hv); lia).
  pose proof (ring_full _ _ _ _ Hr). destruct (Z.eqb_spec (zlen items) (wq_size q - 1));
    [apply Z.eqb_eq|apply Z.eqb_neq]; tauto.
Qed.

Lemma queue_empty_iff q items :
  wq_valid q items -> queue_empty q = bool_decide (items = []).
Proof.
  intros Hv. unfold queue_empty. rewrite (wqv_begin _ _ Hv).
  pose proof (ring_empty _ _ _ _ (wqv_ring _ _ Hv)).
  case_bool_decide; [apply Z.eqb_eq|apply Z.eqb_neq]; tauto.
Qed.

Lemma queue_push_spec q items x :
  wq_valid q items ->
  if zlen items =? wq_size q - 1 then queue_push q x = Some (-1, q)
  else exists q', queue_push q x = Some (0, q') /\ wq_valid q' (items ++ [x]) /\
         wq_size q' = wq_size q.
Proof.
  intros Hv. unfold queue_push. rewrite (queue_full_iff _ _ Hv).
  destruct (Z.eqb_spec (zlen items) (wq_size q - 1)) as [|Hne]; [done|].
  destruct (Hv) as [Hr Hb Hs He]. pose proof (ring_end_bounds _ _ _ _ Hr).
  destruct (Hr) as [Hn Hst Hroom _]. pose proof (zlen_nonneg items).
  rewrite set_slot_some by lia. cbn. eexists. split; [reflexivity|]. split; [|done].
  constructor; cbn.
  - rewrite Hb. apply ring_push; [done|lia].
  - rewrite (next_slot _ _ _ Hv) by lia. rewrite Hb, ring_end_push by lia.
    by rewrite zlen_app.
  - done.
  - rewrite He, zlen_app. apply uwrap_add_l.
Qed.

Lemma queue_pop_spec q items :
  wq_valid q items ->
  match items with
  | [] => queue_pop q = Some (0, q)
  | x :: rest => exists q', queue_pop q = Some (x, q') /\ wq_valid q' rest /\
      wq_size q' = wq_size q
  end.
Proof.
  intros Hv. unfold queue_pop. rewrite (queue_empty_iff _ _ Hv).
  destruct (Hv) as [Hr Hb Hs He]. destruct (Hr) as [Hn Hst Hroom _].
  destruct items as [|x rest]; [done|]. rewrite bool_decide_eq_false_2 by done.
  rewrite (ring_head _ _ _ _ _ Hr). cbn. eexists. split; [reflexivity|]. split; [|done].
  pose proof (zlen_nonneg rest). rewrite zlen_cons in *.
  constructor; cbn; rewrite ?(next_slot _ _ _ Hv) by lia.
  - by eapply ring_pop.
  - rewrite Hb. rewrite <- (ring_end_pop _ _ (1 + zlen rest)) by lia. f_equal. lia.
  - done.
  - rewrite He, uwrap_sub_l. f_equal. lia.
Qed.

#[export] Instance w_queue_fifo : BoundedFifo w_queue_t Z := {|
  fifo_push q x := match queue_push q x with Some (0, q') => Some q' | _ => None end;
  fifo_pop q := if queue_empty q then None else queue_pop q;
  fifo_capacity q := wq_size q - 1;
  fifo_valid := wq_valid |}.

#[export] Instance w_queue_fifo_laws : BoundedFifoLaws w_queue_t Z.
Proof.
  constructor; cbn.
  - intros q l x Hv Hc. pose proof (queue_push_spec q l x Hv) as H.
    destruct (Z.eqb_spec (zlen l) (wq_size q - 1)); [lia|].
    destruct H as (q' & -> & Hv' & Hq). exists q'. by rewrite Hq.
  - intros q l x Hv Hc. pose proof (queue_push_spec q l x Hv) as H.
    destruct (Hv) as [[_ _ Hroom _] _ _ _].
    destruct (Z.eqb_spec (zlen l) (wq_size q - 1)); [by rewrite H|lia].
  - intros q x l Hv. rewrite (queue_empty_iff _ _ Hv). cbn.
    destruct (queue_pop_spec q (x :: l) Hv) as (q' & -> & Hv' & Hq). exists q'. by rewrite Hq.
  - intros q Hv. by rewrite (queue_empty_iff _ _ Hv).
Qed.

(** C10: the pointer queue is a bounded FIFO: from [queue_init], any sequence of
    pushes and pops answers as a list of at most [size - 1] items does, and what
    was accepted comes out in order, once, with nothing lost. *)
Theorem queue_is_fifo size mem ops :
  0 < size < 2 ^ 63 -> zlen mem = size ->
  let '(rs, l) := spec_run (size - 1) [] ops in
  fst (queue_run (queue_init size mem) ops) = rs /\
  concat (map accepted rs) = concat (map popped rs) ++ l /\ zlen l <= size - 1.
Proof.
  intros Hs Hm.
  pose proof (init_valid size mem Hs Hm : fifo_valid (queue_init size mem) []) as Hv.
  destruct (queue_run_refines (queue_init size mem) [] ops Hv) as (q' & Hrun & _ & _).
  pose proof (spec_run_conserves (size - 1) [] ops) as Hc.
  change (fifo_capacity (queue_init size mem)) with (size - 1) in Hrun.
  destruct (spec_run (size - 1) [] ops) as [rs l]. cbn [fst snd app] in *.
  destruct Hc as [Hc Hb]. rewrite Hrun. split_and!; [done|done|].
  apply Hb. change (zlen []) with 0. lia.
Qed.

(** * Threads

    Threads blocked on a condition variable are counted: those asleep, and those
    that were woken and have not run yet. A consumer in [queue_pop_ex] and one in
    [queue_pop_ex_timedwait] sleep on the same condition variable, and a signal
    wakes one of them, whichever; they are counted apart because they wake up
    differently. A woken thread, or one that enters, runs its attempt; one that
    has to wait falls asleep. A sleeper may also wake spuriously.

    A timed wait has two more ways out, both NULL: nobody woke it and its deadline
    passed; or it was woken, but its deadline passed before it had the mutex again,
    so the wait reports the timeout and the queue is not looked at. [th_expired]
    counts the second kind. *)
Record threads := Threads {
  th_queue : w_queue_t;
  th_consumers : nat * nat;       (* asleep, woken: queue_pop_ex *)
  th_timed : nat * nat;           (* asleep, woken: queue_pop_ex_timedwait *)
  th_producers : nat * nat;       (* asleep, woken: queue_push_ex_block *)
  th_expired : nat;
}.
#[export] Instance eta_threads : Eta threads := fun t =>
  Threads (th_queue t) (th_consumers t) (th_timed t) (th_producers t) (th_expired t).

Definition wake (c : nat * nat) : nat * nat :=
  match c with (S asleep, woken) => (asleep, S woken) | c => c end.

Definition doze (c : nat * nat) : nat * nat := (S (fst c), snd c).

(** A signal wakes one sleeper if there is one: [pick] says whether it is a timed
    one when both kinds sleep. *)
Definition signal (pick : bool) (t : threads) (c : w_cond) : threads :=
  match c with
  | available =>
      match fst (th_consumers t), fst (th_timed t) with
      | S _, S _ => if pick then t <| th_timed := wake (th_timed t) |>
                    else t <| th_consumers := wake (th_consumers t) |>
      | S _, 0%nat => t <| th_consumers := wake (th_consumers t) |>
      | 0%nat, _ => t <| th_timed := wake (th_timed t) |>
      end
  | available_not_empty => t <| th_producers := wake (th_producers t) |>
  end.

Definition sleep (timed : bool) (c : w_cond) (t : threads) : threads :=
  match c with
  | available => if timed then t <| th_timed := doze (th_timed t) |>
                 else t <| th_consumers := doze (th_consumers t) |>
  | available_not_empty => t <| th_producers := doze (th_producers t) |>
  end.

(** The effect of an attempt on the threads. *)
Definition finish (timed pick : bool) (a : attempt) (q : w_queue_t) (t : threads) : threads :=
  let t := t <| th_queue := q |> in
  match a with
  | Returns _ signals => foldl (signal pick) t signals
  | WaitsOn c => sleep timed c t
  end.

(** The operations a thread can enter with; the pointers pushed are not null. *)
Definition enters (timed : bool) (f : w_queue_t -> option (attempt * w_queue_t)) : Prop :=
  if timed then exists deadline, f = (fun q => queue_pop_ex_timedwait q deadline)
  else (exists data, data <> 0 /\
         (f = (fun q => queue_push_ex q data) \/ f = (fun q => queue_push_ex_block q data))) \/
       f = queue_pop_ex \/ f = try_queue_pop_ex.

Inductive thread_step : threads -> threads -> Prop :=
| step_enter timed pick f t a q' : enters timed f -> f (th_queue t) = Some (a, q') ->
    thread_step t (finish timed pick a q' t)
| step_resume_pop pick t n w a q' : th_consumers t = (n, S w) ->
    queue_pop_ex (th_queue t) = Some (a, q') ->
    thread_step t (finish false pick a q' (t <| th_consumers := (n, w) |>))
| step_resume_timed pick t n w deadline a q' : th_timed t = (n, S w) ->
    queue_pop_ex_timedwait (th_queue t) deadline = Some (a, q') ->
    thread_step t (finish true pick a q' (t <| th_timed := (n, w) |>))
| step_resume_push pick t n w data a q' : th_producers t = (n, S w) -> data <> 0 ->
    queue_push_ex_block (th_queue t) data = Some (a, q') ->
    thread_step t (finish false pick a q' (t <| th_producers := (n, w) |>))
| step_spurious_consumer t n w : th_consumers t = (S n, w) ->
    thread_step t (t <| th_consumers := (n, S w) |>)
| step_spurious_timed t n w : th_timed t = (S n, w) ->
    thread_step t (t <| th_timed := (n, S w) |>)
| step_spurious_producer t n w : th_producers t = (S n, w) ->
    thread_step t (t <| th_producers := (n, S w) |>)
| step_timeout t n w : th_timed t = (S n, w) ->
    thread_step t (t <| th_timed := (n, w) |>)
| step_expire t n w : th_timed t = (n, S w) ->
    thread_step t (t <| th_timed := (n, w) |> <| th_expired := S (th_expired t) |>).

(** Nobody has entered yet. *)
Definition no_threads (q : w_queue_t) : threads := Threads q (0, 0)%nat (0, 0)%nat (0, 0)%nat 0.

(** Sleepers are not forgotten: while a consumer sleeps, every item is owed to a
    consumer that was woken, or was to a timed wait that expired; while a producer
    sleeps, every free slot is owed to a producer that was woken. [dc] and [dp] are
    the debts of a woken consumer or producer that is running. *)
Definition owed (items : list Z) (size : Z) (dc dp : Z) (t : threads) : Prop :=
  ((0 < fst (th_consumers t) + fst (th_timed t))%nat ->
   zlen items <= Z.of_nat (snd (th_consumers t) + snd (th_timed t) + th_expired t) + dc) /\
  ((0 < fst (th_producers t))%nat ->
   size - 1 - zlen items <= Z.of_nat (snd (th_producers t)) + dp).

Definition threads_inv (size : Z) (t : threads) : Prop :=
  exists items, wq_valid (th_queue t) items /\ Forall (fun x => x <> 0) items /\
    wq_size (th_queue t) = size /\ owed items size 0 0 t.

(** What an attempt does to the items, and what it reports. *)
Inductive outcome (size : Z) (items : list Z) : attempt -> list Z -> Prop :=
| out_nothing r : outcome size items (Returns r []) items
| out_empty : items = [] -> outcome size items (WaitsOn available) items
| out_full : zlen items = size - 1 -> outcome size items (WaitsOn available_not_empty) items
| out_took x rest : items = x :: rest -> outcome size items (Returns x [available_not_empty]) rest
| out_put r x signals : x <> 0 -> signals = [available] \/ signals = [available_not_empty; available] ->
    outcome size items (Returns r signals) (items ++ [x]).

Section attempts.
Context (q : w_queue_t) (items : list Z).
Context (Hv : wq_valid q items) (Hnz : Forall (fun x => x <> 0) items).

Definition attempted (r : option (attempt * w_queue_t)) : Prop :=
  forall a q', r = Some (a, q') -> exists items', outcome (wq_size q) items a items' /\
    wq_valid q' items' /\ Forall (fun x => x <> 0) items' /\ wq_size q' = wq_size q.

Lemma attempted_pop (nothing : attempt) (k : Z -> attempt) :
  nothing = WaitsOn available \/ nothing = Returns 0 [] ->
  (forall x, x <> 0 -> k x = Returns x [available_not_empty]) ->
  attempted ('(data, q) ← queue_pop q; Some (if data =? 0 then nothing else k data, q)).
Proof.
  intros Hn Hk a q' H. pose proof (queue_pop_spec q items Hv) as Hp.
  destruct items as [|x rest].
  - rewrite Hp in H. cbn in H. injection H as <- <-. exists [].
    split_and!; [|done..]. by destruct Hn as [-> | ->]; constructor.
  - destruct Hp as (q1 & Hq & Hv1 & Hs). rewrite Hq in H. cbn in H.
    apply Forall_cons in Hnz as [Hx Hrest]. rewrite (proj2 (Z.eqb_neq _ _) Hx) in H.
    injection H as <- <-. exists rest. split_and!; [|done..]. rewrite Hk by done. by constructor.
Qed.

Lemma attempted_push x signals :
  x <> 0 -> signals = [available] \/ signals = [available_not_empty; available] ->
  (zlen items = wq_size q - 1 -> queue_push q x = Some (-1, q)) /\
  (zlen items <> wq_size q - 1 ->
   attempted ('(r, q) ← queue_push q x; Some (Returns r signals, q))).
Proof.
  intros Hx Hsg. pose proof (queue_push_spec q items x Hv) as Hp.
  destruct (Z.eqb_spec (zlen items) (wq_size q - 1)) as [E|E]; split; try done.
  intros _ a q' H. destruct Hp as (q1 & Hq & Hv1 & Hs). rewrite Hq in H. cbn in H.
  injection H as <- <-. exists (items ++ [x]). split_and!; [by constructor|done| |done].
  apply Forall_app_2; [done|by constructor].
Qed.

Lemma attempted_push_block x : x <> 0 -> attempted (queue_push_ex_block q x).
Proof.
  intros Hx. unfold queue_push_ex_block. rewrite (queue_full_iff _ _ Hv).
  destruct (Z.eqb_spec (zlen items) (wq_size q - 1)) as [E|E].
  - intros a q' [= <- <-]. exists items. split_and!; [by constructor|done..].
  - by apply attempted_push; [|right|].
Qed.

Lemma attempted_enter timed f : enters timed f -> attempted (f q).
Proof.
  destruct timed; cbn; [intros [timeout ->]|intros [(x & Hx & [->| ->])|[->| ->]]].
  - intros a q' H. eapply (attempted_pop (if timeout then Returns 0 [] else WaitsOn available)
      (fun x => Returns x [available_not_empty])); [destruct timeout; tauto|done|].
    rewrite <- H. unfold queue_pop_ex_timedwait. destruct (queue_pop q) as [[data q1]|]; [|done].
    cbn. by destruct (data =? 0).
  - unfold queue_push_ex. pose proof (queue_push_spec q items x Hv) as Hp.
    destruct (Z.eqb_spec (zlen items) (wq_size q - 1)) as [E|E].
    + rewrite Hp. intros a q' [= <- <-]. exists items. split_and!; [constructor|done..].
    + destruct Hp as (q1 & Hq & Hv1 & Hs). rewrite Hq. intros a q' [= <- <-].
      exists (items ++ [x]). split_and!; [by constructor; [|left]|done| |done].
      apply Forall_app_2; [done|by constructor].
  - by apply attempted_push_block.
  - intros a q' H. eapply (attempted_pop (WaitsOn available)
      (fun x => Returns x [available_not_empty])); [by left|done|].
    rewrite <- H. unfold queue_pop_ex. destruct (queue_pop q) as [[data q1]|]; [|done].
    cbn. by destruct (data =? 0).
  - intros a q' H. eapply (attempted_pop (Returns 0 [])
      (fun x => Returns x [available_not_empty])); [by right|done|].
    rewrite <- H. unfold try_queue_pop_ex. destruct (queue_pop q) as [[data q1]|]; [|done].
    cbn. by destruct (Z.eqb_spec data 0) as [->|].
Qed.
End attempts.

(** What a consumer's attempt can be: it waits, it takes an item, or (a timed one)
    it finds the queue empty and gives up. *)
Definition consumes (items : list Z) (a : attempt) : Prop :=
  match a with
  | WaitsOn c => c = available
  | Returns x signals => signals = [available_not_empty] \/ signals = [] /\ items = []
  end.

Definition produces (a : attempt) : Prop :=
  match a with
  | WaitsOn c => c = available_not_empty
  | Returns r signals => signals = [available_not_empty; available]
  end.

Lemma pop_ex_attempt q items a q' : queue_pop_ex q = Some (a, q') -> consumes items a.
Proof.
  unfold queue_pop_ex. destruct (queue_pop q) as [[data q1]|]; [|done]. cbn.
  destruct (data =? 0); intros [= <- <-]; [done|by left].
Qed.

Lemma pop_ex_timedwait_attempt q items deadline a q' :
  wq_valid q items -> Forall (fun x => x <> 0) items ->
  queue_pop_ex_timedwait q deadline = Some (a, q') -> consumes items a.
Proof.
  intros Hv Hnz. unfold queue_pop_ex_timedwait. pose proof (queue_pop_spec q items Hv) as Hp.
  destruct items as [|x rest].
  - rewrite Hp. cbn. destruct deadline; intros [= <- <-]; [by right|done].
  - destruct Hp as (q1 & -> & _). apply Forall_cons in Hnz as [Hx _]. cbn.
    rewrite (proj2 (Z.eqb_neq _ _) Hx). intros [= <- <-]. by left.
Qed.

Lemma push_block_attempt q x a q' :
  queue_push_ex_block q x = Some (a, q') -> produces a.
Proof.
  unfold queue_push_ex_block. destruct (queue_full q); [by intros [= <- <-]|].
  destruct (queue_push q x) as [[r q1]|]; [|done]. by intros [= <- <-].
Qed.

(** The accounts after an attempt: a running consumer's or producer's debt is paid. *)
Lemma finish_owed timed pick size items items' a q' t dc dp :
  outcome size items a items' -> owed items size dc dp t ->
  (dc = 0 \/ dc = 1 /\ consumes items a) -> (dp = 0 \/ dp = 1 /\ produces a) ->
  let t' := finish timed pick a q' t in
  th_queue t' = q' /\ owed items' size 0 0 t'.
Proof.
  destruct t as [q [n w] [m v] [k u] e]. unfold owed. cbn [fst snd th_consumers th_timed
    th_producers th_expired]. intros Ho [Hc Hp] Hdc Hdp. pose proof (zlen_nonneg items).
  destruct Ho as [r|E|E|x rest E|r x sg Hx Hsg].
  - assert (dp = 0) as -> by (destruct Hdp as [?|[_ ?]]; done).
    destruct Hdc as [->|(-> & [?|[_ ->]])]; [|done|]; cbn; (split; [done|]).
    + split; lia.
    + change (zlen []) with 0 in *. split; lia.
  - subst items. assert (dp = 0) as -> by (destruct Hdp as [?|[_ ?]]; done).
    change (zlen []) with 0 in *. destruct timed; cbn; (split; [done|]); split; lia.
  - assert (dc = 0) as -> by (destruct Hdc as [?|[_ ?]]; done).
    cbn. split; [done|]. split; lia.
  - subst items. assert (dp = 0) as -> by (destruct Hdp as [?|[_ ?]]; done).
    rewrite zlen_cons in *. destruct k; cbn; (split; [done|]); split; lia.
  - rewrite zlen_app. change (zlen [x]) with 1.
    assert (dc = 0) as ->.
    { destruct Hdc as [?|[_ [?|[? _]]]]; [done|destruct Hsg; congruence..]. }
    destruct Hsg as [-> | ->].
    + assert (dp = 0) as -> by (destruct Hdp as [?|[_ ?]]; done).
      destruct n, m, pick; cbn; (split; [done|]); split; lia.
    + destruct n, m, k, pick; cbn; (split; [done|]); split; lia.
Qed.

(** A step that runs an attempt, from the accounts of the thread that runs it. *)
Lemma attempt_inv timed pick size items t q a q' dc dp :
  attempted q items (Some (a, q')) -> wq_size q = size -> owed items size dc dp t ->
  (dc = 0 \/ dc = 1 /\ consumes items a) -> (dp = 0 \/ dp = 1 /\ produces a) ->
  threads_inv size (finish timed pick a q' t).
Proof.
  intros Ha Hs Ho Hdc Hdp. destruct (Ha a q' eq_refl) as (items' & Hout & Hv & Hnz & Hs').
  rewrite Hs in *. exists items'.
  destruct (finish_owed timed pick _ _ _ _ q' t _ _ Hout Ho Hdc Hdp) as [-> Hw].
  by rewrite Hs'.
Qed.

Lemma thread_step_inv size t t' :
  threads_inv size t -> thread_step t t' -> threads_inv size t'.
Proof.
  intros (items & Hv & Hnz & Hs & Ho) Hstep.
  pose proof Ho as [Hc Hp].
  destruct Hstep as [timed pick f t a q' Hf Ha|pick t n w a q' E Ha|pick t n w dl a q' E Ha
    |pick t n w x a q' E Hx Ha|t n w E|t n w E|t n w E|t n w E|t n w E].
  - eapply (attempt_inv _ _ _ items _ (th_queue t) _ _ 0 0); [|done|done|by left|by left].
    rewrite <- Ha. by eapply attempted_enter.
  - eapply (attempt_inv _ _ _ items _ (th_queue t) _ _ 1 0);
      [|done| |right; split; [done|by eapply pop_ex_attempt]|by left].
    + rewrite <- Ha. by eapply (attempted_enter _ _ Hv Hnz false); right; left.
    + split; cbn; rewrite E in *; cbn in *; lia.
  - eapply (attempt_inv _ _ _ items _ (th_queue t) _ _ 1 0);
      [|done| |right; split; [done|by eapply pop_ex_timedwait_attempt]|by left].
    + rewrite <- Ha. eapply (attempted_enter _ _ Hv Hnz true (fun q =>
        queue_pop_ex_timedwait q dl)). by exists dl.
    + split; cbn; rewrite E in *; cbn in *; lia.
  - eapply (attempt_inv _ _ _ items _ (th_queue t) _ _ 0 1);
      [|done| |by left|right; split; [done|by eapply push_block_attempt]].
    + rewrite <- Ha. by eapply attempted_push_block.
    + split; cbn; rewrite E in *; cbn in *; lia.
  - exists items. split_and!; [done..|]. split; cbn; rewrite E in *; cbn in *; lia.
  - exists items. split_and!; [done..|]. split; cbn; rewrite E in *; cbn in *; lia.
  - exists items. split_and!; [done..|]. split; cbn; rewrite E in *; cbn in *; lia.
  - exists items. split_and!; [done..|]. split; cbn; rewrite E in *; cbn in *; lia.
  - exists items. split_and!; [done..|]. split; cbn; rewrite E in *; cbn in *; lia.
Qed.

(** C11: only an expired timed wait loses a wakeup: in every state that any number
    of threads reach from an empty queue with any interleaving of the queue's
    operations, spurious wakeups and timeouts included, the queue is well formed;
    while a consumer sleeps, the items in the queue are at most the consumers
    already woken plus the timed waits that were woken and returned NULL because
    their deadline passed before they had the mutex again. So when there are more
    items than such expired waits, a woken consumer is about to run, and its
    attempt, timed or not, takes the first item. Dually for producers and free
    slots, where nothing is lost. (What an expired wait loses is
    [timed_wait_loses_wakeup].) *)
Theorem no_lost_wakeup size mem t :
  0 < size < 2 ^ 63 -> zlen mem = size ->
  rtc thread_step (no_threads (queue_init size mem)) t ->
  exists items, wq_valid (th_queue t) items /\ owed items size 0 0 t /\
    forall x rest, items = x :: rest -> Z.of_nat (th_expired t) < zlen items ->
      (0 < fst (th_consumers t) + fst (th_timed t))%nat ->
      (0 < snd (th_consumers t) + snd (th_timed t))%nat /\
      exists q', wq_valid q' rest /\
        queue_pop_ex (th_queue t) = Some (Returns x [available_not_empty], q') /\
        forall deadline, queue_pop_ex_timedwait (th_queue t) deadline =
          Some (Returns x [available_not_empty], q').
Proof.
  intros Hs Hm Hreach.
  assert (H0 : threads_inv size (no_threads (queue_init size mem))).
  { exists []. split_and!; [by apply init_valid|done|done|]. split; cbn; lia. }
  assert (Hinv : threads_inv size t).
  { clear Hs Hm. induction Hreach; [done|]. by eauto using thread_step_inv. }
  destruct Hinv as (items & Hv & Hnz & _ & Hc & Hp). exists items.
  split_and!; [done|by split|]. intros x rest -> He Hpos. specialize (Hc Hpos).
  split; [lia|].
  pose proof (queue_pop_spec _ _ Hv) as (q' & Hq & Hv' & _).
  apply Forall_cons in Hnz as [Hx _]. exists q'. unfold queue_pop_ex, queue_pop_ex_timedwait.
  rewrite Hq. cbn. by rewrite (proj2 (Z.eqb_neq _ _) Hx).
Qed.

(** A timed wait that is woken and then reports its timeout has used up the wakeup:
    with the same queue a consumer sleeps in [queue_pop_ex], an item is there for
    it, and nobody was or will be woken for that item. *)
Theorem timed_wait_loses_wakeup :
  exists t, rtc thread_step (no_threads (queue_init 2 [0; 0])) t /\
    th_consumers t = (1, 0)%nat /\ th_timed t = (0, 0)%nat /\
    exists q', queue_pop_ex (th_queue t) = Some (Returns 7 [available_not_empty], q').
Proof.
  set (q := WQueue [7; 0] 1 0 2 1). set (q0 := queue_init 2 [0; 0]).
  exists (Threads q (1, 0)%nat (0, 0)%nat (0, 0)%nat 1). split; [|by split_and!; eexists].
  eapply rtc_l; [by apply (step_enter false true queue_pop_ex); [right; left|]|].
  eapply rtc_l; [by apply (step_enter true true (fun q => queue_pop_ex_timedwait q false));
    [exists false|]|].
  eapply rtc_l; [by apply (step_enter false true (fun q => queue_push_ex q 7));
    [left; exists 7; split; [|left]|]|].
  apply rtc_once. by apply (step_expire (Threads q (1, 0)%nat (0, 1)%nat (0, 0)%nat 0)).
Qed.

(** * Concrete runs *)

Example queue_is_fifo_witness :
  let mem := [0; 0; 0] in
  let ops := [OpPush 7; OpPush 8; OpPush 9; OpPop; OpPush 10; OpPop; OpPop; OpPop] in
  let '(rs, l) := spec_run 2 [] ops in
  fst (queue_run (queue_init 3 mem) ops) = rs /\
  concat (map accepted rs) = concat (map popped rs) ++ l /\ zlen l <= 2.
Proof. intros mem ops. apply (queue_is_fifo 3 mem ops); [lia|done]. Defined.

(** A consumer and a timed one fall asleep, a producer pushes: one is woken. *)
Example no_lost_wakeup_witness :
  let q := WQueue [7; 0; 0] 1 0 3 1 in
  let t := Threads q (1, 0)%nat (0, 1)%nat (0, 0)%nat 0 in
  exists items, wq_valid q items /\ owed items 3 0 0 t /\
    forall x rest, items = x :: rest -> 0 < zlen items -> (0 < 1)%nat ->
      (0 < 1)%nat /\ exists q', wq_valid q' rest /\
        queue_pop_ex q = Some (Returns x [available_not_empty], q') /\
        forall deadline, queue_pop_ex_timedwait q deadline =
          Some (Returns x [available_not_empty], q').
Proof.
  intros q t. apply (no_lost_wakeup 3 [0; 0; 0] t); [lia|done|].
  set (q0 := queue_init 3 [0; 0; 0]).
  set (t1 := Threads q0 (1, 0)%nat (0, 0)%nat (0, 0)%nat 0).
  set (t2 := Threads q0 (1, 0)%nat (1, 0)%nat (0, 0)%nat 0).
  apply (rtc_l _ _ t1); [|apply (rtc_l _ _ t2); [|apply rtc_once]].
  - by apply (step_enter false true queue_pop_ex (no_threads q0) (WaitsOn available) q0);
      [right; left|].
  - apply (step_enter true true (fun q => queue_pop_ex_timedwait q false) t1
      (WaitsOn available) q0); [by exists false|done].
  - apply (step_enter false true (fun q => queue_push_ex q 7) t2 (Returns 0 [available]) q);
      [|done].
    left. exists 7. split; [done|by left].
Defined.
