(* ===== verification/BQueue.v ===== *)
(** The agent's binary queue, agents/shared/bqueue_op.c: a circular buffer of bytes
    that grows when a push does not fit and, on request, shrinks when it is less
    than half full. Pointers into the buffer are offsets; the null pointer is the
    empty buffer's offset 0. Operations run under the queue's mutex. *)
From S2P Require Import Prelude Ring.
#[local] Open Scope Z_scope.

Definition BQUEUE_NOFLAG : Z := 0.
Definition BQUEUE_WAIT : Z := 1.
Definition BQUEUE_SHRINK : Z := 2.
Definition has_flag (flags flag : Z) : bool := negb (Z.land flags flag =? 0).

Record bqueue_t := BQueue {
  bq_memory : bytes;
  bq_head : Z;
  bq_tail : Z;
  bq_length : Z;
  bq_max_length : Z;
  bq_flags : Z;
}.
#[export] Instance eta_bqueue : Eta bqueue_t := fun q =>
  BQueue (bq_memory q) (bq_head q) (bq_tail q) (bq_length q) (bq_max_length q) (bq_flags q).

(** * Operations

    [None] is an access outside the buffer. A call with [BQUEUE_WAIT] whose
    condition does not hold sleeps: [Waits]. *)
Inductive attempt (A : Type) :=
| Ready (a : A)
| Waits.
Arguments Ready {A} a.
Arguments Waits {A}.

Section bqueue.
(** The contents of fresh memory, by address. *)
Context (junk : Z -> Z).

(** [os_realloc] keeps the contents up to the smaller size. *)
Definition os_realloc (memory : bytes) (n : Z) : bytes :=
  take (Z.to_nat n) (memory ++ map junk (seqZ (zlen memory) (n - zlen memory))).

Definition bqueue_init (max_length flags : Z) : option bqueue_t :=
  if max_length <=? 1 then None else Some (BQueue [] 0 0 0 max_length flags).

Definition _bqueue_used (q : bqueue_t) : Z :=
  if bq_length q >? 0
  then u64 (bq_tail q + bq_length q - bq_head q) mod bq_length q else 0.

Definition _bqueue_empty (q : bqueue_t) : bool := bq_head q =? bq_tail q.

Definition _bqueue_trim (q : bqueue_t) : bqueue_t :=
  q <| bq_memory := [] |> <| bq_head := 0 |> <| bq_tail := 0 |> <| bq_length := 0 |>.

(** [p + i] in a circular buffer of [n] bytes; the remainder by zero is undefined. *)
Definition offset_mod (i n : Z) : option Z := if n =? 0 then None else Some (i mod n).

(** [memcpy] inside the buffer; [memmove] is the same on disjoint or overlapping
    parts, the source being read first. *)
Definition copy_within (memory : bytes) (dst src n : Z) : option bytes :=
  data ← load memory src n; store memory dst data.

Definition _bqueue_expand (q : bqueue_t) (new_length : Z) : option bqueue_t :=
  let memory := os_realloc (bq_memory q) new_length in
  '(memory, tail) ←
    (if bq_tail q <? bq_head q then
       let tail_len := bq_tail q in
       let growth := new_length - bq_length q in
       if tail_len <=? growth then
         memory ← copy_within memory (bq_length q) 0 tail_len;
         tail ← offset_mod (bq_length q + tail_len) new_length;
         Some (memory, tail)
       else
         memory ← copy_within memory (bq_length q) 0 growth;
         memory ← copy_within memory 0 growth (tail_len - growth);
         Some (memory, bq_tail q - growth)
     else Some (memory, bq_tail q));
  Some (q <| bq_memory := memory |> <| bq_tail := tail |> <| bq_length := new_length |>).

(** The moves of [_bqueue_shrink] before the buffer is cut. *)
Definition shrink_moves (q : bqueue_t) (new_length : Z) : option (bytes * Z * Z) :=
  let head := bq_head q in
  let tail := bq_tail q in
  if _bqueue_empty q then Some (bq_memory q, 0, 0) else
  if head <? tail then
    if new_length <=? head then
      memory ← copy_within (bq_memory q) 0 head (tail - head);
      Some (memory, 0, tail - head)
    else if new_length <=? tail then
      let chunk_len := tail - new_length in
      memory ← copy_within (bq_memory q) 0 (tail - chunk_len) chunk_len;
      Some (memory, head, chunk_len)
    else Some (bq_memory q, head, tail)
  else
    let new_head := head - (bq_length q - new_length) in
    memory ← copy_within (bq_memory q) new_head head (bq_length q - head);
    Some (memory, new_head, tail).

Definition _bqueue_shrink (q : bqueue_t) (new_length : Z) : option bqueue_t :=
  '(memory, head, tail) ← shrink_moves q new_length;
  Some (q <| bq_memory := os_realloc memory new_length |> <| bq_head := head |>
          <| bq_tail := tail |> <| bq_length := new_length |>).

Definition _bqueue_insert (q : bqueue_t) (data : bytes) : option bqueue_t :=
  let tail_len := bq_tail q in
  let data_len := zlen data in
  memory ←
    (if tail_len + data_len <=? bq_length q then store (bq_memory q) tail_len data
     else
       let chunk_len := bq_length q - tail_len in
       first ← load data 0 chunk_len;
       memory ← store (bq_memory q) tail_len first;
       rest ← load data chunk_len (data_len - chunk_len);
       store memory 0 rest);
  tail ← offset_mod (tail_len + data_len) (bq_length q);
  Some (q <| bq_memory := memory |> <| bq_tail := tail |>).

(** The bytes copied to the caller's buffer of [buffer_len] bytes. *)
Definition _bqueue_extract (q : bqueue_t) (buffer_len : Z) : option bytes :=
  if bq_head q >? bq_tail q then
    let head_len := bq_length q - bq_head q in
    if buffer_len <? head_len then load (bq_memory q) (bq_head q) buffer_len else
    first ← load (bq_memory q) (bq_head q) head_len;
    let used := bq_tail q in
    let chunk_len := if buffer_len - head_len <? used then buffer_len - head_len else used in
    rest ← load (bq_memory q) 0 chunk_len; Some (first ++ rest)
  else
    let used := bq_tail q - bq_head q in
    load (bq_memory q) (bq_head q) (if buffer_len <? used then buffer_len else used).

(** Advance the head and release memory that is not needed any more. *)
Definition advance_head (q : bqueue_t) (n : Z) : option bqueue_t :=
  head ← offset_mod (bq_head q + n) (bq_length q);
  let q := q <| bq_head := head |> in
  if _bqueue_empty q then Some (_bqueue_trim q)
  else if has_flag (bq_flags q) BQUEUE_SHRINK && (_bqueue_used q <? bq_length q / 2)
  then _bqueue_shrink q (bq_length q / 2)
  else Some q.

Definition bqueue_push (q : bqueue_t) (data : bytes) (flags : Z)
    : option (attempt Z * bqueue_t) :=
  let length := zlen data in
  if length >=? bq_max_length q then Some (Ready (-1), q) else
  let used := _bqueue_used q in
  if u64 (length + used) >=? bq_max_length q
  then Some (if has_flag flags BQUEUE_WAIT then Waits else Ready (-1), q) else
  q ← (if u64 (length + used) >=? bq_length q
       then _bqueue_expand q (length + used + 1) else Some q);
  q ← _bqueue_insert q data;
  Some (Ready 0, q).

Definition bqueue_pop (q : bqueue_t) (length flags : Z)
    : option (attempt bytes * bqueue_t) :=
  if _bqueue_empty q
  then Some (if has_flag flags BQUEUE_WAIT then Waits else Ready [], q) else
  data ← _bqueue_extract q length;
  q ← advance_head q (zlen data);
  Some (Ready data, q).

Definition bqueue_peek (q : bqueue_t) (length flags : Z)
    : option (attempt bytes * bqueue_t) :=
  if _bqueue_empty q
  then Some (if has_flag flags BQUEUE_WAIT then Waits else Ready [], q) else
  data ← _bqueue_extract q length; Some (Ready data, q).

Definition bqueue_drop (q : bqueue_t) (length : Z) : option (Z * bqueue_t) :=
  if length <=? _bqueue_used q
  then q ← advance_head q length; Some (0, q)
  else Some (-1, q).

Definition bqueue_used (q : bqueue_t) : Z := _bqueue_used q.
Definition bqueue_clear (q : bqueue_t) : bqueue_t := _bqueue_trim q.
End bqueue.

Definition bqueue_destroy {S} `{!HasWorld S} (q : option bqueue_t) : ST S unit :=
  match q with
  | Some _ => _ ← free "memory"; free "queue"
  | None => mret tt
  end.

(** * The memory after a copy *)

Lemma copy_within_spec m dst src n :
  0 <= src -> 0 <= dst -> 0 <= n -> src + n <= zlen m -> dst + n <= zlen m ->
  exists m', copy_within m dst src n = Some m' /\ zlen m' = zlen m /\
    (forall i, dst <= i < dst + n -> slot m' i = slot m (src + (i - dst))) /\
    (forall i, 0 <= i -> i < dst \/ dst + n <= i -> slot m' i = slot m i).
Proof.
  intros. unfold copy_within. destruct (load_fits m src n) as [d Hd]; [done..|].
  rewrite Hd. cbn. destruct (load_slots _ _ _ _ Hd) as [Hn Hs].
  destruct (store_some m dst d) as (m' & Hm & Hl); [done|lia|].
  destruct (store_slots _ _ _ _ Hm) as (_ & Hin & Hout). rewrite Hn in *.
  exists m'. split_and!; [done|done| |done]. intros i Hi. rewrite Hin, Hs by lia. done.
Qed.

Section realloc.
Context (junk : Z -> Z).

Lemma os_realloc_length m n : 0 <= n -> zlen (os_realloc junk m n) = n.
Proof.
  intros Hn. unfold os_realloc. apply zlen_take. rewrite zlen_app. unfold zlen at 2.
  rewrite length_map, length_seqZ. pose proof (zlen_nonneg m). lia.
Qed.

Lemma os_realloc_slot m n i :
  0 <= i < zlen m -> i < n -> slot (os_realloc junk m n) i = slot m i.
Proof.
  intros Hi Hn. unfold os_realloc. rewrite slot_take by lia. rewrite slot_app by lia.
  by rewrite (proj2 (Z.ltb_lt _ _)) by lia.
Qed.
End realloc.

(** * The queue holds a string of bytes *)

(** With a buffer: the bytes are in its ring. *)
Record held (q : bqueue_t) (items : bytes) : Prop := {
  held_ring : ring (bq_length q) (bq_head q) (bq_memory q) items;
  held_tail : bq_tail q = ring_end (bq_length q) (bq_head q) (zlen items);
}.

Record bq_valid (q : bqueue_t) (items : bytes) : Prop := {
  bqv_max : 1 < bq_max_length q < 2 ^ 62;
  bqv_length : bq_length q <= bq_max_length q;
  bqv_items : bq_length q = 0 /\ bq_memory q = [] /\ bq_head q = 0 /\ bq_tail q = 0 /\
                items = [] \/ held q items;
}.

(** Split the circular index, and the slots read after a copy. *)
Ltac by_slots :=
  unfold ring_end, wrap in *; repeat case_match;
  rewrite ?andb_true_iff, ?andb_false_iff, ?Z.leb_le, ?Z.ltb_lt, ?Z.leb_gt, ?Z.ltb_ge in *;
  try lia; try (f_equal; lia).

Lemma held_length q items : held q items -> 0 < bq_length q.
Proof. intros [[] _]. lia. Qed.

Lemma held_tail_bounds q items : held q items -> 0 <= bq_tail q < bq_length q.
Proof. intros [Hr ->]. by eapply ring_end_bounds. Qed.

Lemma used_held q items :
  held q items -> bq_length q < 2 ^ 62 -> _bqueue_used q = zlen items.
Proof.
  intros Hh Hm. pose proof (held_tail_bounds _ _ Hh). destruct Hh as [[Hn Hs Hr _] Ht].
  pose proof (zlen_nonneg items). unfold _bqueue_used.
  rewrite (proj2 (Z.gtb_lt _ _)) by lia. rewrite uwrap_small by (unfold fits; lia).
  rewrite wrap_mod by lia. rewrite Ht. by_slots.
Qed.

Lemma used_valid q items : bq_valid q items -> _bqueue_used q = zlen items.
Proof.
  intros [Hm Hl [(Hz & _ & _ & _ & ->)|Hh]].
  - unfold _bqueue_used. by rewrite Hz.
  - apply used_held; [done|lia].
Qed.

Lemma empty_held q items : held q items -> _bqueue_empty q = bool_decide (items = []).
Proof.
  intros [Hr Ht]. unfold _bqueue_empty. rewrite Ht. pose proof (ring_empty _ _ _ _ Hr).
  case_bool_decide; [apply Z.eqb_eq|apply Z.eqb_neq]; intuition.
Qed.

Lemma empty_valid q items : bq_valid q items -> _bqueue_empty q = bool_decide (items = []).
Proof.
  intros [_ _ [(_ & _ & Hh & Ht & ->)|Hh]]; [|by apply empty_held].
  unfold _bqueue_empty. by rewrite Hh, Ht.
Qed.

Lemma trim_valid q : 1 < bq_max_length q < 2 ^ 62 -> bq_valid (_bqueue_trim q) [].
Proof. intros H. constructor; [done|cbn; lia|by left]. Qed.

Section operations.
Context (junk : Z -> Z).

(** ** Growing *)

Lemma expand_null q n :
  bq_length q = 0 -> bq_memory q = [] -> bq_head q = 0 -> bq_tail q = 0 -> 0 < n ->
  exists q', _bqueue_expand junk q n = Some q' /\ held q' [] /\ bq_length q' = n /\
    bq_max_length q' = bq_max_length q /\ bq_flags q' = bq_flags q.
Proof.
  intros Hl Hm Hh Ht Hn. unfold _bqueue_expand. rewrite Hh, Ht. cbn. eexists.
  split; [reflexivity|]. split_and!; [|done..]. constructor; cbn; rewrite ?Hh.
  - constructor; [apply os_realloc_length; lia|lia|by change (zlen []) with 0|by intros].
  - unfold ring_end, wrap. change (zlen []) with 0. case_match; lia.
Qed.

Lemma expand_held q items n :
  held q items -> bq_length q <= n ->
  exists q', _bqueue_expand junk q n = Some q' /\ held q' items /\ bq_length q' = n /\
    bq_max_length q' = bq_max_length q /\ bq_flags q' = bq_flags q.
Proof.
  intros Hh Hn. pose proof (held_tail_bounds _ _ Hh). destruct Hh as [[Hsz Hs Hr Hi] Ht].
  pose proof (zlen_nonneg items). set (l := bq_length q) in *. set (h := bq_head q) in *.
  pose proof (os_realloc_length junk (bq_memory q) n ltac:(lia)) as Hlen.
  set (m := os_realloc junk (bq_memory q) n) in *.
  assert (Hm : forall i, 0 <= i < l -> slot m i = slot (bq_memory q) i).
  { intros i Hi'. apply os_realloc_slot; lia. }
  unfold _bqueue_expand. fold m l h.
  destruct (Z.ltb_spec (bq_tail q) h) as [Hlt|Hge].
  2: { eexists. split; [reflexivity|]. split_and!; [|done..]. constructor; cbn; fold h.
       - constructor; [done|lia|lia|]. intros k x Hk Hx. pose proof (slot_lt _ _ _ Hk Hx).
         rewrite <- (Hi k x Hk Hx). rewrite Ht in Hge.
         replace (wrap n (h + k)) with (wrap l (h + k)) by by_slots.
         apply Hm. by_slots.
       - rewrite Ht in *. by_slots. }
  assert (Hend : bq_tail q = h + zlen items - l) by (rewrite Ht in *; by_slots).
  destruct (Z.leb_spec (bq_tail q) (n - l)) as [Hle|Hgt].
  - destruct (copy_within_spec m l 0 (bq_tail q)) as (m' & -> & Hl' & Hin & Hout); [lia..|]. cbn.
    unfold offset_mod. rewrite (proj2 (Z.eqb_neq n 0)) by lia. cbn. eexists.
    split; [reflexivity|]. split_and!; [|done..]. constructor; cbn; fold h.
    + constructor; [lia|lia|lia|]. intros k x Hk Hx. pose proof (slot_lt _ _ _ Hk Hx).
      rewrite <- (Hi k x Hk Hx), (wrap_lt n) by lia. destruct (Z.lt_ge_cases (h + k) l).
      * rewrite wrap_lt, Hout by lia. apply Hm. lia.
      * rewrite wrap_ge, Hin, Hm by lia. f_equal; lia.
    + rewrite wrap_mod by lia. unfold ring_end. f_equal; lia.
  - destruct (copy_within_spec m l 0 (n - l)) as (m1 & -> & Hl1 & Hin1 & Hout1); [lia..|]. cbn.
    destruct (copy_within_spec m1 0 (n - l) (bq_tail q - (n - l)))
      as (m2 & -> & Hl2 & Hin2 & Hout2); [lia..|]. cbn. eexists.
    split; [reflexivity|]. split_and!; [|done..]. constructor; cbn; fold h.
    + constructor; [lia|lia|lia|]. intros k x Hk Hx. pose proof (slot_lt _ _ _ Hk Hx).
      rewrite <- (Hi k x Hk Hx). destruct (Z.lt_ge_cases (h + k) l).
      * rewrite (wrap_lt n), wrap_lt, Hout2, Hout1 by lia. apply Hm. lia.
      * rewrite (wrap_ge l) by lia. destruct (Z.lt_ge_cases (h + k) n).
        -- rewrite wrap_lt, Hout2, Hin1, Hm by lia. f_equal; lia.
        -- rewrite wrap_ge, Hin2, Hout1, Hm by lia. f_equal; lia.
    + unfold ring_end. rewrite wrap_ge by lia. lia.
Qed.

(** ** Shrinking *)

Lemma shrink_spec q items n :
  held q items -> items <> [] -> zlen items < n -> n <= bq_length q ->
  exists q', _bqueue_shrink junk q n = Some q' /\ held q' items /\ bq_length q' = n /\
    bq_max_length q' = bq_max_length q /\ bq_flags q' = bq_flags q.
Proof.
  intros Hh Hne Hn Hl. pose proof (held_tail_bounds _ _ Hh).
  pose proof (empty_held _ _ Hh) as He. rewrite bool_decide_eq_false_2 in He by done.
  assert (0 < zlen items) by (destruct items; [done|zlia]).
  destruct Hh as [[Hsz Hs Hr Hi] Ht].
  set (l := bq_length q) in *. set (h := bq_head q) in *.
  assert (Hgo : forall m h' t, shrink_moves q n = Some (m, h', t) -> zlen m = l ->
    0 <= h' < n -> t = ring_end n h' (zlen items) ->
    (forall k, 0 <= k < zlen items -> slot m (wrap n (h' + k)) = slot (bq_memory q) (wrap l (h + k))) ->
    exists q', _bqueue_shrink junk q n = Some q' /\ held q' items /\ bq_length q' = n /\
      bq_max_length q' = bq_max_length q /\ bq_flags q' = bq_flags q).
  { intros m h' t Hmv Hlm Hh' Hend Hk'. unfold _bqueue_shrink. rewrite Hmv. cbn. eexists.
    split; [reflexivity|]. split_and!; [|done..]. constructor; [|done].
    constructor; [apply (os_realloc_length junk m n); lia|done|done|].
    intros k x Hk Hx. pose proof (slot_lt _ _ _ Hk Hx). rewrite <- (Hi k x Hk Hx), <- Hk' by lia.
    pose proof (wrap_bounds n (h' + k) ltac:(lia)). apply (os_realloc_slot junk m n (wrap n (h' + k))); lia. }
  unfold shrink_moves in Hgo. rewrite He in Hgo. fold h l in Hgo.
  destruct (Z.ltb_spec h (bq_tail q)) as [Hlt|Hge].
  - assert (Hend : bq_tail q = h + zlen items) by (rewrite Ht in *; by_slots).
    destruct (Z.leb_spec n h) as [Hnh|Hnh]; [|destruct (Z.leb_spec n (bq_tail q)) as [Hnt|Hnt]].
    + destruct (copy_within_spec (bq_memory q) 0 h (bq_tail q - h)) as (m & Hc & Hlm & Hin & _);
        [lia..|]. rewrite Hc in Hgo. cbn in Hgo. eapply Hgo; [reflexivity|lia|lia| |].
      * unfold ring_end. rewrite wrap_lt by lia. lia.
      * intros k Hk. rewrite !wrap_lt, Hin by lia. f_equal; lia.
    + destruct (copy_within_spec (bq_memory q) 0 (bq_tail q - (bq_tail q - n)) (bq_tail q - n))
        as (m & Hc & Hlm & Hin & Hout); [lia..|]. rewrite Hc in Hgo. cbn in Hgo.
      eapply Hgo; [reflexivity|lia|lia| |].
      * unfold ring_end. rewrite wrap_ge by lia. lia.
      * intros k Hk. rewrite (wrap_lt l) by lia. destruct (Z.lt_ge_cases (h + k) n).
        -- rewrite wrap_lt, Hout by lia. done.
        -- rewrite wrap_ge, Hin by lia. f_equal; lia.
    + eapply Hgo; [reflexivity|lia|lia| |].
      * unfold ring_end. rewrite wrap_lt by lia. lia.
      * intros k Hk. by rewrite !wrap_lt by lia.
  - assert (Hend : bq_tail q = h + zlen items - l) by (rewrite Ht in *; by_slots).
    destruct (copy_within_spec (bq_memory q) (h - (l - n)) h (l - h)) as (m & Hc & Hlm & Hin & Hout);
      [lia..|]. rewrite Hc in Hgo. cbn in Hgo. eapply Hgo; [reflexivity|lia|lia| |].
    + unfold ring_end. rewrite wrap_ge by lia. lia.
    + intros k Hk. destruct (Z.lt_ge_cases (h + k) l).
      * rewrite !wrap_lt, Hin by lia. f_equal; lia.
      * rewrite !wrap_ge, Hout by lia. f_equal; lia.
Qed.

(** ** Inserting and extracting *)

Lemma insert_spec q items data :
  held q items -> zlen items + zlen data < bq_length q ->
  exists q', _bqueue_insert q data = Some q' /\ held q' (items ++ data) /\
    bq_length q' = bq_length q /\ bq_max_length q' = bq_max_length q /\ bq_flags q' = bq_flags q.
Proof.
  intros Hh Hroom. pose proof (held_tail_bounds _ _ Hh). destruct Hh as [[Hsz Hs Hr Hi] Ht].
  pose proof (zlen_nonneg items). pose proof (zlen_nonneg data).
  set (l := bq_length q) in *. set (h := bq_head q) in *. set (t := bq_tail q) in *.
  assert (Hgo : forall m, zlen m = l ->
    (forall k, 0 <= k < zlen data -> slot m (wrap l (t + k)) = slot data k) ->
    (forall i, 0 <= i < l -> (forall k, 0 <= k < zlen data -> i <> wrap l (t + k)) ->
       slot m i = slot (bq_memory q) i) ->
    held (q <| bq_memory := m |> <| bq_tail := wrap l (t + zlen data) |>) (items ++ data)).
  { intros m Hlm Hin Hout. constructor; cbn; fold h l.
    - constructor; [done|done|rewrite zlen_app; lia|]. intros k x Hk Hx.
      rewrite slot_app in Hx by done. destruct (Z.ltb_spec k (zlen items)).
      + rewrite <- (Hi k x Hk Hx). apply Hout; [apply wrap_bounds; lia|].
        intros k' Hk'. rewrite Ht. by_slots.
      + pose proof (slot_lt data (k - zlen items) x ltac:(lia) Hx). rewrite <- Hx, <- Hin by lia. f_equal.
        rewrite Ht. by_slots.
    - rewrite zlen_app, Ht. by_slots. }
  unfold _bqueue_insert. fold t l.
  assert (Hmod : offset_mod (t + zlen data) l = Some (wrap l (t + zlen data))).
  { unfold offset_mod. rewrite (proj2 (Z.eqb_neq l 0)), wrap_mod by lia. done. }
  destruct (Z.leb_spec (t + zlen data) l) as [Hle|Hgt].
  - destruct (store_some (bq_memory q) t data) as (m & Hm & Hlm); [lia..|].
    destruct (store_slots _ _ _ _ Hm) as (_ & Hin & Hout). rewrite Hm. cbn. rewrite Hmod. cbn.
    eexists. split; [reflexivity|]. split_and!; [|done..]. apply Hgo; [lia| |].
    + intros k Hk. rewrite wrap_lt, Hin by lia. f_equal; lia.
    + intros i Hi' Hne. apply Hout; [lia|]. destruct (Z.lt_ge_cases i t); [by left|].
      destruct (Z.lt_ge_cases i (t + zlen data)); [|by right].
      exfalso. apply (Hne (i - t)); [lia|]. rewrite wrap_lt by lia. lia.
  - set (c := l - t) in *. destruct (load_fits data 0 c) as [d1 Hd1]; [lia..|].
    destruct (load_slots _ _ _ _ Hd1) as [Hn1 Hs1]. rewrite Hd1. cbn.
    destruct (store_some (bq_memory q) t d1) as (m1 & Hm1 & Hlm1); [lia..|].
    destruct (store_slots _ _ _ _ Hm1) as (_ & Hin1 & Hout1). rewrite Hm1. cbn.
    destruct (load_fits data c (zlen data - c)) as [d2 Hd2]; [lia..|].
    destruct (load_slots _ _ _ _ Hd2) as [Hn2 Hs2]. rewrite Hd2. cbn.
    destruct (store_some m1 0 d2) as (m2 & Hm2 & Hlm2); [lia..|].
    destruct (store_slots _ _ _ _ Hm2) as (_ & Hin2 & Hout2). rewrite Hm2. cbn.
    rewrite Hmod. cbn. rewrite Hn1, Hn2 in *.
    eexists. split; [reflexivity|]. split_and!; [|done..]. apply Hgo; [lia| |].
    + intros k Hk. destruct (Z.lt_ge_cases (t + k) l).
      * rewrite wrap_lt, Hout2, Hin1, Hs1 by lia. f_equal; lia.
      * rewrite wrap_ge, Hin2, Hs2 by lia. f_equal; lia.
    + intros i Hi' Hne. destruct (Z.lt_ge_cases i t) as [Hit|Hit].
      * rewrite Hout2; [by apply Hout1; [lia|left]|lia|].
        destruct (Z.lt_ge_cases i (zlen data - c)) as [Hd|]; [|by right].
        exfalso. apply (Hne (i + c)); [lia|]. rewrite wrap_ge by lia. lia.
      * exfalso. apply (Hne (i - t)); [lia|]. rewrite wrap_lt by lia. lia.
Qed.

Lemma extract_spec q items n :
  held q items -> 0 <= n ->
  _bqueue_extract q n = Some (take (Z.to_nat n) items).
Proof.
  intros Hh Hn. pose proof (held_tail_bounds _ _ Hh). destruct Hh as [[Hsz Hs Hr Hi] Ht].
  pose proof (zlen_nonneg items).
  set (l := bq_length q) in *. set (h := bq_head q) in *. set (t := bq_tail q) in *.
  assert (Hslot : forall k, 0 <= k < zlen items ->
    slot (bq_memory q) (wrap l (h + k)) = slot items k).
  { intros k Hk. destruct (slot_some items k Hk) as [x Hx]. rewrite Hx. apply Hi; [lia|done]. }
  assert (Hgo : forall d, zlen d = Z.min n (zlen items) ->
    (forall k, 0 <= k < Z.min n (zlen items) -> slot d k = slot (bq_memory q) (wrap l (h + k))) ->
    Some d = Some (take (Z.to_nat n) items)).
  { intros d Hd Hk. f_equal. apply slot_ext; [rewrite zlen_take_nat; lia|].
    intros k Hk'. rewrite Hk, Hslot, slot_take by lia. done. }
  unfold _bqueue_extract. fold h t l. destruct (Z.gtb_spec h t) as [Hlt|Hge].
  - assert (Hend : t = h + zlen items - l) by (rewrite Ht in *; by_slots).
    destruct (Z.ltb_spec n (l - h)).
    + destruct (load_fits (bq_memory q) h n) as [d Hd]; [lia..|].
      destruct (load_slots _ _ _ _ Hd) as [Hl Hk]. rewrite Hd. apply Hgo; [lia|].
      intros k Hk'. rewrite wrap_lt, Hk by lia. done.
    + destruct (load_fits (bq_memory q) h (l - h)) as [d Hd]; [lia..|].
      destruct (load_slots _ _ _ _ Hd) as [Hl Hk]. rewrite Hd. cbn.
      set (c := if n - (l - h) <? t then n - (l - h) else t).
      assert (Hc : c = Z.min n (zlen items) - (l - h)) by (unfold c; case_match; lia).
      destruct (load_fits (bq_memory q) 0 c) as [d' Hd']; [lia..|].
      destruct (load_slots _ _ _ _ Hd') as [Hl' Hk']. rewrite Hd'. cbn.
      apply Hgo; [rewrite zlen_app; lia|]. intros k Hk2. rewrite slot_app, Hl by lia.
      destruct (Z.ltb_spec k (l - h)).
      * rewrite wrap_lt, Hk by lia. done.
      * rewrite wrap_ge, Hk' by lia. f_equal; lia.
  - assert (Hend : t = h + zlen items) by (rewrite Ht in *; by_slots).
    set (c := if n <? t - h then n else t - h).
    assert (Hc : c = Z.min n (zlen items)) by (unfold c; case_match; lia).
    destruct (load_fits (bq_memory q) h c) as [d Hd]; [lia..|].
    destruct (load_slots _ _ _ _ Hd) as [Hl Hk]. rewrite Hd. apply Hgo; [lia|].
    intros k Hk'. rewrite wrap_lt, Hk by lia. done.
Qed.

Lemma advance_spec q items n :
  held q items -> 1 < bq_max_length q < 2 ^ 62 -> bq_length q <= bq_max_length q ->
  0 <= n <= zlen items ->
  exists q', advance_head junk q n = Some q' /\ bq_valid q' (drop (Z.to_nat n) items) /\
    bq_max_length q' = bq_max_length q /\ bq_flags q' = bq_flags q.
Proof.
  intros Hh Hm Hl Hn. pose proof (held_length _ _ Hh).
  set (q1 := q <| bq_head := wrap (bq_length q) (bq_head q + n) |>).
  assert (Hh1 : held q1 (drop (Z.to_nat n) items)).
  { destruct Hh as [[Hsz Hs Hr Hi] Ht]. constructor; cbn.
    - constructor; [done|apply wrap_bounds; lia|rewrite zlen_drop; lia|].
      intros k x Hk. rewrite slot_drop by lia. intros Hx.
      pose proof (slot_lt items (n + k) x ltac:(lia) Hx).
      rewrite <- (Hi (n + k) x ltac:(lia) Hx). f_equal. by_slots.
    - rewrite Ht, zlen_drop by lia. by_slots. }
  unfold advance_head, offset_mod. rewrite (proj2 (Z.eqb_neq _ 0)) by lia. cbn [mbind option_bind].
  rewrite wrap_mod by (destruct Hh as [[]]; lia). fold q1.
  rewrite (empty_held _ _ Hh1). case_bool_decide as He.
  { eexists. split; [reflexivity|]. rewrite He. by split; [apply trim_valid|]. }
  assert (Hkeep : bq_valid q1 (drop (Z.to_nat n) items)) by (constructor; [done|done|by right]).
  destruct (has_flag (bq_flags q1) BQUEUE_SHRINK); cbn [andb]; [|by exists q1].
  rewrite (used_held _ _ Hh1) by (cbn; lia).
  change (bq_length q1) with (bq_length q).
  assert (Hhalf : bq_length q / 2 <= bq_length q) by (apply Z.div_le_upper_bound; lia).
  destruct (Z.ltb_spec (zlen (drop (Z.to_nat n) items)) (bq_length q / 2)); [|by exists q1].
  destruct (shrink_spec q1 _ (bq_length q / 2) Hh1 He) as (q2 & -> & Hh2 & Hl2 & Hm2 & Hf2);
    [done|exact Hhalf|].
  exists q2. split_and!; [done| |done|done].
  constructor; [by rewrite Hm2|rewrite Hm2, Hl2; change (bq_max_length q1) with (bq_max_length q); lia|by right].
Qed.

(** ** The contract

    The abstract queue is a string of fewer than [max] bytes. *)
Definition spec_push (max : Z) (l data : bytes) (flags : Z) : attempt Z * bytes :=
  if zlen data >=? max then (Ready (-1), l) else
  if zlen data + zlen l >=? max
  then (if has_flag flags BQUEUE_WAIT then Waits else Ready (-1), l)
  else (Ready 0, l ++ data).

Definition spec_pop (l : bytes) (n flags : Z) : attempt bytes * bytes :=
  match l with
  | [] => (if has_flag flags BQUEUE_WAIT then Waits else Ready [], [])
  | _ => (Ready (take (Z.to_nat n) l), drop (Z.to_nat n) l)
  end.

Definition spec_drop (l : bytes) (n : Z) : Z * bytes :=
  if n <=? zlen l then (0, drop (Z.to_nat n) l) else (-1, l).

(** [r] is what the abstract operation answers, and the new queue holds its bytes. *)
Definition implements {A} (r : option (A * bqueue_t)) (q : bqueue_t) (spec : A * bytes) : Prop :=
  exists q', r = Some (fst spec, q') /\ bq_valid q' (snd spec) /\
    bq_max_length q' = bq_max_length q /\ bq_flags q' = bq_flags q.

Lemma push_implements q l data flags :
  bq_valid q l -> zlen data < 2 ^ 62 ->
  implements (bqueue_push junk q data flags) q (spec_push (bq_max_length q) l data flags).
Proof.
  intros Hv Hd. pose proof (used_valid _ _ Hv) as Hu. destruct (Hv) as [Hm Hl Hi].
  pose proof (zlen_nonneg l). pose proof (zlen_nonneg data).
  unfold bqueue_push, spec_push. rewrite Hu.
  destruct (Z.geb_spec (zlen data) (bq_max_length q)); [by exists q|].
  assert (Hlu : zlen l < 2 ^ 62).
  { destruct Hi as [(_ & _ & _ & _ & ->)|[[] _]]; [done|lia]. }
  rewrite uwrap_small by (unfold fits; lia).
  destruct (Z.geb_spec (zlen data + zlen l) (bq_max_length q)).
  { exists q. cbn. by destruct (has_flag _ _). }
  assert (Hq1 : exists q1, (if zlen data + zlen l >=? bq_length q
      then _bqueue_expand junk q (zlen data + zlen l + 1) else Some q) = Some q1 /\
    held q1 l /\ zlen l + zlen data < bq_length q1 /\ bq_length q1 <= bq_max_length q /\
    bq_max_length q1 = bq_max_length q /\ bq_flags q1 = bq_flags q).
  { destruct Hi as [(Hz & Hmem & Hhd & Htl & ->)|Hh].
    - rewrite Hz. change (zlen (@nil Z)) with 0. rewrite (proj2 (Z.geb_le _ _)) by lia.
      destruct (expand_null q (zlen data + 0 + 1) Hz Hmem Hhd Htl ltac:(lia))
        as (q1 & -> & G1 & G2 & G3 & G4).
      exists q1. change (zlen (@nil Z)) with 0. rewrite G2. split_and!; done || lia.
    - destruct (Z.geb_spec (zlen data + zlen l) (bq_length q)).
      + destruct (expand_held q l (zlen data + zlen l + 1) Hh ltac:(lia))
          as (q1 & -> & G1 & G2 & G3 & G4).
        exists q1. rewrite G2. split_and!; done || lia.
      + exists q. split_and!; done || lia. }
  destruct Hq1 as (q1 & -> & Hh1 & Hr1 & Hl1 & Hm1 & Hf1). cbn [mbind option_bind].
  destruct (insert_spec q1 l data Hh1 Hr1) as (q2 & -> & Hh2 & Hl2 & Hm2 & Hf2).
  exists q2. split_and!; [done| |congruence|congruence].
  constructor; [by rewrite Hm2, Hm1|lia|by right].
Qed.

Lemma nonempty_held q x l : bq_valid q (x :: l) -> held q (x :: l).
Proof. by intros [_ _ [(_ & _ & _ & _ & ?)|]]. Qed.

Lemma pop_implements q l n flags :
  bq_valid q l -> 0 <= n ->
  implements (bqueue_pop junk q n flags) q (spec_pop l n flags).
Proof.
  intros Hv Hn. unfold bqueue_pop. rewrite (empty_valid _ _ Hv). destruct (Hv) as [Hm Hl _].
  destruct l as [|x l]; cbn [bool_decide]; [by exists q|].
  rewrite bool_decide_eq_false_2 by done. pose proof (nonempty_held _ _ _ Hv) as Hh.
  rewrite (extract_spec _ _ n Hh Hn). cbn [mbind option_bind].
  destruct (advance_spec q (x :: l) (zlen (take (Z.to_nat n) (x :: l))) Hh Hm Hl)
    as (q' & -> & Hv' & H1 & H2); [rewrite zlen_take_nat; pose proof (zlen_nonneg (x :: l)); lia|].
  exists q'. cbn [spec_pop fst snd]. split_and!; [done| |done|done].
  replace (drop (Z.to_nat n) (x :: l))
    with (drop (Z.to_nat (zlen (take (Z.to_nat n) (x :: l)))) (x :: l)); [done|].
  rewrite to_nat_zlen, length_take. destruct (decide (Z.to_nat n <= length (x :: l))%nat).
  - by rewrite Nat.min_l by done.
  - rewrite !drop_ge by lia. done.
Qed.

Lemma peek_implements q l n flags :
  bq_valid q l -> 0 <= n ->
  implements (bqueue_peek q n flags) q (fst (spec_pop l n flags), l).
Proof.
  intros Hv Hn. unfold bqueue_peek. rewrite (empty_valid _ _ Hv).
  destruct l as [|x l]; [by exists q|]. rewrite bool_decide_eq_false_2 by done.
  rewrite (extract_spec _ _ n (nonempty_held _ _ _ Hv) Hn). by exists q.
Qed.

Lemma drop_implements q l n :
  bq_valid q l -> 0 < n -> implements (bqueue_drop junk q n) q (spec_drop l n).
Proof.
  intros Hv Hn. unfold bqueue_drop, spec_drop. rewrite (used_valid _ _ Hv).
  destruct (Z.leb_spec n (zlen l)); [|by exists q].
  destruct (Hv) as [Hm Hl [(_ & _ & _ & _ & ->)|Hh]]; [change (zlen []) with 0 in *; lia|].
  destruct (advance_spec q l n Hh Hm Hl) as (q' & -> & H'); [lia|]. by exists q'.
Qed.

(** ** Sequences of operations *)
Inductive bq_op :=
| BqPush (data : bytes) (flags : Z)
| BqPop (n flags : Z)
| BqPeek (n flags : Z)
| BqDrop (n : Z)
| BqUsed
| BqClear.

Inductive bq_result :=
| RCode (r : attempt Z)
| RBytes (r : attempt bytes)
| RSize (n : Z).

Definition run_op (q : bqueue_t) (op : bq_op) : option (bq_result * bqueue_t) :=
  match op with
  | BqPush data flags => '(r, q) ← bqueue_push junk q data flags; Some (RCode r, q)
  | BqPop n flags => '(r, q) ← bqueue_pop junk q n flags; Some (RBytes r, q)
  | BqPeek n flags => '(r, q) ← bqueue_peek q n flags; Some (RBytes r, q)
  | BqDrop n => '(r, q) ← bqueue_drop junk q n; Some (RCode (Ready r), q)
  | BqUsed => Some (RSize (bqueue_used q), q)
  | BqClear => Some (RSize 0, bqueue_clear q)
  end.

Definition spec_op (max : Z) (l : bytes) (op : bq_op) : bq_result * bytes :=
  match op with
  | BqPush data flags => let '(r, l) := spec_push max l data flags in (RCode r, l)
  | BqPop n flags => let '(r, l) := spec_pop l n flags in (RBytes r, l)
  | BqPeek n flags => (RBytes (fst (spec_pop l n flags)), l)
  | BqDrop n => let '(r, l) := spec_drop l n in (RCode (Ready r), l)
  | BqUsed => (RSize (zlen l), l)
  | BqClear => (RSize 0, [])
  end.

Fixpoint run_ops (q : bqueue_t) (ops : list bq_op) : option (list bq_result * bqueue_t) :=
  match ops with
  | [] => Some ([], q)
  | op :: rest => '(r, q) ← run_op q op; '(rs, q) ← run_ops q rest; Some (r :: rs, q)
  end.

Fixpoint spec_ops (max : Z) (l : bytes) (ops : list bq_op) : list bq_result * bytes :=
  match ops with
  | [] => ([], l)
  | op :: rest => let '(r, l) := spec_op max l op in
                  let '(rs, l) := spec_ops max l rest in (r :: rs, l)
  end.

(** Sizes are not negative, and [bqueue_drop] is not asked for zero bytes. *)
Definition op_ok (op : bq_op) : Prop :=
  match op with
  | BqPush data _ => zlen data < 2 ^ 62
  | BqPop n _ | BqPeek n _ => 0 <= n
  | BqDrop n => 0 < n
  | BqUsed | BqClear => True
  end.

Lemma bq_run_op_spec q l op :
  bq_valid q l -> op_ok op ->
  exists q', run_op q op = Some (fst (spec_op (bq_max_length q) l op), q') /\
    bq_valid q' (snd (spec_op (bq_max_length q) l op)) /\
    bq_max_length q' = bq_max_length q.
Proof.
  intros Hv. destruct op as [data fl|n fl|n fl|n| |]; cbn [op_ok run_op spec_op]; intros Hop.
  - destruct (push_implements q l data fl Hv Hop) as (q' & -> & Hv' & Hm & _).
    cbn. exists q'. by destruct (spec_push _ _ _ _).
  - destruct (pop_implements q l n fl Hv Hop) as (q' & -> & Hv' & Hm & _).
    cbn. exists q'. by destruct (spec_pop _ _ _).
  - destruct (peek_implements q l n fl Hv Hop) as (q' & -> & Hv' & Hm & _).
    cbn. by exists q'.
  - destruct (drop_implements q l n Hv Hop) as (q' & -> & Hv' & Hm & _).
    cbn. exists q'. by destruct (spec_drop _ _).
  - exists q. unfold bqueue_used. by rewrite (used_valid _ _ Hv).
  - eexists. split; [reflexivity|]. split; [by apply trim_valid; destruct Hv|done].
Qed.

(** C9: the binary queue is a bounded byte stream: from [bqueue_init], any sequence
    of pushes, pops, peeks and drops - with and without waiting, growing, wrapping
    and shrinking the buffer as it does - answers as a string of fewer than
    [max_length] bytes does, never reads or writes outside the buffer whatever
    fresh memory holds, and never holds more than [max_length] bytes of memory. *)
Theorem bqueue_is_byte_stream max flags q ops :
  max < 2 ^ 62 -> bqueue_init max flags = Some q -> Forall op_ok ops ->
  exists q', run_ops q ops = Some (fst (spec_ops max [] ops), q') /\
    bq_valid q' (snd (spec_ops max [] ops)) /\ zlen (bq_memory q') <= max.
Proof.
  unfold bqueue_init. intros Hm. destruct (Z.leb_spec max 1); [done|]. intros [= <-] Hops.
  set (q := BQueue _ _ _ _ _ _). assert (Hv : bq_valid q []).
  { constructor; cbn; [lia|lia|by left]. }
  assert (Hmax : bq_max_length q = max) by done. clearbody q. revert q Hv Hmax.
  generalize (@nil Z) as l. induction Hops as [|op ops Hop _ IH]; intros l q Hv Hmax;
    cbn [run_ops spec_ops].
  - exists q. split_and!; [done|done|]. destruct Hv as [_ Hl [(_ & -> & _)|[[] _]]]; [|lia].
    change (zlen []) with 0. lia.
  - destruct (bq_run_op_spec q l op Hv Hop) as (q1 & -> & Hv1 & Hm1). rewrite Hmax in *.
    destruct (spec_op max l op) as [r l1]. cbn [fst snd mbind option_bind] in *.
    destruct (IH l1 q1 Hv1 Hm1) as (q2 & -> & Hv2 & Hb). cbn.
    exists q2. by destruct (spec_ops max l1 ops).
Qed.

(** Dropping zero bytes from a queue that has no buffer divides by zero. *)
Theorem bqueue_drop_zero_crashes max flags q :
  bqueue_init max flags = Some q -> bqueue_drop junk q 0 = None.
Proof. unfold bqueue_init. destruct (max <=? 1); [done|]. by intros [= <-]. Qed.
End operations.

(** * Concrete runs *)

Example bqueue_is_byte_stream_witness :
  let q := BQueue [] 0 0 0 8 BQUEUE_SHRINK in
  let ops := [BqPush [1; 2; 3; 4] 0; BqPop 3 0; BqPush [5; 6; 7] 0; BqPush [8; 9; 10] 0;
    BqPush [11] 0; BqPeek 2 0; BqPop 5 0; BqDrop 1; BqUsed; BqPop 9 0; BqPop 1 BQUEUE_WAIT] in
  exists q', run_ops (fun a => a) q ops = Some (fst (spec_ops 8 [] ops), q') /\
    bq_valid q' (snd (spec_ops 8 [] ops)) /\ zlen (bq_memory q') <= 8.
Proof.
  intros q ops. apply (bqueue_is_byte_stream (fun a => a) 8 BQUEUE_SHRINK q ops); [lia|done|].
  repeat constructor; cbn; done || lia.
Defined.

(** The same run, evaluated: the buffer wraps around, grows and shrinks. *)
Example bqueue_run :
  match run_ops (fun a => a) (BQueue [] 0 0 0 8 BQUEUE_SHRINK)
    [BqPush [1; 2; 3; 4] 0; BqPop 3 0; BqPush [5; 6; 7] 0; BqPush [8; 9; 10] 0; BqPop 5 0;
     BqUsed; BqPop 9 0; BqPop 1 BQUEUE_WAIT] with
  | Some (rs, q) => rs = [RCode (Ready 0); RBytes (Ready [1; 2; 3]); RCode (Ready 0);
      RCode (Ready 0); RBytes (Ready [4; 5; 6; 7; 8]); RSize 2; RBytes (Ready [9; 10]);
      RBytes Waits] /\ q = BQueue [] 0 0 0 8 BQUEUE_SHRINK
  | None => False
  end.
Proof. by vm_compute. Qed.
