(* ===== verification/AgentBuffer.v ===== *)
(** The agent's anti-flooding buffer, agents/client-agent/buffer.c: a circular
    buffer of messages between the threads that produce events and the thread that
    sends them, the levels it reports, and its resizing when the configuration is
    reloaded (client-agent/agentd.c). A pointer to a message is a number, 0 being
    null; the heap holds the messages that are allocated. Each locked section of
    the source is one step. What the dispatcher does outside the lock (the four
    notices, each a test, a clearing of a bit of the shared word and a sending,
    then the sending of the message it took, its release and the clearing of its
    slot) is one step for each access, so that the producers may run in between. *)
From stdpp Require Import gmap.
From Stdlib Require Import SpecFloat.
From S2P Require Import Prelude Ring.
#[local] Open Scope Z_scope.

(** * Levels

    [(float)n / (float)m] compared with the double [level / 100.0]: integers and
    quotients are rounded to 24 bits, the level's quotient to 53. *)

Definition float_of (n : Z) : spec_float := binary_normalize 24 128 n 0 false.
Definition double_of (n : Z) : spec_float := binary_normalize 53 1024 n 0 false.

(** A float as a double, exactly. *)
Definition widen (x : spec_float) : spec_float :=
  match x with
  | S754_finite s m e => binary_normalize 53 1024 (cond_Zopp s (Zpos m)) e s
  | _ => x
  end.

Definition usage (count length : Z) : spec_float :=
  widen (SFdiv 24 128 (float_of count) (float_of length)).
Definition percent (level : Z) : spec_float := SFdiv 53 1024 (double_of level) (double_of 100).

(** * State *)

Inductive level_state := NORMAL | WARNING | FULL | FLOOD.
#[export] Instance level_state_eq : EqDecision level_state.
Proof. solve_decision. Defined.

Record agent_buffer := AgentBuffer {
  ab_i : Z;
  ab_j : Z;
  ab_state : level_state;
  ab_warn_level : Z;
  ab_normal_level : Z;
  ab_tolerance : Z;
  ab_buff_full : bool;
  ab_buff_warn : bool;
  ab_buff_flood : bool;
  ab_buff_normal : bool;
  ab_buffer : option (list Z);
  ab_start : Z;
  ab_end : Z;
  ab_agt_buffer : bool;             (* agt->buffer *)
  ab_buflength : Z;                 (* agt->buflength *)
  ab_msg_count : Z;                 (* agent_state.msg_count *)
  ab_heap : gmap Z bytes;
  ab_fresh : Z;
  ab_sent : list bytes;             (* the messages given to send_msg *)
  ab_world : world;
}.
#[export] Instance eta_agent_buffer : Eta agent_buffer := fun b =>
  AgentBuffer (ab_i b) (ab_j b) (ab_state b) (ab_warn_level b) (ab_normal_level b)
    (ab_tolerance b) (ab_buff_full b) (ab_buff_warn b) (ab_buff_flood b)
    (ab_buff_normal b) (ab_buffer b) (ab_start b) (ab_end b) (ab_agt_buffer b)
    (ab_buflength b) (ab_msg_count b) (ab_heap b) (ab_fresh b) (ab_sent b) (ab_world b).

#[export] Instance agent_buffer_has_world : HasWorld agent_buffer :=
  {| world_of := ab_world; in_world f b := b <| ab_world := f (ab_world b) |>;
     world_of_in_world _ _ := eq_refl; in_world_compose _ _ _ := eq_refl;
     in_world_id b := ltac:(by destruct b) |}.

(** ** Macros of agentd.h *)

Definition full (i j n : Z) : bool := Z.rem (i + 1) n =? j.
Definition empty (i j : Z) : bool := i =? j.
Definition forward (x n : Z) : Z := Z.rem (x + 1) n.

Definition in_use (b : agent_buffer) : Z :=
  Z.rem (ab_i b - ab_j b + ab_buflength b + 1) (ab_buflength b + 1).
Definition usage_of (b : agent_buffer) : spec_float := usage (in_use b) (ab_buflength b).
Definition warn (b : agent_buffer) : bool := SFleb (percent (ab_warn_level b)) (usage_of b).
Definition nowarn (b : agent_buffer) : bool := SFleb (usage_of b) (percent (ab_warn_level b)).
Definition normal (b : agent_buffer) : bool := SFleb (usage_of b) (percent (ab_normal_level b)).

Example warn_at_90 :
  SFleb (percent 90) (usage 4500 5000) = false /\ SFleb (percent 90) (usage 4501 5000) = true.
Proof. by vm_compute. Qed.

(** ** Memory *)

(** [strdup]: null when there is no memory. *)
Definition os_strdup (msg : bytes) : ST agent_buffer Z :=
  ok ← alloc_succeeds;
  p ← gets ab_fresh;
  if ok : bool then
    _ ← modify (fun b => b <| ab_heap := <[p := msg]> (ab_heap b) |> <| ab_fresh := p + 1 |>);
    mret p
  else mret 0.

(** [os_free]; freeing twice is undefined. *)
Definition os_free (p : Z) : ST agent_buffer unit :=
  if p =? 0 then mret tt else
  msg ← gets (fun b => ab_heap b !! p);
  _ ← lift msg;
  modify (fun b => b <| ab_heap := delete p (ab_heap b) |>).

Definition the_buffer : ST agent_buffer (list Z) := b ← gets ab_buffer; lift b.

Definition get_slot (i : Z) : ST agent_buffer Z :=
  data ← the_buffer; lift (if 0 <=? i then slot data i else None).

Definition put_slot (i : Z) (p : Z) : ST agent_buffer unit :=
  data ← the_buffer; data ← lift (set_slot data i p);
  modify (fun b => b <| ab_buffer := Some data |>).

(** The call of [send_msg]; its result is not used. *)
Definition send_msg (msg : bytes) : ST agent_buffer unit :=
  modify (fun b => b <| ab_sent := ab_sent b ++ [msg] |>).

(** * Operations *)

(** The levels an append may raise. *)
Definition raise_level : ST agent_buffer unit :=
  b ← gets (fun b => b);
  let is_full := full (ab_i b) (ab_j b) (ab_buflength b + 1) in
  let to_full :=
    now ← time_now;
    modify (fun b => b <| ab_buff_full := true |> <| ab_state := FULL |> <| ab_start := now |>) in
  match ab_state b with
  | NORMAL =>
      if is_full then to_full
      else if warn b
      then modify (fun b => b <| ab_state := WARNING |> <| ab_buff_warn := true |>)
      else mret tt
  | WARNING => if is_full then to_full else mret tt
  | FULL =>
      now ← time_now;
      _ ← modify (fun b => b <| ab_end := now |>);
      if now - ab_start b >=? ab_tolerance b
      then modify (fun b => b <| ab_state := FLOOD |> <| ab_buff_flood := true |>)
      else mret tt
  | FLOOD => mret tt
  end.

(** The copy's pointer is stored without a test, and 0 is returned even when it is
    null: the message is then lost. *)
Definition buffer_append (msg : bytes) : ST agent_buffer Z :=
  _ ← raise_level;
  _ ← modify (fun b => b <| ab_msg_count := u32 (ab_msg_count b + 1) |>);
  b ← gets (fun b => b);
  if full (ab_i b) (ab_j b) (ab_buflength b + 1) then mret (-1) else
  p ← os_strdup msg;
  _ ← put_slot (ab_i b) p;
  _ ← modify (fun b => b <| ab_i := forward (ab_i b) (ab_buflength b + 1) |>);
  mret 0.

(** The levels the dispatcher may lower. *)
Definition lower_level : ST agent_buffer unit :=
  b ← gets (fun b => b);
  let to_normal := modify (fun b => b <| ab_state := NORMAL |> <| ab_buff_normal := true |>) in
  match ab_state b with
  | NORMAL => mret tt
  | WARNING => if normal b then to_normal else mret tt
  | FULL | FLOOD =>
      _ ← (if nowarn b then modify (fun b => b <| ab_state := WARNING |>) else mret tt);
      if normal b then to_normal else mret tt
  end.

(** What the dispatcher does under the lock. *)
Inductive dispatch :=
| Asleep                        (* nothing to send: waits *)
| Stopped                       (* the buffer was disabled: the thread ends *)
| Took (msg_output original_j : Z).

Definition dispatch_take : ST agent_buffer dispatch :=
  b ← gets (fun b => b);
  if empty (ab_i b) (ab_j b) && ab_agt_buffer b then mret Asleep else
  if negb (ab_agt_buffer b) then mret Stopped else
  _ ← lower_level;
  let j := ab_j b in
  msg_output ← get_slot j;
  _ ← modify (fun b => b <| ab_j := forward (ab_j b) (ab_buflength b + 1) |>);
  mret (Took msg_output j).

(** The notices are events of the agent itself. *)
Definition notice (text : bytes) : bytes := str "1:wazuh-agent:" ++ text.

Inductive notice_kind := NWarn | NFull | NFlood | NNormal.

(** [buff], a word of four bits. *)
Definition flags : Type := (bool * bool * bool * bool).

Definition flags_of (b : agent_buffer) : flags :=
  (ab_buff_full b, ab_buff_warn b, ab_buff_flood b, ab_buff_normal b).

Definition set_flags (f : flags) (b : agent_buffer) : agent_buffer :=
  let '(full, warn, flood, normal) := f in
  b <| ab_buff_full := full |> <| ab_buff_warn := warn |>
    <| ab_buff_flood := flood |> <| ab_buff_normal := normal |>.

Definition raised (n : notice_kind) (b : agent_buffer) : bool :=
  match n with
  | NWarn => ab_buff_warn b
  | NFull => ab_buff_full b
  | NFlood => ab_buff_flood b
  | NNormal => ab_buff_normal b
  end.

Definition clear_flag (n : notice_kind) (f : flags) : flags :=
  let '(full, warn, flood, normal) := f in
  match n with
  | NWarn => (full, false, flood, normal)
  | NFull => (false, warn, flood, normal)
  | NFlood => (full, warn, false, normal)
  | NNormal => (full, warn, flood, false)
  end.

Definition notice_text (n : notice_kind) (b : agent_buffer) : bytes :=
  match n with
  | NWarn => str "wazuh: Agent buffer: '" ++ dec (ab_warn_level b) ++ str "%'."
  | NFull => str "wazuh: Agent buffer: 'full'."
  | NFlood => str "wazuh: Agent buffer: 'flooded'."
  | NNormal => str "wazuh: Agent buffer: 'normal'."
  end.

(** Where the dispatcher is: at the head of its loop, ended, or on its way with the
    message and the slot it took.  Clearing a bit reads the word and writes it
    back: a bit that a producer sets in between is lost. *)
Inductive dispatcher :=
| Idle
| Ended
| Testing (n : notice_kind) (msg_output original_j : Z)
| Loading (n : notice_kind) (msg_output original_j : Z)
| Storing (n : notice_kind) (buff : flags) (msg_output original_j : Z)
| Noticing (n : notice_kind) (msg_output original_j : Z)
| Sending (msg_output original_j : Z)
| Freeing (msg_output original_j : Z)
| Clearing (original_j : Z).

Definition after_notice (n : notice_kind) (msg_output original_j : Z) : dispatcher :=
  match n with
  | NWarn => Testing NFull msg_output original_j
  | NFull => Testing NFlood msg_output original_j
  | NFlood => Testing NNormal msg_output original_j
  | NNormal => Sending msg_output original_j
  end.

(** One step of [dispatch_buffer]. *)
Definition run_dispatch (d : dispatcher) : ST agent_buffer dispatcher :=
  match d with
  | Idle =>
      r ← dispatch_take;
      mret (match r with
            | Took p o => Testing NWarn p o
            | Asleep => Idle
            | Stopped => Ended
            end)
  | Ended => mret Ended
  | Testing n p o => r ← gets (raised n); mret (if r : bool then Loading n p o else after_notice n p o)
  | Loading n p o => buff ← gets flags_of; mret (Storing n (clear_flag n buff) p o)
  | Storing n buff p o => _ ← modify (set_flags buff); mret (Noticing n p o)
  | Noticing n p o =>
      b ← gets (fun b => b); _ ← send_msg (notice (notice_text n b)); mret (after_notice n p o)
  | Sending p o =>
      if p =? 0 then mret Idle else
      msg ← gets (fun b => ab_heap b !! p);
      msg ← lift msg;
      _ ← send_msg msg; mret (Freeing p o)
  | Freeing p o => _ ← os_free p; mret (Clearing o)
  | Clearing o => _ ← put_slot o 0; mret Idle
  end.

(** How many steps are left until the dispatcher is at the head of its loop. *)
Definition notices_after (n : notice_kind) : nat :=
  match n with NWarn => 3 | NFull => 2 | NFlood => 1 | NNormal => 0 end.

Definition steps_left (d : dispatcher) : nat :=
  match d with
  | Idle | Ended => 0
  | Testing n _ _ => 4 * notices_after n + 7
  | Loading n _ _ => 4 * notices_after n + 6
  | Storing n _ _ _ => 4 * notices_after n + 5
  | Noticing n _ _ => 4 * notices_after n + 4
  | Sending _ _ => 3
  | Freeing _ _ => 2
  | Clearing _ => 1
  end%nat.

(** ** Creation, release and resizing *)

(** [warn_level], [normal_level] and [tolerance] come from the internal options. *)
Definition buffer_init (warn_level normal_level tolerance : Z) : ST agent_buffer unit :=
  b ← gets (fun b => b);
  _ ← match ab_buffer b with
      | None => modify (fun b => b <| ab_buffer :=
                  Some (replicate (Z.to_nat (ab_buflength b + 1)) 0) |>)
      | Some _ => mret tt
      end;
  modify (fun b => b <| ab_warn_level := warn_level |> <| ab_normal_level := normal_level |>
                     <| ab_tolerance := tolerance |>).

Definition w_agentd_get_buffer_lenght : ST agent_buffer Z :=
  b ← gets (fun b => b);
  if ab_agt_buffer b then
    let retval := Z.rem (ab_i b - ab_j b) (ab_buflength b + 1) in
    mret (if retval <? 0 then retval + ab_buflength b + 1 else retval)
  else mret (-1).

(** Free the messages of the slots [idx], [idx + 1], ... *)
Fixpoint free_slots (k : nat) (idx : Z) : ST agent_buffer unit :=
  match k with
  | O => mret tt
  | S k => p ← get_slot idx; _ ← os_free p; free_slots k (idx + 1)
  end.

Definition w_agentd_buffer_free (current_capacity : Z) : ST agent_buffer unit :=
  b ← gets (fun b => b);
  match ab_buffer b with
  | None => mret tt
  | Some _ =>
      if current_capacity =? 0 then mret tt else
      _ ← free_slots (Z.to_nat (current_capacity + 1)) 0;
      modify (fun b => b <| ab_buffer := None |> <| ab_buflength := 0 |>
                         <| ab_i := 0 |> <| ab_j := 0 |>)
  end.

(** [memcpy] of [n] pointers from [src] of the old buffer to [dst] of the new. *)
Definition copy_slots (old new : list Z) (src dst n : Z) : option (list Z) :=
  ps ← load old src n; store new dst ps.

Definition grow_copy (old new : list Z) (i j count current_capacity : Z) : option (list Z) :=
  if j <? i then copy_slots old new j 0 count
  else
    let first_part := current_capacity - j + 1 in
    new ← copy_slots old new j 0 first_part;
    copy_slots old new 0 first_part i.

(** The oldest [k] messages move, from the [n]-th on. *)
Fixpoint move_oldest (k : nat) (n j current_capacity : Z) (old new : list Z)
    : option (list Z * list Z) :=
  match k with
  | O => Some (old, new)
  | S k =>
      let old_idx := (j + n) mod (current_capacity + 1) in
      p ← slot old old_idx;
      '(old, new) ← (if p =? 0 then Some (old, new) else
                     new ← set_slot new n p; old ← set_slot old old_idx 0; Some (old, new));
      move_oldest k (n + 1) j current_capacity old new
  end.

(** The array allocated has a slot more than the capacity. The number of messages
    is read before the lock is taken. *)
Definition resize_locked (current_capacity desired_capacity agent_msg_count : Z)
    : ST agent_buffer Z :=
  b ← gets (fun b => b);
  old ← the_buffer;
  let temp := replicate (Z.to_nat (desired_capacity + 1)) 0 in
  '(temp, count) ←
    (if desired_capacity >? current_capacity then
       temp ← lift (grow_copy old temp (ab_i b) (ab_j b) agent_msg_count current_capacity);
       mret (temp, agent_msg_count)
     else
       let retained := if agent_msg_count <? desired_capacity
                       then agent_msg_count else desired_capacity in
       '(old, temp) ← lift (move_oldest (Z.to_nat retained) 0 (ab_j b) current_capacity old temp);
       _ ← modify (fun b => b <| ab_buffer := Some old |>);
       _ ← free_slots (Z.to_nat (current_capacity + 1)) 0;
       _ ← modify (fun b => b <| ab_msg_count := retained |>);
       mret (temp, retained));
  _ ← modify (fun b => b <| ab_j := 0 |> <| ab_i := count |> <| ab_buffer := Some temp |>);
  mret 0.

Definition w_agentd_buffer_resize (current_capacity desired_capacity : Z)
    : ST agent_buffer Z :=
  if desired_capacity <=? 0 then mret (-1) else
  if desired_capacity =? current_capacity then mret 0 else
  count ← w_agentd_get_buffer_lenght;
  if count <? 0 then mret (-1) else
  if count >? current_capacity + 1 then mret (-1) else
  resize_locked current_capacity desired_capacity count.

(** ** Configuration reload (agentd.c)

    The new configuration is read into [agt] before the buffer is adapted. *)
Definition read_config (new_enabled : bool) (new_length : Z) : ST agent_buffer unit :=
  modify (fun b => b <| ab_agt_buffer := new_enabled |> <| ab_buflength := new_length |>).

Definition reload (new_enabled : bool) (new_length warn_level normal_level tolerance : Z)
    : ST agent_buffer unit :=
  b ← gets (fun b => b);
  let current_capacity := ab_buflength b in
  let current_buffer_flag := ab_agt_buffer b in
  _ ← read_config new_enabled new_length;
  if negb new_enabled && current_buffer_flag then w_agentd_buffer_free current_capacity
  else if negb current_buffer_flag && new_enabled
  then buffer_init warn_level normal_level tolerance
  else if new_enabled then _ ← w_agentd_buffer_resize current_capacity new_length; mret tt
  else mret tt.

(** * The buffer and its dispatcher

    Producers append and the dispatcher makes its steps, in any order. *)
Inductive event :=
| EvAppend (msg : bytes)
| EvDispatch.

(** The messages accepted, where the dispatcher was before each of its steps, and
    where it is at the end. *)
Fixpoint run_events (evs : list event) (d : dispatcher)
    : ST agent_buffer (list bytes * list dispatcher * dispatcher) :=
  match evs with
  | [] => mret ([], [], d)
  | EvAppend msg :: rest =>
      r ← buffer_append msg;
      '(acc, ds, d) ← run_events rest d;
      mret ((if r =? 0 then [msg] else []) ++ acc, ds, d)
  | EvDispatch :: rest =>
      d1 ← run_dispatch d;
      '(acc, ds, d2) ← run_events rest d1;
      mret (acc, d :: ds, d2)
  end.

(** The abstract buffer: at most [cap] messages wait, one may be held, and the
    others have been delivered.  A message that was accepted but for which there
    was no memory is [None]. *)
Record abstract := Abstract {
  abs_waiting : list (option bytes);
  abs_held : list (option bytes);
  abs_delivered : list (option bytes);
}.

(** The dispatcher's step from [d]: at the head of its loop it takes the oldest
    message, and later it delivers the one it holds; the other steps do neither. *)
Definition abstract_dispatch (d : dispatcher) (a : abstract) : abstract :=
  match d with
  | Idle => match abs_waiting a with
            | m :: rest => Abstract rest [m] (abs_delivered a)
            | [] => a
            end
  | Sending _ _ => Abstract (abs_waiting a) [] (abs_delivered a ++ abs_held a)
  | _ => a
  end.

(** Each accepted message asks [memory] for its copy. *)
Definition copy_of (memory : oracle bool) (msg : bytes) : option bytes :=
  if next memory then Some msg else None.

(** The copies of the accepted messages, and the state at the end; [ds] is where
    the dispatcher was before each of its steps. *)
Fixpoint abstract_run (cap : Z) (evs : list event) (ds : list dispatcher)
    (memory : oracle bool) (a : abstract) : list (bytes * option bytes) * abstract :=
  match evs with
  | [] => ([], a)
  | EvAppend msg :: rest =>
      if zlen (abs_waiting a) <? cap then
        let copy := copy_of memory msg in
        let '(acc, a) := abstract_run cap rest ds (advance memory)
          (Abstract (abs_waiting a ++ [copy]) (abs_held a) (abs_delivered a)) in
        ((msg, copy) :: acc, a)
      else abstract_run cap rest ds memory a
  | EvDispatch :: rest =>
      match ds with
      | d :: ds => abstract_run cap rest ds memory (abstract_dispatch d a)
      | [] => ([], a)
      end
  end.

(** Nothing is lost, duplicated or reordered. *)
Definition contents (a : abstract) : list (option bytes) :=
  abs_delivered a ++ abs_held a ++ abs_waiting a.

(** A message is held from the taking to the sending. *)
Definition holding (d : dispatcher) : bool :=
  match d with
  | Testing _ _ _ | Loading _ _ _ | Storing _ _ _ _ | Noticing _ _ _ | Sending _ _ => true
  | _ => false
  end.

Lemma abstract_dispatch_contents d a :
  (holding d = false -> abs_held a = []) -> contents (abstract_dispatch d a) = contents a.
Proof.
  unfold abstract_dispatch, contents. destruct a as [w h dl]. cbn [abs_held abs_waiting abs_delivered].
  destruct d; intros H; try done; cbn in H.
  - rewrite (H eq_refl). by destruct w.
  - cbn. by rewrite <- app_assoc.
Qed.

(** What a step of the dispatcher does to its place: at the head of the loop it may
    wait; otherwise it gets on, and is back after at most [steps_left] steps. *)
Definition gets_on (d d' : dispatcher) : Prop :=
  match d with
  | Idle => d' = Idle \/ exists p o, d' = Testing NWarn p o
  | Ended => d' = Ended
  | _ => (steps_left d' < steps_left d)%nat
  end.

Fixpoint path (ds : list dispatcher) (d : dispatcher) : Prop :=
  match ds with
  | [] => True
  | d0 :: rest => gets_on d0 (hd d rest) /\ path rest d
  end.

(** * What the buffer keeps *)

(** The part of the state the levels do not touch. *)
Definition core (b : agent_buffer) :=
  (ab_i b, ab_j b, ab_buffer b, ab_agt_buffer b, ab_buflength b, ab_heap b, ab_fresh b, ab_sent b).

Definition levels_only (b b' : agent_buffer) : Prop :=
  core b' = core b /\ w_alloc (ab_world b') = w_alloc (ab_world b).

Lemma levels_time (k : Z -> agent_buffer -> agent_buffer) b :
  (forall now b, core (k now b) = core b /\ ab_world (k now b) = ab_world b) ->
  wp (now ← time_now; modify (k now)) (fun _ => levels_only b) b.
Proof.
  intros Hk. apply wp_bind, wp_consult, wp_modify.
  set (b1 := in_world _ b). destruct (Hk (next (w_time (world_of b))) b1) as [Hc Hw].
  split; [by rewrite Hc|by rewrite Hw].
Qed.

Lemma raise_level_spec b : wp raise_level (fun _ => levels_only b) b.
Proof.
  unfold raise_level. apply wp_bind, wp_gets. cbv zeta. destruct (ab_state b).
  - destruct (full _ _ _); [by apply levels_time|]. destruct (warn b); by split.
  - destruct (full _ _ _); [by apply levels_time|by split].
  - apply wp_bind, wp_consult, wp_bind, wp_modify. destruct (_ >=? _); by split.
  - by split.
Qed.

Lemma lower_level_spec b : wp lower_level (fun _ => levels_only b) b.
Proof.
  unfold lower_level. apply wp_bind, wp_gets. cbv zeta.
  destruct (ab_state b); [by split|destruct (normal b); by split|..];
    (destruct (nowarn b); apply wp_bind; [apply wp_modify|apply wp_ret];
     destruct (normal b); by split).
Qed.

(** What was sent: the delivered messages, with notices between them. *)
Inductive with_notices : list bytes -> list bytes -> Prop :=
| wn_nil : with_notices [] []
| wn_notice text sent delivered :
    with_notices sent delivered -> with_notices (sent ++ [notice text]) delivered
| wn_message msg sent delivered :
    with_notices sent delivered -> with_notices (sent ++ [msg]) (delivered ++ [msg]).

(** What the dispatcher still has to free, and the slot it will clear. *)
Definition held_ptrs (d : dispatcher) : list Z :=
  match d with
  | Testing _ p _ | Loading _ p _ | Storing _ _ p _ | Noticing _ p _ | Sending p _
  | Freeing p _ => [p]
  | _ => []
  end.

Definition held_slot (d : dispatcher) : option Z :=
  match d with
  | Testing _ _ o | Loading _ _ o | Storing _ _ _ o | Noticing _ _ o | Sending _ o
  | Freeing _ o | Clearing o => Some o
  | _ => None
  end.

(** A message's pointer; null when there was no memory for the copy. *)
Definition points (heap : gmap Z bytes) (p : Z) (m : option bytes) : Prop :=
  match m with Some m => heap !! p = Some m | None => p = 0 end.

Definition not_null (p : Z) : Prop := p <> 0.
#[export] Instance not_null_dec p : Decision (not_null p).
Proof. unfold not_null. apply _. Defined.

(** The messages waiting in the ring are allocated, distinct, and with the one the
    dispatcher holds they are all that is allocated; the slot the dispatcher will
    clear is the free one before the ring. *)
Record ab_valid (b : agent_buffer) (d : dispatcher) (a : abstract) (ptrs slots : list Z) : Prop := {
  abv_buffer : ab_buffer b = Some slots;
  abv_enabled : ab_agt_buffer b = true;
  abv_length : 0 < ab_buflength b < 2 ^ 30;
  abv_ring : ring (ab_buflength b + 1) (ab_j b) slots ptrs;
  abv_i : ab_i b = ring_end (ab_buflength b + 1) (ab_j b) (zlen ptrs);
  abv_waiting : Forall2 (points (ab_heap b)) ptrs (abs_waiting a);
  abv_held : if holding d then Forall2 (points (ab_heap b)) (held_ptrs d) (abs_held a)
             else abs_held a = [];
  abv_place : match d with Freeing p _ => not_null p | Ended => False | _ => True end;
  abv_slot : forall o, held_slot d = Some o ->
    0 <= o < ab_buflength b + 1 /\ wrap (ab_buflength b + 1) (o + 1) = ab_j b;
  abv_distinct : NoDup (filter not_null (held_ptrs d ++ ptrs));
  abv_fresh : 0 < ab_fresh b /\ forall p, is_Some (ab_heap b !! p) -> 0 < p < ab_fresh b;
  abv_live : forall p, is_Some (ab_heap b !! p) <-> not_null p /\ p ∈ held_ptrs d ++ ptrs;
  abv_sent : with_notices (ab_sent b) (omap id (abs_delivered a));
}.

Lemma forward_mod x n : 0 <= x < n -> forward x n = (x + 1) mod n.
Proof. intros. unfold forward. apply Z.rem_mod_nonneg; lia. Qed.

(** Other fields do not matter. *)
Lemma core_valid b b' d a ptrs slots :
  core b' = core b ->
  ab_valid b d a ptrs slots -> ab_valid b' d a ptrs slots.
Proof.
  intros Hc []. injection Hc as E1 E2 E3 E4 E5 E6 E7 E8.
  constructor; rewrite ?E1, ?E2, ?E3, ?E4, ?E5, ?E6, ?E7, ?E8; auto.
Qed.

Lemma levels_valid b b' d a ptrs slots :
  levels_only b b' -> ab_valid b d a ptrs slots -> ab_valid b' d a ptrs slots.
Proof.
  intros [Hc _]. by apply core_valid.
Qed.

Lemma waiting_length b d a ptrs slots :
  ab_valid b d a ptrs slots -> zlen ptrs = zlen (abs_waiting a).
Proof. intros H. unfold zlen. f_equal. by eapply Forall2_length, abv_waiting. Qed.

Lemma full_valid b d a ptrs slots :
  ab_valid b d a ptrs slots ->
  full (ab_i b) (ab_j b) (ab_buflength b + 1) = (zlen (abs_waiting a) =? ab_buflength b).
Proof.
  intros H. pose proof (waiting_length _ _ _ _ _ H) as Hn. destruct H.
  pose proof (ring_end_bounds _ _ _ _ abv_ring0) as Hb. rewrite <- abv_i0 in Hb.
  pose proof (ring_full _ _ _ _ abv_ring0) as Hf. unfold full.
  rewrite Z.rem_mod_nonneg by lia. rewrite <- abv_i0 in Hf.
  destruct (Z.eqb_spec (zlen (abs_waiting a)) (ab_buflength b));
    [apply Z.eqb_eq|apply Z.eqb_neq]; intuition lia.
Qed.

(** A fresh message disturbs no other, nor does the removal of one. *)
Lemma heap_insert (heap : gmap Z bytes) p msg ptrs msgs :
  heap !! p = None -> Forall2 (points heap) ptrs msgs ->
  Forall2 (points (<[p := msg]> heap)) ptrs msgs.
Proof.
  intros Hp H. eapply Forall2_impl; [exact H|]. intros q [m|] Hq; cbn in *; [|done].
  rewrite lookup_insert_ne; [done|]. congruence.
Qed.

Lemma heap_delete (heap : gmap Z bytes) p ptrs msgs :
  (not_null p -> p ∉ ptrs) -> Forall2 (points heap) ptrs msgs ->
  not_null p -> Forall2 (points (delete p heap)) ptrs msgs.
Proof.
  intros Hp H Hn. specialize (Hp Hn). clear Hn.
  induction H as [|q [m|] l l' Hq _ IH]; constructor; cbn in *;
    try (apply IH; set_solver); [|done].
  rewrite lookup_delete_ne; [done|]. set_solver.
Qed.

(** Storing a pointer at the end of the ring. *)
Lemma push_valid b d a ptrs slots p copy heap fresh :
  ab_valid b d a ptrs slots -> zlen ptrs < ab_buflength b ->
  (copy = None /\ p = 0 /\ heap = ab_heap b /\ fresh = ab_fresh b \/
   exists msg, copy = Some msg /\ p = ab_fresh b /\ heap = <[p := msg]> (ab_heap b) /\
     fresh = p + 1) ->
  ab_valid (b <| ab_heap := heap |> <| ab_fresh := fresh |>
              <| ab_buffer := Some (<[Z.to_nat (ab_i b) := p]> slots) |>
              <| ab_i := forward (ab_i b) (ab_buflength b + 1) |>) d
    (Abstract (abs_waiting a ++ [copy]) (abs_held a) (abs_delivered a))
    (ptrs ++ [p]) (<[Z.to_nat (ab_i b) := p]> slots).
Proof.
  intros [] Hroom' Hcopy.
  pose proof (ring_end_bounds _ _ _ _ abv_ring0) as Hb. rewrite <- abv_i0 in Hb.
  destruct (abv_ring0) as [Hsz Hst Hroom Hitem]. destruct abv_fresh0 as [Hfr Hfresh].
  assert (Hnew : ab_heap b !! ab_fresh b = None).
  { apply eq_None_not_Some. intros Hq%Hfresh. lia. }
  assert (Hkeep : forall l m, Forall2 (points (ab_heap b)) l m -> Forall2 (points heap) l m).
  { intros l m H. destruct Hcopy as [(_ & _ & -> & _)|(msg & _ & -> & -> & _)]; [done|].
    by apply heap_insert. }
  constructor; cbn; try done.
  - rewrite abv_i0. apply ring_push; [done|lia].
  - rewrite forward_mod by lia. rewrite abv_i0, zlen_app.
    pose proof (zlen_nonneg ptrs). apply ring_end_push; lia.
  - apply Forall2_app; [by apply Hkeep|]. constructor; [|done].
    destruct Hcopy as [(-> & -> & _)|(msg & -> & -> & -> & _)]; [done|apply lookup_insert_eq].
  - destruct (holding d); [by apply Hkeep|done].
  - rewrite app_assoc, filter_app. apply NoDup_app. split_and!; [done| |].
    + intros q Hq Hq'. apply list_elem_of_filter in Hq as [_ Hq], Hq' as [Hn Hq'].
      apply list_elem_of_singleton in Hq' as ->.
      destruct Hcopy as [(_ & -> & _)|(msg & _ & -> & _)]; [done|].
      pose proof (proj2 (abv_live0 (ab_fresh b)) (conj Hn Hq)) as [? H]. congruence.
    + apply NoDup_filter, NoDup_singleton.
  - destruct Hcopy as [(_ & _ & -> & ->)|(msg & _ & -> & -> & ->)]; [done|]. split; [lia|].
    intros q. rewrite lookup_insert_is_Some. intros [<-|[_ Hq]]; [lia|]. apply Hfresh in Hq. lia.
  - intros q. rewrite app_assoc, elem_of_app, list_elem_of_singleton.
    destruct Hcopy as [(_ & -> & -> & _)|(msg & _ & -> & -> & _)].
    + rewrite abv_live0. unfold not_null. intuition.
    + rewrite lookup_insert_is_Some, abv_live0. unfold not_null.
      destruct (decide (ab_fresh b = q)); intuition lia.
Qed.

Lemma append_spec b d a ptrs slots msg :
  ab_valid b d a ptrs slots ->
  wp (buffer_append msg) (fun r b' => exists ptrs' slots', ab_buflength b' = ab_buflength b /\
    let memory := w_alloc (ab_world b) in
    if zlen (abs_waiting a) <? ab_buflength b then
      r = 0 /\ w_alloc (ab_world b') = advance memory /\
      ab_valid b' d (Abstract (abs_waiting a ++ [copy_of memory msg]) (abs_held a)
                      (abs_delivered a)) ptrs' slots'
    else r = -1 /\ w_alloc (ab_world b') = memory /\ ab_valid b' d a ptrs' slots') b.
Proof.
  intros Hv. unfold buffer_append. apply wp_bind. eapply wp_mono; [apply raise_level_spec|].
  intros [] b1 H1. assert (Hl1 : ab_buflength b1 = ab_buflength b) by (by destruct H1 as [[=] _]).
  pose proof (levels_valid _ _ _ _ _ _ H1 Hv) as Hv1. cbv zeta.
  destruct H1 as [_ Hm]. rewrite <- Hl1, <- Hm. clear Hm Hv Hl1 b.
  apply wp_bind, wp_modify. set (b2 := b1 <| ab_msg_count := _ |>).
  assert (Hv2 : ab_valid b2 d a ptrs slots) by (by apply (core_valid b1)).
  change (ab_buflength b1) with (ab_buflength b2). change (ab_world b1) with (ab_world b2).
  clearbody b2. clear Hv1 b1.
  apply wp_bind, wp_gets. rewrite (full_valid _ _ _ _ _ Hv2).
  pose proof (waiting_length _ _ _ _ _ Hv2) as Hn.
  pose proof (ring_room _ _ _ _ (abv_ring _ _ _ _ _ Hv2)) as Hroom.
  pose proof (ring_size _ _ _ _ (abv_ring _ _ _ _ _ Hv2)) as Hsize.
  pose proof (ring_end_bounds _ _ _ _ (abv_ring _ _ _ _ _ Hv2)) as Hb.
  rewrite <- (abv_i _ _ _ _ _ Hv2) in Hb.
  destruct (Z.eqb_spec (zlen (abs_waiting a)) (ab_buflength b2)) as [E|E].
  { apply wp_ret. exists ptrs, slots. rewrite (proj2 (Z.ltb_ge _ _)) by lia. done. }
  rewrite (proj2 (Z.ltb_lt _ _)) by lia.
  apply wp_bind. unfold os_strdup. apply wp_bind, wp_consult, wp_bind, wp_gets.
  unfold copy_of. change (world_of b2) with (ab_world b2).
  set (b3 := in_world _ b2). destruct (next (w_alloc (ab_world b2))).
  - apply wp_bind, wp_modify, wp_ret.
    apply wp_bind. unfold put_slot, the_buffer. apply wp_bind, wp_bind, wp_gets.
    eapply wp_lift; [exact (abv_buffer _ _ _ _ _ Hv2)|]. apply wp_bind.
    eapply wp_lift; [apply set_slot_some; lia|]. apply wp_modify, wp_bind, wp_modify, wp_ret.
    eexists _, _. split; [done|]. split; [done|]. split; [done|].
    eapply core_valid; [|apply (push_valid b2 d a ptrs slots (ab_fresh b2) (Some msg)
      (<[ab_fresh b2 := msg]> (ab_heap b2)) (ab_fresh b2 + 1) Hv2); [lia|right; by exists msg]].
    done.
  - apply wp_ret.
    apply wp_bind. unfold put_slot, the_buffer. apply wp_bind, wp_bind, wp_gets.
    eapply wp_lift; [exact (abv_buffer _ _ _ _ _ Hv2)|]. apply wp_bind.
    eapply wp_lift; [apply set_slot_some; lia|]. apply wp_modify, wp_bind, wp_modify, wp_ret.
    eexists _, _. split; [done|]. split; [done|]. split; [done|].
    eapply core_valid; [|apply (push_valid b2 d a ptrs slots 0 None (ab_heap b2)
      (ab_fresh b2) Hv2); [lia|by left]].
    done.
Qed.

(** The message at the head of the ring passes to the dispatcher. *)
Lemma take_valid b p m w dl ptrs slots :
  ab_valid b Idle (Abstract (m :: w) [] dl) (p :: ptrs) slots ->
  slot slots (ab_j b) = Some p /\
  ab_valid (b <| ab_j := forward (ab_j b) (ab_buflength b + 1) |>) (Testing NWarn p (ab_j b))
    (Abstract w [m] dl) ptrs slots.
Proof.
  intros []. cbn [abs_waiting abs_held abs_delivered held_ptrs app holding] in *.
  apply Forall2_cons in abv_waiting0 as [Hp Hw].
  destruct (abv_ring0) as [Hsz Hst Hroom _]. rewrite zlen_cons in *.
  split; [by eapply ring_head|]. pose proof (zlen_nonneg ptrs).
  assert (Hf : forward (ab_j b) (ab_buflength b + 1) = (ab_j b + 1) mod (ab_buflength b + 1))
    by (apply forward_mod; lia).
  constructor; cbn [ab_buffer ab_agt_buffer ab_buflength ab_j ab_i ab_heap ab_fresh ab_sent ab_world
    update abs_waiting abs_held abs_delivered held_ptrs holding app]; try done; rewrite ?Hf.
  - by eapply ring_pop.
  - rewrite abv_i0, <- (ring_end_pop _ _ (1 + zlen ptrs)) by lia. f_equal; lia.
  - by constructor.
  - intros o' [= <-]. split; [lia|]. by rewrite wrap_mod by lia.
Qed.

(** A step that changes the place only. *)
Lemma place_valid b d d' a ptrs slots :
  holding d = true -> holding d' = true -> held_ptrs d' = held_ptrs d ->
  held_slot d' = held_slot d -> ab_valid b d a ptrs slots -> ab_valid b d' a ptrs slots.
Proof.
  intros H H' Ep Eo []. rewrite H in *. constructor; rewrite ?H', ?Ep, ?Eo; try done.
  by destruct d'.
Qed.

(** What is sent changes nothing else. *)
Lemma sent_valid b d a ptrs slots sent dl :
  ab_valid b d a ptrs slots -> with_notices sent (omap id dl) ->
  ab_valid (b <| ab_sent := sent |>) d (Abstract (abs_waiting a) (abs_held a) dl) ptrs slots.
Proof. intros [] Hs. by constructor. Qed.

(** The message the dispatcher holds is delivered; it is still allocated. *)
Lemma deliver_valid b p o m w dl ptrs slots :
  ab_valid b (Sending p o) (Abstract w [Some m] dl) ptrs slots ->
  ab_valid (b <| ab_sent := ab_sent b ++ [m] |>) (Freeing p o)
    (Abstract w [] (dl ++ [Some m])) ptrs slots.
Proof.
  intros []. cbn [holding held_ptrs held_slot abs_waiting abs_held abs_delivered] in *.
  apply Forall2_cons in abv_held0 as [Hp _]. cbn in Hp.
  constructor; cbn; try done.
  - assert (is_Some (ab_heap b !! p)) as H by (by eexists). by apply abv_live0 in H as [H _].
  - rewrite omap_app. by constructor.
Qed.

(** A message that could not be copied is passed over. *)
Lemma pass_valid b o w dl ptrs slots :
  ab_valid b (Sending 0 o) (Abstract w [None] dl) ptrs slots ->
  ab_valid b Idle (Abstract w [] (dl ++ [None])) ptrs slots.
Proof.
  intros []. cbn [holding held_ptrs held_slot abs_waiting abs_held abs_delivered app] in *.
  constructor; cbn [holding held_ptrs held_slot abs_waiting abs_held abs_delivered app]; try done.
  - intros q. rewrite abv_live0, elem_of_cons. unfold not_null. intuition.
  - rewrite omap_app. cbn. by rewrite app_nil_r.
Qed.

Lemma free_valid b p o a ptrs slots :
  ab_valid b (Freeing p o) a ptrs slots ->
  ab_valid (b <| ab_heap := delete p (ab_heap b) |>) (Clearing o) a ptrs slots.
Proof.
  intros []. cbn [holding held_ptrs held_slot app] in *.
  rewrite filter_cons_True in abv_distinct0 by done.
  apply NoDup_cons in abv_distinct0 as [Hnin Hnd].
  assert (Hp : p ∉ ptrs) by (intros Hq; by apply Hnin, list_elem_of_filter).
  constructor; cbn; try done.
  - by apply heap_delete.
  - split; [lia|]. intros q. rewrite lookup_delete_is_Some. intros [_ Hq]. by apply abv_fresh0.
  - intros q. rewrite lookup_delete_is_Some, abv_live0, elem_of_cons. split.
    + intros [? [? [->|?]]]; done.
    + intros [Hn Hq]. split; [by intros ->|]. split; [done|by right].
Qed.

(** The slot that is cleared is outside the ring. *)
Lemma clear_valid b o a ptrs slots :
  ab_valid b (Clearing o) a ptrs slots ->
  ab_valid (b <| ab_buffer := Some (<[Z.to_nat o := 0]> slots) |>) Idle a ptrs
    (<[Z.to_nat o := 0]> slots).
Proof.
  intros []. destruct (abv_slot0 o eq_refl) as [Ho Hj].
  destruct (abv_ring0) as [Hsz Hst Hroom Hitem].
  constructor; cbn; try done.
  constructor; [unfold zlen in *; by rewrite length_insert|done|done|].
  intros k x Hk Hx. pose proof (slot_lt _ _ _ Hk Hx).
  assert (Hne : wrap (ab_buflength b + 1) (ab_j b + k) <> o)
    by (rewrite <- Hj; unfold wrap; repeat case_match; lia).
  pose proof (wrap_bounds (ab_buflength b + 1) (ab_j b + k) ltac:(lia)).
  rewrite slot_insert, (proj2 (Z.eqb_neq _ _) Hne) by lia. by apply Hitem.
Qed.

(** Every step of the dispatcher. *)
Definition dispatched (b : agent_buffer) (d : dispatcher) (a : abstract) (d' : dispatcher)
    (b' : agent_buffer) : Prop :=
  exists ptrs slots, ab_buflength b' = ab_buflength b /\
    w_alloc (ab_world b') = w_alloc (ab_world b) /\ gets_on d d' /\
    ab_valid b' d' (abstract_dispatch d a) ptrs slots.

Lemma take_spec b a ptrs slots :
  ab_valid b Idle a ptrs slots -> wp (run_dispatch Idle) (dispatched b Idle a) b.
Proof.
  intros Hv. cbn [run_dispatch]. apply wp_bind. unfold dispatch_take. apply wp_bind, wp_gets.
  destruct a as [w h dl]. assert (h = []) as -> by exact (abv_held _ _ _ _ _ Hv).
  unfold dispatched, abstract_dispatch. cbn [abs_held abs_waiting abs_delivered].
  rewrite (abv_enabled _ _ _ _ _ Hv), andb_true_r. unfold empty.
  pose proof (ring_empty _ _ _ _ (abv_ring _ _ _ _ _ Hv)) as He.
  rewrite <- (abv_i _ _ _ _ _ Hv) in He.
  pose proof (abv_waiting _ _ _ _ _ Hv) as Hw. cbn [abs_waiting] in Hw.
  destruct (Z.eqb_spec (ab_i b) (ab_j b)) as [E|E].
  { apply wp_ret, wp_ret. apply He in E as ->. inversion Hw. subst w.
    exists [], slots. split_and!; [done|done|by left|done]. }
  destruct ptrs as [|p ptrs]; [tauto|]. apply Forall2_cons_inv_l in Hw as (m & w' & Hp & _ & ->).
  cbn [negb]. apply wp_bind. eapply wp_mono; [apply lower_level_spec|]. intros [] b1 H1.
  pose proof (levels_valid _ _ _ _ _ _ H1 Hv) as Hv1.
  assert (ab_j b = ab_j b1 /\ ab_buflength b = ab_buflength b1) as [-> ->]
    by (by destruct H1 as [[=] _]).
  destruct (take_valid _ _ _ _ _ _ _ Hv1) as [Hslot Hv2].
  apply wp_bind. unfold get_slot, the_buffer. apply wp_bind, wp_bind, wp_gets.
  eapply wp_lift; [exact (abv_buffer _ _ _ _ _ Hv1)|]. cbv beta.
  destruct (ring_start _ _ _ _ (abv_ring _ _ _ _ _ Hv1)) as [Hj _].
  rewrite (proj2 (Z.leb_le _ _) Hj). eapply wp_lift; [exact Hslot|].
  apply wp_bind, wp_modify, wp_ret, wp_ret. exists ptrs, slots.
  split_and!; [done|apply H1|right; by exists p, (ab_j b1)|done].
Qed.

Lemma after_notice_place n p o :
  holding (after_notice n p o) = true /\ held_ptrs (after_notice n p o) = [p] /\
  held_slot (after_notice n p o) = Some o /\
  (steps_left (after_notice n p o) < 4 * notices_after n + 4)%nat.
Proof. destruct n; cbn; split_and!; done || lia. Qed.

Lemma notice_spec b d a ptrs slots :
  match d with Testing _ _ _ | Loading _ _ _ | Storing _ _ _ _ | Noticing _ _ _ => True
             | _ => False end ->
  ab_valid b d a ptrs slots -> wp (run_dispatch d) (dispatched b d a) b.
Proof.
  intros Hd Hv. destruct d as [| |n p o|n p o|n buff p o|n p o| | |]; try done; clear Hd;
    destruct (after_notice_place n p o) as (Hh & Hp & Ho & Hs);
    cbn [run_dispatch]; unfold dispatched, abstract_dispatch.
  - apply wp_bind, wp_gets. exists ptrs, slots. destruct (raised n b).
    + split_and!; [done|done|cbn [gets_on steps_left]; lia|by eapply place_valid; [..|exact Hv]].
    + split_and!; [done|done|cbn [gets_on steps_left] in *; lia|by eapply place_valid; [..|exact Hv]].
  - apply wp_bind, wp_gets, wp_ret. exists ptrs, slots.
    split_and!; [done|done|cbn [gets_on steps_left]; lia|by eapply place_valid; [..|exact Hv]].
  - apply wp_bind, wp_modify, wp_ret. exists ptrs, slots. destruct buff as [[[f w] fl] nm].
    split_and!; [done|done|cbn [gets_on steps_left]; lia|].
    eapply core_valid; [|eapply place_valid; [..|exact Hv]; done]. done.
  - apply wp_bind, wp_gets, wp_bind, wp_modify, wp_ret. exists ptrs, slots.
    split_and!; [done|done|cbn [gets_on steps_left] in *; lia|].
    pose proof (place_valid b _ (after_notice n p o) _ _ _ (eq_refl : holding (Noticing n p o) = true)
      Hh Hp Ho Hv) as Hv'.
    destruct a as [w h dl]. apply (sent_valid b _ (Abstract w h dl)); [exact Hv'|].
    constructor. exact (abv_sent _ _ _ _ _ Hv).
Qed.

Lemma run_dispatch_spec b d a ptrs slots :
  ab_valid b d a ptrs slots -> wp (run_dispatch d) (dispatched b d a) b.
Proof.
  intros Hv. destruct d as [| |n p o|n p o|n buff p o|n p o|p o|p o|o];
    [by eapply take_spec|by destruct (abv_place _ _ _ _ _ Hv)|
     by eapply notice_spec|by eapply notice_spec|by eapply notice_spec|by eapply notice_spec|..].
  - destruct a as [w h dl]. cbn [run_dispatch]. unfold dispatched, abstract_dispatch.
    pose proof (abv_held _ _ _ _ _ Hv) as Hh. cbn in Hh.
    apply Forall2_cons_inv_l in Hh as (m & l & Hp & Hl & ->). inversion Hl. subst l.
    cbn [abs_waiting abs_held abs_delivered]. destruct m as [m|]; cbn in Hp.
    + assert (Hp0 : p <> 0).
      { destruct (abv_fresh _ _ _ _ _ Hv) as [_ Hf]. specialize (Hf p ltac:(by eexists)). lia. }
      rewrite (proj2 (Z.eqb_neq _ _) Hp0).
      apply wp_bind, wp_gets, wp_bind. eapply wp_lift; [exact Hp|].
      apply wp_bind, wp_modify, wp_ret. exists ptrs, slots.
      split_and!; [done|done|cbn; lia|by apply deliver_valid].
    + subst p. apply wp_ret. exists ptrs, slots.
      split_and!; [done|done|cbn; lia|by eapply pass_valid].
  - cbn [run_dispatch]. pose proof (abv_place _ _ _ _ _ Hv) as Hp0. cbn in Hp0.
    assert (is_Some (ab_heap b !! p)) as [m Hm].
    { apply (abv_live _ _ _ _ _ Hv). split; [done|apply list_elem_of_here]. }
    apply wp_bind. unfold os_free. rewrite (proj2 (Z.eqb_neq _ _) Hp0).
    apply wp_bind, wp_gets, wp_bind. eapply wp_lift; [exact Hm|]. apply wp_modify, wp_ret.
    exists ptrs, slots. split_and!; [done|done|cbn; lia|by apply free_valid].
  - cbn [run_dispatch]. apply wp_bind. unfold put_slot, the_buffer. apply wp_bind, wp_bind, wp_gets.
    eapply wp_lift; [exact (abv_buffer _ _ _ _ _ Hv)|]. apply wp_bind.
    destruct (abv_slot _ _ _ _ _ Hv o eq_refl) as [Ho _].
    eapply wp_lift.
    { apply set_slot_some. by rewrite (ring_size _ _ _ _ (abv_ring _ _ _ _ _ Hv)). }
    apply wp_modify, wp_ret. eexists ptrs, _.
    split_and!; [done|done|cbn; lia|by apply clear_valid].
Qed.

Lemma valid_holding b d a ptrs slots :
  ab_valid b d a ptrs slots -> holding d = false -> abs_held a = [].
Proof. intros [] H. by rewrite H in abv_held0. Qed.

Lemma run_events_spec evs b d a ptrs slots :
  ab_valid b d a ptrs slots ->
  wp (run_events evs d) (fun r b' =>
    let '(acc, ds, d') := r in
    exists ptrs' slots' copies a',
      (copies, a') = abstract_run (ab_buflength b) evs ds (w_alloc (ab_world b)) a /\
      acc = map fst copies /\ contents a' = contents a ++ map snd copies /\
      path ds d' /\ hd d' ds = d /\ ab_valid b' d' a' ptrs' slots') b.
Proof.
  revert b d a ptrs slots. induction evs as [|[msg|] evs IH]; intros b d a ptrs slots Hv;
    cbn [run_events abstract_run].
  - apply wp_ret. exists ptrs, slots, [], a. by rewrite app_nil_r.
  - apply wp_bind. eapply wp_mono; [exact (append_spec _ _ _ _ _ msg Hv)|].
    intros r b1 (ptrs1 & slots1 & El & Hr). cbv zeta in Hr.
    destruct (zlen (abs_waiting a) <? ab_buflength b); destruct Hr as (-> & Em & Hv1);
      apply wp_bind; (eapply wp_mono; [exact (IH _ _ _ _ _ Hv1)|]);
      intros [[acc ds] d'] b2 (ptrs2 & slots2 & copies & a2 & Hrun & -> & Hc & Hp & Hd & Hv2);
      apply wp_ret; rewrite El, Em in Hrun; exists ptrs2, slots2.
    + rewrite <- Hrun. eexists (_ :: copies), a2. split_and!; [done|done| |done|done|done].
      rewrite Hc. unfold contents. cbn. by rewrite <- !app_assoc.
    + exists copies, a2. by split_and!.
  - apply wp_bind. eapply wp_mono; [exact (run_dispatch_spec _ _ _ _ _ Hv)|].
    intros d1 b1 (ptrs1 & slots1 & El & Em & Hg & Hv1). apply wp_bind.
    eapply wp_mono; [exact (IH _ _ _ _ _ Hv1)|].
    intros [[acc ds] d'] b2 (ptrs2 & slots2 & copies & a2 & Hrun & -> & Hc & Hp & Hd & Hv2).
    apply wp_ret. rewrite El, Em in Hrun. exists ptrs2, slots2, copies, a2.
    split_and!; [exact Hrun|done| |by split; [rewrite Hd|]|done|done].
    rewrite Hc. f_equal. apply abstract_dispatch_contents. by eapply valid_holding.
Qed.

(** A buffer that was just created. *)
Record created (b : agent_buffer) : Prop := {
  cr_buffer : ab_buffer b = Some (replicate (Z.to_nat (ab_buflength b + 1)) 0);
  cr_enabled : ab_agt_buffer b = true;
  cr_length : 0 < ab_buflength b < 2 ^ 30;
  cr_empty : ab_i b = 0 /\ ab_j b = 0;
  cr_heap : ab_heap b = ∅ /\ 0 < ab_fresh b;
  cr_sent : ab_sent b = [];
}.

Lemma created_valid b :
  created b -> ab_valid b Idle (Abstract [] [] []) []
    (replicate (Z.to_nat (ab_buflength b + 1)) 0).
Proof.
  intros [? ? ? [Hi Hj] [Hh Hf] Hs]. constructor; rewrite ?Hi, ?Hj, ?Hh, ?Hs; try done.
  - constructor; [rewrite zlen_replicate; lia|lia|change (0 < ab_buflength b + 1); lia|by intros].
  - unfold ring_end. rewrite wrap_lt; [done|]. change (zlen []) with 0. lia.
  - apply NoDup_nil_2.
  - split; [done|]. intros p. rewrite lookup_empty. by intros [? ?].
  - intros p. rewrite lookup_empty. split; [by intros [? ?]|by intros [_ ?%not_elem_of_nil]].
  - constructor.
Qed.

(** With memory every accepted message has its copy. *)
Lemma copies_all cap evs ds memory a :
  (forall n, answer memory n = true) ->
  Forall (fun mc => snd mc = Some (fst mc)) (fst (abstract_run cap evs ds memory a)).
Proof.
  revert ds memory a. induction evs as [|[msg|] evs IH]; intros ds memory a Hm; cbn [abstract_run].
  - apply Forall_nil_2.
  - destruct (_ <? _); [|by apply IH]. unfold copy_of. unfold next. rewrite Hm.
    specialize (IH ds (advance memory) (Abstract (abs_waiting a ++ [Some msg]) (abs_held a)
      (abs_delivered a)) Hm).
    destruct (abstract_run cap evs ds (advance memory) _) as [acc a']. by apply Forall_cons_2.
  - destruct ds as [|d ds]; [apply Forall_nil_2|by apply IH].
Qed.

(** C8: while the configuration is not reloaded, the buffer loses no message that it
    has stored.  For any interleaving of the producers' appends and the single steps
    of the dispatcher, and whatever allocations fail, no access is outside the buffer
    and no message is used after it was freed.  An append is accepted (returns 0)
    exactly when fewer than [buflength] messages wait, and stores the copy that
    [strdup] made of the message, which is none when there was no memory
    ([copy_of]): the message is then lost, although it was accepted; with memory no
    message is.  What was stored is, in order and once each, what was delivered, what
    the dispatcher holds, and what waits; what was sent is what was delivered, but
    for the notices; and only the messages held, waiting or about to be freed are
    still allocated.  The dispatcher gets on: at the head of its loop it takes the
    oldest message if one waits, and from each other place it is nearer to the
    sending and to the head of the loop, at most 19 steps away. *)
Theorem buffer_loses_nothing evs b :
  created b ->
  exists acc ds d b' copies a ptrs slots, run_events evs Idle b = Some ((acc, ds, d), b') /\
    (copies, a) = abstract_run (ab_buflength b) evs ds (w_alloc (ab_world b)) (Abstract [] [] []) /\
    ab_valid b' d a ptrs slots /\ path ds d /\ acc = map fst copies /\
    map snd copies = abs_delivered a ++ abs_held a ++ abs_waiting a /\
    with_notices (ab_sent b') (omap id (abs_delivered a)) /\
    zlen (abs_waiting a) <= ab_buflength b' /\
    (alloc_ok (ab_world b) -> map snd copies = map Some acc).
Proof.
  intros Hc. pose proof (created_valid b Hc) as Hv.
  destruct (proj1 (wp_run _ _ _) (run_events_spec evs b Idle _ _ _ Hv))
    as ([[acc ds] d] & b' & Hrun & ptrs & slots & copies & a & Ha & -> & Hcon & Hp & _ & Hv').
  exists (map fst copies), ds, d, b', copies, a, ptrs, slots.
  split_and!; [done|done|done|done|done|exact (eq_sym Hcon)| | |].
  - by eapply abv_sent.
  - rewrite <- (waiting_length _ _ _ _ _ Hv').
    pose proof (ring_room _ _ _ _ (abv_ring _ _ _ _ _ Hv')). lia.
  - intros Hok. pose proof (copies_all (ab_buflength b) evs ds (w_alloc (ab_world b))
      (Abstract [] [] []) Hok) as H. rewrite <- Ha in H. cbn [fst] in H.
    rewrite map_map. clear -H. induction H as [|x l Hx _ IH]; [done|].
    cbn. by rewrite Hx, IH.
Qed.

(** * Reloading the configuration *)

Lemma copy_slots_spec old new src dst n :
  0 <= src -> 0 <= dst -> 0 <= n -> src + n <= zlen old -> dst + n <= zlen new ->
  exists new', copy_slots old new src dst n = Some new' /\ zlen new' = zlen new /\
    forall k, 0 <= k < n -> slot new' (dst + k) = slot old (src + k).
Proof.
  intros. unfold copy_slots. destruct (load_fits old src n) as [ps Hps]; [done..|].
  destruct (load_slots _ _ _ _ Hps) as [Hn Hs]. rewrite Hps. cbn.
  destruct (store_some new dst ps) as (new' & Hst & Hl); [done|lia|].
  destruct (store_slots _ _ _ _ Hst) as (_ & Hin & _). exists new'. split_and!; [done..|].
  intros k Hk. rewrite Hin, <- Hs by lia. f_equal; lia.
Qed.

Lemma grow_copy_spec old n i j cap new_cap ptrs :
  ring n j old ptrs -> i = ring_end n j (zlen ptrs) -> j <= i -> n = cap + 1 -> cap < new_cap ->
  exists new, grow_copy old (replicate (Z.to_nat (new_cap + 1)) 0) i j (zlen ptrs) cap = Some new /\
    ring (new_cap + 1) 0 new ptrs.
Proof.
  intros [Hsz Hst Hroom Hitem] Hi Hji -> Hcap. set (temp := replicate _ _).
  assert (Ht : zlen temp = new_cap + 1) by (unfold temp; rewrite zlen_replicate; lia).
  pose proof (zlen_nonneg ptrs).
  assert (Hin : i < cap + 1) by (unfold ring_end, wrap in Hi; case_match; lia).
  assert (Hij : i = j + zlen ptrs) by (unfold ring_end, wrap in Hi; case_match; lia).
  unfold grow_copy. destruct (Z.ltb_spec j i).
  - destruct (copy_slots_spec old temp j 0 (zlen ptrs)) as (new & -> & Hl & Hs); [lia..|].
    exists new. split; [done|]. constructor; [lia|lia|lia|]. intros k x Hk Hx.
    pose proof (slot_lt _ _ _ Hk Hx). rewrite wrap_lt, Hs by lia.
    rewrite <- (Hitem k x Hk Hx), wrap_lt by lia. done.
  - destruct (copy_slots_spec old temp j 0 (cap - j + 1)) as (t1 & -> & Hl1 & _); [lia..|]. cbn.
    destruct (copy_slots_spec old t1 0 (cap - j + 1) i) as (t2 & -> & Hl2 & _); [lia..|].
    exists t2. split; [done|]. constructor; [lia|lia|lia|]. intros k x Hk Hx.
    pose proof (slot_lt _ _ _ Hk Hx). lia.
Qed.

(** Growing a buffer that does not wrap around keeps every message: with the
    dispatcher idle, a reload that raises the length leaves the same messages
    waiting, in the same order, in a larger buffer. *)
Theorem reload_grow_keeps b a ptrs slots new_length w nl tol :
  ab_valid b Idle a ptrs slots -> ab_j b <= ab_i b ->
  ab_buflength b < new_length < 2 ^ 30 ->
  exists b' slots', reload true new_length w nl tol b = Some (tt, b') /\
    ab_buflength b' = new_length /\ ab_valid b' Idle a ptrs slots'.
Proof.
  intros Hv Hji Hnew.
  enough (wp (reload true new_length w nl tol) (fun _ b' => exists slots',
    ab_buflength b' = new_length /\ ab_valid b' Idle a ptrs slots') b) as H.
  { destruct (proj1 (wp_run _ _ _) H) as ([] & b' & Hrun & slots' & Hr). by exists b', slots'. }
  destruct (Hv) as []. pose proof (zlen_nonneg ptrs).
  destruct (abv_ring0) as [_ Hst Hroom _].
  destruct (grow_copy_spec slots _ _ _ (ab_buflength b) new_length ptrs abv_ring0 abv_i0 Hji
    eq_refl ltac:(lia)) as (new & Hcopy & Hring).
  unfold reload. apply wp_bind, wp_gets. cbv zeta. apply wp_bind, wp_modify.
  cbn [negb andb]. rewrite abv_enabled0. cbn [negb andb].
  unfold w_agentd_buffer_resize. apply wp_bind.
  rewrite (proj2 (Z.leb_gt _ _)), (proj2 (Z.eqb_neq _ _)) by lia.
  apply wp_bind. unfold w_agentd_get_buffer_lenght. apply wp_bind, wp_gets. cbn [ab_agt_buffer update].
  cbv zeta. apply wp_ret.
  assert (Hcount : ab_i b - ab_j b = zlen ptrs).
  { rewrite abv_i0 in *. unfold ring_end, wrap in *. case_match; lia. }
  lazymatch goal with |- wp _ _ ?s => set (b1 := s) end.
  change (ab_i b1) with (ab_i b). change (ab_j b1) with (ab_j b).
  change (ab_buflength b1) with new_length. rewrite Hcount, Z.rem_small by lia.
  destruct (Z.ltb_spec (zlen ptrs) 0); [lia|].
  destruct (Z.ltb_spec (zlen ptrs) 0); [lia|].
  destruct (Z.gtb_spec (zlen ptrs) (ab_buflength b + 1)); [lia|].
  unfold resize_locked. apply wp_bind, wp_gets, wp_bind. unfold the_buffer.
  apply wp_bind, wp_gets. eapply wp_lift; [exact abv_buffer0|]. cbv zeta.
  destruct (Z.gtb_spec new_length (ab_buflength b)); [|lia].
  apply wp_bind, wp_bind. eapply wp_lift; [exact Hcopy|]. apply wp_ret.
  apply wp_bind, wp_modify, wp_ret, wp_ret. exists new. split; [done|].
  constructor; cbn; try done; [lia|].
  unfold ring_end. by rewrite wrap_lt by lia.
Qed.

(** A buffer of capacity [cap], enabled, with the given memory. *)
Definition sample_buffer (cap : Z) : agent_buffer :=
  {| ab_i := 0; ab_j := 0; ab_state := NORMAL; ab_warn_level := 90; ab_normal_level := 70;
     ab_tolerance := 15; ab_buff_full := false; ab_buff_warn := false;
     ab_buff_flood := false; ab_buff_normal := false;
     ab_buffer := Some (replicate (Z.to_nat (cap + 1)) 0); ab_start := 0; ab_end := 0;
     ab_agt_buffer := true; ab_buflength := cap; ab_msg_count := 0; ab_heap := ∅;
     ab_fresh := 1; ab_sent := []; ab_world := sample_world 4096 (fun _ => []) |}.

Definition append_all (msgs : list bytes) : list event := map EvAppend msgs.
Definition messages (k : nat) : list bytes := map (fun n => dec (Z.of_nat n)) (seq 0 k).

(** The dispatcher's steps until it is at the head of its loop again. *)
Fixpoint cycle (fuel : nat) (d : dispatcher) : ST agent_buffer dispatcher :=
  match fuel with
  | O => mret d
  | Datatypes.S k =>
      d ← run_dispatch d; match d with Idle | Ended => mret d | _ => cycle k d end
  end.

Fixpoint cycles (n : nat) : ST agent_buffer unit :=
  match n with
  | O => mret tt
  | Datatypes.S n => _ ← cycle 20 Idle; cycles n
  end.

(** [strdup] without memory: the message is accepted and lost. *)
Theorem append_oom_loses_message :
  let b := (sample_buffer 2) <| ab_world := (ab_world (sample_buffer 2))
             <| w_alloc := always false |> |> in
  let run := r ← buffer_append (str "event"); _ ← cycle 20 Idle; mret r in
  match run b with
  | Some (r, b) => r = 0 /\ ab_sent b = [] /\ ab_i b = ab_j b
  | None => False
  end.
Proof. by vm_compute. Qed.

(** Growing a buffer whose messages wrap around breaks it: the reload stores the
    new length before it counts the messages modulo that length, so the count is
    wrong, the resize is refused, and the dispatcher runs past the end of the old
    array. *)
Theorem reload_grow_overruns :
  let prepare :=
    _ ← run_events (append_all (messages 4)) Idle;
    _ ← cycles 3;
    _ ← run_events (append_all (messages 2)) Idle;
    reload true 8 90 70 15 in
  match prepare (sample_buffer 4) with
  | Some (_, b) => ab_buflength b = 8 /\ (length <$> ab_buffer b) = Some 5%nat
  | None => False
  end /\
  (_ ← prepare; cycles 3) (sample_buffer 4) = None.
Proof. intros prepare. split; by vm_compute. Qed.

(** A message can be freed while it is being sent: the dispatcher holds the only
    message, without the lock, when a reload shrinks the buffer; its slot still
    points to it, so the shrinking frees it, and the dispatcher then uses it. *)
Theorem shrink_frees_held_message :
  let hold := _ ← buffer_append (str "event");
              d ← run_dispatch Idle;
              _ ← reload true 2 90 70 15; mret d in
  match hold (sample_buffer 4) with
  | Some (d, b) => d = Testing NWarn 1 0 /\ map_to_list (ab_heap b) = []
  | None => False
  end /\
  (d ← hold; cycle 20 d) (sample_buffer 4) = None.
Proof. intros hold. split; by vm_compute. Qed.

(** Shrinking to the same effect: of five messages that wrap around, none is kept
    by a shrink to four. *)
Theorem reload_shrink_loses_all :
  match (_ ← run_events (append_all (messages 9)) Idle;
         _ ← cycles 6;
         _ ← run_events (append_all (messages 2)) Idle;
         reload true 4 90 70 15) (sample_buffer 9) with
  | Some (_, b) => ab_i b = 0 /\ ab_j b = 0 /\ map_to_list (ab_heap b) = [] /\ length (ab_sent b) = 6%nat
  | None => False
  end.
Proof. by vm_compute. Qed.

(** * Concrete runs *)

(** Four messages, one of which finds no memory, in a buffer of two, with the
    dispatcher's steps in between. *)
Example buffer_loses_nothing_witness :
  let evs := append_all (messages 2) ++ replicate 5 EvDispatch ++ append_all (messages 2) ++
    replicate 6 EvDispatch in
  let b := (sample_buffer 2) <| ab_world := (ab_world (sample_buffer 2))
             <| w_alloc := Oracle (fun n => negb (n =? 1)%nat) 0%nat |> |> in
  exists acc ds d b' copies a ptrs slots, run_events evs Idle b = Some ((acc, ds, d), b') /\
    (copies, a) = abstract_run (ab_buflength b) evs ds (w_alloc (ab_world b)) (Abstract [] [] []) /\
    ab_valid b' d a ptrs slots /\ path ds d /\ acc = map fst copies /\
    map snd copies = abs_delivered a ++ abs_held a ++ abs_waiting a /\
    with_notices (ab_sent b') (omap id (abs_delivered a)) /\
    zlen (abs_waiting a) <= ab_buflength b' /\
    (alloc_ok (ab_world b) -> map snd copies = map Some acc).
Proof.
  intros evs b. apply (buffer_loses_nothing evs b).
  constructor; [done|done|cbn; lia|done|done|done].
Defined.

Example reload_grow_keeps_witness :
  let b := (sample_buffer 2) <| ab_i := 1 |> <| ab_buffer := Some [1; 0; 0] |>
    <| ab_heap := {[1 := [7]]} |> <| ab_fresh := 2 |> in
  exists b' slots', reload true 5 90 70 15 b = Some (tt, b') /\
    ab_buflength b' = 5 /\ ab_valid b' Idle (Abstract [Some [7]] [] []) [1] slots'.
Proof.
  intros b. apply (reload_grow_keeps b (Abstract [Some [7]] [] []) [1] [1; 0; 0]);
    [|cbn; lia|cbn; lia].
  constructor; cbn; try done.
  - constructor; [done|lia|change (1 < 3); lia|]. intros k x Hk Hx.
    pose proof (slot_lt _ _ _ Hk Hx) as Hlt. change (zlen [1]) with 1 in Hlt.
    by assert (k = 0) as -> by lia.
  - by repeat constructor.
  - apply NoDup_singleton.
  - split; [lia|]. intros p. rewrite lookup_singleton_is_Some. intros <-. lia.
  - intros p. rewrite lookup_singleton_is_Some, list_elem_of_singleton. unfold not_null.
    split; [intros <-; by split|by intros [_ ->]].
  - constructor.
Defined.
