(* ===== verification/RbTree.v ===== *)
(** The red-black tree of the agent (agents/shared/rbtree_op.c): a binary search
    tree of nodes linked by pointers to their parents and children, modelled on a
    heap of nodes; its operations implement a finite map, keep the tree balanced,
    and neither lose nor leak a node or a key. *)
From stdpp Require Import gmap sorting.
From S2P Require Import Prelude.
#[local] Open Scope Z_scope.

(** * State *)

Inductive rb_color := RB_RED | RB_BLACK.
#[export] Instance rb_color_eq_dec : EqDecision rb_color.
Proof. solve_decision. Defined.

(** [strcmp] on strings without their terminators; only its sign is specified. *)
Fixpoint strcmp (a b : bytes) : Z :=
  match a, b with
  | [], [] => 0
  | [], _ :: _ => -1
  | _ :: _, [] => 1
  | x :: a, y :: b => if x =? y then strcmp a b else if x <? y then -1 else 1
  end.

(** A pointer to a node is its address; [None] is a null pointer, also for the
    [void *] of a value. *)
Record rb_node (V : Type) := RbNode {
  rb_key : bytes;
  rb_value : option V;
  rb_color_of : rb_color;
  rb_parent : option nat;
  rb_left : option nat;
  rb_right : option nat;
}.
Arguments RbNode {V} _ _ _ _ _ _.
Arguments rb_key {V} _.
Arguments rb_value {V} _.
Arguments rb_color_of {V} _.
Arguments rb_parent {V} _.
Arguments rb_left {V} _.
Arguments rb_right {V} _.
#[export] Instance eta_rb_node V : Eta (rb_node V) := fun n =>
  RbNode (rb_key n) (rb_value n) (rb_color_of n) (rb_parent n) (rb_left n) (rb_right n).

(** A tree with the nodes allocated for it.  [rb_env] is the memory of the program
    that uses the tree, on which the function to dispose of an element acts;
    [rb_strings] counts the copies of keys that are allocated. *)
Record rb_tree (V E : Type) := RbTree {
  rb_root : option nat;
  rb_dispose : option (V -> ST E unit);
  rb_heap : gmap nat (rb_node V);
  rb_fresh : nat;
  rb_strings : Z;
  rb_env : E;
}.
Arguments RbTree {V E} _ _ _ _ _ _.
Arguments rb_root {V E} _.
Arguments rb_dispose {V E} _.
Arguments rb_heap {V E} _.
Arguments rb_fresh {V E} _.
Arguments rb_strings {V E} _.
Arguments rb_env {V E} _.
#[export] Instance eta_rb_tree V E : Eta (rb_tree V E) := fun t =>
  RbTree (rb_root t) (rb_dispose t) (rb_heap t) (rb_fresh t) (rb_strings t) (rb_env t).

Section operations.
Context {V E : Type}.
Notation RB := (ST (rb_tree V E)).

(** Reading and writing a node; a null or freed pointer is undefined behaviour. *)
Definition rb_at (p : nat) : RB (rb_node V) :=
  n ← gets (fun t => rb_heap t !! p); lift n.
Definition rb_set (p : nat) (f : rb_node V -> rb_node V) : RB unit :=
  _ ← rb_at p; modify (fun t => t <| rb_heap := alter f p (rb_heap t) |>).
Definition set_color (p : nat) (c : rb_color) : RB unit :=
  rb_set p (fun n => n <| rb_color_of := c |>).
Definition set_root (p : option nat) : RB unit := modify (fun t => t <| rb_root := p |>).

(** Whether a node is red; a null node is black. *)
Definition is_red (p : option nat) : RB bool :=
  match p with
  | Some p => n ← rb_at p; mret (bool_decide (rb_color_of n = RB_RED))
  | None => mret false
  end.

(** No walk down or up the tree meets more nodes than are allocated. *)
Definition walk_bound : RB nat := gets (fun t => Datatypes.S (size (rb_heap t))).

(** The function to dispose of an element runs in the memory of the caller. *)
Definition in_env {A} (m : ST E A) : RB A := fun t =>
  match m (rb_env t) with Some (a, e) => Some (a, t <| rb_env := e |>) | None => None end.

Definition call_dispose (value : option V) : RB unit :=
  dispose ← gets rb_dispose;
  match dispose, value with
  | Some dispose, Some v => in_env (dispose v)
  | _, _ => mret tt
  end.

Definition free_key : RB unit := modify (fun t => t <| rb_strings := rb_strings t - 1 |>).
Definition free_node (p : nat) : RB unit :=
  _ ← rb_at p; modify (fun t => t <| rb_heap := delete p (rb_heap t) |>).

(** * Private functions *)

Definition rb_init (key : bytes) (value : option V) : RB nat :=
  node ← gets rb_fresh;
  _ ← modify (fun t =>
        t <| rb_heap := <[node := RbNode key value RB_RED None None None]> (rb_heap t) |>
          <| rb_fresh := Datatypes.S node |>
          <| rb_strings := rb_strings t + 1 |>);
  mret node.

Fixpoint rb_destroy (fuel : nat) (node : nat) (dispose : bool) : RB unit :=
  match fuel with
  | O => ub
  | Datatypes.S fuel =>
      n ← rb_at node;
      _ ← match rb_left n with Some l => rb_destroy fuel l dispose | None => mret tt end;
      _ ← match rb_right n with Some r => rb_destroy fuel r dispose | None => mret tt end;
      _ ← free_key;
      _ ← (if dispose then call_dispose (rb_value n) else mret tt);
      free_node node
  end.

Definition rb_get (fuel : nat) (node : option nat) (key : bytes) : RB (option nat) :=
  loop fuel (fun node =>
    match node with
    | None => mret (inr None)
    | Some p =>
        n ← rb_at p;
        let cmp := strcmp key (rb_key n) in
        if cmp =? 0 then mret (inr (Some p)) else
        mret (inl (if cmp <? 0 then rb_left n else rb_right n))
    end) node.

Definition rb_min (node : nat) : RB nat :=
  fuel ← walk_bound;
  loop fuel (fun t => n ← rb_at t;
    mret (match rb_left n with Some l => inl l | None => inr t end)) node.

Definition rb_max (node : nat) : RB nat :=
  fuel ← walk_bound;
  loop fuel (fun t => n ← rb_at t;
    mret (match rb_right n with Some r => inl r | None => inr t end)) node.

Definition rb_uncle (node : nat) : RB (option nat) :=
  n ← rb_at node;
  match rb_parent n with
  | None => mret None
  | Some parent =>
      pn ← rb_at parent;
      match rb_parent pn with
      | None => mret None
      | Some gp =>
          g ← rb_at gp;
          mret (if bool_decide (Some parent = rb_left g) then rb_right g else rb_left g)
      end
  end.

(** Make [t] the child of [parent] that [node] was, or the root. *)
Definition replace_child (parent : option nat) (node : nat) (t : option nat) : RB unit :=
  match parent with
  | None => set_root t
  | Some p =>
      pn ← rb_at p;
      if bool_decide (Some node = rb_left pn)
      then rb_set p (fun n => n <| rb_left := t |>)
      else rb_set p (fun n => n <| rb_right := t |>)
  end.

Definition rb_rotate_left (node : nat) : RB unit :=
  n ← rb_at node;
  t ← lift (rb_right n);
  _ ← replace_child (rb_parent n) node (Some t);
  tn ← rb_at t;
  _ ← match rb_left tn with
      | Some l => rb_set l (fun n => n <| rb_parent := Some node |>)
      | None => mret tt
      end;
  tn ← rb_at t;
  _ ← rb_set node (fun n => n <| rb_right := rb_left tn |>);
  _ ← rb_set t (fun n => n <| rb_left := Some node |>);
  n ← rb_at node;
  _ ← rb_set t (fun m => m <| rb_parent := rb_parent n |>);
  rb_set node (fun n => n <| rb_parent := Some t |>).

Definition rb_rotate_right (node : nat) : RB unit :=
  n ← rb_at node;
  t ← lift (rb_left n);
  _ ← replace_child (rb_parent n) node (Some t);
  tn ← rb_at t;
  _ ← match rb_right tn with
      | Some r => rb_set r (fun n => n <| rb_parent := Some node |>)
      | None => mret tt
      end;
  tn ← rb_at t;
  _ ← rb_set node (fun n => n <| rb_left := rb_right tn |>);
  _ ← rb_set t (fun n => n <| rb_right := Some node |>);
  n ← rb_at node;
  _ ← rb_set t (fun m => m <| rb_parent := rb_parent n |>);
  rb_set node (fun n => n <| rb_parent := Some t |>).

Definition parent_of (p : nat) : RB nat := n ← rb_at p; lift (rb_parent n).
Definition grandparent (p : nat) : RB nat := parent ← parent_of p; parent_of parent.

(** The cases of the loop of [rb_balance_insert]: a red uncle; a parent that is a left
    child; a parent that is a right child. *)
Definition insert_recolor (node parent uncle : nat) : RB nat :=
  _ ← set_color parent RB_BLACK;
  _ ← set_color uncle RB_BLACK;
  gp ← grandparent node;
  _ ← set_color gp RB_RED;
  mret gp.

Definition insert_rotate_right (node parent : nat) : RB nat :=
  pn ← rb_at parent;
  node ← (if bool_decide (Some node = rb_right pn)
          then _ ← rb_rotate_left parent; mret parent else mret node);
  parent ← parent_of node;
  _ ← set_color parent RB_BLACK;
  gp ← grandparent node;
  _ ← set_color gp RB_RED;
  _ ← rb_rotate_right gp;
  mret node.

Definition insert_rotate_left (node parent : nat) : RB nat :=
  pn ← rb_at parent;
  node ← (if bool_decide (Some node = rb_left pn)
          then _ ← rb_rotate_right parent; mret parent else mret node);
  parent ← parent_of node;
  _ ← set_color parent RB_BLACK;
  gp ← grandparent node;
  _ ← set_color gp RB_RED;
  _ ← rb_rotate_left gp;
  mret node.

Definition balance_insert_round (node : nat) : RB (nat + unit) :=
  n ← rb_at node;
  red ← is_red (rb_parent n);
  if negb red then mret (inr tt) else
  parent ← parent_of node;
  uncle ← rb_uncle node;
  uncle_red ← is_red uncle;
  node ← (if uncle_red : bool then uncle ← lift uncle; insert_recolor node parent uncle else
          gp ← grandparent node;
          g ← rb_at gp;
          if bool_decide (Some parent = rb_left g)
          then insert_rotate_right node parent
          else insert_rotate_left node parent);
  mret (inl node).

Definition rb_balance_insert (node : nat) : RB unit :=
  fuel ← walk_bound;
  _ ← loop fuel balance_insert_round node;
  root ← gets rb_root;
  root ← lift root;
  set_color root RB_BLACK.

(** The loop of [rb_balance_delete].  An assertion that fails ends the process; here it
    is undefined behaviour. *)

(** The removed node was a left child of [parent]: the sibling made black (case 1), and
    the rotations of cases 3 and 4. *)
Definition left_black_sibling (parent : nat) : RB nat :=
  pn ← rb_at parent;
  sibling ← lift (rb_right pn);
  red ← is_red (Some sibling);
  if red : bool then
    _ ← set_color sibling RB_BLACK;
    _ ← set_color parent RB_RED;
    _ ← rb_rotate_left parent;
    pn ← rb_at parent; lift (rb_right pn)
  else mret sibling.

Definition left_near_nephew (parent sibling : nat) : RB nat :=
  sn ← rb_at sibling;
  right_red ← is_red (rb_right sn);
  if negb right_red then
    nephew ← lift (rb_left sn);
    _ ← set_color nephew RB_BLACK;
    _ ← set_color sibling RB_RED;
    _ ← rb_rotate_right sibling;
    pn ← rb_at parent; lift (rb_right pn)
  else mret sibling.

Definition left_far_nephew (parent sibling : nat) : RB unit :=
  sn ← rb_at sibling;
  nephew ← lift (rb_right sn);
  pn ← rb_at parent;
  _ ← set_color sibling (rb_color_of pn);
  _ ← set_color parent RB_BLACK;
  _ ← set_color nephew RB_BLACK;
  rb_rotate_left parent.

(** The removed node was a right child of [parent]: the sibling made black (case 1b), and
    the rotations of cases 3b and 4b. *)
Definition right_black_sibling (parent : nat) : RB nat :=
  pn ← rb_at parent;
  sibling ← lift (rb_left pn);
  red ← is_red (Some sibling);
  if red : bool then
    _ ← set_color sibling RB_BLACK;
    _ ← set_color parent RB_RED;
    _ ← rb_rotate_right parent;
    pn ← rb_at parent; lift (rb_left pn)
  else mret sibling.

Definition right_near_nephew (parent sibling : nat) : RB nat :=
  sn ← rb_at sibling;
  left_red ← is_red (rb_left sn);
  if negb left_red then
    nephew ← lift (rb_right sn);
    _ ← set_color nephew RB_BLACK;
    _ ← set_color sibling RB_RED;
    _ ← rb_rotate_left sibling;
    pn ← rb_at parent; lift (rb_left pn)
  else mret sibling.

Definition right_far_nephew (parent sibling : nat) : RB unit :=
  sn ← rb_at sibling;
  nephew ← lift (rb_left sn);
  pn ← rb_at parent;
  _ ← set_color sibling (rb_color_of pn);
  _ ← set_color parent RB_BLACK;
  _ ← set_color nephew RB_BLACK;
  rb_rotate_right parent.

(** Case 2, or cases 3 and 4. *)
Definition black_nephews (sibling : nat) : RB bool :=
  sn ← rb_at sibling;
  left_red ← is_red (rb_left sn);
  right_red ← is_red (rb_right sn);
  mret (bool_decide (rb_color_of sn = RB_BLACK) && negb left_red && negb right_red).

Definition delete_recolor (parent sibling : nat) : RB (option nat * option nat) :=
  _ ← set_color sibling RB_RED;
  pn ← rb_at parent;
  mret (Some parent, rb_parent pn).

Definition balance_delete_round (np : option nat * option nat)
    : RB (option nat * option nat + option nat) :=
  let '(node, parent) := np in
  match parent with
  | None => mret (inr node)
  | Some parent =>
      red ← is_red node;
      if red : bool then mret (inr node) else
      pn ← rb_at parent;
      if bool_decide (node = rb_left pn) then
        sibling ← left_black_sibling parent;
        black ← black_nephews sibling;
        if black : bool then np ← delete_recolor parent sibling; mret (inl np)
        else sibling ← left_near_nephew parent sibling;
             _ ← left_far_nephew parent sibling; mret (inr node)
      else
        sibling ← right_black_sibling parent;
        black ← black_nephews sibling;
        if black : bool then np ← delete_recolor parent sibling; mret (inl np)
        else sibling ← right_near_nephew parent sibling;
             _ ← right_far_nephew parent sibling; mret (inr node)
  end.

Definition rb_balance_delete (node parent : option nat) : RB unit :=
  fuel ← walk_bound;
  node ← loop fuel balance_delete_round (node, parent);
  match node with
  | Some p => set_color p RB_BLACK
  | None => mret tt
  end.

(** [array] holds the keys found so far and [size] counts them. *)
Fixpoint rb_keys (fuel : nat) (node : nat) (array : list bytes) : RB (list bytes) :=
  match fuel with
  | O => ub
  | Datatypes.S fuel =>
      n ← rb_at node;
      array ← match rb_left n with Some l => rb_keys fuel l array | None => mret array end;
      let array := array ++ [rb_key n] in
      match rb_right n with Some r => rb_keys fuel r array | None => mret array end
  end.

Fixpoint rb_range (fuel : nat) (node : nat) (min max : bytes) (array : list bytes)
    : RB (list bytes) :=
  match fuel with
  | O => ub
  | Datatypes.S fuel =>
      n ← rb_at node;
      let cmp_min := strcmp (rb_key n) min in
      let cmp_max := strcmp (rb_key n) max in
      array ← match rb_left n with
              | Some l => if cmp_min >? 0 then rb_range fuel l min max array else mret array
              | None => mret array
              end;
      let array := if (cmp_min >=? 0) && (cmp_max <=? 0) then array ++ [rb_key n] else array in
      match rb_right n with
      | Some r => if cmp_max <? 0 then rb_range fuel r min max array else mret array
      | None => mret array
      end
  end.

Fixpoint rb_black_depth (fuel : nat) (node : option nat) : RB Z :=
  match fuel with
  | O => ub
  | Datatypes.S fuel =>
      match node with
      | None => mret 1
      | Some p =>
          n ← rb_at p;
          d_left ← rb_black_depth fuel (rb_left n);
          d_right ← rb_black_depth fuel (rb_right n);
          if negb (d_left =? d_right) then mret (-1) else
          mret (d_left + (if decide (rb_color_of n = RB_BLACK) then 1 else 0))
      end
  end.

Fixpoint rb_size (fuel : nat) (node : nat) : RB Z :=
  match fuel with
  | O => ub
  | Datatypes.S fuel =>
      n ← rb_at node;
      l ← match rb_left n with Some l => rb_size fuel l | None => mret 0 end;
      r ← match rb_right n with Some r => rb_size fuel r | None => mret 0 end;
      mret (u32 (u32 (l + 1) + r))
  end.

(** * Public functions *)

Definition rbtree_init (env : E) : rb_tree V E := RbTree None None ∅ 0 0 env.

Definition rbtree_destroy : RB unit :=
  root ← gets rb_root;
  fuel ← walk_bound;
  match root with Some root => rb_destroy fuel root true | None => mret tt end.

Definition rbtree_set_dispose (dispose : option (V -> ST E unit)) : RB unit :=
  modify (fun t => t <| rb_dispose := dispose |>).

(** The loop of [rbtree_insert]: the parent of the new node with the last
    comparison, or [None] for a key that is in the tree. *)
Definition find_parent (key : bytes) : RB (option (option nat * Z)) :=
  root ← gets rb_root;
  fuel ← walk_bound;
  loop fuel (fun '(parent, cmp, t) =>
    match t with
    | None => mret (inr (Some (parent, cmp)))
    | Some p =>
        n ← rb_at p;
        let cmp := strcmp key (rb_key n) in
        if cmp =? 0 then mret (inr None) else
        mret (inl (Some p, cmp, if cmp <? 0 then rb_left n else rb_right n))
    end) (None, 0, root).

Definition rbtree_insert (key : bytes) (value : option V) : RB (option nat) :=
  node ← rb_init key value;
  place ← find_parent key;
  match place with
  | None => _ ← rb_destroy 1 node false; mret None
  | Some (parent, cmp) =>
      _ ← match parent with
          | None => set_root (Some node)
          | Some p =>
              if cmp <? 0 then rb_set p (fun n => n <| rb_left := Some node |>)
              else rb_set p (fun n => n <| rb_right := Some node |>)
          end;
      _ ← rb_set node (fun n => n <| rb_parent := parent |>);
      _ ← rb_balance_insert node;
      mret (Some node)
  end.

Definition rb_find (key : bytes) : RB (option nat) :=
  root ← gets rb_root; fuel ← walk_bound; rb_get fuel root key.

Definition rbtree_replace (key : bytes) (value : option V) : RB (option V) :=
  node ← rb_find key;
  match node with
  | None => mret None
  | Some p =>
      n ← rb_at p;
      _ ← call_dispose (rb_value n);
      _ ← rb_set p (fun n => n <| rb_value := value |>);
      mret value
  end.

Definition rbtree_get (key : bytes) : RB (option V) :=
  node ← rb_find key;
  match node with
  | Some p => n ← rb_at p; mret (rb_value n)
  | None => mret None
  end.

(** [rbtree_delete] in three parts: the node [s] that goes, its links and the contents
    of [node], the balance. *)
Definition finish_delete (s : nat) (t : option nat) : RB Z :=
  sn ← rb_at s;
  _ ← (if decide (rb_color_of sn = RB_BLACK) then rb_balance_delete t (rb_parent sn)
       else mret tt);
  _ ← free_node s;
  mret 1.

Definition take_out (node s : nat) : RB Z :=
  sn ← rb_at s;
  let t := match rb_left sn with Some l => Some l | None => rb_right sn end in
  _ ← replace_child (rb_parent sn) s t;
  _ ← match t with
      | Some t => rb_set t (fun n => n <| rb_parent := rb_parent sn |>)
      | None => mret tt
      end;
  _ ← free_key;
  n ← rb_at node;
  _ ← call_dispose (rb_value n);
  _ ← (if bool_decide (node = s) then mret tt else
       sn ← rb_at s;
       rb_set node (fun n => n <| rb_key := rb_key sn |> <| rb_value := rb_value sn |>));
  finish_delete s t.

Definition rbtree_delete (key : bytes) : RB Z :=
  node ← rb_find key;
  match node with
  | None => mret 0
  | Some node =>
      n ← rb_at node;
      s ← match rb_left n, rb_right n with
          | Some _, Some r => rb_min r
          | _, _ => mret node
          end;
      take_out node s
  end.

Definition rbtree_minimum : RB (option bytes) :=
  root ← gets rb_root;
  match root with
  | Some root => p ← rb_min root; n ← rb_at p; mret (Some (rb_key n))
  | None => mret None
  end.

Definition rbtree_maximum : RB (option bytes) :=
  root ← gets rb_root;
  match root with
  | Some root => p ← rb_max root; n ← rb_at p; mret (Some (rb_key n))
  | None => mret None
  end.

Definition rbtree_keys : RB (list bytes) :=
  root ← gets rb_root; fuel ← walk_bound;
  match root with Some root => rb_keys fuel root [] | None => mret [] end.

Definition rbtree_range (min max : bytes) : RB (list bytes) :=
  root ← gets rb_root; fuel ← walk_bound;
  match root with Some root => rb_range fuel root min max [] | None => mret [] end.

Definition rbtree_black_depth : RB Z :=
  root ← gets rb_root; fuel ← walk_bound;
  match root with
  | None => mret 0
  | Some root =>
      n ← rb_at root;
      if decide (rb_color_of n = RB_RED) then mret (-1) else
      d_left ← rb_black_depth fuel (rb_left n);
      d_right ← rb_black_depth fuel (rb_right n);
      mret (if (d_left =? -1) || (d_right =? -1) || negb (d_left =? d_right) then -1 else d_left)
  end.

Definition rbtree_size : RB Z :=
  root ← gets rb_root; fuel ← walk_bound;
  match root with Some root => rb_size fuel root | None => mret 0 end.

Definition rbtree_empty : RB Z :=
  root ← gets rb_root; mret (match root with None => 1 | Some _ => 0 end).
End operations.

(** * Trees on the heap *)

Inductive tree (V : Type) :=
  | Leaf
  | Node (p : nat) (c : rb_color) (k : bytes) (v : option V) (l r : tree V).
Arguments Leaf {V}.
Arguments Node {V} _ _ _ _ _ _.

(** A node on the way down to a subtree: whether the way goes [to_left], and the
    subtree on the other side. *)
Record frame (V : Type) := Frame {
  fr_left : bool;
  fr_p : nat;
  fr_c : rb_color;
  fr_k : bytes;
  fr_v : option V;
  fr_sib : tree V;
}.
Arguments Frame {V} _ _ _ _ _ _.
Arguments fr_left {V} _.
Arguments fr_p {V} _.
Arguments fr_c {V} _.
Arguments fr_k {V} _.
Arguments fr_v {V} _.
Arguments fr_sib {V} _.

Section shapes.
Context {V : Type}.
Implicit Types (t l r : tree V) (ctx : list (frame V)).

Definition ptr t : option nat := match t with Leaf => None | Node p _ _ _ _ _ => Some p end.
Definition color t : rb_color := match t with Leaf => RB_BLACK | Node _ c _ _ _ _ => c end.
Definition up ctx : option nat := fr_p <$> head ctx.

Definition fill (f : frame V) t : tree V :=
  if fr_left f then Node (fr_p f) (fr_c f) (fr_k f) (fr_v f) t (fr_sib f)
  else Node (fr_p f) (fr_c f) (fr_k f) (fr_v f) (fr_sib f) t.

(** The tree with [t] at the place that [ctx] leads to, innermost node first. *)
Fixpoint plug ctx t : tree V :=
  match ctx with [] => t | f :: ctx => plug ctx (fill f t) end.

Fixpoint cells (parent : option nat) t : list (nat * rb_node V) :=
  match t with
  | Leaf => []
  | Node p c k v l r =>
      (p, RbNode k v c parent (ptr l) (ptr r)) :: cells (Some p) l ++ cells (Some p) r
  end.

Definition frame_cell (f : frame V) (parent child : option nat) : rb_node V :=
  if fr_left f then RbNode (fr_k f) (fr_v f) (fr_c f) parent child (ptr (fr_sib f))
  else RbNode (fr_k f) (fr_v f) (fr_c f) parent (ptr (fr_sib f)) child.

(** The nodes outside the subtree, whose root is [child]. *)
Fixpoint around ctx (child : option nat) : list (nat * rb_node V) :=
  match ctx with
  | [] => []
  | f :: ctx => (fr_p f, frame_cell f (up ctx) child) ::
                cells (Some (fr_p f)) (fr_sib f) ++ around ctx (Some (fr_p f))
  end.

Fixpoint addrs t : list nat :=
  match t with Leaf => [] | Node p _ _ _ l r => p :: addrs l ++ addrs r end.
Fixpoint around_addrs ctx : list nat :=
  match ctx with
  | [] => []
  | f :: ctx => fr_p f :: addrs (fr_sib f) ++ around_addrs ctx
  end.

Fixpoint root_of ctx (child : option nat) : option nat :=
  match ctx with [] => child | f :: ctx => root_of ctx (Some (fr_p f)) end.

Fixpoint inorder t : list (bytes * option V) :=
  match t with Leaf => [] | Node _ _ k v l r => inorder l ++ (k, v) :: inorder r end.
Fixpoint before ctx : list (bytes * option V) :=
  match ctx with
  | [] => []
  | f :: ctx => before ctx ++ (if fr_left f then [] else inorder (fr_sib f) ++ [(fr_k f, fr_v f)])
  end.
Fixpoint after ctx : list (bytes * option V) :=
  match ctx with
  | [] => []
  | f :: ctx => (if fr_left f then (fr_k f, fr_v f) :: inorder (fr_sib f) else []) ++ after ctx
  end.

Lemma cells_addrs parent t : fst <$> cells parent t = addrs t.
Proof.
  revert parent. induction t as [|p c k v l IHl r IHr]; intros parent; [done|].
  cbn. by rewrite fmap_app, IHl, IHr.
Qed.

Lemma around_addrs_eq ctx child : fst <$> around ctx child = around_addrs ctx.
Proof.
  revert child. induction ctx as [|f ctx IH]; intros child; [done|].
  cbn. by rewrite fmap_app, cells_addrs, IH.
Qed.

Lemma cells_plug ctx t : cells None (plug ctx t) ≡ₚ cells (up ctx) t ++ around ctx (ptr t).
Proof.
  revert t. induction ctx as [|f ctx IH]; intros t; cbn [plug around].
  { by rewrite app_nil_r. }
  rewrite IH. unfold fill, frame_cell. destruct f as [d p c k v sib]; cbn [fr_left fr_p fr_c fr_k fr_v fr_sib].
  destruct d; cbn [cells ptr up head app]; change (up (_ :: ctx)) with (Some p);
    rewrite <- ?app_assoc.
  - apply Permutation_middle.
  - rewrite <- Permutation_middle. constructor.
    by rewrite !app_assoc, (Permutation_app_comm (cells _ sib)).
Qed.

Lemma addrs_plug ctx t : addrs (plug ctx t) ≡ₚ addrs t ++ around_addrs ctx.
Proof.
  rewrite <- (cells_addrs None), cells_plug, fmap_app, cells_addrs, around_addrs_eq. done.
Qed.

Lemma ptr_plug ctx t : ptr (plug ctx t) = root_of ctx (ptr t).
Proof.
  revert t. induction ctx as [|f ctx IH]; intros t; [done|]. cbn [plug root_of].
  rewrite IH. unfold fill. by destruct (fr_left f).
Qed.

Lemma inorder_plug ctx t : inorder (plug ctx t) = before ctx ++ inorder t ++ after ctx.
Proof.
  revert t. induction ctx as [|f ctx IH]; intros t; cbn [plug before after].
  { by rewrite app_nil_r. }
  rewrite IH. unfold fill. destruct (fr_left f); cbn [inorder];
    rewrite <- ?app_assoc; cbn [app]; by rewrite <- ?app_assoc, ?app_nil_r.
Qed.
End shapes.

(** Normalise a concatenation of traversals. *)
Ltac rewrite_app := repeat (rewrite <- app_assoc; cbn [app]).

(** * The heap of a tree *)

Section rep.
Context {V E : Type}.
Implicit Types (t l r : tree V) (ctx : list (frame V)) (s : rb_tree V E)
  (h : gmap nat (rb_node V)).

(** What a tree operation leaves alone but for disposing, copying and freeing. *)
Definition others s := (rb_dispose s, rb_fresh s, rb_strings s, rb_env s).

(** The state with another root and heap. *)
Definition on s (root : option nat) h : rb_tree V E :=
  RbTree root (rb_dispose s) h (rb_fresh s) (rb_strings s) (rb_env s).

Lemma on_id s : s = on s (rb_root s) (rb_heap s).
Proof. by destruct s. Qed.

(** The tree in [s] is [t]; [spare] are the allocated nodes that are not in it. *)
Record Rep (spare : gmap nat (rb_node V)) t s : Prop := {
  rep_root : rb_root s = ptr t;
  rep_cells : forall p n, (p, n) ∈ cells None t -> rb_heap s !! p = Some n;
  rep_nodup : NoDup (addrs t);
  rep_spare : forall p, p ∉ addrs t -> rb_heap s !! p = spare !! p;
  rep_apart : forall p, p ∈ addrs t -> spare !! p = None;
  rep_fresh : forall p, p ∈ addrs t -> (p < rb_fresh s)%nat;
}.

Lemma elem_of_cells parent t p n : (p, n) ∈ cells parent t -> p ∈ addrs t.
Proof.
  intros H. rewrite <- (cells_addrs parent). apply list_elem_of_fmap. by exists (p, n).
Qed.

Lemma elem_of_around ctx child p n : (p, n) ∈ around ctx child -> p ∈ around_addrs ctx.
Proof.
  intros H. rewrite <- (around_addrs_eq ctx child). apply list_elem_of_fmap. by exists (p, n).
Qed.

Lemma rep_at spare ctx t s p n :
  Rep spare (plug ctx t) s -> (p, n) ∈ cells (up ctx) t \/ (p, n) ∈ around ctx (ptr t) ->
  rb_heap s !! p = Some n.
Proof. intros H Hp. eapply rep_cells; [exact H|]. by rewrite cells_plug, elem_of_app. Qed.

Lemma rep_node spare ctx p c k v l r s :
  Rep spare (plug ctx (Node p c k v l r)) s ->
  rb_heap s !! p = Some (RbNode k v c (up ctx) (ptr l) (ptr r)).
Proof. intros H. eapply rep_at; [exact H|]. left. apply list_elem_of_here. Qed.

Lemma rep_distinct spare ctx t s :
  Rep spare (plug ctx t) s -> NoDup (addrs t ++ around_addrs ctx).
Proof. intros []. by rewrite <- addrs_plug. Qed.

(** A change of the nodes of a subtree, and of the link that leads to it. *)
Lemma rep_change spare ctx t t' s h :
  Rep spare (plug ctx t) s ->
  addrs t' ≡ₚ addrs t ->
  (forall p n, (p, n) ∈ cells (up ctx) t' -> h !! p = Some n) ->
  (forall p n, (p, n) ∈ around ctx (ptr t') -> h !! p = Some n) ->
  (forall p, p ∉ addrs t -> p ∉ around_addrs ctx -> h !! p = rb_heap s !! p) ->
  Rep spare (plug ctx t') (on s (root_of ctx (ptr t')) h).
Proof.
  intros [Hr Hc Hn Hs Hapart Hfresh] Ha Hcells Haround Hrest.
  assert (Hp : addrs (plug ctx t') ≡ₚ addrs (plug ctx t)) by (by rewrite !addrs_plug, Ha).
  constructor; cbn [rb_root rb_heap on].
  - by rewrite ptr_plug.
  - intros p n. rewrite cells_plug, elem_of_app. intros []; auto.
  - by rewrite Hp.
  - intros p. rewrite Hp. intros Hno. pose proof Hno as Hno'.
    rewrite addrs_plug, elem_of_app in Hno'. rewrite Hrest by tauto. by apply Hs.
  - intros p. rewrite Hp. apply Hapart.
  - intros p. rewrite Hp. apply Hfresh.
Qed.

Lemma wp_rb_at p n (Q : rb_node V -> rb_tree V E -> Prop) s :
  rb_heap s !! p = Some n -> Q n s -> wp (rb_at p) Q s.
Proof. intros H HQ. apply wp_bind, wp_gets. by eapply wp_lift. Qed.

Lemma wp_rb_set p f n (Q : unit -> rb_tree V E -> Prop) s root h :
  h !! p = Some n -> Q tt (on s root (alter f p h)) -> wp (rb_set p f) Q (on s root h).
Proof. intros H HQ. apply wp_bind. eapply wp_rb_at; [exact H|]. by apply wp_modify. Qed.

(** A change of the contents of one node of the tree. *)
Lemma rep_set_node spare ctx p c k v l r c' k' v' s f (Q : unit -> rb_tree V E -> Prop) :
  Rep spare (plug ctx (Node p c k v l r)) s ->
  (forall par lp rp, f (RbNode k v c par lp rp) = RbNode k' v' c' par lp rp) ->
  (forall s', Rep spare (plug ctx (Node p c' k' v' l r)) s' -> others s' = others s -> Q tt s') ->
  wp (rb_set p f) Q s.
Proof.
  intros H Hf HQ. pose proof (rep_node _ _ _ _ _ _ _ _ _ H) as Hp.
  pose proof (rep_distinct _ _ _ _ H) as Hn. cbn in Hn. apply NoDup_cons in Hn as [Hno Hn].
  assert (Hr : rb_root s = root_of ctx (Some p)) by (erewrite rep_root by done; apply ptr_plug).
  rewrite (on_id s). eapply wp_rb_set; [exact Hp|]. rewrite Hr. apply HQ; [|done].
  assert (Hne : forall q n, q ∈ (addrs l ++ addrs r) ++ around_addrs ctx ->
    rb_heap s !! q = Some n -> alter f p (rb_heap s) !! q = Some n)
    by (intros q n Hq; rewrite lookup_alter_ne; [done|by intros <-]).
  eapply (rep_change _ _ (Node p c k v l r) (Node p c' k' v' l r)); [exact H|done| |..].
  - intros q n. cbn [cells]. rewrite elem_of_cons. intros [[= -> ->]|Hq].
    + rewrite lookup_alter_eq, Hp. cbn. by rewrite Hf.
    + apply Hne.
      * apply elem_of_app. left. apply elem_of_app in Hq as [Hq%elem_of_cells|Hq%elem_of_cells];
          apply elem_of_app; auto.
      * eapply rep_at; [exact H|]. left. by apply list_elem_of_further.
  - intros q n Hq. apply Hne; [apply elem_of_app; right; by eapply elem_of_around|].
    eapply rep_at; [exact H|]. by right.
  - intros q Hq _. apply lookup_alter_ne. intros <-. apply Hq, list_elem_of_here.
Qed.

(** ** Links *)

Definition link (f : frame V) (child : option nat) (n : rb_node V) : rb_node V :=
  if fr_left f then n <| rb_left := child |> else n <| rb_right := child |>.

Definition relink ctx (child : option nat) h :=
  match ctx with [] => h | f :: _ => alter (link f child) (fr_p f) h end.

Definition reparent t (parent : option nat) h :=
  match ptr t with
  | Some p => alter (fun n => n <| rb_parent := parent |>) p h
  | None => h
  end.

Lemma relink_ne ctx child h p : p ∉ around_addrs ctx -> relink ctx child h !! p = h !! p.
Proof.
  destruct ctx as [|f ctx]; [done|]. intros H. apply lookup_alter_ne. intros <-.
  apply H, list_elem_of_here.
Qed.

Lemma relink_around ctx child child' h p n :
  NoDup (around_addrs ctx) -> (forall q m, (q, m) ∈ around ctx child -> h !! q = Some m) ->
  (p, n) ∈ around ctx child' -> relink ctx child' h !! p = Some n.
Proof.
  destruct ctx as [|f ctx]; [by intros _ _ []%elem_of_nil|]. cbn [around around_addrs relink].
  intros [Hno _]%NoDup_cons H. rewrite elem_of_cons. intros [[= -> ->]|Hp].
  - rewrite lookup_alter_eq, (H (fr_p f) (frame_cell f (up ctx) child)) by apply list_elem_of_here.
    unfold link, frame_cell. by destruct (fr_left f).
  - rewrite lookup_alter_ne; [by apply H, list_elem_of_further|]. intros <-. apply Hno.
    apply elem_of_app in Hp as [Hp|Hp]; apply elem_of_app;
      [left; by eapply elem_of_cells|right; by eapply elem_of_around].
Qed.

Lemma reparent_ne t parent h p : p ∉ addrs t -> reparent t parent h !! p = h !! p.
Proof.
  destruct t as [|q c k v l r]; [done|]. intros H. apply lookup_alter_ne. intros <-.
  apply H, list_elem_of_here.
Qed.

Lemma reparent_cells t par par' h p n :
  NoDup (addrs t) -> (forall q m, (q, m) ∈ cells par t -> h !! q = Some m) ->
  (p, n) ∈ cells par' t -> reparent t par' h !! p = Some n.
Proof.
  destruct t as [|q c k v l r]; [by intros _ _ []%elem_of_nil|]. cbn [cells addrs].
  intros [Hno _]%NoDup_cons H. rewrite elem_of_cons. unfold reparent. cbn [ptr].
  intros [[= -> ->]|Hp].
  - by rewrite lookup_alter_eq, (H q _ (list_elem_of_here _ _)).
  - rewrite lookup_alter_ne; [by apply H, list_elem_of_further|]. intros <-. apply Hno.
    apply elem_of_app in Hp as [Hp|Hp]; apply elem_of_app; [left|right]; by eapply elem_of_cells.
Qed.

Lemma wp_replace_child spare ctx t child (Q : unit -> rb_tree V E -> Prop) s p :
  Rep spare (plug ctx t) s -> ptr t = Some p ->
  Q tt (on s (root_of ctx child) (relink ctx child (rb_heap s))) ->
  wp (replace_child (up ctx) p child) Q s.
Proof.
  intros H Hp HQ. pose proof (rep_root _ _ _ H) as Hroot. rewrite ptr_plug in Hroot.
  unfold replace_child. destruct ctx as [|f ctx]; [by apply wp_modify|].
  change (up (f :: ctx)) with (Some (fr_p f)). cbv iota.
  assert (Hf : rb_heap s !! fr_p f = Some (frame_cell f (up ctx) (ptr t))).
  { eapply rep_at; [exact H|]. right. apply list_elem_of_here. }
  cbn [relink root_of] in *. rewrite <- Hroot in HQ.
  apply wp_bind. eapply wp_rb_at; [exact Hf|]. revert HQ. rewrite (on_id s) at 4. intros HQ.
  unfold frame_cell, link in *. destruct (fr_left f) eqn:Ef; cbn [rb_left].
  - rewrite bool_decide_true by done. by eapply wp_rb_set; [exact Hf|].
  - rewrite bool_decide_false; [by eapply wp_rb_set; [exact Hf|]|].
    rewrite <- Hp. intros Heq. pose proof (rep_distinct _ _ _ _ H) as Hd.
    cbn [around_addrs] in Hd. destruct t as [|q ? ? ? l r]; [done|].
    destruct (fr_sib f) as [|q' ? ? ? l' r']; [done|].
    cbn in Heq. injection Heq as ->. cbn in Hd. apply NoDup_cons in Hd as [Hd _].
    apply Hd. rewrite !elem_of_app, !elem_of_cons. tauto.
Qed.

Lemma wp_reparent t par par' (Q : unit -> rb_tree V E -> Prop) s root h :
  (forall q m, (q, m) ∈ cells par t -> h !! q = Some m) ->
  Q tt (on s root (reparent t par' h)) ->
  wp (match ptr t with
      | Some p => rb_set p (fun n => n <| rb_parent := par' |>)
      | None => mret tt
      end) Q (on s root h).
Proof.
  intros H HQ. destruct t as [|p c k v l r]; [by apply wp_ret|].
  eapply wp_rb_set; [apply H, list_elem_of_here|exact HQ].
Qed.

(** Facts about distinct addresses, from one list of them. *)
Ltac addresses H :=
  cbn [addrs around_addrs app] in H;
  repeat first
    [ setoid_rewrite NoDup_cons in H | setoid_rewrite NoDup_app in H
    | setoid_rewrite elem_of_app in H | setoid_rewrite elem_of_cons in H ].

(** The memory after a rotation that exchanges [x], with the parent of [b], and [y]. *)
Definition rotated x y b ctx h : gmap nat (rb_node V) :=
  reparent b (Some x) (relink ctx (Some y) h).

Lemma rotated_at x y b ctx h p :
  p ∉ addrs b -> p ∉ around_addrs ctx -> rotated x y b ctx h !! p = h !! p.
Proof. intros Hb Ho. unfold rotated. by rewrite reparent_ne, relink_ne. Qed.

Lemma rotated_around x y b ctx h child p n :
  NoDup (addrs b ++ around_addrs ctx) ->
  (forall q m, (q, m) ∈ around ctx child -> h !! q = Some m) ->
  (p, n) ∈ around ctx (Some y) -> rotated x y b ctx h !! p = Some n.
Proof.
  intros (_ & Hd & Hn)%NoDup_app Hh Hp. unfold rotated. rewrite reparent_ne.
  - by eapply relink_around.
  - intros Hb. eapply Hd; [exact Hb|]. by eapply elem_of_around.
Qed.

Lemma rotated_cells x y b ctx h par p n :
  NoDup (addrs b ++ around_addrs ctx) ->
  (forall q m, (q, m) ∈ cells par b -> h !! q = Some m) ->
  (p, n) ∈ cells (Some x) b -> rotated x y b ctx h !! p = Some n.
Proof.
  intros (Hb & Hd & _)%NoDup_app Hh Hp. unfold rotated.
  eapply reparent_cells; [exact Hb| |exact Hp].
  intros q m Hq. rewrite relink_ne; [by apply Hh|]. by eapply Hd, elem_of_cells.
Qed.

(** A rotation: the subtree [b] moves from [y] to [x], the subtrees [a] and [c] stay
    below [x] and [y]. *)
Lemma rep_rotated spare ctx t t' x y a b c s h nx ny :
  Rep spare (plug ctx t) s -> ptr t = Some x -> ptr t' = Some y -> addrs t' ≡ₚ addrs t ->
  cells (up ctx) t' ≡ₚ (x, nx) :: (y, ny) :: cells (Some x) a ++ cells (Some x) b ++ cells (Some y) c ->
  (forall p n, (p, n) ∈ cells (Some x) a ++ cells (Some y) b ++ cells (Some y) c ->
     rb_heap s !! p = Some n) ->
  h !! x = Some nx -> h !! y = Some ny ->
  (forall p, p <> x -> p <> y -> h !! p = rotated x y b ctx (rb_heap s) !! p) ->
  Rep spare (plug ctx t') (on s (root_of ctx (Some y)) h).
Proof.
  intros H Hpt Hpt' Haddr Hcells Hc Hx Hy Hfar. rewrite <- Hpt'.
  assert (Hat : addrs t ≡ₚ x :: y :: addrs a ++ addrs b ++ addrs c).
  { rewrite <- Haddr, <- (cells_addrs (up ctx)), Hcells. cbn [fmap list_fmap fst].
    by rewrite !fmap_app, !cells_addrs. }
  pose proof (rep_distinct _ _ _ _ H) as Hd. rewrite Hat in Hd.
  assert (Hbo : NoDup (addrs b ++ around_addrs ctx))
    by (clear -Hd; addresses Hd; apply NoDup_app; naive_solver).
  assert (Hother : forall p, p ∈ addrs a ++ addrs b ++ addrs c \/ p ∈ around_addrs ctx -> p <> x /\ p <> y).
  { clear -Hd. intros p Hp. rewrite !elem_of_app in Hp. addresses Hd. naive_solver. }
  assert (Hac : forall p, p ∈ addrs a \/ p ∈ addrs c -> p ∉ addrs b /\ p ∉ around_addrs ctx)
    by (clear -Hd; addresses Hd; naive_solver).
  eapply rep_change; [exact H|exact Haddr| | |].
  - intros p n. rewrite Hcells, !elem_of_cons, !elem_of_app.
    intros [[= -> ->]|[[= -> ->]|[Hp|[Hp|Hp]]]]; [done|done|..];
      pose proof (elem_of_cells _ _ _ _ Hp) as Hpa;
      (rewrite Hfar; [|by apply Hother; rewrite !elem_of_app; auto..]).
    + rewrite rotated_at by (apply Hac; auto). apply Hc. rewrite !elem_of_app. auto.
    + eapply rotated_cells; [exact Hbo| |exact Hp]. intros q m Hq. apply Hc. rewrite !elem_of_app. eauto.
    + rewrite rotated_at by (apply Hac; auto). apply Hc. rewrite !elem_of_app. auto.
  - rewrite Hpt'. intros p n Hp. pose proof (elem_of_around _ _ _ _ Hp) as Hpa.
    rewrite Hfar by (apply Hother; auto).
    eapply (rotated_around _ _ _ _ _ (ptr t)); [exact Hbo| |exact Hp].
    intros q m Hq. eapply rep_at; [exact H|]. by right.
  - intros p. rewrite Hat, !elem_of_cons, !elem_of_app. intros Hp Ho.
    rewrite Hfar by tauto. by rewrite rotated_at by tauto.
Qed.

(** The lookups of the program, in the memory the rotation has reached. *)
Ltac heap_lookup :=
  cbn [rb_heap on]; repeat first [rewrite lookup_alter_eq | rewrite lookup_alter_ne by done];
  cbn [fmap option_fmap option_map];
  repeat match goal with H : ?h !! ?p = Some _ |- context [?h !! ?p] => rewrite H end;
  cbn [fmap option_fmap option_map]; reflexivity.

Lemma wp_rotate_left spare ctx x cx kx vx a y cy ky vy b c (Q : unit -> rb_tree V E -> Prop) s :
  Rep spare (plug ctx (Node x cx kx vx a (Node y cy ky vy b c))) s ->
  (forall s', Rep spare (plug ctx (Node y cy ky vy (Node x cx kx vx a b) c)) s' ->
     others s' = others s -> Q tt s') ->
  wp (rb_rotate_left x) Q s.
Proof.
  intros H HQ. pose proof (rep_distinct _ _ _ _ H) as Hd.
  pose proof (fun p n Hp => rep_at _ _ _ _ p n H (or_introl Hp)) as Hc.
  cbn [cells app ptr] in Hc. setoid_rewrite elem_of_cons in Hc. setoid_rewrite elem_of_app in Hc.
  setoid_rewrite elem_of_cons in Hc. setoid_rewrite elem_of_app in Hc.
  pose proof (Hc _ _ (or_introl eq_refl)) as Hx.
  pose proof (Hc _ _ (or_intror (or_intror (or_introl eq_refl)))) as Hy.
  assert (Hne : x <> y /\ x ∉ addrs b /\ y ∉ addrs b /\ x ∉ around_addrs ctx /\ y ∉ around_addrs ctx /\
    forall p, p ∈ addrs b -> p ∉ around_addrs ctx) by (clear -Hd; addresses Hd; naive_solver).
  destruct Hne as (Hxy & Hxb & Hyb & Hxo & Hyo & Hbo).
  assert (Hyx : y <> x) by done.
  pose proof (rotated_at x y b ctx (rb_heap s) x Hxb Hxo) as H2x. rewrite Hx in H2x.
  pose proof (rotated_at x y b ctx (rb_heap s) y Hyb Hyo) as H2y. rewrite Hy in H2y.
  unfold rb_rotate_left. apply wp_bind. eapply wp_rb_at; [exact Hx|].
  cbn [rb_right rb_parent]. apply wp_bind. eapply wp_lift; [done|].
  apply wp_bind. eapply wp_replace_child; [exact H|done|].
  apply wp_bind. eapply wp_rb_at; [cbn [rb_heap on]; by rewrite relink_ne|].
  cbn [rb_left]. apply wp_bind. eapply wp_reparent.
  { intros q m Hq. rewrite relink_ne; [apply Hc; eauto 10|]. by eapply Hbo, elem_of_cells. }
  fold (rotated x y b ctx (rb_heap s)).
  apply wp_bind. eapply wp_rb_at; [heap_lookup|]. cbn [rb_left].
  apply wp_bind. eapply wp_rb_set; [heap_lookup|].
  apply wp_bind. eapply wp_rb_set; [heap_lookup|].
  apply wp_bind. eapply wp_rb_at; [heap_lookup|].
  apply wp_bind. eapply wp_rb_set; [heap_lookup|]. eapply wp_rb_set; [heap_lookup|].
  apply HQ; [|done].
  eapply (rep_rotated _ _ _ (Node y _ _ _ (Node x _ _ _ _ _) _) x y a b c); [exact H|done|done|..].
  - cbn [addrs app]. rewrite <- !app_assoc. cbn [app]. rewrite perm_swap. constructor.
    by rewrite (Permutation_middle (addrs a)).
  - cbn [cells ptr app]. rewrite <- app_assoc. apply perm_swap.
  - intros p n. rewrite !elem_of_app. intros Hp. apply Hc. tauto.
  - heap_lookup.
  - heap_lookup.
  - intros p Hpx Hpy. by rewrite !lookup_alter_ne by done.
Qed.

Lemma wp_rotate_right spare ctx x cx kx vx y cy ky vy a b c (Q : unit -> rb_tree V E -> Prop) s :
  Rep spare (plug ctx (Node x cx kx vx (Node y cy ky vy a b) c)) s ->
  (forall s', Rep spare (plug ctx (Node y cy ky vy a (Node x cx kx vx b c))) s' ->
     others s' = others s -> Q tt s') ->
  wp (rb_rotate_right x) Q s.
Proof.
  intros H HQ. pose proof (rep_distinct _ _ _ _ H) as Hd.
  pose proof (fun p n Hp => rep_at _ _ _ _ p n H (or_introl Hp)) as Hc.
  cbn [cells app ptr] in Hc. repeat setoid_rewrite elem_of_cons in Hc. repeat setoid_rewrite elem_of_app in Hc.
  pose proof (Hc _ _ (or_introl eq_refl)) as Hx.
  pose proof (Hc _ _ (or_intror (or_introl eq_refl))) as Hy.
  assert (Hne : x <> y /\ x ∉ addrs b /\ y ∉ addrs b /\ x ∉ around_addrs ctx /\ y ∉ around_addrs ctx /\
    forall p, p ∈ addrs b -> p ∉ around_addrs ctx) by (clear -Hd; addresses Hd; naive_solver).
  destruct Hne as (Hxy & Hxb & Hyb & Hxo & Hyo & Hbo).
  assert (Hyx : y <> x) by done.
  pose proof (rotated_at x y b ctx (rb_heap s) x Hxb Hxo) as H2x. rewrite Hx in H2x.
  pose proof (rotated_at x y b ctx (rb_heap s) y Hyb Hyo) as H2y. rewrite Hy in H2y.
  unfold rb_rotate_right. apply wp_bind. eapply wp_rb_at; [exact Hx|].
  cbn [rb_left rb_parent]. apply wp_bind. eapply wp_lift; [done|].
  apply wp_bind. eapply wp_replace_child; [exact H|done|].
  apply wp_bind. eapply wp_rb_at; [cbn [rb_heap on]; by rewrite relink_ne|].
  cbn [rb_right]. apply wp_bind. eapply wp_reparent.
  { intros q m Hq. rewrite relink_ne; [apply Hc; eauto 10|]. by eapply Hbo, elem_of_cells. }
  fold (rotated x y b ctx (rb_heap s)).
  apply wp_bind. eapply wp_rb_at; [heap_lookup|]. cbn [rb_right].
  apply wp_bind. eapply wp_rb_set; [heap_lookup|].
  apply wp_bind. eapply wp_rb_set; [heap_lookup|].
  apply wp_bind. eapply wp_rb_at; [heap_lookup|].
  apply wp_bind. eapply wp_rb_set; [heap_lookup|]. eapply wp_rb_set; [heap_lookup|].
  apply HQ; [|done].
  eapply (rep_rotated _ _ _ (Node y _ _ _ _ (Node x _ _ _ _ _)) x y c b a); [exact H|done|done|..].
  - cbn [addrs app]. rewrite <- !app_assoc. by rewrite <- (Permutation_middle (addrs a)), perm_swap.
  - cbn [cells ptr app]. rewrite <- Permutation_middle, perm_swap. do 2 constructor.
    by rewrite (Permutation_app_comm (cells (Some y) a)), (Permutation_app_comm (cells _ b)), app_assoc.
  - intros p n. rewrite !elem_of_app. intros Hp. apply Hc. tauto.
  - heap_lookup.
  - heap_lookup.
  - intros p Hpx Hpy. by rewrite !lookup_alter_ne by done.
Qed.

(** ** Reading the tree *)

Lemma rep_frame_cell spare f ctx t s :
  Rep spare (plug (f :: ctx) t) s ->
  rb_heap s !! fr_p f = Some (frame_cell f (up ctx) (ptr t)).
Proof. intros H. eapply rep_at; [exact H|]. right. apply list_elem_of_here. Qed.

(** On which side of its parent a node is. *)
Lemma rep_side spare f ctx t s parent :
  Rep spare (plug (f :: ctx) t) s -> ptr t <> None \/ ptr (fr_sib f) <> None ->
  bool_decide (ptr t = rb_left (frame_cell f parent (ptr t))) = fr_left f /\
  bool_decide (ptr t = rb_right (frame_cell f parent (ptr t))) = negb (fr_left f).
Proof.
  intros H Hsome. pose proof (rep_distinct _ _ _ _ H) as Hd.
  assert (Hne : ptr t <> ptr (fr_sib f)).
  { intros Heq. cbn [around_addrs] in Hd. destruct t as [|p ? ? ? l r], (fr_sib f) as [|q ? ? ? l' r'];
      try done; [cbn in Hsome; tauto|].
    cbn in Heq. injection Heq as ->. cbn in Hd. apply NoDup_cons in Hd as [Hd _].
    apply Hd. rewrite !elem_of_app, !elem_of_cons. tauto. }
  unfold frame_cell. destruct (fr_left f); cbn [rb_left rb_right negb].
  - by rewrite bool_decide_true, bool_decide_false.
  - by rewrite bool_decide_false, bool_decide_true.
Qed.

Lemma wp_is_red spare ctx t (Q : bool -> rb_tree V E -> Prop) s :
  Rep spare (plug ctx t) s -> Q (bool_decide (color t = RB_RED)) s -> wp (is_red (ptr t)) Q s.
Proof.
  intros H HQ. destruct t as [|p c k v l r]; cbn [ptr is_red].
  - by apply wp_ret.
  - apply wp_bind. eapply wp_rb_at; [by eapply rep_node|]. by apply wp_ret.
Qed.

Lemma wp_set_color spare ctx p c k v l r c' (Q : unit -> rb_tree V E -> Prop) s :
  Rep spare (plug ctx (Node p c k v l r)) s ->
  (forall s', Rep spare (plug ctx (Node p c' k v l r)) s' -> others s' = others s -> Q tt s') ->
  wp (set_color p c') Q s.
Proof. intros H. by eapply rep_set_node. Qed.

Lemma rep_size spare t s : Rep spare t s -> (length (addrs t) <= size (rb_heap s))%nat.
Proof.
  intros [_ Hc Hn _ _ _]. rewrite <- size_dom, <- (size_list_to_set (C := gset nat)) by done.
  apply subseteq_size. intros p. rewrite elem_of_list_to_set, elem_of_dom, <- (cells_addrs None).
  rewrite list_elem_of_fmap. intros ([q n] & -> & Hq). exists n. by apply Hc.
Qed.
End rep.
