(* ===== verification/RbBalance.v ===== *)
(** The two balancing loops of rbtree_op.c, [rb_balance_insert] and
    [rb_balance_delete]: both end, keep the order of the tree and restore the
    red-black property. *)
From stdpp Require Import gmap.
From S2P Require Import Prelude RbTree.
#[local] Open Scope Z_scope.

(** * Balance *)

Section balance.
Context {V : Type}.
Implicit Types (t l r : tree V) (ctx : list (frame V)).

(** The red-black property: no red node has a red child, and every path down
    meets [n] black nodes. *)
Inductive rb : nat -> tree V -> Prop :=
  | rb_leaf : rb 0 Leaf
  | rb_red p k v l r n : color l = RB_BLACK -> color r = RB_BLACK -> rb n l -> rb n r ->
      rb n (Node p RB_RED k v l r)
  | rb_black p k v l r n : rb n l -> rb n r -> rb (Datatypes.S n) (Node p RB_BLACK k v l r).

(** The surroundings of a subtree of black height [n]; whether its root may be red
    is not looked at. *)
Inductive rb_around : nat -> list (frame V) -> Prop :=
  | rb_around_nil n : rb_around n []
  | rb_around_black n f ctx : fr_c f = RB_BLACK -> rb n (fr_sib f) ->
      rb_around (Datatypes.S n) ctx -> rb_around n (f :: ctx)
  | rb_around_red n f g ctx : fr_c f = RB_RED -> fr_c g = RB_BLACK ->
      rb n (fr_sib f) -> color (fr_sib f) = RB_BLACK -> rb_around n (g :: ctx) ->
      rb_around n (f :: g :: ctx).

Definition black_above ctx : Prop := match ctx with [] => True | f :: _ => fr_c f = RB_BLACK end.

Lemma rb_fill n f t :
  rb n t -> fr_c f = RB_BLACK -> rb n (fr_sib f) -> rb (Datatypes.S n) (fill f t).
Proof. intros Ht Hc Hs. unfold fill. rewrite Hc. destruct (fr_left f); by constructor. Qed.

Lemma rb_fill_red n f t :
  rb n t -> color t = RB_BLACK -> fr_c f = RB_RED -> rb n (fr_sib f) ->
  color (fr_sib f) = RB_BLACK -> rb n (fill f t).
Proof. intros Ht Hct Hc Hs Hcs. unfold fill. rewrite Hc. destruct (fr_left f); by constructor. Qed.

Lemma color_fill f t : color (fill f t) = fr_c f.
Proof. unfold fill. by destruct (fr_left f). Qed.

Lemma rb_plug n ctx t :
  rb_around n ctx -> rb n t -> black_above ctx \/ color t = RB_BLACK ->
  exists m, rb m (plug ctx t) /\ (ctx <> [] -> color (plug ctx t) = RB_BLACK).
Proof.
  intros H. revert t. induction H as [n|n f ctx Hc Hs Ha IH|n f g ctx Hc Hg Hs Hcs Ha IH];
    intros t Ht Hred.
  - by exists n.
  - destruct (IH (fill f t)) as (m & Hm & Hcol).
    + by apply rb_fill.
    + right. by rewrite color_fill.
    + exists m. split; [done|]. intros _. destruct ctx; [|by apply Hcol].
      cbn. by rewrite color_fill.
  - destruct Hred as [Hred|Hred]; [cbn in Hred; congruence|].
    destruct (IH (fill f t)) as (m & Hm & Hcol).
    + by apply rb_fill_red.
    + by left.
    + exists m. split; [done|]. intros _. by apply Hcol.
Qed.

Lemma rb_blacken n p c k v l r :
  rb n (Node p c k v l r) -> exists m, rb m (Node p RB_BLACK k v l r).
Proof. inversion 1; subst; eexists; by constructor. Qed.
End balance.

Section insert.
Context {V E : Type}.
Implicit Types (t l r : tree V) (ctx : list (frame V)) (s : rb_tree V E).

(** The loop of [rb_balance_insert]: a red subtree whose parent may be red. *)
Definition inserting spare (L : list (bytes * option V)) s0 (n : nat) (node : nat) s : Prop :=
  exists ctx t bh, Rep spare (plug ctx t) s /\ others s = others s0 /\
    ptr t = Some node /\ color t = RB_RED /\ rb bh t /\ rb_around bh ctx /\
    inorder (plug ctx t) = L /\ length ctx = n.

Definition inserted spare (L : list (bytes * option V)) s0 s : Prop :=
  exists t bh, Rep spare t s /\ others s = others s0 /\ rb bh t /\ inorder t = L /\ t <> Leaf.

Lemma inorder_plug_eq ctx t t' : inorder t = inorder t' -> inorder (plug ctx t) = inorder (plug ctx t').
Proof. intros H. by rewrite !inorder_plug, H. Qed.

(** The frame of the sibling, and a frame with another colour. *)
Definition sib_frame (f : frame V) t : frame V :=
  Frame (negb (fr_left f)) (fr_p f) (fr_c f) (fr_k f) (fr_v f) t.
Definition recolor (f : frame V) (c : rb_color) : frame V :=
  Frame (fr_left f) (fr_p f) c (fr_k f) (fr_v f) (fr_sib f).

Lemma fill_sib f t : fill f t = fill (sib_frame f t) (fr_sib f).
Proof. unfold fill. cbn. by destruct (fr_left f). Qed.

Lemma ptr_fill f t : ptr (fill f t) = Some (fr_p f).
Proof. unfold fill. by destruct (fr_left f). Qed.

Lemma fill_node f t : exists l r, fill f t = Node (fr_p f) (fr_c f) (fr_k f) (fr_v f) l r /\
  fill (recolor f RB_BLACK) t = Node (fr_p f) RB_BLACK (fr_k f) (fr_v f) l r /\
  fill (recolor f RB_RED) t = Node (fr_p f) RB_RED (fr_k f) (fr_v f) l r.
Proof. unfold fill. cbn. destruct (fr_left f); eauto 10. Qed.

Lemma wp_color_frame spare f ctx t c (Q : unit -> rb_tree V E -> Prop) s :
  Rep spare (plug (f :: ctx) t) s ->
  (forall s', Rep spare (plug (recolor f c :: ctx) t) s' -> others s' = others s -> Q tt s') ->
  wp (set_color (fr_p f) c) Q s.
Proof.
  cbn [plug]. destruct (fill_node f t) as (l & r & -> & Hb & Hr). intros H HQ.
  eapply wp_set_color; [exact H|]. intros s' H' Ho. apply HQ; [|done].
  destruct c; [rewrite Hr|rewrite Hb]; exact H'.
Qed.

Lemma wp_color_sibling spare f ctx t p c k v l r c' (Q : unit -> rb_tree V E -> Prop) s :
  Rep spare (plug (f :: ctx) t) s -> fr_sib f = Node p c k v l r ->
  (forall s', Rep spare (plug (Frame (fr_left f) (fr_p f) (fr_c f) (fr_k f) (fr_v f)
                                 (Node p c' k v l r) :: ctx) t) s' ->
     others s' = others s -> Q tt s') ->
  wp (set_color p c') Q s.
Proof.
  cbn [plug]. intros H Hs HQ. rewrite fill_sib, Hs in H.
  eapply (wp_set_color _ (sib_frame f t :: ctx)); [exact H|]. intros s' H' Ho. apply HQ; [|done].
  destruct f as [[] ? ? ? ? ?]; exact H'.
Qed.

Lemma wp_parent_of spare f ctx p c k v l r (Q : nat -> rb_tree V E -> Prop) s :
  Rep spare (plug (f :: ctx) (Node p c k v l r)) s -> Q (fr_p f) s -> wp (parent_of p) Q s.
Proof.
  intros H HQ. apply wp_bind. eapply wp_rb_at; [by eapply rep_node|]. by eapply wp_lift.
Qed.

Lemma wp_grandparent spare f g ctx p c k v l r (Q : nat -> rb_tree V E -> Prop) s :
  Rep spare (plug (f :: g :: ctx) (Node p c k v l r)) s -> Q (fr_p g) s -> wp (grandparent p) Q s.
Proof.
  intros H HQ. apply wp_bind. eapply wp_parent_of; [exact H|].
  apply wp_bind. eapply wp_rb_at; [by eapply rep_frame_cell|].
  eapply wp_lift; [|exact HQ]. unfold frame_cell. by destruct (fr_left f).
Qed.

Lemma wp_uncle spare f g ctx p c k v l r (Q : option nat -> rb_tree V E -> Prop) s :
  Rep spare (plug (f :: g :: ctx) (Node p c k v l r)) s -> Q (ptr (fr_sib g)) s ->
  wp (rb_uncle p) Q s.
Proof.
  intros H HQ. apply wp_bind. eapply wp_rb_at; [by eapply rep_node|].
  cbn [rb_parent]. change (up (f :: g :: ctx)) with (Some (fr_p f)). cbv iota.
  apply wp_bind. eapply wp_rb_at; [by eapply rep_frame_cell|].
  assert (rb_parent (frame_cell f (up (g :: ctx)) (ptr (Node p c k v l r))) = Some (fr_p g)) as ->
    by (unfold frame_cell; by destruct (fr_left f)).
  cbv iota. change (Rep spare (plug (g :: ctx) (fill f (Node p c k v l r))) s) in H.
  apply wp_bind. eapply wp_rb_at; [by eapply rep_frame_cell|].
  apply wp_ret. rewrite <- (ptr_fill f (Node p c k v l r)).
  destruct (rep_side _ _ _ _ _ (up ctx) H) as [-> _]; [left; by rewrite ptr_fill|].
  unfold frame_cell. by destruct (fr_left g).
Qed.

Definition settled spare (L : list (bytes * option V)) s0 s : Prop :=
  exists ctx t bh, Rep spare (plug ctx t) s /\ others s = others s0 /\ t <> Leaf /\
    rb bh t /\ rb_around bh ctx /\ black_above ctx /\ inorder (plug ctx t) = L.

Lemma insert_recolor_spec spare ctx f g t u ku vu lu ru bh node L s0 s n :
  Rep spare (plug (f :: g :: ctx) t) s -> others s = others s0 -> ptr t = Some node ->
  fr_sib g = Node u RB_RED ku vu lu ru -> fr_c f = RB_RED -> fr_c g = RB_BLACK ->
  rb bh t -> rb bh (fr_sib f) -> rb bh (fr_sib g) -> rb_around (Datatypes.S bh) ctx ->
  inorder (plug (f :: g :: ctx) t) = L -> length ctx = n ->
  wp (insert_recolor node (fr_p f) u) (inserting spare L s0 n) s.
Proof.
  intros H Ho Hp Hu Hcf Hcg Ht Hsf Hsg Ha HL Hn. unfold insert_recolor.
  apply wp_bind. eapply wp_color_frame; [exact H|]. intros s1 H1 O1.
  apply wp_bind. eapply (wp_color_sibling _ g ctx (fill (recolor f RB_BLACK) t)); [exact H1|exact Hu|].
  intros s2 H2 O2. set (g' := Frame (fr_left g) _ _ _ _ _) in H2.
  destruct t as [|p c k v l r]; [done|]. cbn in Hp. injection Hp as ->.
  set (t := Node node c k v l r) in *.
  change (Rep spare (plug (recolor f RB_BLACK :: g' :: ctx) t) s2) in H2.
  apply wp_bind. eapply wp_grandparent; [exact H2|].
  apply wp_bind. eapply (wp_color_frame _ g' ctx); [exact H2|]. intros s3 H3 O3. apply wp_ret.
  exists ctx, (fill (recolor g' RB_RED) (fill (recolor f RB_BLACK) t)), (Datatypes.S bh).
  rewrite Hu in Hsg. inversion Hsg as [|? ? ? ? ? ? Hcl Hcr Hl Hr|]; subst.
  split_and!; try done.
  - congruence.
  - by rewrite ptr_fill.
  - by rewrite color_fill.
  - apply rb_fill_red; [by apply rb_fill|by rewrite color_fill|done|by constructor|done].
  - apply (inorder_plug_eq ctx _ (fill g (fill f t))). unfold fill. cbn. rewrite Hu.
    destruct (fr_left g), (fr_left f); done.
Qed.

(** The node [node] below [parent], a left child of [gp], ends below the black node that
    takes the place of [gp]. *)
Lemma insert_rotate_right_spec spare ctx f gp kg vg uncle t bh node L s0 s n :
  Rep spare (plug (f :: Frame true gp RB_BLACK kg vg uncle :: ctx) t) s ->
  others s = others s0 -> ptr t = Some node -> color t = RB_RED -> color uncle = RB_BLACK ->
  fr_c f = RB_RED -> color (fr_sib f) = RB_BLACK ->
  rb bh t -> rb bh (fr_sib f) -> rb bh uncle -> rb_around (Datatypes.S bh) ctx ->
  inorder (plug (f :: Frame true gp RB_BLACK kg vg uncle :: ctx) t) = L ->
  Datatypes.S (length ctx) = n ->
  wp (insert_rotate_right node (fr_p f)) (inserting spare L s0 n) s.
Proof.
  intros H Ho Hp Hct Hcu Hcf Hcs Ht Hsf Hu Ha HL Hn.
  destruct t as [|p c kx vx a b]; [done|]. cbn in Hp, Hct. injection Hp as ->. subst c.
  set (t := Node node RB_RED kx vx a b) in *.
  unfold insert_rotate_right. apply wp_bind. eapply wp_rb_at; [by eapply rep_frame_cell|].
  destruct (rep_side _ _ _ _ _ (Some gp) H) as [_ Hside]; [by left|].
  change (up (Frame true gp RB_BLACK kg vg uncle :: ctx)) with (Some gp).
  change (ptr t) with (Some node) in *. rewrite Hside.
  destruct f as [[] parent cf kp vp sib]; cbn [fr_left fr_p fr_c fr_sib negb] in *; subst cf.
  - apply wp_bind, wp_ret. apply wp_bind. eapply wp_parent_of; [exact H|].
    cbn [fr_p]. apply wp_bind. eapply (wp_color_frame _ (Frame true parent _ _ _ _)); [exact H|].
    intros s1 H1 O1. apply wp_bind. eapply wp_grandparent; [exact H1|]. cbn [fr_p recolor].
    apply wp_bind. eapply (wp_color_frame _ (Frame true gp _ _ _ _) ctx); [exact H1|].
    intros s2 H2 O2. apply wp_bind. eapply wp_rotate_right; [exact H2|].
    intros s3 H3 O3. apply wp_ret.
    exists (Frame true parent RB_BLACK kp vp (Node gp RB_RED kg vg sib uncle) :: ctx), t, bh.
    split_and!; try done.
    + congruence.
    + constructor; [done| |done]. by constructor.
    + rewrite <- HL. apply (inorder_plug_eq ctx). cbn. by rewrite <- ?app_assoc.
  - apply wp_bind, wp_bind.
    eapply (wp_rotate_left _ (Frame true gp RB_BLACK kg vg uncle :: ctx) parent RB_RED kp vp sib
              node RB_RED kx vx a b); [exact H|]. intros s0' H0 O0. apply wp_ret.
    inversion Ht as [|? ? ? ? ? ? Hca Hcb Hra Hrb|]; subst.
    change (Rep spare (plug (Frame true node RB_RED kx vx b :: Frame true gp RB_BLACK kg vg uncle :: ctx)
      (Node parent RB_RED kp vp sib a)) s0') in H0.
    apply wp_bind. eapply wp_parent_of; [exact H0|].
    cbn [fr_p]. apply wp_bind. eapply (wp_color_frame _ (Frame true node _ _ _ _)); [exact H0|].
    intros s1 H1 O1. apply wp_bind. eapply wp_grandparent; [exact H1|]. cbn [fr_p recolor].
    apply wp_bind. eapply (wp_color_frame _ (Frame true gp _ _ _ _) ctx); [exact H1|].
    intros s2 H2 O2. apply wp_bind. eapply wp_rotate_right; [exact H2|].
    intros s3 H3 O3. apply wp_ret.
    exists (Frame true node RB_BLACK kx vx (Node gp RB_RED kg vg b uncle) :: ctx),
      (Node parent RB_RED kp vp sib a), bh.
    split_and!; try done.
    + congruence.
    + by constructor.
    + constructor; [done| |done]. by constructor.
    + apply (inorder_plug_eq ctx). cbn. by rewrite_app.
Qed.

Lemma insert_rotate_left_spec spare ctx f gp kg vg uncle t bh node L s0 s n :
  Rep spare (plug (f :: Frame false gp RB_BLACK kg vg uncle :: ctx) t) s ->
  others s = others s0 -> ptr t = Some node -> color t = RB_RED -> color uncle = RB_BLACK ->
  fr_c f = RB_RED -> color (fr_sib f) = RB_BLACK ->
  rb bh t -> rb bh (fr_sib f) -> rb bh uncle -> rb_around (Datatypes.S bh) ctx ->
  inorder (plug (f :: Frame false gp RB_BLACK kg vg uncle :: ctx) t) = L ->
  Datatypes.S (length ctx) = n ->
  wp (insert_rotate_left node (fr_p f)) (inserting spare L s0 n) s.
Proof.
  intros H Ho Hp Hct Hcu Hcf Hcs Ht Hsf Hu Ha HL Hn.
  destruct t as [|p c kx vx a b]; [done|]. cbn in Hp, Hct. injection Hp as ->. subst c.
  set (t := Node node RB_RED kx vx a b) in *.
  unfold insert_rotate_left. apply wp_bind. eapply wp_rb_at; [by eapply rep_frame_cell|].
  destruct (rep_side _ _ _ _ _ (Some gp) H) as [Hside _]; [by left|].
  change (up (Frame false gp RB_BLACK kg vg uncle :: ctx)) with (Some gp).
  change (ptr t) with (Some node) in *. rewrite Hside.
  destruct f as [[] parent cf kp vp sib]; cbn [fr_left fr_p fr_c fr_sib negb] in *; subst cf.
  - apply wp_bind, wp_bind.
    eapply (wp_rotate_right _ (Frame false gp RB_BLACK kg vg uncle :: ctx) parent RB_RED kp vp
              node RB_RED kx vx a b sib); [exact H|]. intros s0' H0 O0. apply wp_ret.
    inversion Ht as [|? ? ? ? ? ? Hca Hcb Hra Hrb|]; subst.
    change (Rep spare (plug (Frame false node RB_RED kx vx a :: Frame false gp RB_BLACK kg vg uncle :: ctx)
      (Node parent RB_RED kp vp b sib)) s0') in H0.
    apply wp_bind. eapply wp_parent_of; [exact H0|].
    cbn [fr_p]. apply wp_bind. eapply (wp_color_frame _ (Frame false node _ _ _ _)); [exact H0|].
    intros s1 H1 O1. apply wp_bind. eapply wp_grandparent; [exact H1|]. cbn [fr_p recolor].
    apply wp_bind. eapply (wp_color_frame _ (Frame false gp _ _ _ _) ctx); [exact H1|].
    intros s2 H2 O2. apply wp_bind. eapply wp_rotate_left; [exact H2|].
    intros s3 H3 O3. apply wp_ret.
    exists (Frame false node RB_BLACK kx vx (Node gp RB_RED kg vg uncle a) :: ctx),
      (Node parent RB_RED kp vp b sib), bh.
    split_and!; try done.
    + congruence.
    + by constructor.
    + constructor; [done| |done]. by constructor.
    + apply (inorder_plug_eq ctx). cbn. by rewrite_app.
  - apply wp_bind, wp_ret. apply wp_bind. eapply wp_parent_of; [exact H|].
    cbn [fr_p]. apply wp_bind. eapply (wp_color_frame _ (Frame false parent _ _ _ _)); [exact H|].
    intros s1 H1 O1. apply wp_bind. eapply wp_grandparent; [exact H1|]. cbn [fr_p recolor].
    apply wp_bind. eapply (wp_color_frame _ (Frame false gp _ _ _ _) ctx); [exact H1|].
    intros s2 H2 O2. apply wp_bind. eapply wp_rotate_left; [exact H2|].
    intros s3 H3 O3. apply wp_ret.
    exists (Frame false parent RB_BLACK kp vp (Node gp RB_RED kg vg uncle sib) :: ctx), t, bh.
    split_and!; try done.
    + congruence.
    + constructor; [done| |done]. by constructor.
    + rewrite <- HL. apply (inorder_plug_eq ctx). cbn. by rewrite <- ?app_assoc.
Qed.

Lemma balance_insert_round_spec spare L s0 n node s :
  inserting spare L s0 n node s ->
  wp (balance_insert_round node) (fun res s' =>
    match res with
    | inl node' => exists m, (m < n)%nat /\ inserting spare L s0 m node' s'
    | inr _ => settled spare L s0 s'
    end) s.
Proof.
  intros (ctx & t & bh & H & Ho & Hp & Hc & Hb & Ha & HL & Hlen).
  destruct t as [|x c k v l r]; [done|]. cbn in Hp, Hc. injection Hp as ->. subst c.
  set (t := Node node RB_RED k v l r) in *.
  assert (Hsettled : black_above ctx -> settled spare L s0 s) by (intros Hab; by exists ctx, t, bh).
  unfold balance_insert_round. apply wp_bind. eapply wp_rb_at; [by eapply rep_node|].
  cbn [rb_parent]. destruct ctx as [|f ctx].
  { apply wp_bind, wp_ret. cbn [negb]. apply wp_ret. by apply Hsettled. }
  change (up (f :: ctx)) with (Some (fr_p f)). rewrite <- (ptr_fill f t).
  apply wp_bind. eapply (wp_is_red _ ctx); [exact H|]. rewrite color_fill.
  destruct (fr_c f) eqn:Ef.
  2:{ apply wp_ret. by apply Hsettled. }
  rewrite bool_decide_true by done. cbn [negb].
  inversion Ha as [|? ? ? ? ? ?|? ? g ctx' Efr Eg Hs Hcs Ha']; [congruence|].
  subst ctx n0 f0. inversion Ha' as [|? ? ? _ Hsg Ha''|]; [subst|congruence]. subst.
  apply wp_bind. eapply wp_parent_of; [exact H|].
  apply wp_bind. eapply wp_uncle; [exact H|].
  assert (Hsib : Rep spare (plug (sib_frame g (fill f t) :: ctx') (fr_sib g)) s)
    by (cbn [plug]; rewrite <- fill_sib; exact H).
  apply wp_bind. eapply wp_is_red; [exact Hsib|].
  destruct (bool_decide (color (fr_sib g) = RB_RED)) eqn:Ecu.
  - apply bool_decide_eq_true in Ecu. destruct (fr_sib g) as [|u cu ku vu lu ru] eqn:Eu; [done|].
    cbn in Ecu. subst cu. apply wp_bind. apply wp_bind. eapply wp_lift; [done|].
    eapply wp_mono.
    { eapply (insert_recolor_spec _ ctx' f g t); try done; by rewrite Eu. }
    intros node' s' Hins. apply wp_ret. exists (length ctx'). split; [cbn; lia|done].
  - apply bool_decide_eq_false in Ecu.
    assert (Ecb : color (fr_sib g) = RB_BLACK) by (by destruct (color (fr_sib g))).
    apply wp_bind, wp_bind. eapply wp_grandparent; [exact H|].
    apply wp_bind. eapply wp_rb_at.
    { eapply rep_frame_cell. exact (H : Rep spare (plug (g :: ctx') (fill f t)) s). }
    destruct (rep_side _ g ctx' (fill f t) _ (up ctx') H) as [Hside _];
      [left; by rewrite ptr_fill|].
    rewrite ptr_fill in *. rewrite Hside.
    assert (Hm : forall node' s', inserting spare (inorder (plug (f :: g :: ctx') t)) s0
        (Datatypes.S (length ctx')) node' s' ->
      wp (mret (inl node')) (fun res s' => match res : nat + unit with
        | inl node' => exists m, (m < length (f :: g :: ctx'))%nat /\
            inserting spare (inorder (plug (f :: g :: ctx') t)) s0 m node' s'
        | inr _ => settled spare (inorder (plug (f :: g :: ctx') t)) s0 s' end) s').
    { intros node' s' Hins. apply wp_ret. exists (Datatypes.S (length ctx')). split; [cbn; lia|done]. }
    destruct g as [[] gp cg kg vg uncle]; cbn [fr_left fr_c fr_sib] in *; subst cg;
      (eapply wp_mono; [|exact Hm]).
    + by eapply insert_rotate_right_spec.
    + by eapply insert_rotate_left_spec.
Qed.

Lemma length_inorder t : length (inorder t) = length (addrs t).
Proof.
  induction t as [|p c k v l IHl r IHr]; [done|]. cbn. rewrite !length_app. cbn. lia.
Qed.

Lemma length_plug ctx t : (length ctx + length (addrs t) <= length (addrs (plug ctx t)))%nat.
Proof.
  rewrite addrs_plug, length_app. enough (length ctx <= length (around_addrs ctx))%nat by lia.
  induction ctx as [|f ctx IH]; [done|]. cbn. rewrite length_app. lia.
Qed.

Lemma balance_insert_spec spare ctx node k v bh s (Q : unit -> rb_tree V E -> Prop) :
  Rep spare (plug ctx (Node node RB_RED k v Leaf Leaf)) s -> bh = 0%nat -> rb_around bh ctx ->
  (forall t' n s', Rep spare t' s' -> others s' = others s -> rb n t' -> color t' = RB_BLACK ->
     inorder t' = inorder (plug ctx (Node node RB_RED k v Leaf Leaf)) -> Q tt s') ->
  wp (rb_balance_insert node) Q s.
Proof.
  intros H -> Ha HQ. set (t := Node node RB_RED k v Leaf Leaf) in *.
  unfold rb_balance_insert. apply wp_bind, wp_gets.
  apply wp_bind. eapply wp_mono.
  { apply (wp_loop_nat (inserting spare (inorder (plug ctx t)) s) _
      (fun _ s' => settled spare (inorder (plug ctx t)) s s') _ (length ctx)).
    - exists ctx, t, 0%nat. split_and!; try done. repeat constructor.
    - pose proof (rep_size _ _ _ H). pose proof (length_plug ctx t). lia.
    - intros n node' s' Hins. by apply balance_insert_round_spec. }
  intros [] s1 (ctx1 & t1 & n1 & H1 & O1 & Hne & Hb1 & Ha1 & Hab & HL).
  apply wp_bind, wp_gets. rewrite (rep_root _ _ _ H1).
  destruct (rb_plug n1 ctx1 t1) as (m & Hm & Hcol); [done|done|by left|].
  destruct (plug ctx1 t1) as [|p c k' v' l r] eqn:Et.
  { rewrite <- Et in *. assert (length (inorder (plug ctx1 t1)) = 0%nat) as E0 by (by rewrite Et).
    rewrite HL, length_inorder in E0. pose proof (length_plug ctx t). cbn in *. lia. }
  apply wp_bind. eapply wp_lift; [done|].
  eapply (wp_set_color spare []); [exact H1|]. intros s2 H2 O2.
  destruct (rb_blacken _ _ _ _ _ _ _ Hm) as [m' Hm'].
  eapply HQ; [exact H2|congruence|exact Hm'|done|]. by rewrite <- HL.
Qed.
End insert.

Section delete.
Context {V E : Type}.
Implicit Types (t l r : tree V) (ctx : list (frame V)) (s : rb_tree V E).

Lemma rb_around_inv n f ctx :
  rb_around n (f :: ctx) -> rb n (fr_sib f) /\
  (fr_c f = RB_BLACK /\ rb_around (Datatypes.S n) ctx \/
   fr_c f = RB_RED /\ color (fr_sib f) = RB_BLACK /\ rb_around n ctx /\
   exists g ctx', ctx = g :: ctx' /\ fr_c g = RB_BLACK).
Proof. inversion 1; subst; eauto 10. Qed.

Lemma rb_around_intro n f ctx :
  rb n (fr_sib f) ->
  fr_c f = RB_BLACK /\ rb_around (Datatypes.S n) ctx \/
  fr_c f = RB_RED /\ color (fr_sib f) = RB_BLACK /\ rb_around n ctx /\
    (exists g ctx', ctx = g :: ctx' /\ fr_c g = RB_BLACK) ->
  rb_around n (f :: ctx).
Proof.
  intros Hs [[Hc Ha]|(Hc & Hcs & Ha & g & ctx' & -> & Hg)]; [by constructor|by constructor].
Qed.

(** A subtree of positive black height has a root. *)
Lemma rb_node_inv n t :
  rb n t -> color t = RB_BLACK -> n <> 0%nat ->
  exists p k v l r m, t = Node p RB_BLACK k v l r /\ n = Datatypes.S m /\ rb m l /\ rb m r.
Proof. inversion 1; subst; cbn; try done. intros _ _. eauto 10. Qed.

Lemma rb_red_inv n t :
  rb n t -> color t = RB_RED ->
  exists p k v l r, t = Node p RB_RED k v l r /\ rb n l /\ rb n r /\
    color l = RB_BLACK /\ color r = RB_BLACK.
Proof. inversion 1; subst; cbn; try done. intros _. eauto 15. Qed.

Lemma wp_frame_at spare f ctx t (Q : rb_node V -> rb_tree V E -> Prop) s :
  Rep spare (plug (f :: ctx) t) s -> Q (frame_cell f (up ctx) (ptr t)) s ->
  wp (rb_at (fr_p f)) Q s.
Proof. intros H. eapply wp_rb_at. by eapply rep_frame_cell. Qed.

Lemma wp_is_red_node spare ctx p c k v l r (Q : bool -> rb_tree V E -> Prop) s :
  Rep spare (plug ctx (Node p c k v l r)) s -> Q (bool_decide (c = RB_RED)) s ->
  wp (is_red (Some p)) Q s.
Proof. intros H. exact (wp_is_red _ _ _ _ _ H). Qed.

(** The sibling of the deficient subtree [t], made black. *)
Definition black_sibling (left : bool) spare t bh L s0 n p kp vp (w : nat) s : Prop :=
  exists ctx cp kw vw l r,
    let f := Frame left p cp kp vp (Node w RB_BLACK kw vw l r) in
    Rep spare (plug (f :: ctx) t) s /\ others s = others s0 /\ rb bh l /\ rb bh r /\
    rb_around (Datatypes.S bh) (f :: ctx) /\ inorder (plug (f :: ctx) t) = L /\
    (length ctx = n \/ cp = RB_RED /\ length ctx = Datatypes.S n).

Lemma left_black_sibling_spec spare ctx p cp kp vp sib t bh L s0 s :
  Rep spare (plug (Frame true p cp kp vp sib :: ctx) t) s -> others s = others s0 ->
  rb bh t -> rb_around (Datatypes.S bh) (Frame true p cp kp vp sib :: ctx) ->
  inorder (plug (Frame true p cp kp vp sib :: ctx) t) = L ->
  wp (left_black_sibling p) (black_sibling true spare t bh L s0 (length ctx) p kp vp) s.
Proof.
  intros H Ho Ht Ha HL. pose proof (rb_around_inv _ _ _ Ha) as [Hs Hcase]. cbn in Hs, Hcase.
  assert (Hsib : Rep spare (plug (Frame false p cp kp vp t :: ctx) sib) s) by exact H.
  unfold left_black_sibling. apply wp_bind. eapply (wp_frame_at _ (Frame true p _ _ _ _)); [exact H|].
  cbn [frame_cell fr_left rb_right fr_sib].
  inversion Hs as [|w kw vw l r n Hcl Hcr Hl Hr E1 E2|w kw vw l r n Hl Hr E1 E2]; subst.
  - destruct Hcase as [[-> Ha']|(_ & Hno & _)]; [|done].
    apply wp_bind. eapply wp_lift; [done|].
    apply wp_bind. eapply wp_is_red_node; [exact Hsib|]. rewrite bool_decide_true by done.
    apply wp_bind. eapply (wp_color_sibling _ (Frame true p _ _ _ _)); [exact H|done|].
    intros s1 H1 O1. cbn [fr_left fr_p fr_c fr_k fr_v] in H1.
    apply wp_bind. eapply (wp_color_frame _ (Frame true p _ _ _ _)); [exact H1|]. intros s2 H2 O2.
    apply wp_bind. eapply wp_rotate_left; [exact H2|]. intros s3 H3 O3.
    change (Rep spare (plug (Frame true p RB_RED kp vp l :: Frame true w RB_BLACK kw vw r :: ctx) t) s3) in H3.
    apply wp_bind. eapply (wp_frame_at _ (Frame true p _ _ _ _)); [exact H3|].
    cbn [frame_cell fr_left rb_right fr_sib].
    destruct (rb_node_inv _ _ Hl Hcl) as (x & kx & vx & a & b & m & -> & [= <-] & Hra & Hrb); [done|].
    eapply wp_lift; [done|].
    exists (Frame true w RB_BLACK kw vw r :: ctx), RB_RED, kx, vx, a, b. split_and!; try done.
    + congruence.
    + apply rb_around_intro; [done|]. right. split_and!; [done|done| |eauto].
      by constructor.
    + apply (inorder_plug_eq ctx). cbn. by rewrite_app.
    + by right.
  - apply wp_bind. eapply wp_lift; [done|].
    apply wp_bind. eapply wp_is_red_node; [exact Hsib|].
    rewrite bool_decide_false by done. apply wp_ret.
    exists ctx, cp, kw, vw, l, r. split_and!; try done. by left.
Qed.

Lemma wp_black_nephews spare ctx w k v l r (Q : bool -> rb_tree V E -> Prop) s :
  Rep spare (plug ctx (Node w RB_BLACK k v l r)) s ->
  Q (negb (bool_decide (color l = RB_RED)) && negb (bool_decide (color r = RB_RED))) s ->
  wp (black_nephews w) Q s.
Proof.
  intros H HQ. unfold black_nephews. apply wp_bind. eapply wp_rb_at; [by eapply rep_node|].
  apply wp_bind. eapply (wp_is_red _ (Frame true w _ k v r :: ctx)); [exact H|].
  apply wp_bind. eapply (wp_is_red _ (Frame false w _ k v l :: ctx)); [exact H|].
  by apply wp_ret.
Qed.

(** The subtree with a black root, and a subtree whose root is short of one black node:
    when it is red, blackening it makes up for it. *)
Definition blacken t : tree V :=
  match t with Leaf => Leaf | Node p _ k v l r => Node p RB_BLACK k v l r end.

Definition short (bh : nat) t : Prop :=
  match color t with RB_RED => rb (Datatypes.S bh) (blacken t) | RB_BLACK => rb bh t end.

Definition deleting spare L s0 (n : nat) (np : option nat * option nat) s : Prop :=
  exists ctx t bh, Rep spare (plug ctx t) s /\ others s = others s0 /\ np = (ptr t, up ctx) /\
    short bh t /\ rb_around (Datatypes.S bh) ctx /\ inorder (plug ctx t) = L /\
    n = (length ctx + if bool_decide (color t = RB_RED) then 0 else 1)%nat.

Definition deleted spare L s0 (node : option nat) s : Prop :=
  exists ctx t bh, Rep spare (plug ctx t) s /\ others s = others s0 /\ node = ptr t /\
    rb bh (blacken t) /\ rb_around bh ctx /\ inorder (plug ctx t) = L.

Lemma rb_sibling_red bh t w k v l r p k' v' left :
  rb bh t -> rb bh l -> rb bh r -> color l = RB_BLACK -> color r = RB_BLACK ->
  rb (Datatypes.S bh) (fill (Frame left p RB_BLACK k' v' (Node w RB_RED k v l r)) t).
Proof.
  intros. unfold fill. cbn. destruct left; constructor; try done; by constructor.
Qed.

Lemma delete_recolor_spec left spare ctx p cp kp vp w kw vw l r t bh L s0 s :
  let f := Frame left p cp kp vp (Node w RB_BLACK kw vw l r) in
  Rep spare (plug (f :: ctx) t) s -> others s = others s0 -> rb bh t -> rb bh l -> rb bh r ->
  color l = RB_BLACK -> color r = RB_BLACK -> rb_around (Datatypes.S bh) (f :: ctx) ->
  inorder (plug (f :: ctx) t) = L ->
  wp (delete_recolor p w) (fun np s' =>
    deleting spare L s0 (length ctx + if bool_decide (cp = RB_RED) then 0 else 1) np s') s.
Proof.
  intros f H Ho Ht Hl Hr Hcl Hcr Ha HL. unfold delete_recolor.
  apply wp_bind. eapply (wp_color_sibling _ f); [exact H|done|]. intros s1 H1 O1.
  set (f' := Frame _ _ _ _ _ _) in H1.
  apply wp_bind. eapply (wp_frame_at _ f'); [exact H1|]. apply wp_ret.
  apply rb_around_inv in Ha as [_ Ha]. cbn in Ha.
  assert (Hred : rb (Datatypes.S bh) (fill (Frame left p RB_BLACK kp vp (Node w RB_RED kw vw l r)) t))
    by (by apply rb_sibling_red).
  exists ctx, (fill f' t). exists (match cp with RB_RED => bh | RB_BLACK => Datatypes.S bh end).
  split_and!; [exact H1|congruence| | | | |].
  - rewrite ptr_fill. unfold frame_cell. by destruct (fr_left f').
  - unfold short. rewrite color_fill. subst f'. cbn [fr_c f fr_left fr_p fr_k fr_v].
    destruct cp; [|exact Hred]. unfold fill in *. cbn in *. by destruct left.
  - destruct cp; destruct Ha as [[? ?]|(? & ? & ? & ?)]; done.
  - rewrite <- HL. apply (inorder_plug_eq ctx). unfold fill. cbn. by destruct left.
  - by rewrite color_fill.
Qed.

(** Case 3: the red nephew ends on the far side. *)
Definition far_red (left : bool) spare ctx t bh L s0 p cp kp vp (w : nat) s : Prop :=
  exists cw kw vw near x kx vx l r,
    let far := Node x RB_RED kx vx l r in
    let sib := if left then Node w cw kw vw near far else Node w cw kw vw far near in
    let f := Frame left p cp kp vp sib in
    Rep spare (plug (f :: ctx) t) s /\ others s = others s0 /\ rb bh near /\
    rb bh l /\ rb bh r /\ inorder (plug (f :: ctx) t) = L.

Lemma left_near_nephew_spec spare ctx p cp kp vp w kw vw l r t bh L s0 s :
  let f := Frame true p cp kp vp (Node w RB_BLACK kw vw l r) in
  Rep spare (plug (f :: ctx) t) s -> others s = others s0 ->
  rb bh l -> rb bh r -> color l = RB_RED \/ color r = RB_RED ->
  inorder (plug (f :: ctx) t) = L ->
  wp (left_near_nephew p w) (far_red true spare ctx t bh L s0 p cp kp vp) s.
Proof.
  intros f H Ho Hl Hr Hred HL. unfold left_near_nephew.
  set (g := Frame false p cp kp vp t).
  change (Rep spare (plug (g :: ctx) (Node w RB_BLACK kw vw l r)) s) in H.
  apply wp_bind. eapply wp_rb_at; [by eapply rep_node|]. cbn [rb_right rb_left].
  apply wp_bind. eapply (wp_is_red _ (Frame false w _ kw vw l :: g :: ctx)); [exact H|].
  destruct (bool_decide (color r = RB_RED)) eqn:Er; cbn [negb].
  - apply bool_decide_eq_true in Er.
    destruct (rb_red_inv _ _ Hr Er) as (x & kx & vx & l' & r' & -> & Hl' & Hr' & _). apply wp_ret.
    by exists RB_BLACK, kw, vw, l, x, kx, vx, l', r'.
  - apply bool_decide_eq_false in Er. destruct Hred as [Hred|]; [|done].
    destruct (rb_red_inv _ _ Hl Hred) as (x & kx & vx & l' & r' & -> & Hl' & Hr' & _).
    apply wp_bind. eapply wp_lift; [done|].
    apply wp_bind. eapply (wp_set_color _ (Frame true w _ kw vw r :: g :: ctx)); [exact H|].
    intros s1 H1 O1.
    apply wp_bind. eapply (wp_color_frame _ (Frame true w _ kw vw r) (g :: ctx)); [exact H1|].
    intros s2 H2 O2.
    apply wp_bind. eapply (wp_rotate_right _ (g :: ctx)); [exact H2|]. intros s3 H3 O3.
    apply wp_bind. eapply (wp_frame_at _ (Frame true p cp kp vp (Node x _ _ _ _ _))); [exact H3|].
    eapply wp_lift; [done|].
    exists RB_BLACK, kx, vx, l', w, kw, vw, r', r. split_and!; try done.
    + congruence.
    + rewrite <- HL. apply (inorder_plug_eq ctx). cbn. by rewrite_app.
Qed.

Lemma left_far_nephew_spec spare ctx p cp kp vp w t bh L s0 s :
  far_red true spare ctx t bh L s0 p cp kp vp w s -> color t = RB_BLACK -> rb bh t ->
  cp = RB_BLACK /\ rb_around (Datatypes.S (Datatypes.S bh)) ctx \/
  cp = RB_RED /\ rb_around (Datatypes.S bh) ctx /\
    (exists g ctx', ctx = g :: ctx' /\ fr_c g = RB_BLACK) ->
  wp (left_far_nephew p w) (fun _ s' => deleted spare L s0 (ptr t) s') s.
Proof.
  intros (cw & kw & vw & near & x & kx & vx & l & r & H & Ho & Hn & Hl & Hr & HL) Hct Ht Hcase.
  cbv zeta iota in *. set (far c := Node x c kx vx l r). set (g := Frame false p cp kp vp t).
  unfold left_far_nephew.
  apply wp_bind. eapply wp_rb_at; [exact (rep_node _ (g :: ctx) _ _ _ _ _ _ _ H)|].
  apply wp_bind. eapply wp_lift; [done|].
  apply wp_bind. eapply (wp_frame_at _ (Frame true p cp kp vp _)); [exact H|].
  apply wp_bind. eapply (wp_set_color _ (g :: ctx)); [exact H|]. intros s1 H1 O1.
  apply wp_bind. eapply (wp_color_frame _ g ctx); [exact H1|]. intros s2 H2 O2.
  apply wp_bind.
  eapply (wp_set_color _ (Frame false w cp kw vw near :: recolor g RB_BLACK :: ctx)); [exact H2|].
  intros s3 H3 O3.
  eapply (wp_rotate_left _ ctx p RB_BLACK kp vp t w cp kw vw near (far RB_BLACK)); [exact H3|].
  intros s4 H4 O4.
  exists (Frame true p RB_BLACK kp vp near :: Frame true w cp kw vw (far RB_BLACK) :: ctx), t, bh.
  split_and!; [exact H4|congruence|done| | |].
  - destruct t; [done|]. cbn in Hct. by subst.
  - apply rb_around_intro; [done|]. left. split; [done|].
    apply rb_around_intro; [by constructor|]. destruct Hcase as [[-> ?]|(-> & ? & ?)]; [by left|by right].
  - rewrite <- HL. apply (inorder_plug_eq ctx). cbn. by rewrite_app.
Qed.

(** The mirror images. *)
Lemma right_black_sibling_spec spare ctx p cp kp vp sib t bh L s0 s :
  Rep spare (plug (Frame false p cp kp vp sib :: ctx) t) s -> others s = others s0 ->
  rb bh t -> rb_around (Datatypes.S bh) (Frame false p cp kp vp sib :: ctx) ->
  inorder (plug (Frame false p cp kp vp sib :: ctx) t) = L ->
  wp (right_black_sibling p) (black_sibling false spare t bh L s0 (length ctx) p kp vp) s.
Proof.
  intros H Ho Ht Ha HL. pose proof (rb_around_inv _ _ _ Ha) as [Hs Hcase]. cbn in Hs, Hcase.
  assert (Hsib : Rep spare (plug (Frame true p cp kp vp t :: ctx) sib) s) by exact H.
  unfold right_black_sibling. apply wp_bind. eapply (wp_frame_at _ (Frame false p _ _ _ _)); [exact H|].
  cbn [frame_cell fr_left rb_left fr_sib].
  inversion Hs as [|w kw vw l r n Hcl Hcr Hl Hr E1 E2|w kw vw l r n Hl Hr E1 E2]; subst.
  - destruct Hcase as [[-> Ha']|(_ & Hno & _)]; [|done].
    apply wp_bind. eapply wp_lift; [done|].
    apply wp_bind. eapply wp_is_red_node; [exact Hsib|]. rewrite bool_decide_true by done.
    apply wp_bind. eapply (wp_color_sibling _ (Frame false p _ _ _ _)); [exact H|done|].
    intros s1 H1 O1. cbn [fr_left fr_p fr_c fr_k fr_v] in H1.
    apply wp_bind. eapply (wp_color_frame _ (Frame false p _ _ _ _)); [exact H1|]. intros s2 H2 O2.
    apply wp_bind. eapply wp_rotate_right; [exact H2|]. intros s3 H3 O3.
    change (Rep spare (plug (Frame false p RB_RED kp vp r :: Frame false w RB_BLACK kw vw l :: ctx) t) s3) in H3.
    apply wp_bind. eapply (wp_frame_at _ (Frame false p _ _ _ _)); [exact H3|].
    cbn [frame_cell fr_left rb_left fr_sib].
    destruct (rb_node_inv _ _ Hr Hcr) as (x & kx & vx & a & b & m & -> & [= <-] & Hra & Hrb); [done|].
    eapply wp_lift; [done|].
    exists (Frame false w RB_BLACK kw vw l :: ctx), RB_RED, kx, vx, a, b. split_and!; try done.
    + congruence.
    + apply rb_around_intro; [by constructor|]. right. split_and!; [done|done| |eauto].
      by constructor.
    + apply (inorder_plug_eq ctx). cbn. by rewrite_app.
    + by right.
  - apply wp_bind. eapply wp_lift; [done|].
    apply wp_bind. eapply wp_is_red_node; [exact Hsib|].
    rewrite bool_decide_false by done. apply wp_ret.
    exists ctx, cp, kw, vw, l, r. split_and!; try done. by left.
Qed.

Lemma right_near_nephew_spec spare ctx p cp kp vp w kw vw l r t bh L s0 s :
  let f := Frame false p cp kp vp (Node w RB_BLACK kw vw l r) in
  Rep spare (plug (f :: ctx) t) s -> others s = others s0 ->
  rb bh l -> rb bh r -> color l = RB_RED \/ color r = RB_RED ->
  inorder (plug (f :: ctx) t) = L ->
  wp (right_near_nephew p w) (far_red false spare ctx t bh L s0 p cp kp vp) s.
Proof.
  intros f H Ho Hl Hr Hred HL. unfold right_near_nephew.
  set (g := Frame true p cp kp vp t).
  change (Rep spare (plug (g :: ctx) (Node w RB_BLACK kw vw l r)) s) in H.
  apply wp_bind. eapply wp_rb_at; [by eapply rep_node|]. cbn [rb_right rb_left].
  apply wp_bind. eapply (wp_is_red _ (Frame true w _ kw vw r :: g :: ctx)); [exact H|].
  destruct (bool_decide (color l = RB_RED)) eqn:Er; cbn [negb].
  - apply bool_decide_eq_true in Er.
    destruct (rb_red_inv _ _ Hl Er) as (x & kx & vx & l' & r' & -> & Hl' & Hr' & _). apply wp_ret.
    by exists RB_BLACK, kw, vw, r, x, kx, vx, l', r'.
  - apply bool_decide_eq_false in Er. destruct Hred as [|Hred]; [done|].
    destruct (rb_red_inv _ _ Hr Hred) as (x & kx & vx & l' & r' & -> & Hl' & Hr' & _).
    apply wp_bind. eapply wp_lift; [done|].
    apply wp_bind. eapply (wp_set_color _ (Frame false w _ kw vw l :: g :: ctx)); [exact H|].
    intros s1 H1 O1.
    apply wp_bind. eapply (wp_color_frame _ (Frame false w _ kw vw l) (g :: ctx)); [exact H1|].
    intros s2 H2 O2.
    apply wp_bind. eapply (wp_rotate_left _ (g :: ctx)); [exact H2|]. intros s3 H3 O3.
    apply wp_bind. eapply (wp_frame_at _ (Frame false p cp kp vp (Node x _ _ _ _ _))); [exact H3|].
    eapply wp_lift; [done|].
    exists RB_BLACK, kx, vx, r', w, kw, vw, l, l'. split_and!; try done.
    + congruence.
    + rewrite <- HL. apply (inorder_plug_eq ctx). cbn. by rewrite_app.
Qed.

Lemma right_far_nephew_spec spare ctx p cp kp vp w t bh L s0 s :
  far_red false spare ctx t bh L s0 p cp kp vp w s -> color t = RB_BLACK -> rb bh t ->
  cp = RB_BLACK /\ rb_around (Datatypes.S (Datatypes.S bh)) ctx \/
  cp = RB_RED /\ rb_around (Datatypes.S bh) ctx /\
    (exists g ctx', ctx = g :: ctx' /\ fr_c g = RB_BLACK) ->
  wp (right_far_nephew p w) (fun _ s' => deleted spare L s0 (ptr t) s') s.
Proof.
  intros (cw & kw & vw & near & x & kx & vx & l & r & H & Ho & Hn & Hl & Hr & HL) Hct Ht Hcase.
  cbv zeta iota in *. set (far c := Node x c kx vx l r). set (g := Frame true p cp kp vp t).
  unfold right_far_nephew.
  apply wp_bind. eapply wp_rb_at; [exact (rep_node _ (g :: ctx) _ _ _ _ _ _ _ H)|].
  apply wp_bind. eapply wp_lift; [done|].
  apply wp_bind. eapply (wp_frame_at _ (Frame false p cp kp vp _)); [exact H|].
  apply wp_bind. eapply (wp_set_color _ (g :: ctx)); [exact H|]. intros s1 H1 O1.
  apply wp_bind. eapply (wp_color_frame _ g ctx); [exact H1|]. intros s2 H2 O2.
  apply wp_bind.
  eapply (wp_set_color _ (Frame true w cp kw vw near :: recolor g RB_BLACK :: ctx)); [exact H2|].
  intros s3 H3 O3.
  eapply (wp_rotate_right _ ctx p RB_BLACK kp vp w cp kw vw (far RB_BLACK) near t); [exact H3|].
  intros s4 H4 O4.
  exists (Frame false p RB_BLACK kp vp near :: Frame false w cp kw vw (far RB_BLACK) :: ctx), t, bh.
  split_and!; [exact H4|congruence|done| | |].
  - destruct t; [done|]. cbn in Hct. by subst.
  - apply rb_around_intro; [done|]. left. split; [done|].
    apply rb_around_intro; [by constructor|]. destruct Hcase as [[-> ?]|(-> & ? & ?)]; [by left|by right].
  - rewrite <- HL. apply (inorder_plug_eq ctx). cbn. by rewrite_app.
Qed.

(** A round that works on the sibling: cases 1 and then 2, or 3 and 4. *)
Definition sibling_round (left : bool) (node : option nat) (parent : nat)
    : ST (rb_tree V E) (option nat * option nat + option nat) :=
  sibling ← (if left then left_black_sibling parent else right_black_sibling parent);
  black ← black_nephews sibling;
  if black : bool then np ← delete_recolor parent sibling; mret (inl np)
  else sibling ← (if left then left_near_nephew parent sibling
                  else right_near_nephew parent sibling);
       _ ← (if left then left_far_nephew parent sibling else right_far_nephew parent sibling);
       mret (inr node).

Lemma sibling_round_spec left spare ctx p cp kp vp sib t bh L s0 s :
  let f := Frame left p cp kp vp sib in
  Rep spare (plug (f :: ctx) t) s -> others s = others s0 -> color t = RB_BLACK -> rb bh t ->
  rb_around (Datatypes.S bh) (f :: ctx) -> inorder (plug (f :: ctx) t) = L ->
  wp (sibling_round left (ptr t) p) (fun res s' =>
    match res with
    | inl np => exists m, (m < Datatypes.S (length (f :: ctx)))%nat /\ deleting spare L s0 m np s'
    | inr node => deleted spare L s0 node s'
    end) s.
Proof.
  intros f H Ho Hct Ht Ha HL. unfold sibling_round.
  apply wp_bind. eapply (wp_mono _ (black_sibling left spare t bh L s0 (length ctx) p kp vp)).
  { subst f. destruct left; [by eapply left_black_sibling_spec|by eapply right_black_sibling_spec]. }
  clear H Ho Ha HL. intros w s1 (ctx1 & cp1 & kw & vw & l & r & H & Ho & Hl & Hr & Ha & HL & Hlen).
  set (f1 := Frame left p cp1 kp vp _) in *.
  apply wp_bind. eapply (wp_black_nephews _ (sib_frame f1 t :: ctx1)).
  { cbn [plug] in *. rewrite (fill_sib f1 t) in H. exact H. }
  destruct (negb (bool_decide (color l = RB_RED)) && negb (bool_decide (color r = RB_RED))) eqn:Ebl.
  - assert (color l = RB_BLACK /\ color r = RB_BLACK) as [Hcl Hcr]
      by (destruct (color l), (color r); done).
    apply wp_bind. eapply wp_mono; [by eapply delete_recolor_spec|].
    intros np s2 Hdel. apply wp_ret. eexists. split; [|exact Hdel].
    cbn [length]. destruct Hlen as [->|[-> ->]].
    { destruct (bool_decide (cp1 = _)); lia. }
    rewrite bool_decide_true by done. lia.
  - assert (color l = RB_RED \/ color r = RB_RED) as Hred
      by (destruct (color l), (color r); cbn in Ebl; auto; discriminate).
    apply wp_bind. eapply (wp_mono _ (far_red left spare ctx1 t bh L s0 p cp1 kp vp)).
    { subst f1. destruct left; [by eapply left_near_nephew_spec|by eapply right_near_nephew_spec]. }
    intros w2 s2 Hfar. apply rb_around_inv in Ha as [_ Ha]. cbn in Ha.
    assert (Hcase : cp1 = RB_BLACK /\ rb_around (Datatypes.S (Datatypes.S bh)) ctx1 \/
      cp1 = RB_RED /\ rb_around (Datatypes.S bh) ctx1 /\
        (exists g ctx', ctx1 = g :: ctx' /\ fr_c g = RB_BLACK))
      by (destruct Ha as [[? ?]|(? & _ & ? & ?)]; [by left|by right]).
    apply wp_bind. eapply (wp_mono _ (fun _ s' => deleted spare L s0 (ptr t) s')).
    { destruct left; [by eapply left_far_nephew_spec|by eapply right_far_nephew_spec]. }
    intros [] s3 Hdel. by apply wp_ret.
Qed.

Lemma short_black bh t : short bh t -> color t = RB_BLACK -> rb bh t.
Proof. unfold short. intros H Hc. by rewrite Hc in H. Qed.

Lemma blacken_id t : color t = RB_BLACK -> blacken t = t.
Proof. destruct t as [|p c k v l r]; [done|]. cbn. by intros ->. Qed.

Lemma balance_delete_round_spec spare L s0 n np s :
  deleting spare L s0 n np s ->
  wp (balance_delete_round np) (fun res s' =>
    match res with
    | inl np' => exists m, (m < n)%nat /\ deleting spare L s0 m np' s'
    | inr node => deleted spare L s0 node s'
    end) s.
Proof.
  intros (ctx & t & bh & H & Ho & -> & Hsh & Ha & HL & ->). unfold balance_delete_round.
  destruct ctx as [|f ctx].
  { apply wp_ret. exists [], t.
    exists (match color t with RB_RED => Datatypes.S bh | RB_BLACK => bh end).
    split_and!; try done; [|constructor].
    unfold short in Hsh. destruct (color t) eqn:E0; [done|by rewrite blacken_id]. }
  change (up (f :: ctx)) with (Some (fr_p f)). cbv iota.
  apply wp_bind. eapply wp_is_red; [exact H|].
  destruct (bool_decide (color t = RB_RED)) eqn:Er.
  { apply bool_decide_eq_true in Er. apply wp_ret.
    exists (f :: ctx), t, (Datatypes.S bh). unfold short in Hsh. rewrite Er in Hsh. by split_and!. }
  apply bool_decide_eq_false in Er.
  assert (Hb : color t = RB_BLACK) by (by destruct (color t)).
  apply short_black in Hsh; [|done]. pose proof (rb_around_inv _ _ _ Ha) as [Hs _].
  assert (Hne : ptr (fr_sib f) <> None) by (by inversion Hs).
  apply wp_bind. eapply wp_frame_at; [exact H|].
  destruct (rep_side _ _ _ _ _ (up ctx) H) as [-> _]; [by right|].
  rewrite Nat.add_1_r. destruct f as [[] p cp kp vp sib]; cbn [fr_left fr_p] in *.
  - exact (sibling_round_spec true _ _ _ _ _ _ _ _ _ _ _ _ H Ho Hb Hsh Ha HL).
  - exact (sibling_round_spec false _ _ _ _ _ _ _ _ _ _ _ _ H Ho Hb Hsh Ha HL).
Qed.

(** After the node [q] was taken out of the tree and before it is freed. *)
Lemma rep_size_spare spare t s q n :
  Rep spare t s -> spare !! q = Some n -> (length (addrs t) < size (rb_heap s))%nat.
Proof.
  intros [_ Hc Hn Hs Hap _] Hq.
  assert (Hqt : q ∉ addrs t) by (intros Hin; apply Hap in Hin; congruence).
  rewrite <- size_dom. change (length (addrs t) < ?n)%nat with (length (q :: addrs t) <= n)%nat.
  rewrite <- (size_list_to_set (C := gset nat) (q :: addrs t)) by (by constructor).
  apply subseteq_size. intros p. rewrite elem_of_list_to_set, elem_of_dom, elem_of_cons.
  intros [->|Hp]; [by exists n; rewrite Hs|].
  rewrite <- (cells_addrs None), list_elem_of_fmap in Hp. destruct Hp as ([? m] & -> & Hm).
  exists m. by apply Hc.
Qed.

Lemma balance_delete_spec spare ctx t bh q n s (Q : unit -> rb_tree V E -> Prop) :
  Rep spare (plug ctx t) s -> spare !! q = Some n -> rb bh t -> rb_around (Datatypes.S bh) ctx ->
  (forall t' m s', Rep spare t' s' -> others s' = others s -> rb m t' -> color t' = RB_BLACK ->
     inorder t' = inorder (plug ctx t) -> Q tt s') ->
  wp (rb_balance_delete (ptr t) (up ctx)) Q s.
Proof.
  intros H Hq Ht Ha HQ. unfold rb_balance_delete. apply wp_bind, wp_gets.
  apply wp_bind. eapply wp_mono.
  { eapply (wp_loop_nat (deleting spare (inorder (plug ctx t)) s) _
      (fun node s' => deleted spare (inorder (plug ctx t)) s node s')).
    - exists ctx, t, bh. split_and!; try done.
      unfold short. destruct (color t) eqn:Ec; [|done].
      destruct (rb_red_inv _ _ Ht Ec) as (? & ? & ? & ? & ? & -> & ? & ? & _). by constructor.
    - pose proof (rep_size_spare _ _ _ _ _ H Hq). pose proof (length_plug ctx t).
      destruct (bool_decide _); lia.
    - intros m np s' Hdel. by apply balance_delete_round_spec. }
  intros node s1 (ctx1 & t1 & n1 & H1 & O1 & -> & Hb1 & Ha1 & HL).
  assert (Hcb : color (blacken t1) = RB_BLACK) by (by destruct t1).
  destruct (rb_plug n1 ctx1 (blacken t1)) as (m & Hm & Hcol); [done|done|by right|].
  assert (Hcol' : color (plug ctx1 (blacken t1)) = RB_BLACK)
    by (destruct ctx1; [done|by apply Hcol]).
  destruct t1 as [|p c k v l r]; cbn [ptr].
  - apply wp_ret. by eapply HQ.
  - eapply wp_set_color; [exact H1|]. intros s2 H2 O2.
    eapply HQ; [exact H2|congruence|exact Hm|done|]. rewrite <- HL. by apply inorder_plug_eq.
Qed.
End delete.
