(* ===== verification/RbMap.v ===== *)
(** What the public functions of rbtree_op.c do, seen from outside: an ordered
    association list. *)
From stdpp Require Import gmap sorting.
From S2P Require Import Prelude RbTree RbBalance.
#[local] Open Scope Z_scope.

(** * Order *)

Lemma strcmp_eq a b : strcmp a b = 0 <-> a = b.
Proof.
  revert b. induction a as [|x a IH]; intros [|y b]; cbn; try done.
  destruct (Z.eqb_spec x y) as [->|Hne].
  - rewrite IH. split; congruence.
  - destruct (x <? y); split; congruence.
Qed.

Lemma strcmp_refl a : strcmp a a = 0.
Proof. by apply strcmp_eq. Qed.

Lemma strcmp_flip a b : strcmp a b < 0 <-> 0 < strcmp b a.
Proof.
  revert b. induction a as [|x a IH]; intros [|y b]; cbn; try lia.
  destruct (Z.eqb_spec x y) as [->|Hne].
  - by rewrite Z.eqb_refl.
  - destruct (Z.eqb_spec y x); [lia|]. destruct (Z.ltb_spec x y), (Z.ltb_spec y x); lia.
Qed.

Lemma strcmp_trans a b c : strcmp a b < 0 -> strcmp b c < 0 -> strcmp a c < 0.
Proof.
  revert b c. induction a as [|x a IH]; intros [|y b] [|z c]; cbn; try lia.
  destruct (Z.eqb_spec x y), (Z.eqb_spec y z), (Z.eqb_spec x z); subst; try lia; [by apply IH|..];
    repeat match goal with |- context [?u <? ?v] => destruct (Z.ltb_spec u v) end; lia.
Qed.

#[export] Instance klt_transitive : Transitive (fun a b : bytes => strcmp a b < 0).
Proof. intros a b c. apply strcmp_trans. Qed.

Section search.
Context {V E : Type}.
Implicit Types (t l r : tree V) (ctx : list (frame V)) (s : rb_tree V E)
  (L : list (bytes * option V)).

Definition sorted L : Prop := StronglySorted (fun x y => strcmp (fst x) (fst y) < 0) L.

(** All keys of [A] come before [key], and [key] before all keys of [B]. *)
Definition splits (key : bytes) (A B : list (bytes * option V)) : Prop :=
  Forall (fun x => strcmp (fst x) key < 0) A /\ Forall (fun x => strcmp key (fst x) < 0) B.

Lemma sorted_middle A k v B : sorted (A ++ (k, v) :: B) <-> sorted (A ++ B) /\ splits k A B.
Proof.
  unfold sorted, splits. rewrite !StronglySorted_app, StronglySorted_cons, !Forall_forall.
  setoid_rewrite elem_of_cons. split.
  - intros (H1 & H2 & H3 & H4). split_and!; [by eauto|done|done| |done].
    intros x Hx. apply (H1 x (k, v)); [done|by left].
  - intros [(H1 & H2 & H3) [HA HB]]. split_and!; [|done|done|done].
    intros x y Hx [->|Hy]; [by apply HA|by apply H1].
Qed.

(** The key of a node decides on which side of it [key] is. *)
Lemma splits_left key k v A B :
  strcmp key k < 0 -> splits k A B -> Forall (fun x => strcmp key (fst x) < 0) ((k, v) :: B).
Proof.
  intros Hk [_ HB]. constructor; [done|]. eapply Forall_impl; [exact HB|].
  intros x Hx. exact (strcmp_trans _ _ _ Hk Hx).
Qed.

Lemma splits_right key k v A B :
  0 < strcmp key k -> splits k A B -> Forall (fun x => strcmp (fst x) key < 0) (A ++ [(k, v)]).
Proof.
  intros Hk%strcmp_flip [HA _]. apply Forall_app. split; [|by repeat constructor].
  eapply Forall_impl; [exact HA|]. intros x Hx. exact (strcmp_trans _ _ _ Hx Hk).
Qed.

(** The place of [key] in the surroundings of a subtree. *)
Definition between (key : bytes) ctx : Prop := splits key (before ctx) (after ctx).

Lemma between_nil key : between key [].
Proof. by split; constructor. Qed.

(** The order of the keys around a node. *)
Lemma node_splits ctx p c k v l r :
  sorted (inorder (plug ctx (Node p c k v l r))) ->
  splits k (before ctx ++ inorder l) (inorder r ++ after ctx).
Proof.
  rewrite inorder_plug. cbn [inorder]. rewrite <- app_assoc. cbn [app].
  rewrite app_assoc. by intros [_ H]%sorted_middle.
Qed.

Lemma between_left key ctx p c k v l r :
  sorted (inorder (plug ctx (Node p c k v l r))) -> between key ctx -> strcmp key k < 0 ->
  between key (Frame true p c k v r :: ctx).
Proof.
  intros Hs%node_splits [HA HB] Hk. split; cbn [before after fr_left fr_k fr_v fr_sib].
  - by rewrite app_nil_r.
  - eapply (splits_left key k v) in Hs; [|done]. exact Hs.
Qed.

Lemma between_right key ctx p c k v l r :
  sorted (inorder (plug ctx (Node p c k v l r))) -> between key ctx -> 0 < strcmp key k ->
  between key (Frame false p c k v l :: ctx).
Proof.
  intros Hs%node_splits [HA HB] Hk. split; cbn [before after fr_left fr_k fr_v fr_sib]; [|done].
  eapply (splits_right key k v) in Hs; [|done]. by rewrite app_assoc.
Qed.

(** ** The walk down *)

(** One comparison of the walk: the result decides between the node and a subtree. *)
Lemma walk_step spare ctx p c k v l r key s :
  sorted (inorder (plug ctx (Node p c k v l r))) -> between key ctx ->
  Rep spare (plug ctx (Node p c k v l r)) s ->
  strcmp key k = 0 /\ key = k \/
  strcmp key k <> 0 /\ exists f t', plug (f :: ctx) t' = plug ctx (Node p c k v l r) /\
    ptr t' = (if strcmp key k <? 0 then ptr l else ptr r) /\ fr_p f = p /\
    fr_left f = (strcmp key k <? 0) /\ between key (f :: ctx) /\
    (length (addrs t') < length (addrs (Node p c k v l r)))%nat.
Proof.
  intros Hs Hb H. destruct (Z.eq_dec (strcmp key k) 0) as [E0|Hne].
  { left. split; [done|]. by apply strcmp_eq. }
  right. split; [done|]. destruct (Z.ltb_spec (strcmp key k) 0) as [Hlt|Hge].
  - exists (Frame true p c k v r), l. split_and!; try done.
    + by eapply between_left.
    + cbn. rewrite length_app. lia.
  - exists (Frame false p c k v l), r. split_and!; try done.
    + eapply between_right; [done|done|]. lia.
    + cbn. rewrite length_app. lia.
Qed.

(** What a search finds: the node with the key, or the place where it would be. *)
Definition found (key : bytes) t (res : option nat) : Prop :=
  match res with
  | Some p => exists ctx c v l r, t = plug ctx (Node p c key v l r) /\ between key ctx
  | None => exists ctx, t = plug ctx Leaf /\ between key ctx
  end.

Lemma rb_get_spec spare ctx t key fuel s (Q : option nat -> rb_tree V E -> Prop) :
  Rep spare (plug ctx t) s -> sorted (inorder (plug ctx t)) -> between key ctx ->
  (length (addrs t) < fuel)%nat ->
  (forall res, found key (plug ctx t) res -> Q res s) -> wp (rb_get fuel (ptr t) key) Q s.
Proof.
  intros H Hs Hb Hf HQ. unfold rb_get.
  apply (wp_loop_nat (fun n node s' => s' = s /\ exists ctx' t', plug ctx' t' = plug ctx t /\
    node = ptr t' /\ n = length (addrs t') /\ between key ctx') _ _ _ (length (addrs t)));
    [by split; [|exists ctx, t]|done|].
  intros n node s' (-> & ctx' & t' & E0 & -> & -> & Hb'). rewrite <- E0 in *.
  destruct t' as [|p c k v l r]; cbn [ptr].
  - apply wp_ret. apply HQ. by exists ctx'.
  - apply wp_bind. eapply wp_rb_at; [by eapply rep_node|]. cbn [rb_key rb_left rb_right].
    destruct (walk_step _ _ _ _ _ _ _ _ _ _ Hs Hb' H)
      as [[-> ->]|(Hne & f & t2 & Et & Hp & _ & _ & Hb2 & Hl)].
    + apply wp_ret. apply HQ. by exists ctx', c, v, l, r.
    + destruct (Z.eqb_spec (strcmp key k) 0); [done|]. apply wp_ret. rewrite <- Hp.
      exists (length (addrs t2)). split; [exact Hl|]. split; [done|]. by exists (f :: ctx'), t2.
Qed.

Lemma rb_find_spec spare t key s (Q : option nat -> rb_tree V E -> Prop) :
  Rep spare t s -> sorted (inorder t) -> (forall res, found key t res -> Q res s) ->
  wp (rb_find key) Q s.
Proof.
  intros H Hs HQ. apply wp_bind, wp_gets, wp_bind, wp_gets. rewrite (rep_root _ _ _ H).
  pose proof (rep_size _ _ _ H).
  eapply (rb_get_spec _ []); [exact H|exact Hs|apply between_nil|lia|exact HQ].
Qed.

(** The walk of [rbtree_insert] also remembers the last node and comparison. *)
Definition new_place (key : bytes) t (res : option (option nat * Z)) : Prop :=
  match res with
  | None => exists ctx p c v l r, t = plug ctx (Node p c key v l r) /\ between key ctx
  | Some (parent, cmp) => exists ctx, t = plug ctx Leaf /\ between key ctx /\ parent = up ctx /\
      match ctx with [] => True | f :: _ => fr_left f = (cmp <? 0) end
  end.

Lemma find_parent_spec spare t key s (Q : option (option nat * Z) -> rb_tree V E -> Prop) :
  Rep spare t s -> sorted (inorder t) -> (forall res, new_place key t res -> Q res s) ->
  wp (find_parent key) Q s.
Proof.
  intros H Hs HQ. apply wp_bind, wp_gets, wp_bind, wp_gets. rewrite (rep_root _ _ _ H).
  pose proof (rep_size _ _ _ H).
  apply (wp_loop_nat (fun n '(parent, cmp, node) s' => s' = s /\ exists ctx' t', plug ctx' t' = t /\
    parent = up ctx' /\ node = ptr t' /\ n = length (addrs t') /\ between key ctx' /\
    match ctx' with [] => True | f :: _ => fr_left f = (cmp <? 0) end) _ _ _ (length (addrs t)));
    [split; [done|]; exists [], t; split_and!; try done; apply between_nil|lia|].
  intros n [[parent cmp] node] s' (-> & ctx' & t' & <- & -> & -> & -> & Hb' & Hd).
  destruct t' as [|p c k v l r]; cbn [ptr].
  - apply wp_ret. apply HQ. by exists ctx'.
  - apply wp_bind. eapply wp_rb_at; [by eapply rep_node|]. cbn [rb_key rb_left rb_right].
    destruct (walk_step _ _ _ _ _ _ _ _ _ _ Hs Hb' H)
      as [[-> ->]|(Hne & f & t2 & Et & Hp & Hfp & Hfl & Hb2 & Hl)].
    + apply wp_ret. apply HQ. by exists ctx', p, c, v, l, r.
    + destruct (Z.eqb_spec (strcmp key k) 0); [done|]. apply wp_ret. rewrite <- Hp.
      exists (length (addrs t2)). split; [exact Hl|]. split; [done|]. exists (f :: ctx'), t2.
      split_and!; try done. by rewrite <- Hfp.
Qed.
End search.

(** * Linking a node in and out *)

Section linking.
Context {V E : Type}.
Implicit Types (t l r : tree V) (ctx : list (frame V)) (s : rb_tree V E).

Lemma plug_app ctx1 ctx2 t : plug (ctx1 ++ ctx2) t = plug ctx2 (plug ctx1 t).
Proof. revert t. induction ctx1 as [|f ctx1 IH]; intros t; [done|]. apply IH. Qed.

Lemma rep_ext spare t s s' :
  Rep spare t s -> rb_root s' = rb_root s -> rb_heap s' = rb_heap s -> rb_fresh s' = rb_fresh s ->
  Rep spare t s'.
Proof. intros [] Hr Hh Hf. constructor; rewrite ?Hr, ?Hh, ?Hf; done. Qed.

(** Where a red-black tree is cut, both parts keep the property. *)
Lemma rb_unplug ctx t m :
  rb m (plug ctx t) -> color (plug ctx t) = RB_BLACK ->
  exists n, rb n t /\ rb_around n ctx /\ (black_above ctx \/ color t = RB_BLACK).
Proof.
  revert t. induction ctx as [|f ctx IH]; intros t Hm Hc.
  { exists m. split_and!; [done|constructor|by left]. }
  destruct (IH (fill f t) Hm Hc) as (n & Hn & Ha & Hcol). rewrite color_fill in Hcol.
  unfold fill in Hn. destruct (fr_c f) eqn:Ec.
  - assert (Hab : black_above ctx) by (by destruct Hcol).
    assert (Hctx : ctx <> []) by (intros ->; cbn in Hc; rewrite color_fill in Hc; congruence).
    destruct ctx as [|g ctx]; [done|].
    exists n. destruct (fr_left f); inversion Hn; subst; split_and!; try done;
      try (by constructor); by right.
  - destruct (fr_left f); inversion Hn as [| |? ? ? ? ? n' Hl Hr]; subst; exists n';
      (split_and!; [done|by constructor|by left]).
Qed.

(** The keys and values do not matter for the property. *)
Lemma rb_plug_congr ctx t t' m :
  (forall n, rb n t -> rb n t') -> color t' = color t -> rb m (plug ctx t) -> rb m (plug ctx t').
Proof.
  revert t t'. induction ctx as [|f ctx IH]; intros t t' Ht Hc; [apply Ht|].
  apply IH; [|by rewrite !color_fill]. intros n. unfold fill.
  destruct (fr_left f); inversion 1; subst; constructor; auto; congruence.
Qed.

Lemma rb_rekey ctx p c k v l r k' v' m :
  rb m (plug ctx (Node p c k v l r)) -> rb m (plug ctx (Node p c k' v' l r)).
Proof. apply rb_plug_congr; [|done]. intros n. inversion 1; subst; by constructor. Qed.

Lemma color_plug ctx t t' : color t' = color t -> color (plug ctx t') = color (plug ctx t).
Proof.
  revert t t'. induction ctx as [|f ctx IH]; intros t t' Hc; [done|]. apply IH. by rewrite !color_fill.
Qed.

(** A new node, allocated and not linked. *)
Lemma rb_init_spec t key value s (Q : nat -> rb_tree V E -> Prop) :
  Rep ∅ t s ->
  (forall node s', node ∉ addrs t ->
     Rep {[node := RbNode key value RB_RED None None None]} t s' ->
     rb_dispose s' = rb_dispose s -> rb_env s' = rb_env s -> rb_strings s' = rb_strings s + 1 ->
     (node < rb_fresh s')%nat -> Q node s') ->
  wp (rb_init key value) Q s.
Proof.
  intros [Hr Hc Hn Hs _ Hf] HQ. set (node := rb_fresh s).
  assert (Hno : node ∉ addrs t) by (intros Hin%Hf; unfold node in Hin; lia).
  apply wp_bind, wp_gets, wp_bind, wp_modify, wp_ret. fold node. apply HQ; try done.
  - constructor; cbn [rb_root rb_heap rb_fresh update eta_rb_tree]; try done.
    + intros p n Hp. rewrite lookup_insert_ne; [by apply Hc|].
      intros ->. by apply Hno, (elem_of_cells None _ _ n).
    + intros p Hp. destruct (decide (p = node)) as [->|Hne].
      * by rewrite lookup_insert_eq, lookup_singleton_eq.
      * rewrite lookup_insert_ne, lookup_singleton_ne by done. by rewrite Hs.
    + intros p Hp. rewrite lookup_singleton_ne; [done|by intros <-].
    + intros p Hp%Hf. unfold node. lia.
  - cbn [rb_fresh update eta_rb_tree]. unfold node. lia.
Qed.

(** The links from and to a new node. *)
Lemma link_spec ctx node key value cmp s (Q : unit -> rb_tree V E -> Prop) :
  Rep {[node := RbNode key value RB_RED None None None]} (plug ctx Leaf) s ->
  (node < rb_fresh s)%nat -> match ctx with [] => True | f :: _ => fr_left f = (cmp <? 0) end ->
  (forall s', Rep ∅ (plug ctx (Node node RB_RED key value Leaf Leaf)) s' ->
     others s' = others s -> Q tt s') ->
  wp (match up ctx with
      | None => set_root (Some node)
      | Some p =>
          if cmp <? 0 then rb_set p (fun n => n <| rb_left := Some node |>)
          else rb_set p (fun n => n <| rb_right := Some node |>)
      end) (fun _ => wp (rb_set node (fun n => n <| rb_parent := up ctx |>)) Q) s.
Proof.
  intros H Hfresh Hd HQ. pose proof (rep_distinct _ _ _ _ H) as Hn. cbn [addrs app] in Hn.
  pose proof (rep_root _ _ _ H) as Hroot. rewrite ptr_plug in Hroot.
  assert (Hno : node ∉ addrs (plug ctx Leaf)).
  { intros Hin%(rep_apart _ _ _ H). by rewrite lookup_singleton_eq in Hin. }
  pose proof Hno as Hno'. rewrite addrs_plug in Hno'. cbn [addrs app] in Hno'.
  assert (Hnode : rb_heap s !! node = Some (RbNode key value RB_RED None None None))
    by (rewrite (rep_spare _ _ _ H) by done; apply lookup_singleton_eq).
  set (h := relink ctx (Some node) (rb_heap s)).
  eapply (wp_mono _ (fun _ s' => s' = on s (root_of ctx (Some node)) h)).
  { destruct ctx as [|f ctx]; [by apply wp_modify|].
    change (up (f :: ctx)) with (Some (fr_p f)). cbv iota.
    assert (Hf := rep_frame_cell _ _ _ _ _ H). subst h. cbn [relink root_of] in *.
    rewrite <- Hroot. unfold link. rewrite (on_id s) at 1.
    rewrite Hd. destruct (cmp <? 0); by eapply wp_rb_set. }
  intros [] s1 ->. eapply wp_rb_set; [unfold h; by rewrite relink_ne|].
  apply HQ; [|done]. constructor; cbn [rb_root rb_heap rb_fresh on].
  - by rewrite ptr_plug.
  - intros p n. rewrite cells_plug. cbn [cells app ptr]. rewrite elem_of_cons. intros [[= -> ->]|Hp].
    + rewrite lookup_alter_eq. unfold h. by rewrite relink_ne, Hnode.
    + rewrite lookup_alter_ne by (intros <-; by apply Hno', (elem_of_around _ _ _ n Hp)).
      eapply relink_around; [exact Hn| |exact Hp]. intros q m Hq. eapply rep_at; [exact H|by right].
  - rewrite addrs_plug. cbn. by constructor.
  - intros p. rewrite addrs_plug. cbn. rewrite elem_of_cons. intros Hp.
    rewrite lookup_alter_ne by naive_solver. unfold h. rewrite relink_ne by naive_solver.
    rewrite (rep_spare _ _ _ H); [by rewrite lookup_singleton_ne by naive_solver|].
    rewrite addrs_plug. cbn. naive_solver.
  - done.
  - intros p. rewrite addrs_plug. cbn. rewrite elem_of_cons. intros [->|Hp]; [done|].
    apply (rep_fresh _ _ _ H). by rewrite addrs_plug.
Qed.

(** The links around a node with at most one child, which takes its place. *)
Definition only_child t l r : Prop := l = Leaf /\ t = r \/ r = Leaf /\ t = l.

Lemma unlink_spec spare ctx q c k v l r t s (Q : unit -> rb_tree V E -> Prop) :
  Rep spare (plug ctx (Node q c k v l r)) s -> only_child t l r ->
  (forall s', Rep (<[q := RbNode k v c (up ctx) (ptr l) (ptr r)]> spare) (plug ctx t) s' ->
     others s' = others s -> Q tt s') ->
  wp (replace_child (up ctx) q (ptr t)) (fun _ =>
    wp (match ptr t with
        | Some t => rb_set t (fun n => n <| rb_parent := up ctx |>)
        | None => mret tt
        end) Q) s.
Proof.
  intros H Hone HQ. pose proof (rep_distinct _ _ _ _ H) as Hn.
  assert (Hadd : addrs l ++ addrs r = addrs t)
    by (destruct Hone as [[-> ->]|[-> ->]]; cbn; by rewrite ?app_nil_r).
  assert (Hcell : forall par, cells par l ++ cells par r = cells par t)
    by (intros par; destruct Hone as [[-> ->]|[-> ->]]; cbn; by rewrite ?app_nil_r).
  cbn in Hn. rewrite Hadd in Hn. apply NoDup_cons in Hn as [Hq Hn].
  apply NoDup_app in Hn as (Ht & Hto & Ho). rewrite elem_of_app in Hq.
  assert (Hcells : forall p n, (p, n) ∈ cells (Some q) t -> rb_heap s !! p = Some n).
  { intros p n Hp. eapply rep_at; [exact H|]. left. cbn [cells]. rewrite Hcell.
    by apply list_elem_of_further. }
  eapply wp_replace_child; [exact H|done|].
  eapply (wp_reparent t (Some q)).
  { intros p n Hp. rewrite relink_ne; [by apply Hcells|]. by eapply Hto, elem_of_cells. }
  apply HQ; [|done]. set (h := reparent _ _ _).
  assert (Hne : forall p, p ∉ addrs t -> p ∉ around_addrs ctx -> h !! p = rb_heap s !! p)
    by (intros p Hp1 Hp2; unfold h; by rewrite reparent_ne, relink_ne).
  constructor; cbn [rb_root rb_heap rb_fresh on].
  - by rewrite ptr_plug.
  - intros p n. rewrite cells_plug, elem_of_app. unfold h. intros [Hp|Hp].
    + eapply (reparent_cells _ (Some q)); [done| |exact Hp].
      intros x m Hx. rewrite relink_ne; [by apply Hcells|]. by eapply Hto, elem_of_cells.
    + rewrite reparent_ne; [|intros Hin; by eapply Hto, elem_of_around].
      eapply relink_around; [done| |exact Hp]. intros x m Hx. eapply rep_at; [exact H|by right].
  - rewrite addrs_plug, NoDup_app. done.
  - intros p. rewrite addrs_plug, elem_of_app. intros Hp. rewrite Hne by tauto.
    destruct (decide (p = q)) as [->|Hpq].
    + rewrite lookup_insert_eq. by eapply rep_node.
    + rewrite lookup_insert_ne by done. apply (rep_spare _ _ _ H).
      rewrite addrs_plug. cbn. rewrite Hadd, elem_of_cons, elem_of_app. tauto.
  - intros p. rewrite addrs_plug, elem_of_app. intros Hp.
    rewrite lookup_insert_ne by (intros <-; tauto). apply (rep_apart _ _ _ H).
    rewrite addrs_plug. cbn. rewrite Hadd, elem_of_cons, elem_of_app. tauto.
  - intros p. rewrite addrs_plug, elem_of_app. intros Hp. apply (rep_fresh _ _ _ H).
    rewrite addrs_plug. cbn. rewrite Hadd, elem_of_cons, elem_of_app. tauto.
Qed.

Lemma free_node_spec spare q n t s (Q : unit -> rb_tree V E -> Prop) :
  Rep (<[q := n]> spare) t s -> spare !! q = None ->
  (forall s', Rep spare t s' -> others s' = others s -> Q tt s') -> wp (free_node q) Q s.
Proof.
  intros H Hq HQ.
  assert (Hno : q ∉ addrs t).
  { intros Hin%(rep_apart _ _ _ H). by rewrite lookup_insert_eq in Hin. }
  assert (Hh : rb_heap s !! q = Some n)
    by (rewrite (rep_spare _ _ _ H) by done; apply lookup_insert_eq).
  apply wp_bind. eapply wp_rb_at; [exact Hh|]. apply wp_modify. apply HQ; [|done].
  destruct H as [Hr Hc Hn Hs Ha Hf].
  constructor; cbn [rb_root rb_heap rb_fresh update eta_rb_tree]; try done.
  - intros p m Hp. rewrite lookup_delete_ne; [by apply Hc|].
    intros ->. by eapply Hno, elem_of_cells.
  - intros p Hp. destruct (decide (p = q)) as [->|Hne].
    + by rewrite lookup_delete_eq.
    + rewrite lookup_delete_ne by done. rewrite Hs by done. by rewrite lookup_insert_ne.
  - intros p Hp. apply Ha in Hp as Hp'. rewrite lookup_insert_ne in Hp'; [done|by intros <-].
Qed.
End linking.

(** * The ordered association list *)

Section items.
Context {V : Type}.
Implicit Types (L A B : list (bytes * option V)).

Fixpoint al_get (key : bytes) L : option (option V) :=
  match L with
  | [] => None
  | (k, v) :: L => if bool_decide (k = key) then Some v else al_get key L
  end.
Definition al_insert (key : bytes) (value : option V) L : list (bytes * option V) :=
  filter (fun x => strcmp (fst x) key < 0) L ++
  (key, value) :: filter (fun x => strcmp key (fst x) < 0) L.
Definition al_delete (key : bytes) L : list (bytes * option V) :=
  filter (fun x => fst x <> key) L.
Definition al_replace (key : bytes) (value : option V) L : list (bytes * option V) :=
  (fun x => if bool_decide (fst x = key) then (key, value) else x) <$> L.

Lemma splits_ne key A B : splits key A B -> Forall (fun x => fst x <> key) (A ++ B).
Proof.
  intros [HA HB]. apply Forall_app. split; (eapply Forall_impl; [eassumption|]);
    intros [k v] Hx Heq; cbn in *; subst; rewrite strcmp_refl in Hx; lia.
Qed.

Lemma al_get_app key L1 L2 :
  Forall (fun x => fst x <> key) L1 -> al_get key (L1 ++ L2) = al_get key L2.
Proof.
  induction 1 as [|[k v] L1 Hk _ IH]; [done|]. cbn in *. by rewrite bool_decide_false.
Qed.

Lemma al_get_absent key A B : splits key A B -> al_get key (A ++ B) = None.
Proof.
  intros H%splits_ne. rewrite <- (app_nil_r (A ++ B)). by rewrite al_get_app.
Qed.

Lemma al_get_present key A v B : splits key A B -> al_get key (A ++ (key, v) :: B) = Some v.
Proof.
  intros [H _]%splits_ne%Forall_app. rewrite al_get_app by done. cbn. by rewrite bool_decide_true.
Qed.

Lemma filter_all (P : bytes * option V -> Prop) `{!forall x, Decision (P x)} L :
  Forall P L -> filter P L = L.
Proof. induction 1 as [|x L Hx _ IH]; [done|]. by rewrite filter_cons_True, IH. Qed.

Lemma filter_none (P : bytes * option V -> Prop) `{!forall x, Decision (P x)} L :
  Forall (fun x => ~ P x) L -> filter P L = [].
Proof. induction 1 as [|x L Hx _ IH]; [done|]. by rewrite filter_cons_False. Qed.

Lemma al_insert_splits key v A B :
  splits key A B -> al_insert key v (A ++ B) = A ++ (key, v) :: B.
Proof.
  intros [HA HB]. unfold al_insert. rewrite !filter_app. 
  rewrite (filter_all (fun x => strcmp (fst x) key < 0) A) by done.
  rewrite (filter_all (fun x => strcmp key (fst x) < 0) B) by done.
  rewrite (filter_none _ B), (filter_none _ A); [by rewrite app_nil_r| |].
  - eapply Forall_impl; [exact HA|]. cbn. intros x Hx%strcmp_flip. lia.
  - eapply Forall_impl; [exact HB|]. cbn. intros x Hx%strcmp_flip. lia.
Qed.

Lemma al_delete_splits key v A B : splits key A B -> al_delete key (A ++ (key, v) :: B) = A ++ B.
Proof.
  intros H%splits_ne. unfold al_delete. rewrite filter_app, filter_cons_False by (cbn; tauto).
  rewrite <- filter_app. by apply filter_all.
Qed.

Lemma al_replace_splits key v v' A B :
  splits key A B -> al_replace key v' (A ++ (key, v) :: B) = A ++ (key, v') :: B.
Proof.
  intros [HA HB]%splits_ne%Forall_app. unfold al_replace. rewrite fmap_app, fmap_cons.
  cbn [fst]. rewrite bool_decide_true by done.
  assert (Hid : forall L, Forall (fun x => fst x <> key) L ->
    (fun x => if bool_decide (fst x = key) then (key, v') else x) <$> L = L).
  { induction 1 as [|x L Hx _ IH]; [done|]. rewrite fmap_cons, IH. by rewrite bool_decide_false. }
  by rewrite !Hid.
Qed.

Lemma al_delete_absent key A B : splits key A B -> al_delete key (A ++ B) = A ++ B.
Proof. intros H%splits_ne. by apply filter_all. Qed.
End items.

(** * The public functions *)

Section functions.
Context {V E : Type}.
Implicit Types (t l r : tree V) (ctx : list (frame V)) (s : rb_tree V E)
  (L : list (bytes * option V)).

(** The tree of [s] holds the items [L], is a red-black tree of black height [n], and
    every node and every key that is allocated is in it. *)
Record holds L n s : Prop := {
  ho_tree : exists t, Rep ∅ t s /\ rb n t /\ color t = RB_BLACK /\ inorder t = L;
  ho_sorted : sorted L;
  ho_strings : rb_strings s = zlen L;
}.

(** Nothing else is allocated. *)
Lemma holds_size L n s : holds L n s -> size (rb_heap s) = length L.
Proof.
  intros [(t & H & _ & _ & <-) _ _]. rewrite length_inorder, <- size_dom.
  rewrite <- (size_list_to_set (C := gset nat)) by apply (rep_nodup _ _ _ H).
  f_equal. apply set_eq. intros p. rewrite elem_of_dom, elem_of_list_to_set. split.
  - intros [m Hm]. destruct (decide (p ∈ addrs t)) as [|Hno]; [done|].
    by rewrite (rep_spare _ _ _ H p Hno) in Hm.
  - rewrite <- (cells_addrs None). intros ([q m] & -> & Hq)%list_elem_of_fmap.
    exists m. by apply (rep_cells _ _ _ H).
Qed.

(** What the callback and the memory of the caller become. *)
Definition env_of s := (rb_dispose s, rb_env s).

Definition disposed s (value : option V) (e : E) : Prop :=
  match rb_dispose s, value with
  | Some dispose, Some v => dispose v (rb_env s) = Some (tt, e)
  | _, _ => e = rb_env s
  end.

Lemma call_dispose_spec value e s (Q : unit -> rb_tree V E -> Prop) :
  disposed s value e ->
  Q tt (s <| rb_env := e |>) -> wp (call_dispose value) Q s.
Proof.
  unfold disposed. intros H HQ. apply wp_bind, wp_gets.
  destruct (rb_dispose s) as [d|]; [|subst e; apply wp_ret; by destruct s].
  destruct value as [v|]; [|subst e; apply wp_ret; by destruct s].
  unfold wp, in_env. by rewrite H.
Qed.

Lemma rbtree_get_spec key L n s (Q : option V -> rb_tree V E -> Prop) :
  holds L n s -> Q (default None (al_get key L)) s -> wp (rbtree_get key) Q s.
Proof.
  intros [(t & H & Hb & Hc & <-) Hs _] HQ. unfold rbtree_get.
  apply wp_bind. eapply rb_find_spec; [exact H|exact Hs|]. intros [p|].
  - intros (ctx & c & v & l & r & -> & Hbt).
    rewrite inorder_plug in Hs, HQ. cbn in Hs, HQ. rewrite <- app_assoc, app_assoc in Hs, HQ.
    cbn [app] in Hs, HQ. apply sorted_middle in Hs as [_ Hsp]. rewrite al_get_present in HQ by done.
    apply wp_bind. eapply wp_rb_at; [by eapply rep_node|]. by apply wp_ret.
  - intros (ctx & -> & Hbt). rewrite inorder_plug in HQ. cbn in HQ.
    rewrite al_get_absent in HQ by done. by apply wp_ret.
Qed.

Lemma rbtree_replace_spec key value e L n s (Q : option V -> rb_tree V E -> Prop) :
  holds L n s ->
  (forall old, al_get key L = Some old -> disposed s old e) ->
  (forall s', holds (al_replace key value L) n s' -> env_of s' = (rb_dispose s, e) ->
     is_Some (al_get key L) -> Q value s') ->
  (al_get key L = None -> Q None s) -> wp (rbtree_replace key value) Q s.
Proof.
  intros [(t & H & Hb & Hc & <-) Hs Hstr] He HQ HQ0. unfold rbtree_replace.
  apply wp_bind. eapply rb_find_spec; [exact H|exact Hs|]. intros [p|].
  - intros (ctx & c & v & l & r & -> & Hbt).
    assert (Hsp : splits key (before ctx ++ inorder l) (inorder r ++ after ctx)) by (by eapply node_splits).
    assert (EL : forall v', inorder (plug ctx (Node p c key v' l r)) =
      (before ctx ++ inorder l) ++ (key, v') :: (inorder r ++ after ctx))
      by (intros v'; rewrite inorder_plug; cbn; by rewrite_app).
    apply wp_bind. eapply wp_rb_at; [by eapply rep_node|]. cbn [rb_value].
    apply wp_bind. eapply call_dispose_spec; [apply He; rewrite EL; by apply al_get_present|].
    apply wp_bind. eapply (rep_set_node ∅ ctx p c key v l r c key value).
    { eapply rep_ext; [exact H|done..]. }
    { done. }
    intros s' H' O. apply wp_ret. unfold others in O. injection O as O1 _ O3 O4.
    apply HQ; [|unfold env_of; by rewrite O1, O4|rewrite EL, al_get_present by done; by eexists].
    rewrite EL, al_replace_splits, <- (EL value) by done.
    rewrite EL in Hstr, Hs. constructor.
    + eexists. split_and!; [exact H'|by eapply rb_rekey| |done].
      by rewrite <- Hc, (color_plug _ (Node p c key v l r)).
    + rewrite EL. apply sorted_middle. by apply sorted_middle in Hs.
    + rewrite O3, EL. cbn [rb_strings update eta_rb_tree]. rewrite Hstr. by rewrite !zlen_app, !zlen_cons.
  - intros (ctx & -> & Hbt). apply wp_ret. apply HQ0. rewrite inorder_plug. by apply al_get_absent.
Qed.

(** The leftmost and the rightmost node of a subtree. *)
Lemma rb_min_spec spare ctx p c k v l r s (Q : nat -> rb_tree V E -> Prop) :
  Rep spare (plug ctx (Node p c k v l r)) s ->
  (forall cm q c' k' v' r', Node p c k v l r = plug cm (Node q c' k' v' Leaf r') ->
     before cm = [] -> Q q s) ->
  wp (rb_min p) Q s.
Proof.
  intros H HQ. apply wp_bind, wp_gets. set (t := Node p c k v l r) in *.
  apply (wp_loop_nat (fun n q s' => s' = s /\ exists cm t', plug cm t' = t /\ ptr t' = Some q /\
    before cm = [] /\ n = length (addrs t')) _ _ _ (length (addrs t))).
  - split; [done|]. by exists [], t.
  - pose proof (rep_size _ _ _ H). pose proof (length_plug ctx t). lia.
  - intros n q s' (-> & cm & t' & Et & Hp & Hbf & ->).
    destruct t' as [|q' c' k' v' l' r']; [done|]. injection Hp as ->.
    apply wp_bind. eapply wp_rb_at.
    { eapply (rep_node spare (cm ++ ctx)). rewrite plug_app, Et. exact H. }
    cbn [rb_left]. apply wp_ret. destruct l' as [|q2 ? ? ? l2 r2] eqn:El; cbn [ptr].
    + by eapply HQ.
    + rewrite <- El in *. exists (length (addrs l')). split; [cbn; rewrite length_app; lia|].
      split; [done|]. exists (Frame true q c' k' v' r' :: cm), l'. subst l'.
      split_and!; try done. cbn. by rewrite Hbf.
Qed.

Lemma rb_max_spec spare ctx p c k v l r s (Q : nat -> rb_tree V E -> Prop) :
  Rep spare (plug ctx (Node p c k v l r)) s ->
  (forall cm q c' k' v' l', Node p c k v l r = plug cm (Node q c' k' v' l' Leaf) ->
     after cm = [] -> Q q s) ->
  wp (rb_max p) Q s.
Proof.
  intros H HQ. apply wp_bind, wp_gets. set (t := Node p c k v l r) in *.
  apply (wp_loop_nat (fun n q s' => s' = s /\ exists cm t', plug cm t' = t /\ ptr t' = Some q /\
    after cm = [] /\ n = length (addrs t')) _ _ _ (length (addrs t))).
  - split; [done|]. by exists [], t.
  - pose proof (rep_size _ _ _ H). pose proof (length_plug ctx t). lia.
  - intros n q s' (-> & cm & t' & Et & Hp & Hbf & ->).
    destruct t' as [|q' c' k' v' l' r']; [done|]. injection Hp as ->.
    apply wp_bind. eapply wp_rb_at.
    { eapply (rep_node spare (cm ++ ctx)). rewrite plug_app, Et. exact H. }
    cbn [rb_right]. apply wp_ret. destruct r' as [|q2 ? ? ? l2 r2] eqn:El; cbn [ptr].
    + by eapply HQ.
    + rewrite <- El in *. exists (length (addrs r')). split; [cbn; rewrite length_app; lia|].
      split; [done|]. exists (Frame false q c' k' v' l' :: cm), r'. subst r'.
      split_and!; try done.
Qed.

Lemma rbtree_insert_spec key value L n s (Q : option nat -> rb_tree V E -> Prop) :
  holds L n s ->
  (forall v s', al_get key L = Some v -> holds L n s' -> env_of s' = env_of s -> Q None s') ->
  (forall p m s', al_get key L = None -> holds (al_insert key value L) m s' ->
     env_of s' = env_of s -> Q (Some p) s') ->
  wp (rbtree_insert key value) Q s.
Proof.
  intros [(t & H & Hb & Hc & <-) Hs Hstr] Hdup Hnew. unfold rbtree_insert.
  apply wp_bind. eapply rb_init_spec; [exact H|]. intros node s1 Hno H1 D1 E1 S1 F1.
  apply wp_bind. eapply find_parent_spec; [exact H1|exact Hs|]. intros [[parent cmp]|].
  - intros (ctx & -> & Hbt & -> & Hcmp).
    assert (EL : inorder (plug ctx Leaf) = before ctx ++ after ctx) by (by rewrite inorder_plug).
    assert (Hi : inorder (plug ctx (Node node RB_RED key value Leaf Leaf)) =
      al_insert key value (before ctx ++ after ctx))
      by (rewrite al_insert_splits by done; by rewrite inorder_plug).
    rewrite EL in *.
    apply wp_bind. eapply wp_mono.
    { eapply (link_spec ctx node key value cmp _ (fun _ s' => Rep ∅ (plug ctx
        (Node node RB_RED key value Leaf Leaf)) s' /\ others s' = others s1));
        [exact H1|done|exact Hcmp|done]. }
    intros [] s2 W. apply wp_bind. eapply wp_mono; [exact W|]. clear W. intros [] s3 [H3 O3].
    destruct (rb_unplug ctx Leaf n) as (m & Hm & Ha & _); [done|done|].
    assert (m = 0%nat) as -> by (by inversion Hm).
    apply wp_bind. eapply balance_insert_spec; [exact H3|done|exact Ha|].
    intros t' n' s4 H4 O4 Hb4 Hc4 HL4. apply wp_ret. rewrite Hi in HL4.
    unfold others in O3, O4. injection O3 as D3 _ S3 E3. injection O4 as D4 _ S4 E4.
    apply (Hnew node n'); [by apply al_get_absent| |unfold env_of; congruence].
    constructor; [by exists t'| |].
    + rewrite al_insert_splits by done. by apply sorted_middle.
    + rewrite S4, S3, S1, Hstr, al_insert_splits by done. rewrite !zlen_app, zlen_cons. lia.
  - intros (ctx & p & c & v & l & r & -> & Hbt).
    apply wp_bind. cbn [rb_destroy].
    apply wp_bind. eapply wp_rb_at.
    { rewrite (rep_spare _ _ _ H1) by done. apply lookup_singleton_eq. }
    cbn [rb_left rb_right]. apply wp_bind, wp_ret, wp_bind, wp_ret, wp_bind, wp_modify, wp_bind, wp_ret.
    eapply (free_node_spec ∅); [eapply rep_ext; [exact H1|done..]|done|].
    intros s2 H2 O2. apply wp_ret. unfold others in O2. injection O2 as D2 _ S2 E2.
    eapply Hdup.
    + rewrite inorder_plug. cbn. rewrite <- app_assoc, app_assoc. cbn [app].
      apply al_get_present. by eapply node_splits.
    + constructor; [by eexists|done|]. rewrite S2. cbn [rb_strings update eta_rb_tree].
      rewrite S1, Hstr. lia.
    + unfold env_of. rewrite D2, E2. cbn [rb_dispose rb_env update eta_rb_tree]. congruence.
Qed.

(** What remains of [rbtree_delete] once the node [q] is out of the tree. *)
Lemma finish_delete_spec q ctx c k v k' v' lp rp l r t n s (Q : Z -> rb_tree V E -> Prop) :
  Rep (<[q := RbNode k v c (up ctx) lp rp]> ∅) (plug ctx t) s ->
  rb n (plug ctx (Node q c k' v' l r)) -> color (plug ctx (Node q c k' v' l r)) = RB_BLACK ->
  only_child t l r ->
  (forall t' m s', Rep ∅ t' s' -> others s' = others s -> rb m t' -> color t' = RB_BLACK ->
     inorder t' = inorder (plug ctx t) -> Q 1 s') ->
  wp (finish_delete q (ptr t)) Q s.
Proof.
  intros H Hb Hc Hone HQ.
  assert (Hq : rb_heap s !! q = Some (RbNode k v c (up ctx) lp rp)).
  { rewrite (rep_spare _ _ _ H); [by rewrite lookup_insert_eq|].
    intros Hin%(rep_apart _ _ _ H). by rewrite lookup_insert_eq in Hin. }
  destruct (rb_unplug _ _ _ Hb Hc) as (m & Hm & Ha & Hcol).
  apply wp_bind. eapply wp_rb_at; [exact Hq|]. cbn [rb_color_of rb_parent].
  assert (Hfree : forall t' m' s', Rep (<[q := RbNode k v c (up ctx) lp rp]> ∅) t' s' ->
    others s' = others s -> rb m' t' -> color t' = RB_BLACK -> inorder t' = inorder (plug ctx t) ->
    wp (_ ← free_node q; mret 1) Q s').
  { intros t' m' s' H' O' Hb' Hc' HL'. apply wp_bind. eapply free_node_spec; [exact H'|done|].
    intros s2 H2 O2. apply wp_ret. eapply HQ; [exact H2|congruence|exact Hb'|done|done]. }
  apply wp_bind. destruct (decide (c = RB_BLACK)) as [->|Hred].
  - inversion Hm as [| |? ? ? ? ? m' Hl Hr]; subst.
    eapply balance_delete_spec; [exact H|apply lookup_insert_eq| |exact Ha|exact Hfree].
    by destruct Hone as [[-> ->]|[-> ->]].
  - apply wp_ret. destruct c; [|done]. inversion Hm as [|? ? ? ? ? ? Hcl Hcr Hl Hr|]; subst.
    assert (Ht : rb m t /\ color t = RB_BLACK) by (by destruct Hone as [[-> ->]|[-> ->]]).
    destruct (rb_plug m ctx t) as (m' & Hm' & Hc'); [done|apply Ht|right; apply Ht|].
    eapply Hfree; [exact H|done|exact Hm'| |done].
    destruct ctx as [|f ctx]; [|by apply Hc']. cbn in Hc. done.
Qed.

(** The pointer to the child that takes the place of a node. *)
Lemma only_child_ptr t l r :
  only_child t l r -> match ptr l with Some p => Some p | None => ptr r end = ptr t.
Proof. intros [[-> ->]|[-> ->]]; [done|]. by destruct l. Qed.

(** The node itself is taken out. *)
Lemma delete_node_spec ctx node c key v l r t n e s (Q : Z -> rb_tree V E -> Prop) :
  Rep ∅ (plug ctx (Node node c key v l r)) s -> rb n (plug ctx (Node node c key v l r)) ->
  color (plug ctx (Node node c key v l r)) = RB_BLACK -> only_child t l r -> disposed s v e ->
  (forall t' m s', Rep ∅ t' s' -> rb m t' -> color t' = RB_BLACK ->
     inorder t' = inorder (plug ctx t) -> rb_strings s' = rb_strings s - 1 ->
     env_of s' = (rb_dispose s, e) -> Q 1 s') ->
  wp (take_out node node) Q s.
Proof.
  intros H Hb Hc Hone He HQ. apply wp_bind. eapply wp_rb_at; [by eapply rep_node|].
  cbn [rb_left rb_right rb_parent]. rewrite (only_child_ptr _ _ _ Hone). cbv zeta.
  apply wp_bind. eapply wp_mono.
  { eapply (unlink_spec ∅ ctx node c key v l r t _ (fun _ s' =>
      Rep (<[node := RbNode key v c (up ctx) (ptr l) (ptr r)]> ∅) (plug ctx t) s' /\
      others s' = others s)); [exact H|exact Hone|done]. }
  intros [] s1 W. apply wp_bind. eapply wp_mono; [exact W|]. clear W. intros [] s2 [H2 O2].
  unfold others in O2. injection O2 as D2 F2 S2 E2.
  apply wp_bind, wp_modify.
  assert (Hq : rb_heap s2 !! node = Some (RbNode key v c (up ctx) (ptr l) (ptr r))).
  { rewrite (rep_spare _ _ _ H2); [by rewrite lookup_insert_eq|].
    intros Hin%(rep_apart _ _ _ H2). by rewrite lookup_insert_eq in Hin. }
  apply wp_bind. eapply wp_rb_at; [exact Hq|]. cbn [rb_value].
  apply wp_bind. eapply (call_dispose_spec _ e).
  { unfold disposed in *. cbn [rb_dispose rb_env update eta_rb_tree]. by rewrite D2, E2. }
  rewrite bool_decide_true by done. apply wp_bind, wp_ret.
  eapply finish_delete_spec; [eapply rep_ext; [exact H2|done..]|exact Hb|exact Hc|exact Hone|].
  intros t' m s' H' O' Hb' Hc' HL'. unfold others in O'. injection O' as D' _ S' E'.
  eapply HQ; [exact H'|exact Hb'|done|done| |].
  - rewrite S'. cbn [rb_strings update eta_rb_tree]. by rewrite S2.
  - unfold env_of. rewrite D', E'. cbn [rb_dispose rb_env update eta_rb_tree]. by rewrite D2.
Qed.

(** The successor of the node is taken out, and its contents put into the node. *)
Lemma delete_successor_spec ctx node c key v l cm q cs ks vs rs n e s
    (Q : Z -> rb_tree V E -> Prop) :
  let T := plug ctx (Node node c key v l (plug cm (Node q cs ks vs Leaf rs))) in
  Rep ∅ T s -> rb n T -> color T = RB_BLACK -> disposed s v e ->
  (forall t' m s', Rep ∅ t' s' -> rb m t' -> color t' = RB_BLACK ->
     inorder t' = inorder (plug ctx (Node node c ks vs l (plug cm rs))) ->
     rb_strings s' = rb_strings s - 1 -> env_of s' = (rb_dispose s, e) -> Q 1 s') ->
  wp (take_out node q) Q s.
Proof.
  intros T H Hb Hc He HQ.
  set (down k w := cm ++ Frame false node c k w l :: ctx).
  assert (Hdown : forall k w t, plug (down k w) t = plug ctx (Node node c k w l (plug cm t)))
    by (intros k w t; unfold down; by rewrite plug_app).
  assert (ET : T = plug (down key v) (Node q cs ks vs Leaf rs)) by (by rewrite Hdown).
  assert (Eup : forall k w k' w', up (down k w) = up (down k' w')) by (by destruct cm).
  pose proof H as H0. rewrite ET in H.
  assert (Hnode : forall p, p = node -> p <> q /\ p ∈ around_addrs (down key v)).
  { intros p ->. pose proof (rep_distinct _ _ _ _ H) as Hd. cbn in Hd.
    apply NoDup_cons in Hd as [Hd _].
    assert (Hin : node ∈ around_addrs (down key v)).
    { unfold down. clear. induction cm as [|f cm' IH]; cbn; [apply list_elem_of_here|].
      apply list_elem_of_further, elem_of_app. by right. }
    split; [|done]. intros ->. apply Hd. apply elem_of_app. by right. }
  destruct (Hnode node eq_refl) as [Hne _].
  apply wp_bind. eapply wp_rb_at; [by eapply rep_node|].
  cbn [rb_left rb_right rb_parent ptr]. cbv zeta.
  apply wp_bind. eapply wp_mono.
  { eapply (unlink_spec ∅ (down key v) q cs ks vs Leaf rs rs _ (fun _ s' =>
      Rep (<[q := RbNode ks vs cs (up (down key v)) None (ptr rs)]> ∅) (plug (down key v) rs) s' /\
      others s' = others s)); [exact H|by left|done]. }
  intros [] s1 W. apply wp_bind. eapply wp_mono; [exact W|]. clear W. intros [] s2 [H2 O2].
  unfold others in O2. injection O2 as D2 F2 S2 E2.
  apply wp_bind, wp_modify.
  assert (H2' : Rep (<[q := RbNode ks vs cs (up (down ks vs)) None (ptr rs)]> ∅)
    (plug ctx (Node node c key v l (plug cm rs))) s2).
  { rewrite (Eup ks vs key v), <- Hdown. exact H2. }
  apply wp_bind. eapply wp_rb_at; [exact (rep_node _ _ _ _ _ _ _ _ _ H2')|]. cbn [rb_value].
  apply wp_bind. eapply (call_dispose_spec _ e).
  { unfold disposed in *. cbn [rb_dispose rb_env update eta_rb_tree]. by rewrite D2, E2. }
  rewrite bool_decide_false by done.
  assert (Hq : rb_heap s2 !! q = Some (RbNode ks vs cs (up (down ks vs)) None (ptr rs))).
  { rewrite (rep_spare _ _ _ H2'); [by rewrite lookup_insert_eq|].
    intros Hin%(rep_apart _ _ _ H2'). by rewrite lookup_insert_eq in Hin. }
  apply wp_bind, wp_bind. eapply wp_rb_at; [exact Hq|]. cbn [rb_key rb_value].
  eapply (rep_set_node _ ctx node c key v l (plug cm rs) c ks vs);
    [eapply rep_ext; [exact H2'|done..]|done|].
  intros s3 H3 O3. unfold others in O3. injection O3 as D3 F3 S3 E3.
  assert (H3' : Rep (<[q := RbNode ks vs cs (up (down ks vs)) None (ptr rs)]> ∅)
    (plug (down ks vs) rs) s3) by (by rewrite Hdown).
  eapply (finish_delete_spec q (down ks vs) cs ks vs ks vs None (ptr rs) Leaf rs rs n);
    [exact H3'| | |by left|].
  - rewrite Hdown. by eapply rb_rekey.
  - rewrite Hdown, <- Hc. by apply color_plug.
  - intros t' m s' H' O' Hb' Hc' HL'. unfold others in O'. injection O' as D' _ S' E'.
    eapply HQ; [exact H'|exact Hb'|done| | |].
    + by rewrite HL', Hdown.
    + rewrite S', S3. cbn [rb_strings update eta_rb_tree]. by rewrite S2.
    + unfold env_of. rewrite D', E', D3, E3. cbn [rb_dispose rb_env update eta_rb_tree]. by rewrite D2.
Qed.

Lemma rbtree_delete_spec key e L n s (Q : Z -> rb_tree V E -> Prop) :
  holds L n s ->
  (forall old, al_get key L = Some old -> disposed s old e) ->
  (al_get key L = None -> Q 0 s) ->
  (forall m s', is_Some (al_get key L) -> holds (al_delete key L) m s' ->
     env_of s' = (rb_dispose s, e) -> Q 1 s') ->
  wp (rbtree_delete key) Q s.
Proof.
  intros [(t & H & Hb & Hc & <-) Hs Hstr] He HQ0 HQ. unfold rbtree_delete.
  apply wp_bind. eapply rb_find_spec; [exact H|exact Hs|]. intros [p|].
  2:{ intros (ctx & -> & Hbt). apply wp_ret. apply HQ0. rewrite inorder_plug.
      by apply al_get_absent. }
  intros (ctx & c & v & l & r & -> & Hbt).
  assert (Hsp : splits key (before ctx ++ inorder l) (inorder r ++ after ctx)) by (by eapply node_splits).
  assert (EL : inorder (plug ctx (Node p c key v l r)) =
    (before ctx ++ inorder l) ++ (key, v) :: (inorder r ++ after ctx))
    by (rewrite inorder_plug; cbn; by rewrite_app).
  rewrite EL in Hs, Hstr, He, HQ. rewrite al_get_present in He by done.
  rewrite al_get_present, al_delete_splits in HQ by done.
  assert (Hend : forall t' m s', Rep ∅ t' s' -> rb m t' -> color t' = RB_BLACK ->
    inorder t' = (before ctx ++ inorder l) ++ (inorder r ++ after ctx) ->
    rb_strings s' = rb_strings s - 1 -> env_of s' = (rb_dispose s, e) -> Q 1 s').
  { intros t' m s' H' Hb' Hc' HL' HS' HE'. eapply HQ; [by eexists| |exact HE'].
    constructor; [by exists t'| |].
    - by apply sorted_middle in Hs as [Hs _].
    - rewrite HS', Hstr. rewrite !zlen_app, zlen_cons, zlen_app. lia. }
  apply wp_bind. eapply wp_rb_at; [by eapply rep_node|]. cbn [rb_left rb_right].
  destruct l as [|pl cl kl vl ll rl] eqn:El; [|destruct r as [|pr cr kr vr lr rr] eqn:Er].
  - apply wp_bind, wp_ret.
    eapply (delete_node_spec ctx p c key v Leaf r r); [exact H|exact Hb|exact Hc|by left|by apply He|].
    intros t' m s' H' Hb' Hc' HL' HS' HE'. eapply Hend; try done.
    rewrite HL', inorder_plug. cbn. by rewrite app_nil_r.
  - apply wp_bind, wp_ret. rewrite <- El in *.
    eapply (delete_node_spec ctx p c key v l Leaf l); [exact H|exact Hb|exact Hc|by right|by apply He|].
    intros t' m s' H' Hb' Hc' HL' HS' HE'. eapply Hend; try done.
    rewrite HL', inorder_plug. cbn. by rewrite_app.
  - rewrite <- El in *. cbn [ptr].
    assert (ptr l = Some pl) as -> by (by rewrite El). cbv iota.
    apply wp_bind. eapply (rb_min_spec _ (Frame false p c key v l :: ctx)); [exact H|].
    intros cm q cs ks vs rs Em Hcm. rewrite Em in *.
    eapply delete_successor_spec; [exact H|exact Hb|exact Hc|by apply He|].
    intros t' m s' H' Hb' Hc' HL' HS' HE'. eapply Hend; try done.
    rewrite HL', !inorder_plug. cbn [inorder]. rewrite !inorder_plug, Hcm. cbn [inorder app].
    by rewrite_app.
Qed.

Lemma rbtree_minimum_spec L n s (Q : option bytes -> rb_tree V E -> Prop) :
  holds L n s -> Q (fst <$> head L) s -> wp rbtree_minimum Q s.
Proof.
  intros [(t & H & _ & _ & <-) _ _] HQ. apply wp_bind, wp_gets. rewrite (rep_root _ _ _ H).
  destruct t as [|p c k v l r]; cbn [ptr]; [by apply wp_ret|].
  apply wp_bind. eapply (rb_min_spec _ []); [exact H|]. intros cm q c' k' v' r' Em Hcm.
  rewrite Em in *. apply wp_bind. eapply wp_rb_at; [by eapply rep_node|]. apply wp_ret.
  by rewrite inorder_plug, Hcm in HQ.
Qed.

Lemma rbtree_maximum_spec L n s (Q : option bytes -> rb_tree V E -> Prop) :
  holds L n s -> Q (fst <$> last L) s -> wp rbtree_maximum Q s.
Proof.
  intros [(t & H & _ & _ & <-) _ _] HQ. apply wp_bind, wp_gets. rewrite (rep_root _ _ _ H).
  destruct t as [|p c k v l r]; cbn [ptr]; [by apply wp_ret|].
  apply wp_bind. eapply (rb_max_spec _ []); [exact H|]. intros cm q c' k' v' l' Em Hcm.
  rewrite Em in *. apply wp_bind. eapply wp_rb_at; [by eapply rep_node|]. apply wp_ret.
  rewrite inorder_plug, Hcm, app_nil_r in HQ. cbn in HQ. by rewrite app_assoc, last_snoc in HQ.
Qed.

(** ** Traversals *)

Lemma filter_none_keys (P : bytes -> Prop) `{!forall k, Decision (P k)} L :
  Forall (fun x => ~ P (fst x)) L -> filter P L.*1 = [].
Proof.
  induction 1 as [|x L Hx _ IH]; [done|]. rewrite fmap_cons. by rewrite filter_cons_False.
Qed.

Lemma wp_rb_at_sub spare ctx p c k v l r (Q : rb_node V -> rb_tree V E -> Prop) s :
  Rep spare (plug ctx (Node p c k v l r)) s ->
  Q (RbNode k v c (up ctx) (ptr l) (ptr r)) s -> wp (rb_at p) Q s.
Proof. intros H. eapply wp_rb_at. by eapply rep_node. Qed.

Lemma rb_keys_spec spare ctx t p fuel array s (Q : list bytes -> rb_tree V E -> Prop) :
  Rep spare (plug ctx t) s -> ptr t = Some p -> (length (addrs t) <= fuel)%nat ->
  Q (array ++ (inorder t).*1) s -> wp (rb_keys fuel p array) Q s.
Proof.
  revert ctx p fuel array Q. induction t as [|p' c k v l IHl r IHr];
    intros ctx p fuel array Q H Hp Hf HQ; [done|]. injection Hp as ->.
  cbn in Hf. rewrite length_app in Hf. destruct fuel as [|fuel]; [lia|]. cbn [rb_keys].
  apply wp_bind. eapply wp_rb_at_sub; [exact H|]. cbn [rb_left rb_right rb_key].
  cbn [inorder] in HQ. rewrite fmap_app, fmap_cons in HQ.
  apply wp_bind. eapply (wp_mono _ (fun a s' => a = array ++ (inorder l).*1 /\ s' = s)).
  { destruct (ptr l) as [pl|] eqn:El.
    - eapply (IHl (Frame true p c k v r :: ctx)); [exact H|done|lia|done].
    - destruct l; [|done]. apply wp_ret. cbn. by rewrite app_nil_r. }
  intros a s' [-> ->]. destruct (ptr r) as [pr|] eqn:Er.
  - eapply (IHr (Frame false p c k v l :: ctx)); [exact H|done|lia|].
    rewrite <- !app_assoc. exact HQ.
  - destruct r; [|done]. apply wp_ret. rewrite <- app_assoc. exact HQ.
Qed.

Lemma rbtree_keys_spec L n s (Q : list bytes -> rb_tree V E -> Prop) :
  holds L n s -> Q L.*1 s -> wp rbtree_keys Q s.
Proof.
  intros [(t & H & _ & _ & <-) _ _] HQ. apply wp_bind, wp_gets, wp_bind, wp_gets.
  rewrite (rep_root _ _ _ H). pose proof (rep_size _ _ _ H).
  destruct (ptr t) as [p|] eqn:Ep; [|destruct t; [by apply wp_ret|done]].
  eapply (rb_keys_spec _ []); [exact H|done|lia|exact HQ].
Qed.

Definition in_range (min max key : bytes) : Prop := 0 <= strcmp key min /\ strcmp key max <= 0.
#[local] Instance in_range_dec min max key : Decision (in_range min max key).
Proof. unfold in_range. apply _. Defined.

Lemma rb_range_spec spare ctx t p fuel min max array s (Q : list bytes -> rb_tree V E -> Prop) :
  Rep spare (plug ctx t) s -> sorted (inorder (plug ctx t)) -> ptr t = Some p ->
  (length (addrs t) <= fuel)%nat ->
  Q (array ++ filter (in_range min max) (inorder t).*1) s -> wp (rb_range fuel p min max array) Q s.
Proof.
  revert ctx p fuel array Q. induction t as [|p' c k v l IHl r IHr];
    intros ctx p fuel array Q H Hs Hp Hf HQ; [done|]. injection Hp as ->.
  pose proof (node_splits _ _ _ _ _ _ _ Hs) as [Hl Hr].
  apply Forall_app in Hl as [_ Hl]. apply Forall_app in Hr as [Hr _].
  cbn in Hf. rewrite length_app in Hf. destruct fuel as [|fuel]; [lia|]. cbn [rb_range].
  apply wp_bind. eapply wp_rb_at_sub; [exact H|]. cbn [rb_left rb_right rb_key].
  cbn [inorder] in HQ. rewrite fmap_app, fmap_cons, filter_app in HQ. cbn [fst] in HQ.
  apply wp_bind. eapply (wp_mono _ (fun a s' =>
    a = array ++ filter (in_range min max) (inorder l).*1 /\ s' = s)).
  { destruct (ptr l) as [pl|] eqn:El.
    2:{ destruct l; [|done]. apply wp_ret. cbn. by rewrite app_nil_r. }
    destruct (Z.gtb_spec (strcmp k min) 0).
    - eapply (IHl (Frame true p c k v r :: ctx)); [exact H|exact Hs|done|lia|done].
    - apply wp_ret. split; [|done]. rewrite filter_none_keys; [by rewrite app_nil_r|].
      eapply Forall_impl; [exact Hl|]. intros x Hx [Hmin _].
      destruct (Z.eq_dec (strcmp k min) 0) as [E0|Hne].
      + apply strcmp_eq in E0. subst k. lia.
      + assert (strcmp k min < 0) as Hk by lia. pose proof (strcmp_trans _ _ _ Hx Hk). lia. }
  intros a s' [-> ->].
  set (here := filter (in_range min max) [k]).
  assert (Ehere : (if (strcmp k min >=? 0) && (strcmp k max <=? 0)
      then (array ++ filter (in_range min max) (inorder l).*1) ++ [k]
      else array ++ filter (in_range min max) (inorder l).*1) =
    array ++ filter (in_range min max) (inorder l).*1 ++ here).
  { unfold here. rewrite Z.geb_leb. destruct (decide (in_range min max k)) as [[H1 H2]|Hno].
    - rewrite filter_cons_True by done.
      destruct (Z.leb_spec 0 (strcmp k min)), (Z.leb_spec (strcmp k max) 0); try lia.
      cbn. by rewrite app_assoc.
    - rewrite filter_cons_False by done. cbn [filter]. rewrite app_nil_r.
      unfold in_range in Hno.
      destruct (Z.leb_spec 0 (strcmp k min)), (Z.leb_spec (strcmp k max) 0); try done. lia. }
  cbv zeta. rewrite Ehere.
  assert (HQ' : Q ((array ++ filter (in_range min max) (inorder l).*1 ++ here) ++
    filter (in_range min max) (inorder r).*1) s).
  { unfold here. rewrite <- !app_assoc, <- filter_app. exact HQ. }
  destruct (ptr r) as [pr|] eqn:Er.
  2:{ destruct r; [|done]. apply wp_ret. by rewrite app_nil_r in HQ'. }
  destruct (Z.ltb_spec (strcmp k max) 0).
  - eapply (IHr (Frame false p c k v l :: ctx)); [exact H|exact Hs|done|lia|exact HQ'].
  - apply wp_ret. rewrite (filter_none_keys _ (inorder r)), app_nil_r in HQ'; [exact HQ'|].
    eapply Forall_impl; [exact Hr|]. intros x Hx [_ Hmax].
    destruct (Z.eq_dec (strcmp k max) 0) as [E0|Hne].
    + apply strcmp_eq in E0. subst k. apply strcmp_flip in Hx. lia.
    + assert (strcmp max k < 0) as Hk by (apply strcmp_flip; lia).
      pose proof (strcmp_trans _ _ _ Hk Hx) as Ht. apply strcmp_flip in Ht. lia.
Qed.

Lemma rbtree_range_spec min max L n s (Q : list bytes -> rb_tree V E -> Prop) :
  holds L n s -> Q (filter (in_range min max) L.*1) s -> wp (rbtree_range min max) Q s.
Proof.
  intros [(t & H & _ & _ & <-) Hs _] HQ. apply wp_bind, wp_gets, wp_bind, wp_gets.
  rewrite (rep_root _ _ _ H). pose proof (rep_size _ _ _ H).
  destruct (ptr t) as [p|] eqn:Ep; [|destruct t; [by apply wp_ret|done]].
  eapply (rb_range_spec _ []); [exact H|exact Hs|done|lia|exact HQ].
Qed.

Lemma rb_size_spec spare ctx t p fuel s (Q : Z -> rb_tree V E -> Prop) :
  Rep spare (plug ctx t) s -> ptr t = Some p -> (length (addrs t) <= fuel)%nat ->
  Q (u32 (zlen (inorder t))) s -> wp (rb_size fuel p) Q s.
Proof.
  revert ctx p fuel Q. induction t as [|p' c k v l IHl r IHr];
    intros ctx p fuel Q H Hp Hf HQ; [done|]. injection Hp as ->.
  cbn in Hf. rewrite length_app in Hf. destruct fuel as [|fuel]; [lia|]. cbn [rb_size].
  apply wp_bind. eapply wp_rb_at_sub; [exact H|]. cbn [rb_left rb_right].
  apply wp_bind. eapply (wp_mono _ (fun a s' => a = u32 (zlen (inorder l)) /\ s' = s)).
  { destruct (ptr l) as [pl|] eqn:El; [|by destruct l; [apply wp_ret|]].
    eapply (IHl (Frame true p c k v r :: ctx)); [exact H|done|lia|done]. }
  intros a s' [-> ->].
  apply wp_bind. eapply (wp_mono _ (fun a s' => a = u32 (zlen (inorder r)) /\ s' = s)).
  { destruct (ptr r) as [pr|] eqn:Er; [|by destruct r; [apply wp_ret|]].
    eapply (IHr (Frame false p c k v l :: ctx)); [exact H|done|lia|done]. }
  intros a s' [-> ->]. apply wp_ret. cbn [inorder] in HQ. rewrite zlen_app, zlen_cons in HQ.
  rewrite uwrap_add_l, (Z.add_comm _ (u32 (zlen (inorder r)))), uwrap_add_l.
  rewrite Z.add_comm, <- Z.add_assoc, uwrap_add_l. exact HQ.
Qed.

Lemma rbtree_size_spec L n s (Q : Z -> rb_tree V E -> Prop) :
  holds L n s -> Q (u32 (zlen L)) s -> wp rbtree_size Q s.
Proof.
  intros [(t & H & _ & _ & <-) _ _] HQ. apply wp_bind, wp_gets, wp_bind, wp_gets.
  rewrite (rep_root _ _ _ H). pose proof (rep_size _ _ _ H).
  destruct (ptr t) as [p|] eqn:Ep; [|by destruct t; [apply wp_ret|]].
  eapply (rb_size_spec _ []); [exact H|done|lia|exact HQ].
Qed.

Lemma rbtree_empty_spec L n s (Q : Z -> rb_tree V E -> Prop) :
  holds L n s -> Q (match L with [] => 1 | _ => 0 end) s -> wp rbtree_empty Q s.
Proof.
  intros [(t & H & _ & _ & <-) _ _] HQ. apply wp_bind, wp_gets. apply wp_ret.
  rewrite (rep_root _ _ _ H). destruct t as [|p c k v l r]; [exact HQ|].
  cbn [ptr inorder] in *. by destruct (inorder l).
Qed.

Lemma rb_black_depth_spec spare ctx t n fuel s (Q : Z -> rb_tree V E -> Prop) :
  Rep spare (plug ctx t) s -> rb n t -> (length (addrs t) < fuel)%nat ->
  Q (1 + Z.of_nat n) s -> wp (rb_black_depth fuel (ptr t)) Q s.
Proof.
  intros H Hb. revert ctx fuel Q H. induction Hb as [|p k v l r n Hcl Hcr Hl IHl Hr IHr|p k v l r n Hl IHl Hr IHr];
    intros ctx fuel Q H Hf HQ; (destruct fuel as [|fuel]; [lia|]); cbn [rb_black_depth ptr].
  - by apply wp_ret.
  - cbn in Hf. rewrite length_app in Hf. apply wp_bind. eapply wp_rb_at_sub; [exact H|].
    cbn [rb_left rb_right rb_color_of].
    apply wp_bind. eapply (IHl (Frame true p _ k v r :: ctx)); [exact H|lia|].
    apply wp_bind. eapply (IHr (Frame false p _ k v l :: ctx)); [exact H|lia|].
    rewrite Z.eqb_refl. cbn [negb]. apply wp_ret. by rewrite Z.add_0_r.
  - cbn in Hf. rewrite length_app in Hf. apply wp_bind. eapply wp_rb_at_sub; [exact H|].
    cbn [rb_left rb_right rb_color_of].
    apply wp_bind. eapply (IHl (Frame true p _ k v r :: ctx)); [exact H|lia|].
    apply wp_bind. eapply (IHr (Frame false p _ k v l :: ctx)); [exact H|lia|].
    rewrite Z.eqb_refl. cbn [negb]. apply wp_ret.
    destruct (decide (RB_BLACK = RB_BLACK)); [|done].
    by replace (1 + Z.of_nat n + 1) with (1 + Z.of_nat (Datatypes.S n)) by lia.
Qed.

Lemma rbtree_black_depth_spec L n s (Q : Z -> rb_tree V E -> Prop) :
  holds L n s -> Q (Z.of_nat n) s -> wp rbtree_black_depth Q s.
Proof.
  intros [(t & H & Hb & Hc & _) _ _] HQ. apply wp_bind, wp_gets, wp_bind, wp_gets.
  rewrite (rep_root _ _ _ H). pose proof (rep_size _ _ _ H) as Hsz.
  destruct t as [|p c k v l r]; [inversion Hb; subst; by apply wp_ret|].
  cbn in Hc. subst c. inversion Hb as [| |? ? ? ? ? m Hl Hr]; subst. cbn in Hsz.
  rewrite length_app in Hsz. cbn [ptr].
  apply wp_bind. eapply (wp_rb_at_sub _ []); [exact H|]. cbn [rb_left rb_right rb_color_of].
  destruct (decide (RB_BLACK = RB_RED)); [done|].
  apply wp_bind. eapply (rb_black_depth_spec _ [Frame true p _ k v r]); [exact H|exact Hl|lia|].
  apply wp_bind. eapply (rb_black_depth_spec _ [Frame false p _ k v l]); [exact H|exact Hr|lia|].
  apply wp_ret. rewrite Z.eqb_refl. destruct (Z.eqb_spec (1 + Z.of_nat m) (-1)); [lia|].
  cbn [negb orb]. by replace (1 + Z.of_nat m) with (Z.of_nat (Datatypes.S m)) by lia.
Qed.

(** ** Destruction *)

(** The effect of disposing of several values, one after the other. *)
Fixpoint dispose_all (dispose : option (V -> ST E unit)) (values : list (option V)) (e : E)
    : option E :=
  match values with
  | [] => Some e
  | v :: values =>
      match dispose, v with
      | Some d, Some v => '(_, e) ← d v e; dispose_all dispose values e
      | _, _ => dispose_all dispose values e
      end
  end.

Lemma dispose_all_app d vs1 vs2 e :
  dispose_all d (vs1 ++ vs2) e = e' ← dispose_all d vs1 e; dispose_all d vs2 e'.
Proof.
  revert e. induction vs1 as [|v vs1 IH]; intros e; [done|]. cbn.
  destruct d as [d|], v as [v|]; try apply IH. destruct (d v e) as [[[] e1]|]; [apply IH|done].
Qed.

Lemma dispose_all_one s v e e' :
  rb_env s = e -> dispose_all (rb_dispose s) [v] e = Some e' -> disposed s v e'.
Proof.
  intros <-. unfold disposed. cbn. destruct (rb_dispose s) as [d|], v as [v|]; try congruence.
  by destruct (d v (rb_env s)) as [[[] e1]|]; intros [= ->].
Qed.

(** The order in which the values go. *)
Fixpoint postorder t : list (option V) :=
  match t with Leaf => [] | Node _ _ _ v l r => postorder l ++ postorder r ++ [v] end.

Lemma postorder_inorder t : postorder t ≡ₚ (inorder t).*2.
Proof.
  induction t as [|p c k v l IHl r IHr]; [done|]. cbn.
  rewrite fmap_app, fmap_cons, IHl, IHr. cbn. by rewrite <- Permutation_cons_append.
Qed.

Definition destroyed t (e : E) s s' : Prop :=
  (forall p, rb_heap s' !! p = if decide (p ∈ addrs t) then None else rb_heap s !! p) /\
  rb_strings s' = rb_strings s - zlen (addrs t) /\ rb_dispose s' = rb_dispose s /\ rb_env s' = e.

Lemma rb_destroy_spec par t p fuel e s :
  (forall q n, (q, n) ∈ cells par t -> rb_heap s !! q = Some n) -> NoDup (addrs t) ->
  ptr t = Some p -> (length (addrs t) <= fuel)%nat ->
  dispose_all (rb_dispose s) (postorder t) (rb_env s) = Some e ->
  wp (rb_destroy fuel p true) (fun _ s' => destroyed t e s s') s.
Proof.
  revert par p fuel e s. induction t as [|p' c k v l IHl r IHr];
    intros par p fuel e s Hcells Hnd Hp Hf He; [done|]. injection Hp as ->.
  cbn in Hf, Hnd. rewrite length_app in Hf. destruct fuel as [|fuel]; [lia|].
  apply NoDup_cons in Hnd as [Hp Hnd]. rewrite elem_of_app in Hp.
  apply NoDup_app in Hnd as (Hndl & Hlr & Hndr).
  cbn [cells] in Hcells. setoid_rewrite elem_of_cons in Hcells. setoid_rewrite elem_of_app in Hcells.
  cbn [postorder] in He. rewrite !dispose_all_app in He.
  destruct (dispose_all _ (postorder l) _) as [e1|] eqn:E1; [|done]. cbn in He.
  rewrite dispose_all_app in He.
  destruct (dispose_all _ (postorder r) e1) as [e2|] eqn:E2; [|done]. cbn in He.
  assert (Hsub : forall t e s, (forall q n, (q, n) ∈ cells (Some p) t -> rb_heap s !! q = Some n) ->
    (forall par p fuel e s, (forall q n, (q, n) ∈ cells par t -> rb_heap s !! q = Some n) ->
       NoDup (addrs t) -> ptr t = Some p -> (length (addrs t) <= fuel)%nat ->
       dispose_all (rb_dispose s) (postorder t) (rb_env s) = Some e ->
       wp (rb_destroy fuel p true) (fun _ s' => destroyed t e s s') s) ->
    NoDup (addrs t) -> (length (addrs t) <= fuel)%nat ->
    dispose_all (rb_dispose s) (postorder t) (rb_env s) = Some e ->
    wp (match ptr t with Some q => rb_destroy fuel q true | None => mret tt end)
      (fun _ s' => destroyed t e s s') s).
  { intros t0 e0 s0 Hc0 IH0 Hn0 Hf0 He0. destruct (ptr t0) as [q|] eqn:Eq; [by eapply IH0|].
    destruct t0; [|done]. apply wp_ret. cbn in He0. injection He0 as <-.
    split_and!; [|unfold zlen; cbn [addrs length]; lia|done|done]. intros q. by rewrite decide_False by apply not_elem_of_nil. }
  cbn [rb_destroy]. apply wp_bind. eapply wp_rb_at; [apply Hcells; by left|].
  cbn [rb_left rb_right rb_value].
  apply wp_bind. eapply wp_mono.
  { eapply (Hsub l e1); [|exact IHl|done|lia|exact E1]. intros q n Hq. apply Hcells. auto. }
  intros [] s1 (Hh1 & Hs1 & Hd1 & He1).
  assert (Hr1 : forall q n, (q, n) ∈ cells (Some p) r -> rb_heap s1 !! q = Some n).
  { intros q n Hq. rewrite Hh1, decide_False; [apply Hcells; eauto|].
    intros Hl. by eapply Hlr, elem_of_cells. }
  apply wp_bind. eapply wp_mono.
  { eapply (Hsub r e2); [exact Hr1|exact IHr|done|lia|]. by rewrite Hd1, He1. }
  intros [] s2 (Hh2 & Hs2 & Hd2 & He2).
  apply wp_bind, wp_modify. apply wp_bind. eapply (call_dispose_spec _ e).
  { eapply dispose_all_one; [exact He2|]. cbn [rb_dispose update eta_rb_tree]. by rewrite Hd2, Hd1. }
  apply wp_bind. eapply wp_rb_at.
  { cbn [rb_heap update eta_rb_tree]. rewrite Hh2, Hh1, !decide_False by tauto.
    apply Hcells. by left. }
  apply wp_modify. split_and!; cbn [rb_heap rb_strings rb_dispose rb_env update eta_rb_tree].
  - intros q. destruct (decide (q = p)) as [->|Hne].
    + rewrite lookup_delete_eq, decide_True by apply list_elem_of_here. done.
    + rewrite lookup_delete_ne, Hh2, Hh1 by done. cbn [addrs].
      destruct (decide (q ∈ addrs r)), (decide (q ∈ addrs l)), (decide (q ∈ p :: addrs l ++ addrs r))
        as [Hin|Hin]; try done; rewrite elem_of_cons, elem_of_app in Hin; tauto.
  - rewrite Hs2, Hs1. cbn [addrs]. rewrite zlen_cons, zlen_app. lia.
  - by rewrite Hd2, Hd1.
  - done.
Qed.

Lemma rbtree_destroy_spec L n s :
  holds L n s -> (forall vs, vs ≡ₚ L.*2 -> is_Some (dispose_all (rb_dispose s) vs (rb_env s))) ->
  wp rbtree_destroy (fun _ s' => rb_heap s' = ∅ /\ rb_strings s' = 0 /\
    exists vs, vs ≡ₚ L.*2 /\ dispose_all (rb_dispose s) vs (rb_env s) = Some (rb_env s')) s.
Proof.
  intros [(t & H & _ & _ & <-) _ Hstr] Hd. destruct (Hd _ (postorder_inorder t)) as [e He].
  assert (Hlen : zlen (inorder t) = zlen (addrs t)) by (unfold zlen; by rewrite length_inorder).
  apply wp_bind, wp_gets, wp_bind, wp_gets. rewrite (rep_root _ _ _ H).
  pose proof (rep_size _ _ _ H) as Hsz. pose proof (rep_spare _ _ _ H) as Hno.
  destruct (ptr t) as [p|] eqn:Ep.
  - eapply wp_mono.
    { eapply (rb_destroy_spec None t); [apply (rep_cells _ _ _ H)|apply (rep_nodup _ _ _ H)|done|lia|exact He]. }
    intros [] s' (Hh & Hs & _ & <-). split_and!; [|lia|by exists (postorder t); split; [apply postorder_inorder|]].
    apply map_eq. intros q. rewrite Hh, lookup_empty.
    destruct (decide (q ∈ addrs t)) as [|Hq]; [done|]. by rewrite (Hno q Hq).
  - destruct t; [|done]. apply wp_ret. split_and!; [|done|by exists []].
    apply map_eq. intros q. rewrite (Hno q) by apply not_elem_of_nil. done.
Qed.

(** ** The length of a walk *)

(** The height of a tree, and what the colours say about it. *)
Fixpoint height t : nat :=
  match t with Leaf => 0 | Node _ _ _ _ l r => Datatypes.S (Nat.max (height l) (height r)) end.

Lemma rb_height n t :
  rb n t -> (height t <= 2 * n + match color t with RB_RED => 1 | RB_BLACK => 0 end)%nat.
Proof.
  induction 1 as [|p k v l r n Hcl Hcr Hl IHl Hr IHr|p k v l r n Hl IHl Hr IHr]; cbn [height color] in *.
  - lia.
  - rewrite Hcl in IHl. rewrite Hcr in IHr. lia.
  - destruct (color l), (color r); lia.
Qed.

Lemma rb_length n t : rb n t -> (2 ^ n <= Datatypes.S (length (inorder t)))%nat.
Proof.
  induction 1 as [|p k v l r n Hcl Hcr Hl IHl Hr IHr|p k v l r n Hl IHl Hr IHr];
    cbn [inorder]; rewrite ?length_app; cbn [length]; [done|lia|].
  rewrite Nat.pow_succ_r'. lia.
Qed.

(** A search from the root compares the key with at most as many nodes as the tree is
    high. *)
Lemma rb_get_height spare ctx t key fuel s res s' :
  Rep spare (plug ctx t) s -> (height t < fuel)%nat ->
  forall fuel', rb_get fuel' (ptr t) key s = Some (res, s') ->
  rb_get fuel (ptr t) key s = Some (res, s').
Proof.
  revert ctx fuel. induction t as [|p c k v l IHl r IHr]; intros ctx fuel H Hf fuel' Hrun;
    (destruct fuel' as [|fuel']; [done|]); (destruct fuel as [|fuel]; [lia|]).
  - exact Hrun.
  - pose proof (rep_node _ _ _ _ _ _ _ _ _ H) as Hp. unfold rb_get in *. cbn [ptr loop] in *.
    unfold rb_at, gets, lift, mbind, ST_bind in *. rewrite Hp in *. cbn [rb_key rb_left rb_right] in *.
    destruct (strcmp key k =? 0); [done|]. cbn [height] in Hf.
    unfold mret, ST_ret in *.
    destruct (strcmp key k <? 0).
    + eapply (IHl (Frame true p c k v r :: ctx)); [exact H|lia|exact Hrun].
    + eapply (IHr (Frame false p c k v l :: ctx)); [exact H|lia|exact Hrun].
Qed.
End functions.

(** * An ordered association list, and the tree as one *)

Record ordered (V E : Type) := Ordered {
  ol_items : list (bytes * option V);
  ol_dispose : option (V -> ST E unit);
  ol_env : E;
}.
Arguments Ordered {V E} _ _ _.
Arguments ol_items {V E} _.
Arguments ol_dispose {V E} _.
Arguments ol_env {V E} _.

Inductive rb_op (V E : Type) :=
  | OpInsert (key : bytes) (value : option V)
  | OpReplace (key : bytes) (value : option V)
  | OpDelete (key : bytes)
  | OpGet (key : bytes)
  | OpMinimum
  | OpMaximum
  | OpKeys
  | OpRange (min max : bytes)
  | OpSize
  | OpEmpty
  | OpSetDispose (dispose : option (V -> ST E unit)).
Arguments OpInsert {V E} _ _.
Arguments OpReplace {V E} _ _.
Arguments OpDelete {V E} _.
Arguments OpGet {V E} _.
Arguments OpMinimum {V E}.
Arguments OpMaximum {V E}.
Arguments OpKeys {V E}.
Arguments OpRange {V E} _ _.
Arguments OpSize {V E}.
Arguments OpEmpty {V E}.
Arguments OpSetDispose {V E} _.

Inductive rb_answer (V : Type) :=
  | Inserted (new : bool)
  | Value (value : option V)
  | Key (key : option bytes)
  | Keys (keys : list bytes)
  | Number (n : Z)
  | Done.
Arguments Inserted {V} _.
Arguments Value {V} _.
Arguments Key {V} _.
Arguments Keys {V} _.
Arguments Number {V} _.
Arguments Done {V}.

Section refinement.
Context {V E : Type}.

Definition answer_of {A} (f : A -> rb_answer V) (m : ST (rb_tree V E) A)
    : ST (rb_tree V E) (rb_answer V) := a ← m; mret (f a).

Definition rb_run_op (o : rb_op V E) : ST (rb_tree V E) (rb_answer V) :=
  match o with
  | OpInsert key value =>
      answer_of (fun p => Inserted (match p with Some _ => true | None => false end))
        (rbtree_insert key value)
  | OpReplace key value => answer_of Value (rbtree_replace key value)
  | OpDelete key => answer_of Number (rbtree_delete key)
  | OpGet key => answer_of Value (rbtree_get key)
  | OpMinimum => answer_of Key rbtree_minimum
  | OpMaximum => answer_of Key rbtree_maximum
  | OpKeys => answer_of Keys rbtree_keys
  | OpRange min max => answer_of Keys (rbtree_range min max)
  | OpSize => answer_of Number rbtree_size
  | OpEmpty => answer_of Number rbtree_empty
  | OpSetDispose dispose => answer_of (fun _ => Done) (rbtree_set_dispose dispose)
  end.

(** The same on the list; [disposing] is what becomes of the caller's memory. *)
Definition disposing (l : ordered V E) (value : option V) : option E :=
  dispose_all (ol_dispose l) [value] (ol_env l).

Definition spec_op (o : rb_op V E) (l : ordered V E) : option (rb_answer V * ordered V E) :=
  let items := ol_items l in
  let with_items items env := Ordered items (ol_dispose l) env in
  match o with
  | OpInsert key value =>
      Some (match al_get key items with
            | Some _ => (Inserted false, l)
            | None => (Inserted true, with_items (al_insert key value items) (ol_env l))
            end)
  | OpReplace key value =>
      match al_get key items with
      | Some old => env ← disposing l old;
          Some (Value value, with_items (al_replace key value items) env)
      | None => Some (Value None, l)
      end
  | OpDelete key =>
      match al_get key items with
      | Some old => env ← disposing l old; Some (Number 1, with_items (al_delete key items) env)
      | None => Some (Number 0, l)
      end
  | OpGet key => Some (Value (default None (al_get key items)), l)
  | OpMinimum => Some (Key (fst <$> head items), l)
  | OpMaximum => Some (Key (fst <$> last items), l)
  | OpKeys => Some (Keys items.*1, l)
  | OpRange min max => Some (Keys (filter (in_range min max) items.*1), l)
  | OpSize => Some (Number (u32 (zlen items)), l)
  | OpEmpty => Some (Number (match items with [] => 1 | _ => 0 end), l)
  | OpSetDispose dispose => Some (Done, Ordered items dispose (ol_env l))
  end.

Fixpoint rb_run (ops : list (rb_op V E)) : ST (rb_tree V E) (list (rb_answer V)) :=
  match ops with
  | [] => mret []
  | o :: ops => a ← rb_run_op o; answers ← rb_run ops; mret (a :: answers)
  end.

Fixpoint spec_run (ops : list (rb_op V E)) (l : ordered V E)
    : option (list (rb_answer V) * ordered V E) :=
  match ops with
  | [] => Some ([], l)
  | o :: ops =>
      '(a, l) ← spec_op o l; '(answers, l) ← spec_run ops l; Some (a :: answers, l)
  end.

(** The tree implements the list. *)
Definition implements (s : rb_tree V E) (l : ordered V E) : Prop :=
  (exists n, holds (ol_items l) n s) /\ env_of s = (ol_dispose l, ol_env l).

Lemma holds_dispose L n (s : rb_tree V E) d :
  holds L n s -> holds L n (s <| rb_dispose := d |>).
Proof.
  intros [(t & H & Hb & Hc & HL) Hs Hstr]. constructor; [|done|done].
  exists t. split_and!; try done. by eapply rep_ext.
Qed.

Lemma rb_run_op_spec o s l a l' :
  implements s l -> spec_op o l = Some (a, l') ->
  wp (rb_run_op o) (fun a' s' => a' = a /\ implements s' l') s.
Proof.
  intros [[n H] Henv] Hspec. pose proof Henv as Henv'.
  unfold env_of in Henv'. injection Henv' as Hd He.
  assert (Hdisp : forall old e, disposing l old = Some e -> disposed s old e).
  { intros old e Ho. eapply dispose_all_one; [exact He|]. rewrite Hd. exact Ho. }
  assert (Hsame : implements s l) by (split; [by exists n|done]).
  destruct o as [key value|key value|key|key| | | |min max| | |dispose]; cbn [rb_run_op spec_op] in *;
    unfold answer_of; apply wp_bind.
  - eapply rbtree_insert_spec; [exact H| |].
    + intros v s' Hg H' E'. apply wp_ret. rewrite Hg in Hspec. injection Hspec as <- <-.
      split; [done|]. split; [by exists n|]. by rewrite E'.
    + intros p m s' Hg H' E'. apply wp_ret. rewrite Hg in Hspec. injection Hspec as <- <-.
      split; [done|]. split; [by exists m|]. by rewrite E'.
  - destruct (al_get key (ol_items l)) as [old|] eqn:Hg.
    + destruct (disposing l old) as [e|] eqn:Ho; [|done]. cbn in Hspec. injection Hspec as <- <-.
      eapply (rbtree_replace_spec _ _ e); [exact H| | |congruence].
      * intros old' Hg'. rewrite Hg in Hg'. injection Hg' as <-. by apply Hdisp.
      * intros s' H' E' _. apply wp_ret. split; [done|]. split; [by exists n|]. by rewrite E', Hd.
    + injection Hspec as <- <-.
      eapply (rbtree_replace_spec _ _ (ol_env l)); [exact H| | |].
      * congruence.
      * intros s' _ _ [x Hx]. congruence.
      * intros _. by apply wp_ret.
  - destruct (al_get key (ol_items l)) as [old|] eqn:Hg.
    + destruct (disposing l old) as [e|] eqn:Ho; [|done]. cbn in Hspec. injection Hspec as <- <-.
      eapply (rbtree_delete_spec _ e); [exact H| |congruence|].
      * intros old' Hg'. rewrite Hg in Hg'. injection Hg' as <-. by apply Hdisp.
      * intros m s' _ H' E'. apply wp_ret. split; [done|]. split; [by exists m|]. by rewrite E', Hd.
    + injection Hspec as <- <-.
      eapply (rbtree_delete_spec _ (ol_env l)); [exact H| | |].
      * congruence.
      * intros _. by apply wp_ret.
      * intros m s' [x Hx]. congruence.
  - injection Hspec as <- <-. eapply rbtree_get_spec; [exact H|by apply wp_ret].
  - injection Hspec as <- <-. eapply rbtree_minimum_spec; [exact H|by apply wp_ret].
  - injection Hspec as <- <-. eapply rbtree_maximum_spec; [exact H|by apply wp_ret].
  - injection Hspec as <- <-. eapply rbtree_keys_spec; [exact H|by apply wp_ret].
  - injection Hspec as <- <-. eapply rbtree_range_spec; [exact H|by apply wp_ret].
  - injection Hspec as <- <-. eapply rbtree_size_spec; [exact H|by apply wp_ret].
  - injection Hspec as <- <-. eapply rbtree_empty_spec; [exact H|by apply wp_ret].
  - injection Hspec as <- <-. apply wp_modify, wp_ret. split; [done|].
    split; [exists n; by apply holds_dispose|]. unfold env_of.
    cbn [rb_dispose rb_env update eta_rb_tree]. by rewrite He.
Qed.

Lemma rb_run_spec ops s l answers l' :
  implements s l -> spec_run ops l = Some (answers, l') ->
  wp (rb_run ops) (fun answers' s' => answers' = answers /\ implements s' l') s.
Proof.
  revert s l answers. induction ops as [|o ops IH]; intros s l answers Hi Hrun; cbn in *.
  { injection Hrun as <- <-. by apply wp_ret. }
  destruct (spec_op o l) as [[a l1]|] eqn:E1; [|done]. cbn in Hrun.
  destruct (spec_run ops l1) as [[answers1 l2]|] eqn:E2; [|done]. cbn in Hrun.
  injection Hrun as <- <-.
  apply wp_bind. eapply wp_mono; [by eapply rb_run_op_spec|]. intros a' s1 [-> Hi1].
  apply wp_bind. eapply wp_mono; [by eapply IH|]. intros answers' s2 [-> Hi2].
  by apply wp_ret.
Qed.

Lemma init_implements (env : E) : implements (rbtree_init env) (Ordered [] None env).
Proof.
  split; [|done]. exists 0%nat. constructor; [|constructor|done].
  exists Leaf. split_and!; try done; [|constructor]. constructor; try done.
  - by intros p n []%elem_of_nil.
  - constructor.
  - by intros p []%elem_of_nil.
Qed.

(** Callbacks that always return. *)
Definition total (dispose : option (V -> ST E unit)) : Prop :=
  match dispose with Some d => forall v e, is_Some (d v e) | None => True end.

Lemma dispose_all_total d vs e : total d -> is_Some (dispose_all d vs e).
Proof.
  intros Hd. revert e. induction vs as [|v vs IH]; intros e; [by eexists|]. cbn.
  destruct d as [d|], v as [v|]; try apply IH. destruct (Hd v e) as [[[] e'] ->]. apply IH.
Qed.

Definition op_total (o : rb_op V E) : Prop :=
  match o with OpSetDispose d => total d | _ => True end.

Lemma spec_op_total o l :
  total (ol_dispose l) -> op_total o -> exists a l', spec_op o l = Some (a, l') /\ total (ol_dispose l').
Proof.
  intros Hl Ho. assert (Hd : forall v, is_Some (disposing l v)) by (intros v; by apply dispose_all_total).
  destruct o as [key value|key value|key|key| | | |min max| | |dispose]; cbn [spec_op];
    try (by eexists _, _; split; [reflexivity|]).
  - destruct (al_get key (ol_items l)); by eexists _, _.
  - destruct (al_get key (ol_items l)) as [v|]; [destruct (Hd v) as [e ->]|]; by eexists _, _.
  - destruct (al_get key (ol_items l)) as [v|]; [destruct (Hd v) as [e ->]|]; by eexists _, _.
Qed.

Lemma spec_run_total ops l :
  total (ol_dispose l) -> Forall op_total ops ->
  exists answers l', spec_run ops l = Some (answers, l') /\ total (ol_dispose l').
Proof.
  intros Hl Hops. revert l Hl. induction Hops as [|o ops Ho _ IH]; intros l Hl; [by exists [], l|].
  destruct (spec_op_total o l Hl Ho) as (a & l1 & E1 & Hl1).
  destruct (IH l1 Hl1) as (answers & l2 & E2 & Hl2).
  exists (a :: answers), l2. cbn. rewrite E1. cbn. by rewrite E2.
Qed.
End refinement.

(** C18: the red-black tree is an ordered map: whatever operations are applied to a new
    tree, each answers what it answers on a sorted association list; no operation
    touches memory it should not.  Afterwards the tree holds the items of the list, in
    order and balanced, with exactly one node and one copy of the key for each; and
    destroying it disposes of every value once and frees everything. *)
Theorem rbtree_is_ordered_map {V E : Type} (ops : list (rb_op V E)) (env : E) :
  Forall op_total ops ->
  exists answers l s n, spec_run ops (Ordered [] None env) = Some (answers, l) /\
    rb_run ops (rbtree_init env) = Some (answers, s) /\
    holds (ol_items l) n s /\ size (rb_heap s) = length (ol_items l) /\
    rbtree_black_depth s = Some (Z.of_nat n, s) /\
    exists s' vs, rbtree_destroy s = Some (tt, s') /\ rb_heap s' = ∅ /\ rb_strings s' = 0 /\
      vs ≡ₚ (ol_items l).*2 /\ dispose_all (ol_dispose l) vs (ol_env l) = Some (rb_env s').
Proof.
  intros Hops. destruct (spec_run_total ops (Ordered [] None env)) as (answers & l & Hrun & Htot);
    [done|done|].
  pose proof (rb_run_spec _ _ _ _ _ (init_implements env) Hrun) as W.
  apply wp_run in W as (? & s & Hs & -> & [n H] & Henv). injection Henv as Hd He.
  exists answers, l, s, n. split_and!; [done|done|done| | |].
  - by eapply holds_size.
  - pose proof (rbtree_black_depth_spec _ _ _ (fun d s' => d = Z.of_nat n /\ s' = s) H (conj eq_refl eq_refl)) as W.
    by apply wp_run in W as (d & s' & -> & -> & ->).
  - pose proof (rbtree_destroy_spec _ _ _ H) as W.
    apply wp_run in W as ([] & s' & Hdes & Hh & Hstr & vs & Hvs & Hall).
    + exists s', vs. rewrite <- Hd, <- He. by split_and!.
    + intros vs _. rewrite Hd. by apply dispose_all_total.
Qed.

(** C40: the search of rbtree_op.c looks at no more than [2 * log2 (size + 1)] nodes: with
    that bound on the rounds of its loop [rb_get] gives the same result as without,
    in every state that insertions and deletions can reach. *)
Theorem rbtree_search_logarithmic {V E : Type} L n (s : rb_tree V E) key :
  holds L n s ->
  exists res, rb_find key s = Some (res, s) /\
    rb_get (Datatypes.S (2 * Nat.log2 (Datatypes.S (length L)))) (rb_root s) key s = Some (res, s).
Proof.
  intros [(t & H & Hb & Hc & <-) Hs _].
  assert (Hfind : wp (rb_find key) (fun _ s' => s' = s) s) by (by eapply rb_find_spec).
  apply wp_run in Hfind as (res & s' & Hrun & ->). exists res. split; [done|].
  pose proof (rb_height _ _ Hb) as Hh. rewrite Hc in Hh. pose proof (rb_length _ _ Hb) as Hl.
  assert (Hn : (n <= Nat.log2 (Datatypes.S (length (inorder t))))%nat)
    by (apply Nat.log2_le_pow2; lia).
  rewrite (rep_root _ _ _ H). eapply (rb_get_height ∅ []); [exact H|lia|].
  unfold rb_find, walk_bound, gets, mbind, ST_bind in Hrun. by rewrite (rep_root _ _ _ H) in Hrun.
Qed.

(** * The check of the black depth *)

(** [rb_black_depth] reports an unbalanced subtree by -1, but a black node above two
    unbalanced subtrees adds one to it: here both children of the root have an
    unbalanced tree on either side, and the answer is 0 and not -1. *)
Definition lopsided (p : nat) : tree Z :=
  Node p RB_BLACK [] None (Node (p + 1) RB_BLACK [] None Leaf Leaf) Leaf.
Definition unbalanced : tree Z :=
  Node 1 RB_BLACK [] None (Node 2 RB_BLACK [] None (lopsided 10) (lopsided 20))
    (Node 3 RB_BLACK [] None (lopsided 30) (lopsided 40)).
Definition unbalanced_state : rb_tree Z unit :=
  RbTree (ptr unbalanced) None (list_to_map (cells None unbalanced)) 100 11 tt.

Theorem black_depth_misses_imbalance :
  fst <$> rbtree_black_depth unbalanced_state = Some 0 /\
  fst <$> rb_black_depth 10 (Some 10%nat) unbalanced_state = Some (-1) /\
  forall n, ~ rb n unbalanced.
Proof.
  split_and!; [by vm_compute|by vm_compute|]. intros n H.
  unfold unbalanced, lopsided in H.
  repeat match goal with H : rb _ (Node _ _ _ _ _ _) |- _ => inversion H; clear H; subst end.
  repeat match goal with H : rb _ Leaf |- _ => inversion H; clear H; subst end.
Qed.

(** * Concrete instances *)

Definition sample_ops : list (rb_op Z (list Z)) :=
  [OpSetDispose (Some (fun v e => Some (tt, v :: e)));
   OpInsert (str "k5") (Some 5); OpInsert (str "k1") (Some 1); OpInsert (str "k3") (Some 3);
   OpInsert (str "k4") (Some 4); OpInsert (str "k2") None; OpInsert (str "k3") (Some 33);
   OpDelete (str "k4"); OpReplace (str "k1") (Some 11); OpDelete (str "k9");
   OpKeys; OpRange (str "k2") (str "k4"); OpSize; OpGet (str "k1"); OpMaximum].

Example rbtree_is_ordered_map_witness :
  exists answers l s n, spec_run sample_ops (Ordered [] None []) = Some (answers, l) /\
    rb_run sample_ops (rbtree_init []) = Some (answers, s) /\
    holds (ol_items l) n s /\ size (rb_heap s) = length (ol_items l) /\
    rbtree_black_depth s = Some (Z.of_nat n, s) /\
    exists s' vs, rbtree_destroy s = Some (tt, s') /\ rb_heap s' = ∅ /\ rb_strings s' = 0 /\
      vs ≡ₚ (ol_items l).*2 /\ dispose_all (ol_dispose l) vs (ol_env l) = Some (rb_env s').
Proof.
  apply rbtree_is_ordered_map. repeat constructor. intros v e. by eexists.
Defined.

Example sample_answers :
  match rb_run sample_ops (rbtree_init []) with
  | Some (answers, s) =>
      answers = [Done; Inserted true; Inserted true; Inserted true; Inserted true;
        Inserted true; Inserted false; Number 1; Value (Some 11); Number 0;
        Keys [str "k1"; str "k2"; str "k3"; str "k5"]; Keys [str "k2"; str "k3"];
        Number 4; Value (Some 11); Key (Some (str "k5"))] /\
      rb_env s = [1; 4] /\ rb_strings s = 4
  | None => False
  end.
Proof. by vm_compute. Qed.

Example rbtree_search_logarithmic_witness :
  exists (s : rb_tree Z unit) n, holds [(str "k1", Some 1); (str "k2", None)] n s /\
  exists res, rb_find (str "k2") s = Some (res, s) /\
    rb_get 3 (rb_root s) (str "k2") s = Some (res, s).
Proof.
  pose proof (rb_run_spec [OpInsert (str "k2") None; OpInsert (str "k1") (Some 1)] _ _ _ _
    (init_implements tt) eq_refl) as W.
  apply wp_run in W as (answers & s & _ & _ & [n H] & _).
  exists s, n. split; [exact H|].
  exact (rbtree_search_logarithmic _ n s (str "k2") H).
Defined.
