(* ===== verification/LinkedQueue.v ===== *)
(** The agent's linked queue, agents/shared/queue_linked_op.c: a FIFO on a doubly
    linked list of nodes, from which a node can also be unlinked and put at the end.
    A pointer to a node is its address in a heap of nodes, [None] the null pointer;
    a pointer to data is a number, 0 being null.  Functions whose name ends in [_ex]
    run under the queue's mutex: they are one step, and one that has to wait says on
    what ([attempt], of [WQueue]). *)
From stdpp Require Import gmap.
From S2P Require Import Prelude WQueue.
#[local] Open Scope Z_scope.

(** * State *)

Record linked_queue_node_t := LinkedNode {
  ln_data : Z;
  ln_next : option nat;
  ln_prev : option nat;
}.
#[export] Instance eta_linked_node : Eta linked_queue_node_t := fun n =>
  LinkedNode (ln_data n) (ln_next n) (ln_prev n).

(** [lq_nodes] are the nodes allocated for the queue. *)
Record w_linked_queue_t := LinkedQueue {
  lq_elements : Z;
  lq_first : option nat;
  lq_last : option nat;
  lq_nodes : gmap nat linked_queue_node_t;
  lq_fresh : nat;
}.
#[export] Instance eta_linked_queue : Eta w_linked_queue_t := fun q =>
  LinkedQueue (lq_elements q) (lq_first q) (lq_last q) (lq_nodes q) (lq_fresh q).

Abbreviation LQ := (ST w_linked_queue_t).

(** * Operations *)

Definition node_at (p : nat) : LQ linked_queue_node_t :=
  n ← gets (fun q => lq_nodes q !! p); lift n.
Definition node_set (p : nat) (f : linked_queue_node_t -> linked_queue_node_t) : LQ unit :=
  _ ← node_at p; modify (fun q => q <| lq_nodes := alter f p (lq_nodes q) |>).

(** [os_calloc], and [free], of a node. *)
Definition node_new (data : Z) : LQ nat :=
  p ← gets lq_fresh;
  _ ← modify (fun q => q <| lq_nodes := <[p := LinkedNode data None None]> (lq_nodes q) |>
                         <| lq_fresh := S p |>);
  mret p.
Definition node_free (p : nat) : LQ unit :=
  _ ← node_at p; modify (fun q => q <| lq_nodes := delete p (lq_nodes q) |>).

Definition set_next (p : nat) (next : option nat) : LQ unit :=
  node_set p (fun n => n <| ln_next := next |>).
Definition set_prev (p : nat) (prev : option nat) : LQ unit :=
  node_set p (fun n => n <| ln_prev := prev |>).
Definition set_first (p : option nat) : LQ unit := modify (fun q => q <| lq_first := p |>).
Definition set_last (p : option nat) : LQ unit := modify (fun q => q <| lq_last := p |>).

Definition linked_queue_init : w_linked_queue_t := LinkedQueue 0 None None ∅ 0.

(** Only the structure is given back; a node still in the queue is not. *)
Definition linked_queue_free {S} `{!HasWorld S} (queue : option w_linked_queue_t) : ST S unit :=
  match queue with Some _ => free "queue" | None => mret tt end.

Definition linked_queue_append_node (node : nat) : LQ unit :=
  first ← gets lq_first;
  _ ← match first with
      | None =>
          _ ← set_first (Some node);
          _ ← set_last (Some node);
          _ ← set_prev node None;
          set_next node None
      | Some _ =>
          last ← gets lq_last;
          last ← lift last;
          _ ← set_next last (Some node);
          _ ← set_prev node (Some last);
          _ ← set_next node None;
          set_last (Some node)
      end;
  modify (fun q => q <| lq_elements := u32 (lq_elements q + 1) |>).

Definition linked_queue_push (data : Z) : LQ nat :=
  node ← node_new data;
  _ ← linked_queue_append_node node;
  mret node.

(** The node, and the condition variables it signals. *)
Definition linked_queue_push_ex (data : Z) : LQ (nat * list w_cond) :=
  node ← node_new data;
  _ ← linked_queue_append_node node;
  mret (node, [available]).

Definition linked_queue_unlink_and_push_node (node : nat) : LQ unit :=
  n ← node_at node;
  match ln_next n with
  | None => mret tt
  | Some next =>
      _ ← set_prev next (ln_prev n);
      _ ← match ln_prev n with
          | Some prev => set_next prev (Some next)
          | None => set_first (Some next)
          end;
      _ ← set_prev node None;
      _ ← set_next node None;
      _ ← modify (fun q => q <| lq_elements := u32 (lq_elements q - 1) |>);
      linked_queue_append_node node
  end.

Definition linked_queue_pop_node : LQ unit :=
  tmp ← gets lq_first;
  tmp ← lift tmp;
  n ← node_at tmp;
  _ ← set_first (ln_next n);
  _ ← match ln_next n with
      | Some next => set_prev next None
      | None => set_last None
      end;
  _ ← modify (fun q => q <| lq_elements := u32 (lq_elements q - 1) |>);
  node_free tmp.

Definition linked_queue_pop : LQ Z :=
  first ← gets lq_first;
  match first with
  | None => mret 0
  | Some p => n ← node_at p; _ ← linked_queue_pop_node; mret (ln_data n)
  end.

Definition linked_queue_pop_ex : LQ attempt :=
  data ← linked_queue_pop;
  if data =? 0 then mret (WaitsOn available) else mret (Returns data []).

(** * Segments of the list *)

Implicit Types (h : gmap nat linked_queue_node_t) (L A B : list (nat * Z)).

Definition first_or L (o : option nat) : option nat :=
  match L with [] => o | (p, _) :: _ => Some p end.
Definition last_or L (o : option nat) : option nat :=
  match last L with None => o | Some (p, _) => Some p end.

(** [seg h prev L next]: the nodes [L], in this order, linked in both directions,
    between [prev] and [next]. *)
Fixpoint seg h (prev : option nat) L (next : option nat) : Prop :=
  match L with
  | [] => True
  | (p, d) :: L => h !! p = Some (LinkedNode d (first_or L next) prev) /\ seg h (Some p) L next
  end.

Lemma last_or_snoc A p d o : last_or (A ++ [(p, d)]) o = Some p.
Proof. unfold last_or. by rewrite last_snoc. Qed.

Lemma first_or_app A B o : first_or (A ++ B) o = first_or A (first_or B o).
Proof. by destruct A as [|[]]. Qed.

Lemma last_or_app A B o : last_or (A ++ B) o = last_or B (last_or A o).
Proof. unfold last_or. rewrite last_app. by destruct (last B) as [[]|]. Qed.

Lemma last_or_cons p d L o : last_or ((p, d) :: L) o = last_or L (Some p).
Proof. apply (last_or_app [(p, d)]). Qed.

Lemma seg_app h prev A B next :
  seg h prev (A ++ B) next <-> seg h prev A (first_or B next) /\ seg h (last_or A prev) B next.
Proof.
  revert prev. induction A as [|[p d] A IH]; intros prev; cbn [app seg].
  - change (last_or [] prev) with prev. tauto.
  - rewrite IH, first_or_app, last_or_cons. tauto.
Qed.

Lemma seg_congr h h' prev L next :
  (forall p, p ∈ L.*1 -> h' !! p = h !! p) -> seg h prev L next -> seg h' prev L next.
Proof.
  revert prev. induction L as [|[p d] L IH]; intros prev E; [done|].
  intros [H1 H2]. split; [rewrite E by left; done|]. apply IH; [|done].
  intros q Hq. apply E. by right.
Qed.

Lemma seg_alter h prev L next f p :
  p ∉ L.*1 -> seg h prev L next -> seg (alter f p h) prev L next.
Proof. intros. eapply seg_congr; [|done]. intros q Hq. apply lookup_alter_ne. by intros ->. Qed.

Lemma seg_insert h prev L next n p :
  p ∉ L.*1 -> seg h prev L next -> seg (<[p := n]> h) prev L next.
Proof. intros. eapply seg_congr; [|done]. intros q Hq. apply lookup_insert_ne. by intros ->. Qed.

Lemma seg_delete h prev L next p :
  p ∉ L.*1 -> seg h prev L next -> seg (delete p h) prev L next.
Proof. intros. eapply seg_congr; [|done]. intros q Hq. apply lookup_delete_ne. by intros ->. Qed.

(** Redirecting the pointer out of a segment, at either end. *)
Lemma seg_set_next h prev A p d next next' :
  NoDup (A ++ [(p, d)]).*1 -> seg h prev (A ++ [(p, d)]) next ->
  seg (alter (fun n => n <| ln_next := next' |>) p h) prev (A ++ [(p, d)]) next'.
Proof.
  rewrite fmap_app, !seg_app. intros (_ & Hp & _)%NoDup_app [HA [Hn _]].
  split; [apply seg_alter; [|done]|].
  - intros Hin. eapply Hp; [exact Hin|by left].
  - split; [|done]. by rewrite lookup_alter_eq, Hn.
Qed.

Lemma seg_set_prev h prev prev' p d B next :
  NoDup ((p, d) :: B).*1 -> seg h prev ((p, d) :: B) next ->
  seg (alter (fun n => n <| ln_prev := prev' |>) p h) prev' ((p, d) :: B) next.
Proof.
  intros [Hp _]%NoDup_cons [Hn HB]. split; [by rewrite lookup_alter_eq, Hn|].
  by apply seg_alter.
Qed.

(** The queue holds the nodes [L] with their data; the only other node that may be
    allocated is [spare]. *)
Record lq_holds (spare : gmap nat linked_queue_node_t) L (q : w_linked_queue_t) : Prop := {
  lqh_seg : seg (lq_nodes q) None L None;
  lqh_first : lq_first q = first_or L None;
  lqh_last : lq_last q = last_or L None;
  lqh_nodup : NoDup L.*1;
  lqh_only : forall p, p ∉ L.*1 -> lq_nodes q !! p = spare !! p;
  lqh_fresh : forall p, is_Some (lq_nodes q !! p) -> (p < lq_fresh q)%nat;
  lqh_elements : lq_elements q = u32 (zlen L);
}.

Section specs.
Implicit Types (q : w_linked_queue_t).

Lemma wp_node_at p n q (Q : linked_queue_node_t -> w_linked_queue_t -> Prop) :
  lq_nodes q !! p = Some n -> Q n q -> wp (node_at p) Q q.
Proof. intros H HQ. apply wp_bind, wp_gets. by eapply wp_lift. Qed.

Lemma wp_node_set p f q (Q : unit -> w_linked_queue_t -> Prop) :
  is_Some (lq_nodes q !! p) ->
  Q tt (q <| lq_nodes := alter f p (lq_nodes q) |>) -> wp (node_set p f) Q q.
Proof. intros [n H] HQ. apply wp_bind. eapply wp_node_at; [done|]. by apply wp_modify. Qed.

Lemma is_Some_alter f p k h : is_Some (h !! k) -> is_Some (alter f p h !! k).
Proof.
  intros [n H]. destruct (decide (p = k)) as [->|]; [rewrite lookup_alter_eq, H|rewrite lookup_alter_ne by done]; eauto.
Qed.

Lemma is_Some_alter_inv f p k h : is_Some (alter f p h !! k) -> is_Some (h !! k).
Proof.
  destruct (decide (p = k)) as [->|]; [rewrite lookup_alter_eq|by rewrite lookup_alter_ne].
  destruct (h !! k); [eauto|]. intros [? [=]].
Qed.

Lemma seg_lookup h prev A p d B next :
  seg h prev (A ++ (p, d) :: B) next ->
  h !! p = Some (LinkedNode d (first_or B next) (last_or A prev)).
Proof. by intros [_ [H _]]%seg_app. Qed.

(** A node that is not in the list becomes its last. *)
Lemma append_node_spec p n L q (Q : unit -> w_linked_queue_t -> Prop) :
  lq_holds {[p := n]} L q -> p ∉ L.*1 ->
  (forall q', lq_holds ∅ (L ++ [(p, ln_data n)]) q' -> Q tt q') ->
  wp (linked_queue_append_node p) Q q.
Proof.
  intros [Hs Hf Hl Hn Ho Hfr He] Hp HQ.
  assert (Hpn : lq_nodes q !! p = Some n) by (rewrite Ho by done; apply lookup_singleton_eq).
  assert (Hel : u32 (u32 (zlen L) + 1) = u32 (zlen (L ++ [(p, ln_data n)])))
    by (rewrite uwrap_add_l, zlen_app; done).
  apply wp_bind, wp_gets. rewrite Hf. apply wp_bind.
  destruct L as [|[pl dl] A _] using rev_ind.
  - cbn [first_or]. apply wp_bind, wp_modify, wp_bind, wp_modify. apply wp_bind, wp_node_set; [cbn; eauto|].
    apply wp_node_set; [cbn; apply is_Some_alter; eauto|]. apply wp_modify, HQ.
    cbn [update lq_nodes lq_first lq_last lq_elements lq_fresh eta_linked_queue].
    constructor; cbn -[zlen uwrap]; [split; [|done]|done|done|by apply NoDup_singleton| | |].
    + by rewrite !lookup_alter_eq, Hpn.
    + intros k Hk. rewrite !lookup_alter_ne by set_solver. rewrite Ho by set_solver.
      rewrite lookup_singleton_ne by set_solver. done.
    + intros k Hk. apply Hfr. by do 2 apply is_Some_alter_inv in Hk.
    + by rewrite He, Hel.
  - rewrite first_or_app. destruct (first_or A _) as [f|] eqn:Ef; [|by destruct A as [|[]]].
    rewrite last_or_snoc in Hl.
    assert (Hpl : pl <> p) by (rewrite fmap_app in Hp; set_solver).
    apply wp_bind, wp_gets. rewrite Hl. apply wp_bind. eapply wp_lift; [done|].
    apply wp_bind, wp_node_set; [erewrite seg_lookup by exact Hs; eauto|].
    apply wp_bind, wp_node_set; [cbn; apply is_Some_alter; eauto|].
    apply wp_bind, wp_node_set; [cbn; do 2 apply is_Some_alter; eauto|].
    apply wp_modify, wp_modify, HQ.
    cbn [update lq_nodes lq_first lq_last lq_elements lq_fresh eta_linked_queue].
    constructor; cbn [lq_nodes lq_first lq_last lq_elements lq_fresh].
    + rewrite seg_app. split.
      * apply seg_alter; [done|]. apply seg_alter; [done|].
        by apply seg_set_next with (next := None).
      * split; [|done]. rewrite !lookup_alter_eq, lookup_alter_ne, Hpn by done. cbn.
        by rewrite last_or_snoc.
    + rewrite Hf. by rewrite !first_or_app; destruct A as [|[]].
    + by rewrite last_or_snoc.
    + rewrite fmap_app. apply NoDup_app. split_and!; [done| |by apply NoDup_singleton].
      cbn. set_solver.
    + intros k Hk. rewrite fmap_app, not_elem_of_app in Hk. destruct Hk as [Hk Hkp].
      rewrite !lookup_alter_ne by (rewrite ?fmap_app in Hk; set_solver).
      rewrite Ho by done. rewrite lookup_singleton_ne by set_solver. done.
    + intros k Hk. apply Hfr. by do 3 apply is_Some_alter_inv in Hk.
    + by rewrite He, Hel.
Qed.

Lemma linked_queue_push_spec d L q (Q : nat -> w_linked_queue_t -> Prop) :
  lq_holds ∅ L q ->
  (forall p q', p ∉ L.*1 -> lq_holds ∅ (L ++ [(p, d)]) q' -> Q p q') ->
  wp (linked_queue_push d) Q q.
Proof.
  intros [Hs Hf Hl Hn Ho Hfr He] HQ. apply wp_bind, wp_bind, wp_gets.
  assert (Hp : lq_fresh q ∉ L.*1).
  { intros ([p d'] & Ep & (A & B & ->)%list_elem_of_split)%list_elem_of_fmap. cbn in Ep.
    assert (lq_fresh q < lq_fresh q)%nat; [|lia]. apply Hfr.
    rewrite Ep, (seg_lookup _ _ _ _ _ _ _ Hs). eauto. }
  apply wp_bind, wp_modify, wp_ret, wp_bind.
  apply (append_node_spec _ (LinkedNode d None None) L).
  - constructor; cbn; try done.
    + by apply seg_insert.
    + intros k Hk. destruct (decide (k = lq_fresh q)) as [->|Hne].
      * by rewrite lookup_insert_eq, lookup_singleton_eq.
      * rewrite lookup_insert_ne, lookup_singleton_ne by done. by apply Ho.
    + intros k. destruct (decide (k = lq_fresh q)) as [->|Hne]; [lia|].
      rewrite lookup_insert_ne by done. intros Hk%Hfr. lia.
  - done.
  - intros q' H. by apply wp_ret, HQ.
Qed.

Lemma linked_queue_pop_spec L q (Q : Z -> w_linked_queue_t -> Prop) :
  lq_holds ∅ L q ->
  match L with
  | [] => Q 0 q
  | (_, d) :: L' => forall q', lq_holds ∅ L' q' -> Q d q'
  end -> wp linked_queue_pop Q q.
Proof.
  intros [Hs Hf Hl Hn Ho Hfr He] HQ. apply wp_bind, wp_gets. rewrite Hf.
  destruct L as [|[p d] L]; [by apply wp_ret|]. cbn [first_or].
  destruct Hs as [Hp Hs]. apply NoDup_cons in Hn as [Hnp Hn].
  apply wp_bind. eapply wp_node_at; [done|]. apply wp_bind. unfold linked_queue_pop_node.
  apply wp_bind, wp_gets. rewrite Hf. apply wp_bind. eapply wp_lift; [done|].
  apply wp_bind. eapply wp_node_at; [done|]. cbn [ln_next ln_data].
  apply wp_bind, wp_modify, wp_bind.
  assert (Hend : forall q', lq_nodes q' = delete p (match L with (p', _) :: _ =>
        alter (fun n => n <| ln_prev := None |>) p' (lq_nodes q) | [] => lq_nodes q end) ->
      lq_first q' = first_or L None -> lq_last q' = last_or L None -> lq_fresh q' = lq_fresh q ->
      lq_elements q' = u32 (lq_elements q - 1) -> Q d q').
  { intros q' En Ef El Efr Ee. apply HQ. constructor; [|done|done|done| | |].
    - rewrite En. apply seg_delete; [done|]. destruct L as [|[p' d'] L]; [done|].
      eapply seg_set_prev; [done|exact Hs].
    - intros k Hk. rewrite En. destruct (decide (k = p)) as [->|Hkp]; [apply lookup_delete_eq|].
      rewrite lookup_delete_ne by done. rewrite <- (Ho k) by set_solver.
      destruct L as [|[p' d'] L]; [done|]. apply lookup_alter_ne. set_solver.
    - intros k. rewrite En, Efr. destruct (decide (k = p)) as [->|Hkp].
      { rewrite lookup_delete_eq. by intros []. }
      rewrite lookup_delete_ne by done. intros Hk. apply Hfr.
      destruct L as [|[p' d'] L]; [done|]. by apply is_Some_alter_inv in Hk.
    - rewrite Ee, He, zlen_cons, uwrap_sub_l. f_equal. lia. }
  destruct L as [|[p' d'] L].
  - apply wp_modify. apply wp_bind, wp_modify, wp_bind. eapply wp_node_at; [done|].
    apply wp_modify, wp_ret. by apply Hend.
  - destruct Hs as [Hp' Hs]. apply wp_node_set; [cbn; eauto|].
    apply wp_bind, wp_modify, wp_bind. eapply wp_node_at.
    { cbn. rewrite lookup_alter_ne by set_solver. done. }
    apply wp_modify, wp_ret. by apply Hend.
Qed.

(** ** Unlinking a node from the middle *)

(** The two assignments that close the gap between [A] and [B]. *)
Definition join_next A B h : gmap nat linked_queue_node_t :=
  match last A with
  | Some (a, _) => alter (fun n => n <| ln_next := first_or B None |>) a h
  | None => h
  end.
Definition join_prev A B h : gmap nat linked_queue_node_t :=
  match B with
  | (b, _) :: _ => alter (fun n => n <| ln_prev := last_or A None |>) b h
  | [] => h
  end.

Lemma join_next_other A B h k : k ∉ A.*1 -> join_next A B h !! k = h !! k.
Proof.
  unfold join_next. destruct A as [|[a da] A _] using rev_ind; [done|].
  rewrite last_snoc, fmap_app. intros Hk. apply lookup_alter_ne. set_solver.
Qed.

Lemma join_prev_other A B h k : k ∉ B.*1 -> join_prev A B h !! k = h !! k.
Proof. unfold join_prev. destruct B as [|[b db] B]; [done|]. intros. apply lookup_alter_ne. set_solver. Qed.

Lemma join_commute A b db B h :
  b ∉ A.*1 ->
  join_next A ((b, db) :: B) (alter (fun n => n <| ln_prev := last_or A None |>) b h)
  = join_prev A ((b, db) :: B) (join_next A ((b, db) :: B) h).
Proof.
  intros Hb. unfold join_next, join_prev. destruct A as [|[a da] A _] using rev_ind; [done|].
  rewrite last_snoc. apply partial_alter_partial_alter_ne. rewrite fmap_app in Hb. set_solver.
Qed.

Lemma join_allocated A B h k :
  is_Some (join_prev A B (join_next A B h) !! k) -> is_Some (h !! k).
Proof.
  unfold join_next, join_prev. intros H.
  destruct B as [|[b db] B]; [|apply is_Some_alter_inv in H];
    (destruct (last A) as [[a da]|]; [by apply is_Some_alter_inv in H|done]).
Qed.

Lemma seg_join h A p d B :
  NoDup (A ++ (p, d) :: B).*1 -> seg h None (A ++ (p, d) :: B) None ->
  seg (join_prev A B (join_next A B h)) None (A ++ B) None.
Proof.
  rewrite fmap_app, seg_app, seg_app. intros (HnA & HAB & [_ HnB]%NoDup_cons)%NoDup_app [HA [_ HB]].
  assert (Hout : forall k, k ∈ A.*1 -> k ∉ B.*1) by (intros k Hk Hk'; eapply HAB; [exact Hk|by right]).
  split.
  - eapply (seg_congr (join_next A B h)).
    { intros k Hk. apply join_prev_other. by apply Hout. }
    unfold join_next. destruct A as [|[a da] A _] using rev_ind; [done|].
    rewrite last_snoc. by eapply seg_set_next.
  - eapply (seg_congr (join_prev A B h)).
    { intros k Hk. unfold join_prev. assert (Hj : join_next A B h !! k = h !! k).
      { apply join_next_other. intros Hk'. by eapply Hout. }
      destruct B as [|[b db] B]; [done|]. destruct (decide (b = k)) as [->|Hne].
      - by rewrite !lookup_alter_eq, Hj.
      - by rewrite !lookup_alter_ne. }
    unfold join_prev. destruct B as [|[b db] B]; [done|]. by eapply seg_set_prev.
Qed.

(** A state in which [p] has been unlinked, and is now [spare] or freed. *)
Lemma unlinked_holds A p d B q q' spare :
  lq_holds ∅ (A ++ (p, d) :: B) q ->
  (forall k, k <> p -> lq_nodes q' !! k = join_prev A B (join_next A B (lq_nodes q)) !! k) ->
  lq_nodes q' !! p = spare !! p -> (forall k, k <> p -> spare !! k = None) ->
  lq_first q' = first_or (A ++ B) None -> lq_last q' = last_or (A ++ B) None ->
  lq_fresh q' = lq_fresh q -> lq_elements q' = u32 (lq_elements q - 1) ->
  lq_holds spare (A ++ B) q' /\ p ∉ (A ++ B).*1.
Proof.
  intros [Hs Hf Hl Hn Ho Hfr He] Hk Hp Hsp Ef El Efr Ee.
  assert (Hpn : p ∉ (A ++ B).*1 /\ NoDup (A ++ B).*1).
  { clear - Hn. rewrite fmap_app in *. cbn in Hn. rewrite <- Permutation_middle in Hn.
    by apply NoDup_cons in Hn. }
  destruct Hpn as [Hpn Hnd]. split; [|done].
  assert (Hside : forall k, k ∉ (A ++ B).*1 -> k ∉ A.*1 /\ k ∉ B.*1).
  { intros k Hin. rewrite fmap_app, not_elem_of_app in Hin. done. }
  constructor; [| done|done|done| | |].
  - eapply (seg_congr (join_prev A B (join_next A B (lq_nodes q)))).
    { intros k Hin. apply Hk. intros ->. done. }
    by eapply seg_join.
  - intros k Hin. destruct (decide (k = p)) as [->|Hne]; [done|].
    rewrite Hk, Hsp by done. destruct (Hside k Hin).
    rewrite join_prev_other, join_next_other by done. apply Ho.
    rewrite fmap_app in *. set_solver.
  - intros k Hin. rewrite Efr. apply Hfr. destruct (decide (k = p)) as [->|Hne].
    + rewrite (seg_lookup _ _ _ _ _ _ _ Hs). eauto.
    + rewrite Hk in Hin by done. by apply join_allocated in Hin.
  - rewrite Ee, He, uwrap_sub_l, !zlen_app, zlen_cons. f_equal. lia.
Qed.

(** Assigning to the data of a node. *)
Lemma seg_set_data h prev A p d d' B next :
  NoDup (A ++ (p, d) :: B).*1 -> seg h prev (A ++ (p, d) :: B) next ->
  seg (alter (fun n => n <| ln_data := d' |>) p h) prev (A ++ (p, d') :: B) next.
Proof.
  rewrite fmap_app, !seg_app. intros (_ & HA & [HB _]%NoDup_cons)%NoDup_app [H1 [H2 H3]].
  split; [|split].
  - apply seg_alter; [|done]. intros Hp. eapply HA; [exact Hp|by left].
  - rewrite lookup_alter_eq. change (fst (p, d)) with p in *. by rewrite H2.
  - by apply seg_alter.
Qed.

Lemma set_data_holds A p d d' B q :
  lq_holds ∅ (A ++ (p, d) :: B) q ->
  lq_holds ∅ (A ++ (p, d') :: B)
    (q <| lq_nodes := alter (fun n => n <| ln_data := d' |>) p (lq_nodes q) |>).
Proof.
  intros [Hs Hf Hl Hn Ho Hfr He].
  assert (E : (A ++ (p, d') :: B).*1 = (A ++ (p, d) :: B).*1) by (by rewrite !fmap_app).
  constructor; cbn [lq_nodes lq_first lq_last lq_elements lq_fresh update eta_linked_queue].
  - by eapply seg_set_data.
  - rewrite Hf. by rewrite !first_or_app.
  - rewrite Hl. rewrite !last_or_app. by rewrite !last_or_cons.
  - by rewrite E.
  - intros k Hk. rewrite E in Hk. rewrite lookup_alter_ne; [by apply Ho|].
    intros <-. apply Hk. rewrite fmap_app. set_solver.
  - intros k Hk. apply Hfr. by apply is_Some_alter_inv in Hk.
  - rewrite He. by rewrite !zlen_app, !zlen_cons.
Qed.

Lemma linked_queue_unlink_and_push_node_spec A p d B q (Q : unit -> w_linked_queue_t -> Prop) :
  lq_holds ∅ (A ++ (p, d) :: B) q ->
  (forall q', lq_holds ∅ ((A ++ B) ++ [(p, d)]) q' -> Q tt q') ->
  wp (linked_queue_unlink_and_push_node p) Q q.
Proof.
  intros H HQ. destruct (H) as [Hs Hf Hl Hn Ho Hfr He].
  pose proof (seg_lookup _ _ _ _ _ _ _ Hs) as Hp.
  apply wp_bind. eapply wp_node_at; [exact Hp|]. cbn [ln_next ln_prev].
  destruct B as [|[b db] B]; cbn [first_or].
  { apply wp_ret, HQ. by rewrite app_nil_r. }
  assert (Hb : is_Some (lq_nodes q !! b)).
  { apply seg_app in Hs as [_ [_ [Hb _]]]. rewrite Hb. eauto. }
  assert (Hne : p <> b /\ b ∉ A.*1 /\ p ∉ A.*1).
  { clear - Hn. rewrite fmap_app in Hn. apply NoDup_app in Hn as (_ & HA & Hn).
    cbn in *. apply NoDup_cons in Hn as [Hpb _]. set_solver. }
  destruct Hne as (Hpb & HbA & HpA).
  apply wp_bind, wp_node_set; [done|]. apply wp_bind.
  assert (Hend : forall q1, lq_nodes q1 = join_next A ((b, db) :: B)
        (alter (fun n => n <| ln_prev := last_or A None |>) b (lq_nodes q)) ->
      lq_first q1 = first_or (A ++ (b, db) :: B) None -> lq_last q1 = lq_last q ->
      lq_fresh q1 = lq_fresh q -> lq_elements q1 = lq_elements q ->
      wp (_ ← set_prev p None; _ ← set_next p None;
          _ ← modify (fun q => q <| lq_elements := u32 (lq_elements q - 1) |>);
          linked_queue_append_node p) Q q1).
  { intros q1 En Ef El Efr Ee.
    assert (Hp1 : lq_nodes q1 !! p = Some (LinkedNode d (Some b) (last_or A None))).
    { rewrite En, join_next_other by done. by rewrite lookup_alter_ne. }
    apply wp_bind, wp_node_set; [eauto|].
    apply wp_bind, wp_node_set; [apply is_Some_alter; eauto|]. apply wp_bind, wp_modify.
    cbn [update lq_nodes lq_first lq_last lq_elements lq_fresh eta_linked_queue].
    match goal with |- wp _ _ ?q2 => edestruct (unlinked_holds A p d ((b, db) :: B) q q2 {[p := LinkedNode d None None]}) as [H' Hp'];
      [exact H| | | | | | | |eapply append_node_spec; [exact H'|exact Hp'|exact HQ]] end; cbn.
    - intros k Hk. by rewrite !lookup_alter_ne, En, (join_commute A b db B) by done.
    - rewrite !lookup_alter_eq, Hp1, lookup_singleton_eq. done.
    - intros k Hk. by rewrite lookup_singleton_ne.
    - done.
    - rewrite El, Hl, !last_or_app. by rewrite !last_or_cons.
    - done.
    - by rewrite Ee. }
  destruct A as [|[a da] A _] using rev_ind; cbn [last_or last].
  - apply wp_modify. by apply Hend.
  - rewrite last_or_snoc. apply wp_node_set.
    { apply is_Some_alter. cbn. rewrite <- app_assoc in Hs. cbn in Hs.
      rewrite (seg_lookup _ _ _ _ _ _ _ Hs). eauto. }
    apply Hend; try done; cbn.
    + unfold join_next. rewrite last_snoc. by rewrite last_or_snoc.
    + rewrite Hf, !first_or_app. done.
Qed.
End specs.
