(* ===== verification/IndexedQueue.v ===== *)
(** The agent's indexed queue, agents/shared/indexed_queue_op.c: a FIFO of data with
    unique keys, a linked queue for the order and a red-black tree from keys to
    entries.  The tree of [RbTree] is the outer state; the memory of its callbacks is
    the rest of the indexed queue ([w_indexed_queue_t]): the linked queue, the entries,
    the counters and the memory of the client, on which the client's callbacks act.
    The functions that end in [_ex] hold the queue's mutex throughout: each is one
    step, and one that has to wait says on what. *)
From stdpp Require Import gmap sorting.
From S2P Require Import Prelude WQueue RbTree RbBalance RbMap LinkedQueue.
#[local] Open Scope Z_scope.

(** * State *)

Record w_indexed_queue_entry_t := IndexedEntry {
  en_key : bytes;
  en_data : Z;
  en_queue_node : nat;
}.
#[export] Instance eta_indexed_entry : Eta w_indexed_queue_entry_t := fun e =>
  IndexedEntry (en_key e) (en_data e) (en_queue_node e).

(** [iq_entries] are the allocated entries, [iq_strings] counts the copies of keys
    they own, [iq_client] is the memory of the client, and [iq_alloc] answers whether
    [strdup] succeeds; the other allocations end the process when they fail. *)
Record w_indexed_queue_t (U : Type) := IndexedQueue {
  iq_queue : w_linked_queue_t;
  iq_max_size : Z;
  iq_current_size : Z;
  iq_dispose : option (Z -> ST U unit);
  iq_get_key : option (Z -> ST U (option bytes));
  iq_entries : gmap nat w_indexed_queue_entry_t;
  iq_fresh : nat;
  iq_strings : Z;
  iq_client : U;
  iq_alloc : oracle bool;
}.
Arguments IndexedQueue {U} _ _ _ _ _ _ _ _ _ _.
Arguments iq_queue {U} _.
Arguments iq_max_size {U} _.
Arguments iq_current_size {U} _.
Arguments iq_dispose {U} _.
Arguments iq_get_key {U} _.
Arguments iq_entries {U} _.
Arguments iq_fresh {U} _.
Arguments iq_strings {U} _.
Arguments iq_client {U} _.
Arguments iq_alloc {U} _.
#[export] Instance eta_indexed_queue U : Eta (w_indexed_queue_t U) := fun q =>
  IndexedQueue (iq_queue q) (iq_max_size q) (iq_current_size q) (iq_dispose q)
    (iq_get_key q) (iq_entries q) (iq_fresh q) (iq_strings q) (iq_client q) (iq_alloc q).

(** Reading fields of a state that was just updated. *)
Ltac iq_simpl :=
  cbn [update eta_rb_tree rb_root rb_dispose rb_heap rb_fresh rb_strings rb_env
       eta_indexed_queue iq_queue iq_max_size iq_current_size iq_dispose iq_get_key
       iq_entries iq_fresh iq_strings iq_client iq_alloc].

Section operations.
Context {U : Type}.
Notation MEM := (ST (w_indexed_queue_t U)).
Notation IQ := (ST (rb_tree nat (w_indexed_queue_t U))).

(** The memory outside the tree, the linked queue in it, and the client's. *)
Definition outside {A} (m : MEM A) : IQ A := in_env m.
Definition on_queue {A} (m : LQ A) : MEM A := fun s =>
  match m (iq_queue s) with Some (a, q) => Some (a, s <| iq_queue := q |>) | None => None end.
Definition on_client {A} (m : ST U A) : MEM A := fun s =>
  match m (iq_client s) with Some (a, u) => Some (a, s <| iq_client := u |>) | None => None end.

Definition entry_at (p : nat) : MEM w_indexed_queue_entry_t :=
  e ← gets (fun s => iq_entries s !! p); lift e.
Definition entry_set_data (p : nat) (data : Z) : MEM unit :=
  _ ← entry_at p;
  modify (fun s => s <| iq_entries := alter (fun e => e <| en_data := data |>) p (iq_entries s) |>).
Definition strdup_succeeds : MEM bool :=
  ok ← gets (fun s => next (iq_alloc s));
  _ ← modify (fun s => s <| iq_alloc := advance (iq_alloc s) |>);
  mret ok.

(** The entry of a copied key, written once the node is known. *)
Definition entry_new (key : bytes) (data : Z) (node : nat) : MEM nat :=
  p ← gets iq_fresh;
  _ ← modify (fun s => s <| iq_entries := <[p := IndexedEntry key data node]> (iq_entries s) |>
                         <| iq_fresh := S p |>
                         <| iq_strings := iq_strings s + 1 |>);
  mret p.

(** The callback of the tree: the key and the entry are freed. *)
Definition indexed_queue_entry_free (p : nat) : MEM unit :=
  _ ← entry_at p;
  modify (fun s => s <| iq_entries := delete p (iq_entries s) |>
                     <| iq_strings := iq_strings s - 1 |>).

(** [queue->dispose(data)], if it is set. *)
Definition dispose_data (data : Z) : MEM unit :=
  dispose ← gets iq_dispose;
  match dispose with Some dispose => on_client (dispose data) | None => mret tt end.

Definition add_size (d : Z) : MEM unit :=
  modify (fun s => s <| iq_current_size := u64 (iq_current_size s + d) |>).

(** * Operations *)

Definition indexed_queue_init (max_size : Z) (client : U) (alloc : oracle bool) : rb_tree nat (w_indexed_queue_t U) :=
  (rbtree_init (IndexedQueue linked_queue_init max_size 0 None None ∅ 0 0 client alloc))
    <| rb_dispose := Some indexed_queue_entry_free |>.

Definition indexed_queue_set_dispose (dispose : option (Z -> ST U unit)) : IQ unit :=
  outside (modify (fun s => s <| iq_dispose := dispose |>)).
Definition indexed_queue_set_get_key (get_key : option (Z -> ST U (option bytes))) : IQ unit :=
  outside (modify (fun s => s <| iq_get_key := get_key |>)).

Definition indexed_queue_empty : IQ bool :=
  outside (gets (fun s => iq_current_size s =? 0)).
Definition indexed_queue_full : IQ bool :=
  outside (gets (fun s =>
    if iq_max_size s =? 0 then false else iq_current_size s >=? iq_max_size s)).
Definition indexed_queue_size : IQ Z := outside (gets iq_current_size).

(** A key is a pointer to a string, [None] if null. *)
Definition indexed_queue_push (key : option bytes) (data : Z) : IQ Z :=
  match key with
  | None => mret (-1)
  | Some key =>
      if data =? 0 then mret (-1) else
      full ← indexed_queue_full;
      if full : bool then mret (-1) else
      found ← rbtree_get key;
      match found with
      | Some _ => mret (-1)
      | None =>
          copied ← outside strdup_succeeds;
          if negb copied then mret (-1) else
          node ← outside (on_queue (linked_queue_push data));
          entry ← outside (entry_new key data node);
          inserted ← rbtree_insert key (Some entry);
          match inserted with
          | None =>
              _ ← outside (on_queue linked_queue_pop);
              _ ← outside (indexed_queue_entry_free entry);
              mret (-1)
          | Some _ => _ ← outside (add_size 1); mret 0
          end
      end
  end.

(** The update of an entry that is there, disposing of its data. *)
Definition overwrite (entry : nat) (data : Z) : MEM unit :=
  e ← entry_at entry;
  _ ← dispose_data (en_data e);
  _ ← entry_set_data entry data;
  on_queue (node_set (en_queue_node e) (fun n => n <| ln_data := data |>)).

Definition indexed_queue_upsert (key : option bytes) (data : Z) : IQ Z :=
  match key with
  | None => mret (-1)
  | Some k =>
      if data =? 0 then mret (-1) else
      entry ← rbtree_get k;
      match entry with
      | Some entry => _ ← outside (overwrite entry data); mret 0
      | None => indexed_queue_push key data
      end
  end.

Definition indexed_queue_get (key : option bytes) : IQ Z :=
  match key with
  | None => mret 0
  | Some key =>
      entry ← rbtree_get key;
      match entry with
      | Some entry => e ← outside (entry_at entry); mret (en_data e)
      | None => mret 0
      end
  end.

Definition indexed_queue_peek : IQ Z :=
  empty ← indexed_queue_empty;
  if empty : bool then mret 0 else
  first ← outside (on_queue (gets lq_first));
  match first with
  | Some first => n ← outside (on_queue (node_at first)); mret (ln_data n)
  | None => mret 0
  end.

(** The search without a callback: the first key, in order, whose entry has [data]. *)
Fixpoint delete_by_data (keys : list bytes) (data : Z) : IQ unit :=
  match keys with
  | [] => mret tt
  | key :: keys =>
      entry ← rbtree_get key;
      same ← match entry with
             | Some entry => e ← outside (entry_at entry); mret (en_data e =? data)
             | None => mret false
             end;
      if same : bool then _ ← rbtree_delete key; mret tt else delete_by_data keys data
  end.

Definition indexed_queue_pop : IQ Z :=
  empty ← indexed_queue_empty;
  if empty : bool then mret 0 else
  data ← outside (on_queue linked_queue_pop);
  if data =? 0 then mret 0 else
  get_key ← outside (gets iq_get_key);
  _ ← match get_key with
      | Some get_key =>
          key ← outside (on_client (get_key data));
          match key with Some key => _ ← rbtree_delete key; mret tt | None => mret tt end
      | None => keys ← rbtree_keys; delete_by_data keys data
      end;
  _ ← outside (add_size (-1));
  mret data.

(** The unlinking of a node that [indexed_queue_delete] does itself. *)
Definition unlink_node (node : nat) : LQ unit :=
  n ← node_at node;
  _ ← match ln_prev n with
      | Some prev => set_next prev (ln_next n)
      | None => set_first (ln_next n)
      end;
  _ ← match ln_next n with
      | Some next => set_prev next (ln_prev n)
      | None => set_last (ln_prev n)
      end;
  modify (fun q => q <| lq_elements := u32 (lq_elements q - 1) |>).

Definition indexed_queue_delete (key : option bytes) : IQ Z :=
  match key with
  | None => mret 0
  | Some key =>
      entry ← rbtree_get key;
      match entry with
      | None => mret 0
      | Some entry =>
          e ← outside (entry_at entry);
          _ ← outside (on_queue (unlink_node (en_queue_node e)));
          _ ← outside (dispose_data (en_data e));
          _ ← outside (on_queue (node_free (en_queue_node e)));
          _ ← rbtree_delete key;
          _ ← outside (add_size (-1));
          mret 1
      end
  end.

Definition indexed_queue_update (key : option bytes) (data : Z) : IQ Z :=
  match key with
  | None => mret 0
  | Some key =>
      if data =? 0 then mret 0 else
      entry ← rbtree_get key;
      match entry with
      | None => mret 0
      | Some entry =>
          e ← outside (entry_at entry);
          _ ← outside (entry_set_data entry data);
          _ ← outside (on_queue (node_set (en_queue_node e) (fun n => n <| ln_data := data |>)));
          mret (en_data e)
      end
  end.

(** Everything is taken out and disposed of, then the index goes. *)
Fixpoint drain (fuel : nat) : MEM unit :=
  match fuel with
  | O => ub
  | S fuel =>
      data ← on_queue linked_queue_pop;
      if data =? 0 then mret tt else
      _ ← dispose_data data;
      drain fuel
  end.

Definition indexed_queue_free : IQ unit :=
  fuel ← outside (gets (fun s => S (size (lq_nodes (iq_queue s)))));
  _ ← outside (drain fuel);
  rbtree_destroy.

(** * The blocking operations *)

(** A call that waited goes on here. *)
Definition push_when_room (key : option bytes) (data : Z) : IQ attempt :=
  full ← indexed_queue_full;
  if full : bool then mret (WaitsOn available_not_empty) else
  result ← indexed_queue_push key data;
  mret (Returns result (if result =? 0 then [available] else [])).

Definition indexed_queue_push_ex (key : option bytes) (data : Z) : IQ attempt :=
  if bool_decide (key = None) || (data =? 0) then mret (Returns (-1) [])
  else push_when_room key data.

Definition indexed_queue_upsert_ex (key : option bytes) (data : Z) : IQ attempt :=
  match key with
  | None => mret (Returns (-1) [])
  | Some k =>
      if data =? 0 then mret (Returns (-1) []) else
      entry ← rbtree_get k;
      match entry with
      | Some entry => _ ← outside (overwrite entry data); mret (Returns 1 [])
      | None => push_when_room key data
      end
  end.

Definition returning (m : IQ Z) : IQ attempt := data ← m; mret (Returns data []).
Definition indexed_queue_get_ex (key : option bytes) : IQ attempt :=
  returning (indexed_queue_get key).
Definition indexed_queue_peek_ex : IQ attempt := returning indexed_queue_peek.
Definition indexed_queue_update_ex (key : option bytes) (data : Z) : IQ attempt :=
  returning (indexed_queue_update key data).

Definition indexed_queue_pop_ex : IQ attempt :=
  empty ← indexed_queue_empty;
  if empty : bool then mret (WaitsOn available) else
  data ← indexed_queue_pop;
  mret (Returns data [available_not_empty]).

(** [timeout]: has the deadline passed? *)
Definition indexed_queue_pop_ex_timedwait (timeout : bool) : IQ attempt :=
  empty ← indexed_queue_empty;
  if empty : bool then mret (if timeout then Returns 0 [] else WaitsOn available) else
  data ← indexed_queue_pop;
  mret (Returns data [available_not_empty]).

Definition indexed_queue_delete_ex (key : option bytes) : IQ attempt :=
  result ← indexed_queue_delete key;
  mret (Returns result (if result =? 0 then [] else [available_not_empty])).
End operations.

(** * The index, up to order *)

Section index.
Context {V : Type}.
Implicit Types (L M : list (bytes * option V)).

Lemma al_get_elem k v L : NoDup L.*1 -> (k, v) ∈ L -> al_get k L = Some v.
Proof.
  induction L as [|[k' v'] L IH]; intros Hn Hin; [by apply elem_of_nil in Hin|].
  apply NoDup_cons in Hn as [Hk Hn]. cbn. apply elem_of_cons in Hin as [[= <- <-]|Hin].
  - by rewrite bool_decide_true.
  - rewrite bool_decide_false; [by apply IH|]. intros ->. apply Hk, list_elem_of_fmap. by exists (k, v).
Qed.

Lemma al_get_none k L : k ∉ L.*1 -> al_get k L = None.
Proof.
  induction L as [|[k' v'] L IH]; intros Hk; [done|]. cbn. cbn in Hk.
  apply not_elem_of_cons in Hk as [? ?]. by rewrite bool_decide_false; [apply IH|].
Qed.

Lemma al_insert_perm k v L : k ∉ L.*1 -> al_insert k v L ≡ₚ (k, v) :: L.
Proof.
  intros Hk. unfold al_insert. rewrite <- Permutation_middle. constructor.
  induction L as [|[k' v'] L IH]; [done|]. cbn in Hk. apply not_elem_of_cons in Hk as [Hne Hk].
  rewrite !filter_cons. cbn [fst].
  destruct (decide (strcmp k' k < 0)) as [H1|H1], (decide (strcmp k k' < 0)) as [H2|H2].
  - apply strcmp_flip in H1. lia.
  - cbn. by rewrite IH.
  - rewrite <- Permutation_middle. by rewrite IH.
  - destruct Hne. symmetry. apply strcmp_eq.
    enough (~ 0 < strcmp k' k) by lia. intros H. by apply H2, strcmp_flip.
Qed.

Lemma al_delete_perm k v L M :
  NoDup L.*1 -> L ≡ₚ (k, v) :: M -> al_delete k L ≡ₚ M.
Proof.
  intros Hn Hp. unfold al_delete. rewrite Hp, filter_cons_False by (cbn; tauto).
  rewrite Hp in Hn. apply NoDup_cons in Hn as [Hk _]. rewrite filter_all; [done|].
  apply Forall_forall. intros [k' v'] Hin <-. apply Hk, list_elem_of_fmap. by exists (k', v').
Qed.

Lemma holds_env {E} L n (s : rb_tree V E) e : holds L n s -> holds L n (s <| rb_env := e |>).
Proof.
  intros [(t & H & Hb & Hc & HL) Hs Hstr]. constructor; [|done|done].
  exists t. split_and!; try done. by eapply rep_ext.
Qed.
End index.

(** * What an indexed queue holds *)

(** An element with its node and its entry. *)
Record element := Element { el_key : bytes; el_data : Z; el_node : nat; el_entry : nat }.
#[export] Instance eta_element : Eta element := fun x =>
  Element (el_key x) (el_data x) (el_node x) (el_entry x).

Definition pair_of (x : element) : bytes * Z := (el_key x, el_data x).
Definition cell_of (x : element) : nat * Z := (el_node x, el_data x).
Definition entry_of (x : element) : nat * w_indexed_queue_entry_t :=
  (el_entry x, IndexedEntry (el_key x) (el_data x) (el_node x)).
Definition item_of (x : element) : bytes * option nat := (el_key x, Some (el_entry x)).

Section holding.
Context {U : Type}.
Notation MEM := (ST (w_indexed_queue_t U)).
Notation IQ := (ST (rb_tree nat (w_indexed_queue_t U))).
Notation state := (rb_tree nat (w_indexed_queue_t U)).
Implicit Types (m : w_indexed_queue_t U) (s : state) (R A B : list element).

Record entries_hold R m : Prop := {
  eh_entries : iq_entries m = list_to_map (entry_of <$> R);
  eh_nodup : NoDup (el_entry <$> R);
  eh_fresh : Forall (fun x => (el_entry x < iq_fresh m)%nat) R;
  eh_strings : iq_strings m = zlen R;
}.

Definition indexed R s : Prop := exists items n, holds items n s /\ items ≡ₚ item_of <$> R.

(** The elements [R], in this order; each has a node, an entry and a key in the index,
    and nothing else is allocated. *)
Record iq_holds R s : Prop := {
  ih_queue : lq_holds ∅ (cell_of <$> R) (iq_queue (rb_env s));
  ih_entries : entries_hold R (rb_env s);
  ih_index : indexed R s;
  ih_size : iq_current_size (rb_env s) = zlen R;
  ih_bound : zlen R < 2 ^ 64;
  ih_callback : rb_dispose s = Some indexed_queue_entry_free;
  ih_keys : NoDup (el_key <$> R);
  ih_data : Forall (fun x => el_data x <> 0) R;
}.

Lemma wp_outside {X} (m : MEM X) (Q : X -> state -> Prop) s :
  wp m (fun a e => Q a (s <| rb_env := e |>)) (rb_env s) -> wp (outside m) Q s.
Proof. unfold wp, outside, in_env. by destruct (m (rb_env s)) as [[a e]|]. Qed.

Lemma wp_on_queue {X} (q : LQ X) (Q : X -> w_indexed_queue_t U -> Prop) m :
  wp q (fun a q => Q a (m <| iq_queue := q |>)) (iq_queue m) -> wp (on_queue q) Q m.
Proof. unfold wp, on_queue. by destruct (q (iq_queue m)) as [[a e]|]. Qed.

Lemma wp_on_client {X} (f : ST U X) a u (Q : X -> w_indexed_queue_t U -> Prop) m :
  f (iq_client m) = Some (a, u) -> Q a (m <| iq_client := u |>) -> wp (on_client f) Q m.
Proof. intros H. unfold wp, on_client. by rewrite H. Qed.

Lemma indexed_env R s e : indexed R s -> indexed R (s <| rb_env := e |>).
Proof. intros (items & n & H & P). exists items, n. split; [by apply holds_env|done]. Qed.

Lemma indexed_perm R R' s : item_of <$> R ≡ₚ item_of <$> R' -> indexed R s -> indexed R' s.
Proof. intros E (items & n & H & P). exists items, n. split; [done|]. by rewrite P. Qed.

Lemma items_keys items R : items ≡ₚ item_of <$> R -> NoDup (el_key <$> R) -> NoDup items.*1.
Proof. intros P. rewrite P, <- list_fmap_compose. done. Qed.

(** Looking a key up. *)
Lemma index_get_spec key R s (Q : option nat -> state -> Prop) :
  indexed R s -> NoDup (el_key <$> R) ->
  (forall A x B, R = A ++ x :: B -> el_key x = key -> Q (Some (el_entry x)) s) ->
  (key ∉ el_key <$> R -> Q None s) ->
  wp (rbtree_get key) Q s.
Proof.
  intros (items & n & H & P) Hn Hin Hout. eapply rbtree_get_spec; [exact H|].
  pose proof (items_keys _ _ P Hn) as Hni.
  destruct (decide (key ∈ el_key <$> R)) as [Hk|Hk].
  - apply list_elem_of_fmap in Hk as (x & -> & (A & B & ->)%list_elem_of_split).
    rewrite (al_get_elem _ (Some (el_entry x))); [by eapply Hin|done|].
    rewrite P, fmap_app. apply elem_of_app. right. by left.
  - rewrite al_get_none; [by apply Hout|]. rewrite P, <- list_fmap_compose. done.
Qed.

Lemma entry_lookup A x B m :
  entries_hold (A ++ x :: B) m ->
  iq_entries m !! el_entry x = Some (IndexedEntry (el_key x) (el_data x) (el_node x)).
Proof.
  intros [E N _ _]. rewrite E. apply elem_of_list_to_map_1.
  - rewrite <- list_fmap_compose. exact N.
  - apply list_elem_of_fmap. exists x. split; [done|]. apply elem_of_app. right. by left.
Qed.

Lemma wp_entry_at p e (Q : w_indexed_queue_entry_t -> w_indexed_queue_t U -> Prop) m :
  iq_entries m !! p = Some e -> Q e m -> wp (entry_at p) Q m.
Proof. intros H HQ. apply wp_bind, wp_gets. by eapply wp_lift. Qed.

Lemma entries_cons x R :
  (list_to_map (entry_of <$> x :: R) : gmap nat w_indexed_queue_entry_t)
  = <[el_entry x := IndexedEntry (el_key x) (el_data x) (el_node x)]> (list_to_map (entry_of <$> R)).
Proof. done. Qed.

(** The map of entries, up to order. *)
Lemma entries_perm R R' :
  NoDup (el_entry <$> R) -> R ≡ₚ R' ->
  (list_to_map (entry_of <$> R) : gmap nat w_indexed_queue_entry_t) = list_to_map (entry_of <$> R').
Proof.
  intros N P. apply list_to_map_proper; [|by rewrite P].
  by rewrite <- list_fmap_compose.
Qed.

Lemma entries_update A x B d m :
  entries_hold (A ++ x :: B) m ->
  entries_hold (A ++ x <| el_data := d |> :: B)
    (m <| iq_entries := alter (fun e => e <| en_data := d |>) (el_entry x) (iq_entries m) |>).
Proof.
  intros H. pose proof (entry_lookup _ _ _ _ H) as Hx. destruct H as [E N F S].
  set (x' := x <| el_data := d |>).
  assert (Efst : el_entry <$> A ++ x' :: B = el_entry <$> A ++ x :: B)
    by (by rewrite !fmap_app).
  constructor; cbn [iq_entries iq_fresh iq_strings update eta_indexed_queue].
  - rewrite (entries_perm (A ++ x' :: B) (x' :: A ++ B));
      [|by rewrite Efst|by rewrite Permutation_middle].
    apply map_eq. intros p. rewrite entries_cons.
    destruct (decide (p = el_entry x)) as [->|Hne].
    + by rewrite lookup_alter_eq, Hx, lookup_insert_eq.
    + rewrite lookup_alter_ne, lookup_insert_ne by done. rewrite E.
      rewrite (entries_perm (A ++ x :: B) (x :: A ++ B)); [|done|by rewrite Permutation_middle].
      by rewrite entries_cons, lookup_insert_ne.
  - by rewrite Efst.
  - apply Forall_app in F as [FA [Fx FB]%Forall_cons]. apply Forall_app. split; [done|]. by constructor.
  - rewrite S. by rewrite !zlen_app, !zlen_cons.
Qed.

Lemma entries_delete A x B m :
  entries_hold (A ++ x :: B) m ->
  entries_hold (A ++ B) (m <| iq_entries := delete (el_entry x) (iq_entries m) |>
                           <| iq_strings := iq_strings m - 1 |>).
Proof.
  intros [E N F S].
  assert (P : A ++ x :: B ≡ₚ x :: A ++ B) by (by rewrite Permutation_middle).
  pose proof N as N'. rewrite P in N'. apply NoDup_cons in N' as [Hx N'].
  constructor; cbn [iq_entries iq_fresh iq_strings update eta_indexed_queue].
  - rewrite E, (entries_perm _ _ N P), entries_cons.
    apply delete_insert_id, not_elem_of_list_to_map_1. by rewrite <- list_fmap_compose.
  - done.
  - apply Forall_app in F as [FA [Fx FB]%Forall_cons]. by apply Forall_app.
  - rewrite S, !zlen_app, zlen_cons. lia.
Qed.

Lemma entries_push R k d p m :
  entries_hold R m ->
  entries_hold (R ++ [Element k d p (iq_fresh m)])
    (m <| iq_entries := <[iq_fresh m := IndexedEntry k d p]> (iq_entries m) |>
       <| iq_fresh := S (iq_fresh m) |> <| iq_strings := iq_strings m + 1 |>).
Proof.
  intros [E N F S]. set (x := Element k d p (iq_fresh m)).
  assert (P : R ++ [x] ≡ₚ x :: R) by (by rewrite Permutation_app_comm).
  assert (Hx : iq_fresh m ∉ el_entry <$> R).
  { intros (y & Ey & Hy)%list_elem_of_fmap. rewrite Forall_forall in F. apply F in Hy. lia. }
  assert (N' : NoDup (el_entry <$> R ++ [x])) by (rewrite P; by constructor).
  constructor; cbn [iq_entries iq_fresh iq_strings update eta_indexed_queue].
  - rewrite E, (entries_perm _ _ N' P). by rewrite entries_cons.
  - done.
  - apply Forall_app. split; [|repeat constructor].
    eapply Forall_impl; [exact F|]. cbn. lia.
  - rewrite S, zlen_app. done.
Qed.

(** ** Steps *)


Lemma env_id s : s <| rb_env := rb_env s |> = s.
Proof. by destruct s. Qed.

Lemma wp_outside_gets {X} (f : w_indexed_queue_t U -> X) (Q : X -> state -> Prop) s :
  Q (f (rb_env s)) s -> wp (outside (gets f)) Q s.
Proof. intros H. apply wp_outside, wp_gets. by rewrite env_id. Qed.

(** The client's side: settings and memory. *)
Definition config m :=
  (iq_max_size m, iq_dispose m, iq_get_key m, iq_client m, iq_alloc m).

(** [u] is the client's memory after the callback, if any, disposed of [data]. *)
Definition disposes m (data : Z) (u : U) : Prop :=
  match iq_dispose m with
  | Some dispose => dispose data (iq_client m) = Some (tt, u)
  | None => u = iq_client m
  end.

Lemma dispose_data_spec data u (Q : unit -> w_indexed_queue_t U -> Prop) m :
  disposes m data u -> Q tt (m <| iq_client := u |>) -> wp (dispose_data data) Q m.
Proof.
  unfold disposes. intros H HQ. apply wp_bind, wp_gets. destruct (iq_dispose m) as [f|].
  - by eapply wp_on_client.
  - apply wp_ret. subst u. by destruct m.
Qed.

Definition at_capacity m : bool :=
  if iq_max_size m =? 0 then false else iq_current_size m >=? iq_max_size m.

Lemma entries_ext R m m' :
  iq_entries m' = iq_entries m -> iq_fresh m' = iq_fresh m -> iq_strings m' = iq_strings m ->
  entries_hold R m -> entries_hold R m'.
Proof. intros Ee Ef Es []. constructor; rewrite ?Ee, ?Ef, ?Es; done. Qed.

Lemma wp_strdup (Q : bool -> w_indexed_queue_t U -> Prop) m :
  Q (next (iq_alloc m)) (m <| iq_alloc := advance (iq_alloc m) |>) -> wp strdup_succeeds Q m.
Proof. intros H. apply wp_bind, wp_gets, wp_bind, wp_modify, wp_ret, H. Qed.

(** A new element at the end. *)
Lemma insert_new_spec k d R s (Q : Z -> state -> Prop) :
  iq_holds R s -> k ∉ el_key <$> R -> d <> 0 -> zlen R + 1 < 2 ^ 64 -> at_capacity (rb_env s) = false ->
  next (iq_alloc (rb_env s)) = true ->
  (forall x s', pair_of x = (k, d) -> iq_holds (R ++ [x]) s' ->
     config (rb_env s') = config ((rb_env s) <| iq_alloc := advance (iq_alloc (rb_env s)) |>) ->
     Q 0 s') ->
  wp (indexed_queue_push (Some k) d) Q s.
Proof.
  intros [Hq He Hi Hsz Hb Hc Hk Hd] Hkey Hd0 Hlt Hfull Hal HQ. unfold indexed_queue_push.
  rewrite (proj2 (Z.eqb_neq _ _) Hd0).
  apply wp_bind, wp_outside_gets. fold (at_capacity (rb_env s)). rewrite Hfull.
  apply wp_bind. eapply index_get_spec; [exact Hi|exact Hk| |].
  { intros A x B -> <-. destruct Hkey. rewrite fmap_app. apply elem_of_app. right. by left. }
  intros _. apply wp_bind, wp_outside, wp_strdup. rewrite Hal. cbn [negb].
  apply wp_bind, wp_outside, wp_on_queue.
  eapply linked_queue_push_spec; [exact Hq|]. intros p q Hp Hq'.
  apply wp_bind, wp_outside. apply wp_bind, wp_gets, wp_bind, wp_modify, wp_ret.
  iq_simpl. lazymatch goal with |- wp _ _ (RbTree _ _ _ _ _ ?m) => set (m1 := m) end.
  set (x := Element k d p (iq_fresh (rb_env s))).
  assert (He1 : entries_hold (R ++ [x]) m1).
  { eapply entries_ext; [| | |apply (entries_push R k d p), He]; done. }
  apply wp_bind. destruct Hi as (items & n & H & P).
  pose proof (items_keys _ _ P Hk) as Hni.
  assert (Hkn : k ∉ items.*1) by (rewrite P, <- list_fmap_compose; done).
  eapply rbtree_insert_spec; [apply (holds_env _ _ _ m1 H)| |].
  { intros v s' Hg. rewrite al_get_none in Hg by done. done. }
  intros t n' s' _ H' Env'. unfold env_of in Env'. cbn [rb_dispose rb_env] in Env'.
  injection Env' as Ed Ee. apply wp_bind, wp_outside, wp_modify, wp_ret.
  rewrite Ee. apply (HQ x); [done| |done].
  constructor; iq_simpl.
  - rewrite fmap_app. exact Hq'.
  - by eapply entries_ext; [| | |exact He1].
  - eapply indexed_env. exists (al_insert k (Some (iq_fresh (rb_env s))) items), n'.
    split; [exact H'|]. rewrite al_insert_perm, P by done. by rewrite fmap_app, Permutation_app_comm.
  - change (iq_current_size m1) with (iq_current_size (rb_env s)).
    rewrite Hsz, uwrap_small, zlen_app; [done|]. unfold fits. pose proof (zlen_nonneg R). lia.
  - by rewrite zlen_app.
  - by rewrite Ed.
  - rewrite fmap_app. apply NoDup_app. split_and!; [done| |by apply NoDup_singleton].
    intros k' Hk' ->%list_elem_of_singleton. done.
  - apply Forall_app. split; [done|]. by constructor.
Qed.

(** New data for an element, where the queue and the entries are. *)
Lemma set_data_spec A x d B s :
  iq_holds (A ++ x :: B) s -> d <> 0 ->
  forall e, iq_queue e = (iq_queue (rb_env s))
      <| lq_nodes := alter (fun n => n <| ln_data := d |>) (el_node x) (lq_nodes (iq_queue (rb_env s))) |> ->
    iq_entries e = alter (fun e => e <| en_data := d |>) (el_entry x) (iq_entries (rb_env s)) ->
    iq_fresh e = iq_fresh (rb_env s) -> iq_strings e = iq_strings (rb_env s) ->
    iq_current_size e = iq_current_size (rb_env s) ->
    iq_holds (A ++ x <| el_data := d |> :: B) (s <| rb_env := e |>).
Proof.
  intros [Hq He Hi Hsz Hb Hc Hk Hd] Hd0 e Eq Een Ef Es Esz.
  set (x' := x <| el_data := d |>).
  assert (Ez : zlen (A ++ x' :: B) = zlen (A ++ x :: B))
    by (by rewrite !zlen_app, !zlen_cons).
  constructor; iq_simpl; rewrite ?Ez, ?Esz; try done.
  - rewrite Eq. rewrite fmap_app, fmap_cons in *. by apply (set_data_holds _ _ (el_data x)).
  - eapply entries_ext; [| | |by apply entries_update]; done.
  - eapply indexed_env, indexed_perm; [|exact Hi]. by rewrite !fmap_app.
  - rewrite fmap_app in *. exact Hk.
  - apply Forall_app in Hd as [HA [_ HB]%Forall_cons]. apply Forall_app. split; [done|].
    by constructor.
Qed.

Lemma node_lookup A x B s :
  iq_holds (A ++ x :: B) s -> is_Some (lq_nodes (iq_queue (rb_env s)) !! el_node x).
Proof.
  intros [Hq _ _ _ _ _ _ _]. pose proof (lqh_seg _ _ _ Hq) as Hs.
  rewrite fmap_app, fmap_cons in Hs. rewrite (seg_lookup _ _ _ _ _ _ _ Hs). eauto.
Qed.

Lemma overwrite_spec A x d B u s (Q : unit -> state -> Prop) :
  iq_holds (A ++ x :: B) s -> d <> 0 -> disposes (rb_env s) (el_data x) u ->
  (forall s', iq_holds (A ++ x <| el_data := d |> :: B) s' ->
     config (rb_env s') = config ((rb_env s) <| iq_client := u |>) -> Q tt s') ->
  wp (outside (overwrite (el_entry x) d)) Q s.
Proof.
  intros H Hd Hu HQ. pose proof (node_lookup _ _ _ _ H) as Hn.
  pose proof (entry_lookup _ _ _ _ (ih_entries _ _ H)) as Hx.
  apply wp_outside, wp_bind. eapply wp_entry_at; [exact Hx|].
  apply wp_bind. eapply dispose_data_spec; [exact Hu|].
  apply wp_bind. apply wp_bind. eapply wp_entry_at; [exact Hx|]. apply wp_modify.
  apply wp_on_queue, wp_node_set; [done|]. cbn [en_queue_node].
  apply HQ; [|done]. eapply set_data_spec; done.
Qed.

(** Deleting from the index. *)
Lemma index_delete_spec A x B s (Q : Z -> state -> Prop) :
  indexed (A ++ x :: B) s -> entries_hold (A ++ x :: B) (rb_env s) ->
  NoDup (el_key <$> A ++ x :: B) -> rb_dispose s = Some indexed_queue_entry_free ->
  (forall s', indexed (A ++ B) s' -> rb_dispose s' = rb_dispose s ->
     rb_env s' = (rb_env s) <| iq_entries := delete (el_entry x) (iq_entries (rb_env s)) |>
                          <| iq_strings := iq_strings (rb_env s) - 1 |> -> Q 1 s') ->
  wp (rbtree_delete (el_key x)) Q s.
Proof.
  intros (items & n & H & P) He Hk Hc HQ. pose proof (items_keys _ _ P Hk) as Hni.
  assert (P' : items ≡ₚ item_of x :: (item_of <$> A ++ B))
    by (by rewrite P, !fmap_app, fmap_cons, Permutation_middle).
  assert (Hg : al_get (el_key x) items = Some (Some (el_entry x))).
  { apply al_get_elem; [done|]. rewrite P'. by left. }
  eapply rbtree_delete_spec; [exact H| | |].
  - intros old Ho. rewrite Hg in Ho. injection Ho as <-. unfold disposed. rewrite Hc.
    unfold indexed_queue_entry_free, entry_at, mbind, ST_bind, gets, lift.
    by rewrite (entry_lookup _ _ _ _ He).
  - intros Hn. congruence.
  - intros n' s' _ H' E'. unfold env_of in E'. injection E' as Ed Ee.
    apply HQ; [|by rewrite Ed|done]. exists (al_delete (el_key x) items), n'. split; [done|].
    by eapply al_delete_perm.
Qed.

Lemma key_unique R x y :
  NoDup (el_key <$> R) -> x ∈ R -> y ∈ R -> el_key x = el_key y -> x = y.
Proof.
  intros Hn Hx Hy E. apply list_elem_of_split in Hx as (A & B & ->).
  rewrite fmap_app, fmap_cons, <- Permutation_middle in Hn. apply NoDup_cons in Hn as [Hn _].
  rewrite <- fmap_app, E in Hn.
  apply elem_of_app in Hy as [Hy|[->|Hy]%elem_of_cons]; [|done|];
    (exfalso; apply Hn, list_elem_of_fmap_2; set_solver).
Qed.

(** The search by data finds the element that has it. *)
Lemma delete_by_data_spec A x B keys s (Q : unit -> state -> Prop) :
  indexed (A ++ x :: B) s -> entries_hold (A ++ x :: B) (rb_env s) ->
  NoDup (el_key <$> A ++ x :: B) -> rb_dispose s = Some indexed_queue_entry_free ->
  (forall y, y ∈ A ++ B -> el_data y <> el_data x) ->
  el_key x ∈ keys -> (forall k, k ∈ keys -> k ∈ el_key <$> A ++ x :: B) ->
  (forall s', indexed (A ++ B) s' -> rb_dispose s' = rb_dispose s ->
     rb_env s' = (rb_env s) <| iq_entries := delete (el_entry x) (iq_entries (rb_env s)) |>
                          <| iq_strings := iq_strings (rb_env s) - 1 |> -> Q tt s') ->
  wp (delete_by_data keys (el_data x)) Q s.
Proof.
  intros Hi He Hk Hc Hd Hx Hall HQ. induction keys as [|k keys IH]; [by apply elem_of_nil in Hx|].
  cbn [delete_by_data]. apply wp_bind. eapply index_get_spec; [exact Hi|exact Hk| |].
  2: { intros Hno. destruct Hno. apply Hall. by left. }
  intros A' y B' ER Ey. apply wp_bind, wp_bind, wp_outside.
  eapply wp_entry_at; [rewrite ER in He; by eapply entry_lookup|].
  rewrite env_id. apply wp_ret. cbn [en_data]. destruct (Z.eqb_spec (el_data y) (el_data x)) as [Eyx|Hne].
  - assert (y = x) as ->.
    { assert (Hy : y ∈ A ++ x :: B) by (rewrite ER; set_solver).
      apply elem_of_app in Hy as [Hy|[->|Hy]%elem_of_cons]; [|done|];
        (exfalso; eapply Hd; [|exact Eyx]); set_solver. }
    apply wp_bind. rewrite <- Ey. eapply index_delete_spec; [exact Hi|exact He|exact Hk|exact Hc|].
    intros s' H1 H2 H3. apply wp_ret. by apply HQ.
  - apply IH.
    + apply elem_of_cons in Hx as [<-|]; [|done]. destruct Hne. f_equal.
      apply (key_unique (A ++ x :: B)); [done|rewrite ER; set_solver|set_solver|done].
    + intros k' Hk'. apply Hall. by right.
Qed.

(** The node leaves the list, and is still allocated. *)
Lemma unlink_node_spec C p d D q (Q : unit -> w_linked_queue_t -> Prop) :
  lq_holds ∅ (C ++ (p, d) :: D) q ->
  (forall n q', lq_holds {[p := n]} (C ++ D) q' -> p ∉ (C ++ D).*1 -> Q tt q') ->
  wp (unlink_node p) Q q.
Proof.
  intros H HQ. destruct (H) as [Hs Hf Hl Hn Ho Hfr He].
  pose proof (seg_lookup _ _ _ _ _ _ _ Hs) as Hp.
  apply wp_bind. eapply wp_node_at; [exact Hp|]. cbn [ln_next ln_prev]. apply wp_bind.
  assert (Hpn : p ∉ C.*1 /\ p ∉ D.*1).
  { clear - Hn. rewrite fmap_app, fmap_cons, <- Permutation_middle in Hn.
    apply NoDup_cons in Hn as [Hn _]. by rewrite not_elem_of_app in Hn. }
  assert (Hsd : is_Some (match D with (b, _) :: _ => lq_nodes q !! b | [] => Some (LinkedNode 0 None None) end)).
  { destruct D as [|[b db] D]; [eauto|]. apply seg_app in Hs as [_ [_ [Hb _]]]. rewrite Hb. eauto. }
  assert (Hend : forall q1, lq_nodes q1 = join_next C D (lq_nodes q) ->
      lq_first q1 = first_or (C ++ D) None -> lq_last q1 = lq_last q ->
      lq_fresh q1 = lq_fresh q -> lq_elements q1 = lq_elements q ->
      wp (_ ← match first_or D None with
              | Some next => set_prev next (last_or C None)
              | None => set_last (last_or C None)
              end;
          modify (fun q => q <| lq_elements := u32 (lq_elements q - 1) |>)) Q q1).
  { intros q1 En Ef El Efr Ee. apply wp_bind.
    assert (Hfin : forall q2, lq_nodes q2 = join_prev C D (join_next C D (lq_nodes q)) ->
        lq_first q2 = first_or (C ++ D) None -> lq_last q2 = last_or (C ++ D) None ->
        lq_fresh q2 = lq_fresh q -> lq_elements q2 = u32 (lq_elements q - 1) -> Q tt q2).
    { intros q2 En2 Ef2 El2 Efr2 Ee2.
      destruct (unlinked_holds C p d D q q2 {[p := LinkedNode d (first_or D None) (last_or C None)]})
        as [H' Hp']; [exact H|by rewrite En2| | |done..|by eapply HQ].
      - rewrite En2, join_prev_other, join_next_other by apply Hpn.
        by rewrite Hp, lookup_singleton_eq.
      - intros k Hk. by rewrite lookup_singleton_ne. }
    destruct D as [|[b db] D]; cbn [first_or].
    - apply wp_modify, wp_modify, Hfin; try done; cbn; [by rewrite app_nil_r|by rewrite Ee].
    - apply wp_node_set.
      { rewrite En. unfold join_next. destruct (last C) as [[? ?]|]; [by apply is_Some_alter|done]. }
      apply wp_modify, Hfin; try done; cbn.
      + by rewrite En.
      + rewrite El, Hl, !last_or_app. by rewrite !last_or_cons.
      + by rewrite Ee. }
  destruct C as [|[a da] C _] using rev_ind; cbn [last_or last] in *.
  - apply wp_modify. by apply Hend.
  - rewrite last_or_snoc in *. apply wp_node_set.
    { rewrite <- app_assoc in Hs. cbn in Hs. rewrite (seg_lookup _ _ _ _ _ _ _ Hs). eauto. }
    apply Hend; try done; cbn.
    + unfold join_next. by rewrite last_snoc.
    + rewrite Hf, !first_or_app. done.
Qed.

(** Freeing the spare node. *)
Lemma node_free_spec p n L q (Q : unit -> w_linked_queue_t -> Prop) :
  lq_holds {[p := n]} L q -> p ∉ L.*1 ->
  (forall q', lq_holds ∅ L q' -> Q tt q') -> wp (node_free p) Q q.
Proof.
  intros [Hs Hf Hl Hn Ho Hfr He] Hp HQ. apply wp_bind. eapply wp_node_at.
  { rewrite Ho by done. apply lookup_singleton_eq. }
  apply wp_modify, HQ. constructor; cbn; try done.
  - by apply seg_delete.
  - intros k Hk. destruct (decide (k = p)) as [->|Hne]; [apply lookup_delete_eq|].
    rewrite lookup_delete_ne, Ho by done. by rewrite lookup_singleton_ne.
  - intros k. destruct (decide (k = p)) as [->|Hne]; [rewrite lookup_delete_eq; by intros []|].
    rewrite lookup_delete_ne by done. apply Hfr.
Qed.

(** What remains when an element has left the list, the entries and the index. *)
Lemma removed_holds A x B s s' :
  iq_holds (A ++ x :: B) s -> lq_holds ∅ (cell_of <$> A ++ B) (iq_queue (rb_env s')) ->
  entries_hold (A ++ B) (rb_env s') -> indexed (A ++ B) s' ->
  rb_dispose s' = rb_dispose s ->
  iq_current_size (rb_env s') = u64 (iq_current_size (rb_env s) - 1) ->
  iq_holds (A ++ B) s'.
Proof.
  intros [_ _ _ Hsz Hb Hc Hk Hd] Hq He Hi Hc' Hsz'.
  assert (Ez : zlen (A ++ x :: B) = 1 + zlen (A ++ B)) by (rewrite !zlen_app, zlen_cons; lia).
  rewrite Ez in *. pose proof (zlen_nonneg (A ++ B)).
  constructor; try done.
  - rewrite Hsz', Hsz, uwrap_small; [lia|unfold fits; lia].
  - lia.
  - by rewrite Hc'.
  - rewrite fmap_app, fmap_cons, <- Permutation_middle in Hk. apply NoDup_cons in Hk as [_ Hk].
    by rewrite fmap_app.
  - apply Forall_app in Hd as [HA [_ HB]%Forall_cons]. by apply Forall_app.
Qed.

Lemma remove_spec A x B u s (Q : Z -> state -> Prop) :
  iq_holds (A ++ x :: B) s -> disposes (rb_env s) (el_data x) u ->
  (forall s', iq_holds (A ++ B) s' -> config (rb_env s') = config ((rb_env s) <| iq_client := u |>) ->
     Q 1 s') ->
  wp (indexed_queue_delete (Some (el_key x))) Q s.
Proof.
  intros H Hu HQ. destruct (H) as [Hq He Hi Hsz Hb Hc Hk Hd].
  pose proof (entry_lookup _ _ _ _ He) as Hx.
  apply wp_bind. eapply index_get_spec; [exact Hi|exact Hk| |].
  2: { intros []. rewrite fmap_app, fmap_cons. set_solver. }
  intros A' y B' ER Ey.
  assert (y = x) as -> by (apply (key_unique (A ++ x :: B)); [done|rewrite ER; set_solver|set_solver|done]).
  apply wp_bind, wp_outside. eapply wp_entry_at; [exact Hx|]. rewrite env_id. cbn [en_queue_node en_data].
  apply wp_bind, wp_outside, wp_on_queue.
  rewrite fmap_app, fmap_cons in Hq. eapply unlink_node_spec; [exact Hq|].
  intros n q1 Hq1 Hp. apply wp_bind, wp_outside. eapply (dispose_data_spec _ u); [exact Hu|].
  apply wp_bind, wp_outside, wp_on_queue. eapply node_free_spec; [exact Hq1|exact Hp|].
  intros q2 Hq2. apply wp_bind.
  iq_simpl. lazymatch goal with |- wp _ _ ?x => set (s1 := x) end.
  eapply (index_delete_spec A x B s1).
  - by apply (indexed_env _ s (rb_env s1)).
  - by eapply entries_ext; [| | |exact He].
  - done.
  - done.
  - intros s2 Hi2 Hc2 Ee2. apply wp_bind, wp_outside, wp_modify, wp_ret.
    assert (He2 : entries_hold (A ++ B) (rb_env s2)).
    { rewrite Ee2. apply (entries_delete A x B). by eapply entries_ext; [| | |exact He]. }
    apply HQ; [|by rewrite Ee2].
    eapply removed_holds; [exact H| | | | |]; iq_simpl.
    + rewrite Ee2, fmap_app. exact Hq2.
    + by eapply entries_ext; [| | |exact He2].
    + by apply indexed_env.
    + exact Hc2.
    + by rewrite Ee2.
Qed.

Lemma absent_delete_spec k R s (Q : Z -> state -> Prop) :
  iq_holds R s -> k ∉ el_key <$> R -> Q 0 s -> wp (indexed_queue_delete (Some k)) Q s.
Proof.
  intros H Hk HQ. apply wp_bind. eapply index_get_spec; [apply H|apply H| |].
  - intros A x B -> <-. destruct Hk. rewrite fmap_app. set_solver.
  - intros _. by apply wp_ret.
Qed.

(** Whether the element taken out of the list is the one found in the index: the
    callback gives its key, or no other element has its data. *)
Definition identifies m x R u : Prop :=
  match iq_get_key m with
  | Some get_key => get_key (el_data x) (iq_client m) = Some (Some (el_key x), u)
  | None => u = iq_client m /\ forall y, y ∈ R -> el_data y <> el_data x
  end.

Lemma pop_element_spec x R u s (Q : Z -> state -> Prop) :
  iq_holds (x :: R) s -> identifies (rb_env s) x R u ->
  (forall s', iq_holds R s' -> config (rb_env s') = config ((rb_env s) <| iq_client := u |>) ->
     Q (el_data x) s') ->
  wp indexed_queue_pop Q s.
Proof.
  intros H Hid HQ. destruct (H) as [Hq He Hi Hsz Hb Hc Hk Hd].
  apply wp_bind, wp_outside_gets. rewrite Hsz, zlen_cons. pose proof (zlen_nonneg R).
  rewrite (proj2 (Z.eqb_neq _ _)) by lia.
  apply wp_bind, wp_outside, wp_on_queue. rewrite fmap_cons in Hq.
  eapply linked_queue_pop_spec; [exact Hq|]. cbn [cell_of]. intros q1 Hq1.
  apply Forall_cons in Hd as [Hx _]. rewrite (proj2 (Z.eqb_neq _ _) Hx).
  apply wp_bind, wp_outside_gets. iq_simpl. apply wp_bind.
  assert (Hend : forall s1, indexed (x :: R) s1 -> entries_hold (x :: R) (rb_env s1) ->
      rb_dispose s1 = rb_dispose s -> iq_queue (rb_env s1) = q1 ->
      iq_current_size (rb_env s1) = iq_current_size (rb_env s) ->
      config (rb_env s1) = config ((rb_env s) <| iq_client := u |>) ->
      forall s2, indexed R s2 -> rb_dispose s2 = rb_dispose s1 ->
      rb_env s2 = (rb_env s1) <| iq_entries := delete (el_entry x) (iq_entries (rb_env s1)) |>
                          <| iq_strings := iq_strings (rb_env s1) - 1 |> ->
      wp (_ ← outside (add_size (-1)); mret (el_data x)) Q s2).
  { intros s1 Hi1 He1 Hc1 Hq1' Hz1 Hcf s2 Hi2 Hc2 Ee2. apply wp_bind, wp_outside, wp_modify, wp_ret.
    assert (He2 : entries_hold R (rb_env s2)) by (rewrite Ee2; by apply (entries_delete [] x R)).
    apply HQ; [|rewrite Ee2; exact Hcf].
    eapply (removed_holds [] x R s); [exact H| | | | |]; iq_simpl.
    + rewrite Ee2. cbn [app]. iq_simpl. by rewrite Hq1'.
    + by eapply entries_ext; [| | |exact He2].
    + by apply indexed_env.
    + by rewrite Hc2.
    + rewrite Ee2. iq_simpl. by rewrite Hz1. }
  unfold identifies in Hid. destruct (iq_get_key (rb_env s)) as [g|] eqn:Eg.
  - apply wp_bind, wp_outside. eapply wp_on_client; [exact Hid|].
    iq_simpl. lazymatch goal with |- wp _ _ ?x => set (s1 := x) end.
    apply wp_bind. eapply (index_delete_spec [] x R s1); [|by eapply entries_ext; [| | |exact He]|done|done|].
    { by apply (indexed_env _ s (rb_env s1)). }
    intros s2 Hi2 Hc2 Ee2. apply wp_ret. eapply (Hend s1); try done.
    { by apply (indexed_env _ s (rb_env s1)). }
    { by eapply entries_ext; [| | |exact He]. }
    unfold s1, config. iq_simpl. by rewrite Eg.
  - destruct Hid as [-> Hid].
    iq_simpl. lazymatch goal with |- wp _ _ ?x => set (s1 := x) end.
    assert (Hi1 : indexed (x :: R) s1) by (by apply (indexed_env _ s (rb_env s1))).
    assert (He1 : entries_hold (x :: R) (rb_env s1)) by (by eapply entries_ext; [| | |exact He]).
    apply wp_bind. destruct (Hi1) as (items & n & Hh & P).
    eapply rbtree_keys_spec; [exact Hh|].
    assert (Hkeys : items.*1 ≡ₚ el_key <$> x :: R) by (rewrite P, <- list_fmap_compose; reflexivity).
    eapply (delete_by_data_spec [] x R); [exact Hi1|exact He1|exact Hk|exact Hc|exact Hid| | |].
    + rewrite Hkeys. by left.
    + intros k. by rewrite Hkeys.
    + intros s2 Hi2 Hc2 Ee2. eapply (Hend s1); try done.
      unfold s1, config. iq_simpl. by rewrite Eg.
Qed.
End holding.

(** * The abstract queue

    A FIFO of pairs of a key and data, with unique keys. *)
Record fifo (U : Type) := Fifo {
  ff_items : list (bytes * Z);
  ff_max : Z;
  ff_dispose : option (Z -> ST U unit);
  ff_get_key : option (Z -> ST U (option bytes));
  ff_client : U;
  ff_alloc : oracle bool;
}.
Arguments Fifo {U} _ _ _ _ _ _.
Arguments ff_items {U} _.
Arguments ff_max {U} _.
Arguments ff_dispose {U} _.
Arguments ff_get_key {U} _.
Arguments ff_client {U} _.
Arguments ff_alloc {U} _.
#[export] Instance eta_fifo U : Eta (fifo U) := fun l =>
  Fifo (ff_items l) (ff_max l) (ff_dispose l) (ff_get_key l) (ff_client l) (ff_alloc l).

Fixpoint fifo_get (key : bytes) (items : list (bytes * Z)) : option Z :=
  match items with
  | [] => None
  | (k, d) :: items => if bool_decide (k = key) then Some d else fifo_get key items
  end.
Definition fifo_replace (key : bytes) (d : Z) (items : list (bytes * Z)) : list (bytes * Z) :=
  (fun x => if bool_decide (fst x = key) then (key, d) else x) <$> items.
Definition fifo_remove (key : bytes) (items : list (bytes * Z)) : list (bytes * Z) :=
  filter (fun x => fst x <> key) items.

Inductive iq_op (U : Type) :=
  | IqPush (key : option bytes) (data : Z)
  | IqUpsert (key : option bytes) (data : Z)
  | IqGet (key : option bytes)
  | IqPeek
  | IqPop
  | IqDelete (key : option bytes)
  | IqUpdate (key : option bytes) (data : Z)
  | IqSize
  | IqEmpty
  | IqFull
  | IqSetDispose (dispose : option (Z -> ST U unit))
  | IqSetGetKey (get_key : option (Z -> ST U (option bytes))).
Arguments IqPush {U} _ _.
Arguments IqUpsert {U} _ _.
Arguments IqGet {U} _.
Arguments IqPeek {U}.
Arguments IqPop {U}.
Arguments IqDelete {U} _.
Arguments IqUpdate {U} _ _.
Arguments IqSize {U}.
Arguments IqEmpty {U}.
Arguments IqFull {U}.
Arguments IqSetDispose {U} _.
Arguments IqSetGetKey {U} _.

Section refinement.
Context {U : Type}.
Notation IQ := (ST (rb_tree nat (w_indexed_queue_t U))).
Notation state := (rb_tree nat (w_indexed_queue_t U)).
Implicit Types (s : state) (l : fifo U) (R A B : list element).

Definition iq_run_op (o : iq_op U) : IQ Z :=
  match o with
  | IqPush key data => indexed_queue_push key data
  | IqUpsert key data => indexed_queue_upsert key data
  | IqGet key => indexed_queue_get key
  | IqPeek => indexed_queue_peek
  | IqPop => indexed_queue_pop
  | IqDelete key => indexed_queue_delete key
  | IqUpdate key data => indexed_queue_update key data
  | IqSize => indexed_queue_size
  | IqEmpty => r ← indexed_queue_empty; mret (Z.b2z r)
  | IqFull => r ← indexed_queue_full; mret (Z.b2z r)
  | IqSetDispose dispose => _ ← indexed_queue_set_dispose dispose; mret 0
  | IqSetGetKey get_key => _ ← indexed_queue_set_get_key get_key; mret 0
  end.

Definition fifo_full l : bool :=
  if ff_max l =? 0 then false else zlen (ff_items l) >=? ff_max l.

(** What becomes of the client's memory when it disposes of [data]. *)
Definition disposing l (data : Z) : option U :=
  match ff_dispose l with
  | Some dispose => snd <$> dispose data (ff_client l)
  | None => Some (ff_client l)
  end.

(** The contract of [pop]: [get_key] gives the key under which the data was put in;
    without it, data is in the queue once. *)
Definition identified l (key : bytes) (data : Z) (rest : list (bytes * Z)) : option U :=
  match ff_get_key l with
  | Some get_key =>
      '(k, u) ← get_key data (ff_client l); if bool_decide (k = Some key) then Some u else None
  | None => if bool_decide (data ∈ rest.*2) then None else Some (ff_client l)
  end.

Definition spec_push l (key : bytes) (data : Z) : option (Z * fifo U) :=
  if fifo_full l then Some (-1, l) else
  match fifo_get key (ff_items l) with
  | Some _ => Some (-1, l)
  | None =>
      let l' := l <| ff_alloc := advance (ff_alloc l) |> in
      if negb (next (ff_alloc l)) then Some (-1, l') else
      if zlen (ff_items l) + 1 <? 2 ^ 64
      then Some (0, l' <| ff_items := ff_items l ++ [(key, data)] |>) else None
  end.

(** The answer and the new state; [None] when the client breaks its contract, or puts
    in more than [size_t] counts. *)
Definition iq_spec_op (o : iq_op U) l : option (Z * fifo U) :=
  match o with
  | IqPush None _ | IqUpsert None _ => Some (-1, l)
  | IqPush (Some key) data => if data =? 0 then Some (-1, l) else spec_push l key data
  | IqUpsert (Some key) data =>
      if data =? 0 then Some (-1, l) else
      match fifo_get key (ff_items l) with
      | Some old =>
          u ← disposing l old;
          Some (0, l <| ff_items := fifo_replace key data (ff_items l) |> <| ff_client := u |>)
      | None => spec_push l key data
      end
  | IqGet key => Some (default 0 (key ≫= (fun key => fifo_get key (ff_items l))), l)
  | IqPeek => Some (match ff_items l with [] => 0 | (_, d) :: _ => d end, l)
  | IqPop =>
      match ff_items l with
      | [] => Some (0, l)
      | (k, d) :: rest =>
          u ← identified l k d rest; Some (d, l <| ff_items := rest |> <| ff_client := u |>)
      end
  | IqDelete None | IqUpdate None _ => Some (0, l)
  | IqDelete (Some key) =>
      match fifo_get key (ff_items l) with
      | None => Some (0, l)
      | Some d =>
          u ← disposing l d;
          Some (1, l <| ff_items := fifo_remove key (ff_items l) |> <| ff_client := u |>)
      end
  | IqUpdate (Some key) data =>
      if data =? 0 then Some (0, l) else
      match fifo_get key (ff_items l) with
      | None => Some (0, l)
      | Some old => Some (old, l <| ff_items := fifo_replace key data (ff_items l) |>)
      end
  | IqSize => Some (zlen (ff_items l), l)
  | IqEmpty => Some (Z.b2z (zlen (ff_items l) =? 0), l)
  | IqFull => Some (Z.b2z (fifo_full l), l)
  | IqSetDispose dispose => Some (0, l <| ff_dispose := dispose |>)
  | IqSetGetKey get_key => Some (0, l <| ff_get_key := get_key |>)
  end.

Fixpoint iq_run (ops : list (iq_op U)) : IQ (list Z) :=
  match ops with
  | [] => mret []
  | o :: ops => a ← iq_run_op o; answers ← iq_run ops; mret (a :: answers)
  end.

Fixpoint iq_spec_run (ops : list (iq_op U)) l : option (list Z * fifo U) :=
  match ops with
  | [] => Some ([], l)
  | o :: ops =>
      '(a, l) ← iq_spec_op o l; '(answers, l) ← iq_spec_run ops l; Some (a :: answers, l)
  end.

(** ** The operations on the items *)

Definition holds_items s l : Prop :=
  exists R, iq_holds R s /\ pair_of <$> R = ff_items l /\
    config (rb_env s) = (ff_max l, ff_dispose l, ff_get_key l, ff_client l, ff_alloc l).

Lemma fifo_get_absent k R : k ∉ el_key <$> R -> fifo_get k (pair_of <$> R) = None.
Proof.
  induction R as [|x R IH]; intros Hk; [done|]. cbn. cbn in Hk.
  apply not_elem_of_cons in Hk as [? ?]. by rewrite bool_decide_false; [apply IH|].
Qed.

Lemma others_ne A x B :
  NoDup (el_key <$> A ++ x :: B) -> forall y, y ∈ A ++ B -> el_key y <> el_key x.
Proof.
  rewrite fmap_app, fmap_cons, <- Permutation_middle, <- fmap_app. intros [Hx _]%NoDup_cons y Hy E.
  apply Hx. rewrite <- E. by apply list_elem_of_fmap_2.
Qed.

Lemma fifo_get_present A x B :
  NoDup (el_key <$> A ++ x :: B) -> fifo_get (el_key x) (pair_of <$> A ++ x :: B) = Some (el_data x).
Proof.
  intros Hn. pose proof (others_ne _ _ _ Hn) as Hne. clear Hn.
  induction A as [|y A IH]; cbn; [by rewrite bool_decide_true|].
  rewrite bool_decide_false by (apply Hne; by left). apply IH. intros z Hz. apply Hne. by right.
Qed.

Lemma fifo_replace_present A x d B :
  NoDup (el_key <$> A ++ x :: B) ->
  fifo_replace (el_key x) d (pair_of <$> A ++ x :: B) = pair_of <$> A ++ x <| el_data := d |> :: B.
Proof.
  intros Hn. pose proof (others_ne _ _ _ Hn) as Hne. clear Hn. unfold fifo_replace.
  assert (Hid : forall C : list element, (forall y, y ∈ C -> el_key y <> el_key x) ->
    (fun z => if bool_decide (fst z = el_key x) then (el_key x, d) else z) <$> (pair_of <$> C)
    = pair_of <$> C).
  { induction C as [|y C IH]; intros HC; [done|]. cbn.
    rewrite bool_decide_false by (apply HC; by left). f_equal. apply IH. intros z Hz. apply HC. by right. }
  rewrite !fmap_app, !fmap_cons, !Hid by (intros y Hy; apply Hne; set_solver).
  cbn. by rewrite bool_decide_true.
Qed.

Lemma fifo_remove_present A x B :
  NoDup (el_key <$> A ++ x :: B) ->
  fifo_remove (el_key x) (pair_of <$> A ++ x :: B) = pair_of <$> A ++ B.
Proof.
  intros Hn. pose proof (others_ne _ _ _ Hn) as Hne. clear Hn. unfold fifo_remove.
  assert (Hid : forall C : list element, (forall y, y ∈ C -> el_key y <> el_key x) ->
    filter (fun z => fst z <> el_key x) (pair_of <$> C) = pair_of <$> C).
  { induction C as [|y C IH]; intros HC; [done|]. rewrite fmap_cons, filter_cons_True by (apply HC; by left).
    f_equal. apply IH. intros z Hz. apply HC. by right. }
  rewrite !fmap_app, fmap_cons, filter_app, filter_cons_False by (cbn; tauto).
  by rewrite !Hid by (intros y Hy; apply Hne; set_solver).
Qed.

(** A key is in the queue, or it is not. *)
Lemma key_cases k R s :
  iq_holds R s ->
  (exists A x B, R = A ++ x :: B /\ k = el_key x /\
     fifo_get k (pair_of <$> R) = Some (el_data x)) \/
  (k ∉ el_key <$> R /\ fifo_get k (pair_of <$> R) = None).
Proof.
  intros H. destruct (decide (k ∈ el_key <$> R)) as [Hk|Hk].
  - left. apply list_elem_of_fmap in Hk as (x & -> & (A & B & ->)%list_elem_of_split).
    exists A, x, B. split_and!; [done|done|]. apply fifo_get_present, H.
  - right. split; [done|]. by apply fifo_get_absent.
Qed.

Lemma full_spec s l R :
  iq_holds R s -> pair_of <$> R = ff_items l -> iq_max_size (rb_env s) = ff_max l ->
  at_capacity (rb_env s) = fifo_full l.
Proof.
  intros H HR Hm. unfold at_capacity, fifo_full. rewrite Hm, (ih_size _ _ H), <- HR.
  unfold zlen. by rewrite length_fmap.
Qed.

Lemma disposing_disposes s l d u :
  config (rb_env s) = (ff_max l, ff_dispose l, ff_get_key l, ff_client l, ff_alloc l) ->
  disposing l d = Some u -> disposes (rb_env s) d u.
Proof.
  unfold config. intros [= _ Hd _ Hc _]. unfold disposing, disposes. rewrite Hd, Hc.
  destruct (ff_dispose l) as [f|]; [|congruence].
  destruct (f d (ff_client l)) as [[[] u']|]; cbn; congruence.
Qed.

Lemma push_spec k d s l a l' (Q : Z -> state -> Prop) :
  holds_items s l -> d <> 0 -> spec_push l k d = Some (a, l') ->
  (forall s', holds_items s' l' -> Q a s') -> wp (indexed_queue_push (Some k) d) Q s.
Proof.
  intros (R & H & HR & Hcf) Hd Hspec HQ. unfold spec_push in Hspec.
  assert (Hf : at_capacity (rb_env s) = fifo_full l)
    by (eapply full_spec; [exact H|exact HR|by injection Hcf]).
  assert (Hsame : forall a', Some (a', l) = Some (a, l') -> Q a' s).
  { intros a' [= <- <-]. apply HQ. by exists R. }
  destruct (fifo_full l).
  { unfold indexed_queue_push. rewrite (proj2 (Z.eqb_neq _ _) Hd).
    apply wp_bind, wp_outside_gets. fold (at_capacity (rb_env s)). rewrite Hf. by apply wp_ret, Hsame. }
  rewrite <- HR in Hspec.
  destruct (key_cases k R s H) as [(A & x & B & -> & -> & Hg)|[Hk Hg]]; rewrite Hg in Hspec.
  - unfold indexed_queue_push. rewrite (proj2 (Z.eqb_neq _ _) Hd).
    apply wp_bind, wp_outside_gets. fold (at_capacity (rb_env s)). rewrite Hf.
    apply wp_bind. eapply index_get_spec; [apply H|apply H| |].
    + intros A' y B' _ _. by apply wp_ret, Hsame.
    + intros []. rewrite fmap_app. set_solver.
  - assert (Ha : iq_alloc (rb_env s) = ff_alloc l) by (by injection Hcf).
    destruct (next (ff_alloc l)) eqn:Hn; cbn [negb] in Hspec.
    2: { injection Hspec as <- <-. unfold indexed_queue_push. rewrite (proj2 (Z.eqb_neq _ _) Hd).
      apply wp_bind, wp_outside_gets. fold (at_capacity (rb_env s)). rewrite Hf.
      apply wp_bind. eapply index_get_spec; [apply H|apply H| |].
      { intros A x B -> <-. destruct Hk. rewrite fmap_app. set_solver. }
      intros _. apply wp_bind, wp_outside, wp_strdup. rewrite Ha, Hn. apply wp_ret, HQ.
      exists R. split_and!; [|done|unfold config in *; iq_simpl; injection Hcf as -> -> -> -> _; done].
      destruct H. constructor; try done; [|by apply indexed_env]. by eapply entries_ext; [| | |eassumption]. }
    destruct (Z.ltb_spec (zlen (pair_of <$> R) + 1) (2 ^ 64)) as [Hlt|]; [|done].
    injection Hspec as <- <-.
    eapply insert_new_spec; [exact H|exact Hk|exact Hd| |exact Hf|by rewrite Ha|].
    { unfold zlen in *. by rewrite length_fmap in Hlt. }
    intros x s' Hx H' Hcf'. apply HQ. exists (R ++ [x]). split_and!; [done| |].
    + rewrite fmap_app, HR. cbn. by rewrite Hx.
    + rewrite Hcf'. unfold config in *. iq_simpl. injection Hcf as -> -> -> -> ->. done.
Qed.

Lemma config_client s s' l u :
  config (rb_env s) = (ff_max l, ff_dispose l, ff_get_key l, ff_client l, ff_alloc l) ->
  config (rb_env s') = config ((rb_env s) <| iq_client := u |>) ->
  config (rb_env s') = (ff_max l, ff_dispose l, ff_get_key l, u, ff_alloc l).
Proof. unfold config. iq_simpl. intros [= -> -> -> _ ->] ->. done. Qed.

Lemma get_spec k s l (Q : Z -> state -> Prop) :
  holds_items s l -> Q (default 0 (fifo_get k (ff_items l))) s -> wp (indexed_queue_get (Some k)) Q s.
Proof.
  intros (R & H & <- & _) HQ. apply wp_bind.
  eapply index_get_spec; [apply H|apply H| |].
  - intros A x B -> <-. rewrite fifo_get_present in HQ by apply H.
    apply wp_bind, wp_outside. eapply wp_entry_at; [eapply entry_lookup, H|].
    rewrite env_id. by apply wp_ret.
  - intros Hk. rewrite fifo_get_absent in HQ by done. by apply wp_ret.
Qed.

Lemma peek_spec s l (Q : Z -> state -> Prop) :
  holds_items s l -> Q (match ff_items l with [] => 0 | (_, d) :: _ => d end) s ->
  wp indexed_queue_peek Q s.
Proof.
  intros (R & H & <- & _) HQ. apply wp_bind, wp_outside_gets. rewrite (ih_size _ _ H).
  destruct R as [|x R]; [by apply wp_ret|]. rewrite zlen_cons. pose proof (zlen_nonneg R).
  rewrite (proj2 (Z.eqb_neq _ _)) by lia. pose proof (ih_queue _ _ H) as Hq.
  apply wp_bind, wp_outside, wp_on_queue, wp_gets. rewrite (lqh_first _ _ _ Hq).
  cbn [fmap list_fmap first_or cell_of].
  replace ((rb_env s) <| iq_queue := iq_queue (rb_env s) |>) with (rb_env s) by (by destruct (rb_env s)).
  rewrite env_id. apply wp_bind, wp_outside, wp_on_queue. eapply wp_node_at.
  { pose proof (lqh_seg _ _ _ Hq) as [Hx _]. exact Hx. }
  replace ((rb_env s) <| iq_queue := iq_queue (rb_env s) |>) with (rb_env s) by (by destruct (rb_env s)).
  rewrite env_id. by apply wp_ret.
Qed.

Lemma update_spec A x d B s (Q : Z -> state -> Prop) :
  iq_holds (A ++ x :: B) s -> d <> 0 ->
  (forall s', iq_holds (A ++ x <| el_data := d |> :: B) s' ->
     config (rb_env s') = config (rb_env s) -> Q (el_data x) s') ->
  wp (indexed_queue_update (Some (el_key x)) d) Q s.
Proof.
  intros H Hd HQ. pose proof (node_lookup _ _ _ _ H) as Hn. unfold indexed_queue_update.
  rewrite (proj2 (Z.eqb_neq _ _) Hd).
  apply wp_bind. eapply index_get_spec; [apply H|apply H| |].
  2: { intros []. rewrite fmap_app, fmap_cons. set_solver. }
  intros A' y B' ER Ey.
  assert (y = x) as ->.
  { apply (key_unique (A ++ x :: B)); [apply H|rewrite ER; set_solver|set_solver|done]. }
  pose proof (entry_lookup _ _ _ _ (ih_entries _ _ H)) as Hx.
  apply wp_bind, wp_outside. eapply wp_entry_at; [exact Hx|]. rewrite env_id.
  apply wp_bind, wp_outside, wp_bind. eapply wp_entry_at; [exact Hx|]. apply wp_modify.
  apply wp_bind, wp_outside, wp_on_queue, wp_node_set; [done|]. cbn [en_queue_node en_data].
  apply wp_ret, HQ; [|done]. iq_simpl.
  apply (set_data_spec _ _ _ _ _ H Hd (IndexedQueue _ _ _ _ _ _ _ _ _ _)); done.
Qed.

Lemma pop_spec k d rest u s l (Q : Z -> state -> Prop) :
  holds_items s l -> ff_items l = (k, d) :: rest -> identified l k d rest = Some u ->
  (forall s', holds_items s' (l <| ff_items := rest |> <| ff_client := u |>) -> Q d s') ->
  wp indexed_queue_pop Q s.
Proof.
  intros (R & H & HR & Hcf) Hit Hid HQ. rewrite Hit in HR.
  destruct R as [|x R]; [done|]. injection HR as Hk Hd HR.
  assert (Hid' : identifies (rb_env s) x R u).
  { unfold identifies, identified in *. injection Hcf as _ _ Hg Hc _. rewrite Hg, Hc.
    destruct (ff_get_key l) as [g|].
    - rewrite Hd. destruct (g d (ff_client l)) as [[k' u']|]; [|done]. cbn in Hid.
      case_bool_decide; [|done]. by injection Hid as ->; subst.
    - case_bool_decide as Hin; [done|]. injection Hid as <-. split; [done|].
      intros y Hy E. apply Hin. rewrite <- HR, <- list_fmap_compose.
      apply list_elem_of_fmap. exists y. split; [cbn; congruence|done]. }
  rewrite <- Hd in HQ. eapply pop_element_spec; [exact H|exact Hid'|].
  intros s' H' Hcf'. apply HQ. exists R. split_and!; [done|done|].
  exact (config_client _ _ _ _ Hcf Hcf').
Qed.

Lemma iq_run_op_spec o s l a l' :
  holds_items s l -> iq_spec_op o l = Some (a, l') ->
  wp (iq_run_op o) (fun a' s' => a' = a /\ holds_items s' l') s.
Proof.
  intros Hl Hspec.
  assert (Hsame : holds_items s l) by done.
  destruct Hl as (R & H & HR & Hcf).
  destruct o as [[k|] d|[k|] d|[k|]| | |[k|]|[k|] d| | | |f|f];
    cbn [iq_run_op iq_spec_op] in *; try (injection Hspec as <- <-; by apply wp_ret).
  - destruct (Z.eqb_spec d 0) as [->|Hd]; [injection Hspec as <- <-; by apply wp_ret|].
    eapply push_spec; [done|done|exact Hspec|done].
  - unfold indexed_queue_upsert.
    destruct (Z.eqb_spec d 0) as [->|Hd]; [injection Hspec as <- <-; by apply wp_ret|].
    rewrite <- HR in Hspec. apply wp_bind. eapply index_get_spec; [apply H|apply H| |].
    + intros A x B -> <-. rewrite fifo_get_present in Hspec by apply H.
      destruct (disposing l (el_data x)) as [u|] eqn:Eu; [|done]. cbn in Hspec. injection Hspec as <- <-.
      apply wp_bind. eapply overwrite_spec; [exact H|exact Hd|by eapply disposing_disposes|].
      intros s' H' Hcf'. apply wp_ret. split; [done|].
      exists (A ++ x <| el_data := d |> :: B).
      split_and!; [done|symmetry; apply fifo_replace_present, H|].
      exact (config_client _ _ _ _ Hcf Hcf').
    + intros Hk. rewrite fifo_get_absent in Hspec by done.
      eapply push_spec; [done|done|exact Hspec|done].
  - injection Hspec as <- <-. by eapply get_spec.
  - injection Hspec as <- <-. by eapply peek_spec.
  - destruct (ff_items l) as [|[k d] rest] eqn:Hit.
    + injection Hspec as <- <-. destruct R; [|done].
      apply wp_bind, wp_outside_gets. rewrite (ih_size _ _ H). by apply wp_ret.
    + destruct (identified l k d rest) as [u|] eqn:Hid; [|done]. cbn in Hspec. injection Hspec as <- <-.
      eapply pop_spec; [exact Hsame|exact Hit|exact Hid|]. done.
  - rewrite <- HR in Hspec. destruct (key_cases k R s H) as [(A & x & B & -> & -> & Hg)|[Hk Hg]];
      rewrite Hg in Hspec.
    + destruct (disposing l (el_data x)) as [u|] eqn:Eu; [|done]. cbn in Hspec. injection Hspec as <- <-.
      eapply remove_spec; [exact H|by eapply disposing_disposes|].
      intros s' H' Hcf'. split; [done|]. exists (A ++ B).
      split_and!; [done|symmetry; apply fifo_remove_present, H|].
      exact (config_client _ _ _ _ Hcf Hcf').
    + injection Hspec as <- <-. by eapply absent_delete_spec.
  - destruct (Z.eqb_spec d 0) as [->|Hd]; [injection Hspec as <- <-; by apply wp_ret|].
    rewrite <- HR in Hspec. destruct (key_cases k R s H) as [(A & x & B & -> & -> & Hg)|[Hk Hg]];
      rewrite Hg in Hspec; injection Hspec as <- <-.
    + eapply update_spec; [exact H|exact Hd|]. intros s' H' Hcf'. split; [done|].
      exists (A ++ x <| el_data := d |> :: B).
      split_and!; [done|symmetry; apply fifo_replace_present, H|by rewrite Hcf'].
    + unfold indexed_queue_update. rewrite (proj2 (Z.eqb_neq _ _) Hd).
      apply wp_bind. eapply index_get_spec; [apply H|apply H| |].
      * intros A x B -> <-. destruct Hk. rewrite fmap_app. set_solver.
      * intros _. by apply wp_ret.
  - injection Hspec as <- <-. apply wp_outside_gets. split; [|done].
    rewrite (ih_size _ _ H), <- HR. unfold zlen. by rewrite length_fmap.
  - injection Hspec as <- <-. apply wp_bind, wp_outside_gets, wp_ret. split; [|done].
    rewrite (ih_size _ _ H), <- HR. unfold zlen. by rewrite length_fmap.
  - injection Hspec as <- <-. apply wp_bind, wp_outside_gets, wp_ret. split; [|done].
    f_equal. eapply full_spec; [exact H|exact HR|by injection Hcf].
  - injection Hspec as <- <-. apply wp_bind, wp_outside, wp_modify, wp_ret. split; [done|].
    exists R. split_and!; [|done|unfold config in *; iq_simpl; injection Hcf as -> _ -> -> ->; done].
    destruct H. constructor; try done; [|by apply indexed_env]. by eapply entries_ext; [| | |eassumption].
  - injection Hspec as <- <-. apply wp_bind, wp_outside, wp_modify, wp_ret. split; [done|].
    exists R. split_and!; [|done|unfold config in *; iq_simpl; injection Hcf as -> -> _ -> ->; done].
    destruct H. constructor; try done; [|by apply indexed_env]. by eapply entries_ext; [| | |eassumption].
Qed.

Lemma iq_run_spec ops s l answers l' :
  holds_items s l -> iq_spec_run ops l = Some (answers, l') ->
  wp (iq_run ops) (fun answers' s' => answers' = answers /\ holds_items s' l') s.
Proof.
  revert s l answers. induction ops as [|o ops IH]; intros s l answers Hi Hrun; cbn in *.
  { injection Hrun as <- <-. by apply wp_ret. }
  destruct (iq_spec_op o l) as [[a l1]|] eqn:E1; [|done]. cbn in Hrun.
  destruct (iq_spec_run ops l1) as [[answers1 l2]|] eqn:E2; [|done]. cbn in Hrun.
  injection Hrun as <- <-.
  apply wp_bind. eapply wp_mono; [by eapply iq_run_op_spec|]. intros a' s1 [-> Hi1].
  apply wp_bind. eapply wp_mono; [by eapply IH|]. intros answers' s2 [-> Hi2].
  by apply wp_ret.
Qed.

Lemma init_holds max client alloc :
  holds_items (indexed_queue_init max client alloc) (Fifo [] max None None client alloc).
Proof.
  exists []. split_and!; [|done|done]. constructor; try done.
  - constructor; try done; [by constructor|]. by intros p [n Hn].

  - constructor; try done; constructor.
  - destruct (init_implements (V := nat) (rb_env (indexed_queue_init max client alloc))) as [[n H] _].
    exists [], n. split; [|done]. by apply (holds_dispose _ _ _ (Some indexed_queue_entry_free)).
  - constructor.
Qed.

(** ** The bound *)

Lemma iq_spec_op_bounded o l a l' :
  iq_spec_op o l = Some (a, l') -> 0 < ff_max l -> zlen (ff_items l) <= ff_max l ->
  ff_max l' = ff_max l /\ zlen (ff_items l') <= ff_max l'.
Proof.
  intros H Hm Hl.
  assert (Hpush : forall k d, spec_push l k d = Some (a, l') ->
    ff_max l' = ff_max l /\ zlen (ff_items l') <= ff_max l').
  { intros k d. unfold spec_push, fifo_full. rewrite (proj2 (Z.eqb_neq _ _)) by lia.
    destruct (_ >=? _) eqn:E; [by intros [= <- <-]|].
    destruct (fifo_get k (ff_items l)); [by intros [= <- <-]|].
    destruct (negb _); [by intros [= <- <-]|].
    destruct (_ <? _); [|done]. intros [= <- <-]. cbn. rewrite zlen_app.
    change (zlen [(k, d)]) with 1. lia. }
  assert (Hrep : forall k d, zlen (fifo_replace k d (ff_items l)) = zlen (ff_items l))
    by (intros; unfold zlen, fifo_replace; by rewrite length_fmap).
  assert (Hrem : forall k, zlen (fifo_remove k (ff_items l)) <= zlen (ff_items l)).
  { intros k. unfold zlen, fifo_remove. pose proof (length_filter (fun x => fst x <> k) (ff_items l)). lia. }
  destruct o as [[k|] d|[k|] d|[k|]| | |[k|]|[k|] d| | | |f|f]; cbn [iq_spec_op] in H;
    repeat (lazymatch type of H with
      | (if ?b then _ else _) = _ => destruct b
      | context [match fifo_get ?k ?i with _ => _ end] => destruct (fifo_get k i)
      | context [disposing ?l ?d] => destruct (disposing l d); [|done]; cbn in H
      end);
    try (by eapply Hpush); try (injection H as <- <-; cbn; rewrite ?Hrep; split; done || lia).
  - destruct (ff_items l) as [|[k d] rest] eqn:Ei; [injection H as <- <-; by rewrite Ei|].
    destruct (identified l k d rest); [|done]. cbn in H. injection H as <- <-. cbn.
    rewrite zlen_cons in Hl. split; [done|lia].
  - injection H as <- <-. cbn. specialize (Hrem k). split; [done|lia].
Qed.

Lemma iq_spec_run_bounded ops l answers l' :
  iq_spec_run ops l = Some (answers, l') -> 0 < ff_max l -> zlen (ff_items l) <= ff_max l ->
  ff_max l' = ff_max l /\ zlen (ff_items l') <= ff_max l'.
Proof.
  revert l answers. induction ops as [|o ops IH]; intros l answers H Hm Hl; cbn in H.
  { injection H as <- <-. done. }
  destruct (iq_spec_op o l) as [[a l1]|] eqn:E; [|done]. cbn in H.
  destruct (iq_spec_run ops l1) as [[answers1 l2]|] eqn:E2; [|done]. cbn in H. injection H as <- <-.
  destruct (iq_spec_op_bounded _ _ _ _ E Hm Hl) as [Em El].
  destruct (IH _ _ E2) as [Em2 El2]; [by rewrite Em|done|]. by rewrite Em2, Em in *.
Qed.

(** ** Freeing the queue *)

(** The client's memory after disposing of several elements in order. *)
Fixpoint dispose_items (dispose : option (Z -> ST U unit)) (ds : list Z) (u : U) : option U :=
  match ds with
  | [] => Some u
  | d :: ds =>
      u ← match dispose with Some f => snd <$> f d u | None => Some u end;
      dispose_items dispose ds u
  end.

Lemma lq_size L q : lq_holds ∅ L q -> size (lq_nodes q) = length L.
Proof.
  intros [Hs _ _ Hn Ho _ _]. rewrite <- (length_fmap fst), <- size_dom.
  rewrite <- (size_list_to_set (C := gset nat)) by done.
  f_equal. apply set_eq. intros p. rewrite elem_of_dom, elem_of_list_to_set. split.
  - intros [n Hp]. destruct (decide (p ∈ L.*1)) as [|Hno]; [done|]. by rewrite Ho in Hp.
  - intros ([p' d] & -> & (A & B & ->)%list_elem_of_split)%list_elem_of_fmap.
    cbn [fst]. rewrite (seg_lookup _ _ _ _ _ _ _ Hs). eauto.
Qed.

Lemma drain_spec R u fuel (m : w_indexed_queue_t U) :
  lq_holds ∅ (cell_of <$> R) (iq_queue m) -> Forall (fun x => el_data x <> 0) R ->
  dispose_items (iq_dispose m) (el_data <$> R) (iq_client m) = Some u -> (length R < fuel)%nat ->
  wp (drain fuel) (fun _ m' => lq_holds ∅ [] (iq_queue m') /\ iq_entries m' = iq_entries m /\
    iq_fresh m' = iq_fresh m /\ iq_strings m' = iq_strings m /\ iq_client m' = u) m.
Proof.
  revert fuel m. induction R as [|x R IH]; intros fuel m Hq Hd Hu Hf;
    (destruct fuel as [|fuel]; [cbn in Hf; lia|]); cbn [drain]; apply wp_bind, wp_on_queue;
    (eapply linked_queue_pop_spec; [exact Hq|]).
  - apply wp_ret. cbn in Hu. iq_simpl. split_and!; [exact Hq|done..|congruence].
  - cbn [fmap list_fmap cell_of]. intros q' Hq'. apply Forall_cons in Hd as [Hx Hd].
    rewrite (proj2 (Z.eqb_neq _ _) Hx). cbn in Hu.
    destruct (match iq_dispose m with Some f => snd <$> f (el_data x) (iq_client m) | None => _ end)
      as [u1|] eqn:E; [|done]. cbn in Hu.
    apply wp_bind. eapply (dispose_data_spec _ u1).
    { unfold disposes. iq_simpl. destruct (iq_dispose m) as [f|]; [|congruence].
      destruct (f (el_data x) (iq_client m)) as [[[] u']|]; cbn in E; congruence. }
    eapply wp_mono; [eapply (IH fuel)|]; iq_simpl; [exact Hq'|done|exact Hu|cbn in Hf; lia|].
    done.
Qed.

Lemma entries_free_all R vs (m : w_indexed_queue_t U) :
  entries_hold R m -> vs ≡ₚ (fun x => Some (el_entry x)) <$> R ->
  exists m', dispose_all (Some indexed_queue_entry_free) vs m = Some m' /\
    iq_entries m' = ∅ /\ iq_strings m' = 0 /\ iq_queue m' = iq_queue m /\ iq_client m' = iq_client m.
Proof.
  revert R m. induction vs as [|v vs IH]; intros R m He P.
  - apply Permutation_nil_l in P. symmetry in P. apply fmap_nil_inv in P as ->. exists m. by destruct He as [-> _ _ ->].
  - assert (Hv : v ∈ (fun x => Some (el_entry x)) <$> R) by (rewrite <- P; by left).
    apply list_elem_of_fmap in Hv as (x & -> & (A & B & ->)%list_elem_of_split).
    rewrite fmap_app, fmap_cons, <- Permutation_middle, <- fmap_app in P.
    apply Permutation_cons_inv in P.
    destruct (IH (A ++ B) _ (entries_delete _ _ _ _ He) P) as (m' & E & H1 & H2 & H3 & H4).
    exists m'. split_and!; [|done..]. cbn [dispose_all].
    unfold indexed_queue_entry_free, entry_at, mbind, ST_bind, option_bind, gets, lift, modify.
    rewrite (entry_lookup _ _ _ _ He). exact E.
Qed.

Lemma free_spec R u s :
  iq_holds R s ->
  dispose_items (iq_dispose (rb_env s)) (el_data <$> R) (iq_client (rb_env s)) = Some u ->
  wp indexed_queue_free (fun _ s' => rb_heap s' = ∅ /\ rb_strings s' = 0 /\
    lq_nodes (iq_queue (rb_env s')) = ∅ /\ iq_entries (rb_env s') = ∅ /\
    iq_strings (rb_env s') = 0 /\ iq_client (rb_env s') = u) s.
Proof.
  intros H Hu. destruct (H) as [Hq He Hi _ _ Hc _ Hd].
  apply wp_bind, wp_outside_gets, wp_bind, wp_outside. eapply wp_mono.
  { eapply drain_spec; [exact Hq|exact Hd|exact Hu|]. rewrite (lq_size _ _ Hq), length_fmap. lia. }
  intros [] m (Hq' & Ee & Ef & Es & Eu).
  assert (He' : entries_hold R m) by (by eapply entries_ext; [| | |exact He]).
  destruct Hi as (items & n & Hh & P).
  assert (Hvs : forall vs, vs ≡ₚ items.*2 -> vs ≡ₚ (fun x => Some (el_entry x)) <$> R).
  { intros vs ->. rewrite P, <- list_fmap_compose. done. }
  eapply wp_mono.
  { eapply rbtree_destroy_spec; [by apply (holds_env _ _ _ m)|]. intros vs Hp. iq_simpl. rewrite Hc.
    destruct (entries_free_all R vs m He' (Hvs _ Hp)) as (m' & -> & _). eauto. }
  intros [] s' (Hheap & Hstr & vs & Hp & Hall). iq_simpl. revert Hall. iq_simpl. rewrite Hc. intros Hall.
  destruct (entries_free_all R vs m He' (Hvs _ Hp)) as (m' & Hm & H1 & H2 & H3 & H4).
  rewrite Hm in Hall. injection Hall as <-. split_and!; try done; [|by rewrite H4].
  rewrite H3. apply map_empty. intros p. apply (lqh_only _ _ _ Hq'), not_elem_of_nil.
Qed.
End refinement.

(** C19: the indexed queue is a FIFO with unique keys: whatever operations are applied to
    a new queue, each answers what it answers on the list of pairs of a key and data,
    and no operation touches memory it should not, as long as the client's callbacks
    return and a popped element can be identified ([identified]); a push fails when the
    queue is full, the key is there or cannot be copied.  Afterwards the
    linked queue, the entries and the index agree on exactly the items of the list,
    in order ([iq_holds]), no more than the maximum; and freeing the queue disposes of
    every element once, in order, and frees every node, entry and key. *)
Theorem indexed_queue_is_fifo {U : Type} (ops : list (iq_op U)) max (client : U) alloc answers l :
  iq_spec_run ops (Fifo [] max None None client alloc) = Some (answers, l) ->
  exists s R, iq_run ops (indexed_queue_init max client alloc) = Some (answers, s) /\
    iq_holds R s /\ pair_of <$> R = ff_items l /\
    (0 < max -> zlen (ff_items l) <= max) /\
    forall u, dispose_items (ff_dispose l) (ff_items l).*2 (ff_client l) = Some u ->
    exists s', indexed_queue_free s = Some (tt, s') /\ rb_heap s' = ∅ /\ rb_strings s' = 0 /\
      lq_nodes (iq_queue (rb_env s')) = ∅ /\ iq_entries (rb_env s') = ∅ /\
      iq_strings (rb_env s') = 0 /\ iq_client (rb_env s') = u.
Proof.
  intros Hrun. pose proof (iq_run_spec _ _ _ _ _ (init_holds max client alloc) Hrun) as W.
  apply wp_run in W as (? & s & Hs & -> & R & H & HR & Hcf).
  exists s, R. split_and!; [done|done|done| |].
  - intros Hm. eapply iq_spec_run_bounded in Hrun as [Em El]; [|done|cbn; unfold zlen; cbn; lia].
    cbn in Em. lia.
  - intros u Hu. injection Hcf as _ Hd _ Hc _.
    rewrite <- HR, <- list_fmap_compose, <- Hd, <- Hc in Hu.
    pose proof (free_spec R u s H Hu) as W. apply wp_run in W as ([] & s' & Hf & HW).
    by exists s'.
Qed.

(** A run: the client counts what it disposes of. *)
Definition sample_ops : list (iq_op Z) :=
  let a := Some [97] in let b := Some [98] in let c := Some [99] in
  [IqSetDispose (Some (fun d u => Some (tt, u + d)));
   IqPush b 1; IqPush a 2; IqPush b 3; IqUpsert b 4; IqPush c 5; IqPush (Some [100]) 6; IqPeek;
   IqDelete a; IqGet a; IqUpdate c 7; IqPop; IqSize; IqGet c; IqPush b 8; IqPush b 8].

(** The fourth copy of a key fails. *)
Definition short_once : oracle bool := Oracle (fun n => negb (n =? 3)%nat) 0.

Lemma indexed_queue_is_fifo_witness :
  exists answers l, iq_spec_run sample_ops (Fifo [] 3 None None 0 short_once) = Some (answers, l) /\
    answers = [0; 0; 0; -1; 0; 0; -1; 4; 1; 0; 5; 4; 1; 7; -1; 0] /\
    exists s R, iq_run sample_ops (indexed_queue_init 3 0 short_once) = Some (answers, s) /\
      iq_holds R s /\ pair_of <$> R = [([99], 7); ([98], 8)] /\
      exists s', indexed_queue_free s = Some (tt, s') /\ iq_client (rb_env s') = 18.
Proof.
  eexists _, _. split; [reflexivity|]. split; [reflexivity|].
  destruct (indexed_queue_is_fifo sample_ops 3 0 short_once _ _ eq_refl) as (s & R & H1 & H2 & H3 & _ & H4).
  exists s, R. split; [exact H1|]. split; [exact H2|]. split; [exact H3|].
  destruct (H4 18 eq_refl) as (s' & H5 & _ & _ & _ & _ & _ & H6). exists s'. exact (conj H5 H6).
Defined.

(** * What goes wrong outside the contract *)

(** Without [get_key], data that is in the queue under two keys: [pop] takes the first
    element and removes the other's key, so an entry keeps pointing to the freed node,
    and deleting it is a use after free. *)
Theorem pop_removes_wrong_key :
  let ops := [IqPush (Some [98]) 5; IqPush (Some [97]) 5; IqPop] in
  (exists s, iq_run ops (indexed_queue_init 0 tt (always true)) = Some ([0; 0; 5], s) /\
     indexed_queue_get (Some [97]) s = Some (0, s) /\
     indexed_queue_get (Some [98]) s = Some (5, s)) /\
  iq_run (ops ++ [IqDelete (Some [98])]) (indexed_queue_init 0 tt (always true)) = None.
Proof.
  split; [|by vm_compute]. eexists. split; [vm_compute; reflexivity|].
  split; vm_compute; reflexivity.
Qed.

(** [indexed_queue_upsert_ex] does not look for its key again after waiting for room:
    when another thread put the key in meanwhile, it fails instead of updating. *)
Theorem upsert_ex_loses_update :
  let a := Some [97] in let b := Some [98] in let c := Some [99] in
  exists s1 s2, iq_run [IqPush a 1; IqPush c 2] (indexed_queue_init 2 tt (always true)) = Some ([0; 0], s1) /\
    indexed_queue_upsert_ex b 3 s1 = Some (WaitsOn available_not_empty, s1) /\
    iq_run [IqPop; IqPush b 4; IqPop] s1 = Some ([1; 0; 2], s2) /\
    push_when_room b 3 s2 = Some (Returns (-1) [], s2) /\
    indexed_queue_upsert_ex b 3 s2 <> Some (Returns (-1) [], s2).
Proof.
  eexists _, _. split; [vm_compute; reflexivity|]. split; [vm_compute; reflexivity|].
  split; [vm_compute; reflexivity|]. split; [vm_compute; reflexivity|]. vm_compute. done.
Qed.
