(* ===== verification/Utf8.v ===== *)
(** * UTF-8 validation and filtering (agents/shared/utf8_op.c)

    The three functions of the file, reading the memory byte by byte the way
    the source does: [valid_1] .. [valid_4] are its macros with their short
    circuits, so a string that ends inside a sequence is not read past its
    terminator.  [char_signed] says whether plain [char] is signed, which the
    C standard leaves to the platform; the comparisons of the source are on
    [char].  The specification is RFC 3629: [encode] is the encoding of a
    Unicode scalar value.  An allocation that fails ends the process in the
    source ([os_malloc]), so allocations succeed here; the contents of fresh
    memory are arbitrary. *)
From S2P Require Import Prelude.

Definition REPLACEMENT_INC : Z := 4096.

Section macros.
Variable char_signed : bool.

(** The value of a byte as a [char]. *)
Definition char_of (b : Z) : Z :=
  if char_signed && (128 <=? b) then b - 256 else b.

(** [(x)[k]], as a [char] and as an [unsigned char]. *)
Definition chr (m : bytes) (i : Z) : option Z := b ← load1 m i; Some (char_of b).
Definition uchr (m : bytes) (i : Z) : option Z := load1 m i.

(** [a && b]: [b] is evaluated when [a] holds. *)
Definition and_then (a b : option bool) : option bool :=
  x ← a; if x : bool then b else Some false.

(** [((x)[i] & mask) == v]. *)
Definition masked (m : bytes) (i mask v : Z) : option bool :=
  c ← chr m i; Some (Z.land c mask =? v).

(** [((x)[0] != (char)lead || test((unsigned char)(x)[1]))]. *)
Definition unless_lead (m : bytes) (i lead : Z) (test : Z -> bool) : option bool :=
  c ← chr m i;
  if negb (c =? char_of lead) then Some true else u ← uchr m (i + 1); Some (test u).

Definition valid_1 (m : bytes) (i : Z) : option bool := masked m i 0x80 0.

Definition valid_2 (m : bytes) (i : Z) : option bool :=
  and_then (masked m i 0xE0 0xC0)
  (and_then (c ← chr m i; Some (char_of 0xC2 <=? c))
  (masked m (i + 1) 0xC0 0x80)).

Definition valid_3 (m : bytes) (i : Z) : option bool :=
  and_then (masked m i 0xF0 0xE0)
  (and_then (masked m (i + 1) 0xC0 0x80)
  (and_then (masked m (i + 2) 0xC0 0x80)
  (and_then (unless_lead m i 0xE0 (fun u => 0xA0 <=? u))
  (and_then (unless_lead m i 0xED (fun u => u <? 0xA0))
  (unless_lead m i 0xEF (fun u => u <=? 0xBF)))))).

Definition valid_4 (m : bytes) (i : Z) : option bool :=
  and_then (masked m i 0xF8 0xF0)
  (and_then (u ← uchr m i; Some (u <=? 0xF4))
  (and_then (masked m (i + 1) 0xC0 0x80)
  (and_then (masked m (i + 2) 0xC0 0x80)
  (and_then (masked m (i + 3) 0xC0 0x80)
  (and_then (unless_lead m i 0xF0 (fun u => 0x90 <=? u))
  (unless_lead m i 0xF4 (fun u => u <=? 0x8F))))))).

(** The cascade of tests both loops make: the number of bytes of the valid
    sequence at [i], 0 when there is none. *)
Definition sequence_at (m : bytes) (i : Z) : option Z :=
  v1 ← valid_1 m i; if v1 : bool then Some 1 else
  v2 ← valid_2 m i; if v2 : bool then Some 2 else
  v3 ← valid_3 m i; if v3 : bool then Some 3 else
  v4 ← valid_4 m i; if v4 : bool then Some 4 else Some 0.

(** The loop of [w_utf8_drop]; [None] is an access outside the memory, or
    [fuel] exhausted. *)
Fixpoint utf8_drop (fuel : nat) (m : bytes) (string : Z) : option Z :=
  match fuel with
  | O => None
  | S k =>
      c ← chr m string;
      if c =? 0 then Some string else
      n ← sequence_at m string;
      if n =? 0 then Some string else utf8_drop k m (string + n)
  end.

(** A round advances at least a byte, inside the memory. *)
Definition w_utf8_drop (m : bytes) (string : Z) : option Z :=
  utf8_drop (length m) m string.

Definition w_utf8_valid (m : bytes) (string : Z) : option bool :=
  p ← w_utf8_drop m string; c ← chr m p; Some (c =? 0).

(** [strlen]: the bytes before the terminator. *)
Fixpoint c_string (l : bytes) : option bytes :=
  match l with
  | [] => None
  | x :: l' => if x =? 0 then Some [] else s ← c_string l'; Some (x :: s)
  end.
Definition string_at (m : bytes) (i : Z) : option bytes :=
  if (0 <=? i) && (i <=? zlen m) then c_string (drop (Z.to_nat i) m) else None.

(** Fresh memory of [n] bytes, with contents the program may not rely on. *)
Variable fresh : nat -> Z.
Definition malloc_bytes (n : Z) : bytes := map fresh (seq 0 (Z.to_nat n)).
Definition realloc_bytes (old : bytes) (n : Z) : bytes :=
  take (Z.to_nat n) old ++ drop (length old) (malloc_bytes n).

(** The locals of [w_utf8_filter]. *)
Record filter := Filter {
  f_copy : bytes; f_size : Z; f_i : Z; f_repl : Z; f_valid : Z
}.
#[export] Instance eta_filter : Eta filter := fun f =>
  Filter (f_copy f) (f_size f) (f_i f) (f_repl f) (f_valid f).

(** [copy[i++] = c]. *)
Definition put_char (c : Z) (f : filter) : option filter :=
  copy ← store (f_copy f) (f_i f) [c];
  Some (f <| f_copy := copy |> <| f_i := u64 (f_i f + 1) |>).

(** [copy[i++] = *valid++], [n] times. *)
Fixpoint copy_chars (n : nat) (m : bytes) (f : filter) : option filter :=
  match n with
  | O => Some f
  | S k =>
      c ← load1 m (f_valid f);
      f1 ← put_char c f;
      copy_chars k m (f1 <| f_valid := f_valid f1 + 1 |>)
  end.

(** The replacement of an invalid byte by U+FFFD. *)
Definition put_replacement (f : filter) : option filter :=
  let f1 :=
    if f_repl f <? 3
    then f <| f_size := u64 (f_size f + REPLACEMENT_INC) |>
           <| f_copy := realloc_bytes (f_copy f) (u64 (f_size f + REPLACEMENT_INC)) |>
           <| f_repl := u64 (f_repl f + REPLACEMENT_INC) |>
    else f in
  f2 ← put_char 0xEF f1;
  f3 ← put_char 0xBF f2;
  f4 ← put_char 0xBD f3;
  Some (f4 <| f_repl := u64 (f_repl f4 - 3) |>).

Fixpoint filter_loop (fuel : nat) (replacement : bool) (m : bytes) (f : filter)
  : option filter :=
  match fuel with
  | O => None
  | S k =>
      c ← chr m (f_valid f);
      if c =? 0 then Some f else
      n ← sequence_at m (f_valid f);
      f1 ← (if n =? 0
            then f0 ← (if replacement then put_replacement f else Some f);
                 Some (f0 <| f_valid := f_valid f0 + 1 |>)
            else copy_chars (Z.to_nat n) m f);
      filter_loop k replacement m f1
  end.

(** The block it returns. *)
Definition w_utf8_filter (m : bytes) (string : Z) (replacement : bool) : option bytes :=
  valid ← w_utf8_drop m string;
  c ← chr m valid;
  s ← string_at m string;
  if c =? 0 then Some (s ++ [0]) else
  let size := u64 (zlen s + 1) in
  let i := valid - string in
  prefix ← load m string i;
  copy ← store (malloc_bytes size) 0 prefix;
  f ← filter_loop (length m) replacement m (Filter copy size i 0 valid);
  store (f_copy f) (f_i f) [0].

End macros.

(** * The specification: RFC 3629 *)

(** A Unicode scalar value: a code point that is not a surrogate. *)
Definition scalar (cp : Z) : Prop :=
  0 <= cp < 0xD800 \/ 0xE000 <= cp <= 0x10FFFF.
#[export] Instance scalar_dec cp : Decision (scalar cp) := ltac:(unfold scalar; apply _).

Definition encode (cp : Z) : bytes :=
  if cp <? 0x80 then [cp]
  else if cp <? 0x800 then [0xC0 + cp / 64; 0x80 + cp mod 64]
  else if cp <? 0x10000 then
    [0xE0 + cp / 4096; 0x80 + cp / 64 mod 64; 0x80 + cp mod 64]
  else [0xF0 + cp / 262144; 0x80 + cp / 4096 mod 64; 0x80 + cp / 64 mod 64;
        0x80 + cp mod 64].

Definition encode_all (cps : list Z) : bytes := concat (map encode cps).

(** The byte strings that are UTF-8. *)
Definition utf8 (s : bytes) : Prop :=
  exists cps, Forall scalar cps /\ s = encode_all cps.

(** No character starts at the front of [s]. *)
Definition no_char (s : bytes) : Prop :=
  forall cp k, scalar cp -> s <> encode cp ++ k.

(** [s] without its invalid bytes, each replaced by U+FFFD if [repl]. *)
Inductive cleaned (repl : bool) : bytes -> bytes -> Prop :=
  | cleaned_nil : cleaned repl [] []
  | cleaned_char cp s o :
      scalar cp -> cleaned repl s o -> cleaned repl (encode cp ++ s) (encode cp ++ o)
  | cleaned_bad x s o :
      no_char (x :: s) -> cleaned repl s o ->
      cleaned repl (x :: s) ((if repl then encode 0xFFFD else []) ++ o).

(** A string in memory: at [i] are the non-zero bytes [s] and a terminator. *)
Definition string_in (m : bytes) (i : Z) (s : bytes) : Prop :=
  bytes_ok m /\
  exists pre post, m = pre ++ s ++ 0 :: post /\ i = zlen pre /\
    Forall (fun x => x <> 0) s.

(** * The macros on bytes *)

Lemma for_bytes (P : Z -> bool) a :
  forallb P (seqZ 0 256) = true -> 0 <= a < 256 -> P a = true.
Proof.
  intros H Ha. rewrite forallb_forall in H. apply H, list_elem_of_In, elem_of_seqZ. lia.
Qed.


Section byte_facts.
Variable sg : bool.

Lemma mask_fact mask v (lo hi : Z) a :
  forallb (fun a => Bool.eqb (Z.land (char_of sg a) mask =? v) ((lo <=? a) && (a <=? hi)))
    (seqZ 0 256) = true ->
  0 <= a < 256 -> (Z.land (char_of sg a) mask =? v) = (lo <=? a) && (a <=? hi).
Proof. intros H Ha. by apply eqb_prop, (for_bytes _ a H Ha). Qed.

Lemma lead1 a : 0 <= a < 256 -> (Z.land (char_of sg a) 0x80 =? 0) = (0 <=? a) && (a <=? 0x7F).
Proof. apply mask_fact. by destruct sg; vm_compute. Qed.
Lemma lead2 a : 0 <= a < 256 -> (Z.land (char_of sg a) 0xE0 =? 0xC0) = (0xC0 <=? a) && (a <=? 0xDF).
Proof. apply mask_fact. by destruct sg; vm_compute. Qed.
Lemma lead3 a : 0 <= a < 256 -> (Z.land (char_of sg a) 0xF0 =? 0xE0) = (0xE0 <=? a) && (a <=? 0xEF).
Proof. apply mask_fact. by destruct sg; vm_compute. Qed.
Lemma lead4 a : 0 <= a < 256 -> (Z.land (char_of sg a) 0xF8 =? 0xF0) = (0xF0 <=? a) && (a <=? 0xF7).
Proof. apply mask_fact. by destruct sg; vm_compute. Qed.
Lemma continuation a : 0 <= a < 256 -> (Z.land (char_of sg a) 0xC0 =? 0x80) = (0x80 <=? a) && (a <=? 0xBF).
Proof. apply mask_fact. by destruct sg; vm_compute. Qed.

Lemma char_of_eqb a k : 0 <= a < 256 -> 0 <= k < 256 -> (char_of sg a =? char_of sg k) = (a =? k).
Proof. unfold char_of. destruct sg; cbn; repeat case_match; lia. Qed.

Lemma char_of_zero a : 0 <= a < 256 -> (char_of sg a =? 0) = (a =? 0).
Proof. unfold char_of. destruct sg; cbn; repeat case_match; lia. Qed.

Lemma overlong2 a : 0xC0 <= a <= 0xDF -> (char_of sg 0xC2 <=? char_of sg a) = (0xC2 <=? a).
Proof. unfold char_of. destruct sg; cbn; repeat case_match; lia. Qed.
End byte_facts.

(** The length of the sequence at the front of a string: the table of
    well-formed byte sequences of the Unicode standard. *)
Definition tail (b : Z) : bool := (0x80 <=? b) && (b <=? 0xBF).
Definition two (a b : Z) : bool := (0xC2 <=? a) && (a <=? 0xDF) && tail b.
Definition three (a b c : Z) : bool :=
  (0xE0 <=? a) && (a <=? 0xEF) && tail b && tail c &&
  (negb (a =? 0xE0) || (0xA0 <=? b)) && (negb (a =? 0xED) || (b <? 0xA0)).
Definition four (a b c d : Z) : bool :=
  (0xF0 <=? a) && (a <=? 0xF4) && tail b && tail c && tail d &&
  (negb (a =? 0xF0) || (0x90 <=? b)) && (negb (a =? 0xF4) || (b <=? 0x8F)).

Definition char_len (s : bytes) : Z :=
  match s with
  | [] => 0
  | a :: s1 => if a <? 0x80 then 1 else
  match s1 with
  | [] => 0
  | b :: s2 => if two a b then 2 else
  match s2 with
  | [] => 0
  | c :: s3 => if three a b c then 3 else
  match s3 with
  | [] => 0
  | d :: _ => if four a b c d then 4 else 0
  end end end end.

Section memory.
Variable sg : bool.
Implicit Types pre u : bytes.

Lemma load1_at pre u i k :
  i = zlen pre + Z.of_nat k -> load1 (pre ++ u) i = u !! k.
Proof.
  intros ->. unfold load1. rewrite (proj2 (Z.leb_le _ _)) by zlia.
  unfold zlen. rewrite lookup_app_r by lia. f_equal. lia.
Qed.

Lemma masked_at pre u i k mask v a :
  i = zlen pre + Z.of_nat k -> u !! k = Some a ->
  masked sg (pre ++ u) i mask v = Some (Z.land (char_of sg a) mask =? v).
Proof. intros H E. unfold masked, chr. by rewrite (load1_at _ _ _ _ H), E. Qed.

Lemma chr_at pre u i k a :
  i = zlen pre + Z.of_nat k -> u !! k = Some a ->
  chr sg (pre ++ u) i = Some (char_of sg a).
Proof. intros H E. unfold chr. by rewrite (load1_at _ _ _ _ H), E. Qed.

Lemma uchr_at pre u i k a :
  i = zlen pre + Z.of_nat k -> u !! k = Some a -> uchr (pre ++ u) i = Some a.
Proof. intros H E. unfold uchr. by rewrite (load1_at _ _ _ _ H), E. Qed.

Lemma unless_lead_at pre u lead test a b :
  0 <= lead < 256 -> 0 <= a < 256 -> u !! 0%nat = Some a -> u !! 1%nat = Some b ->
  unless_lead sg (pre ++ u) (zlen pre) lead test = Some (negb (a =? lead) || test b).
Proof.
  intros Hl Ha E0 E1. unfold unless_lead.
  rewrite (chr_at _ _ _ 0 a) by (done || lia). cbn [mbind option_bind].
  rewrite char_of_eqb by lia. destruct (a =? lead); cbn [negb orb]; [|done].
  by rewrite (uchr_at _ _ _ 1 b) by (done || lia).
Qed.

Lemma and_then_some x b : and_then (Some x) b = if x then b else Some false.
Proof. done. Qed.

Lemma valid_1_at pre a u :
  0 <= a < 256 -> valid_1 sg (pre ++ a :: u) (zlen pre) = Some (a <? 0x80).
Proof.
  intros Ha. unfold valid_1. rewrite (masked_at _ _ _ 0 _ _ a) by (done || lia).
  rewrite lead1 by lia. f_equal. lia.
Qed.

Lemma valid_2_at pre a b u :
  0 <= a < 256 -> 0 <= b < 256 ->
  valid_2 sg (pre ++ a :: b :: u) (zlen pre) = Some (two a b).
Proof.
  intros Ha Hb. unfold valid_2.
  rewrite (masked_at _ _ _ 0 _ _ a), lead2, and_then_some by (done || lia).
  destruct (_ && _) eqn:E; [|unfold two; f_equal; lia].
  rewrite (chr_at _ _ _ 0 a) by (done || lia). cbn [mbind option_bind].
  rewrite overlong2, and_then_some by lia.
  rewrite (masked_at _ _ _ 1 _ _ b), continuation by (done || lia).
  fold (tail b). unfold two. destruct (0xC2 <=? a); f_equal; lia.
Qed.

(** The bytes of a sequence are read one at a time: a byte that is not a
    continuation ends the test, and the next is not touched. *)
Ltac read_byte k a :=
  rewrite (masked_at _ _ _ k _ _ a) by (done || lia);
  first [rewrite lead3 by lia | rewrite lead4 by lia | rewrite continuation by lia];
  rewrite and_then_some.

Lemma valid_3_at pre a b u :
  0 <= a < 256 -> 0 <= b < 256 -> Forall byte_ok u -> (tail b -> u <> []) ->
  valid_3 sg (pre ++ a :: b :: u) (zlen pre)
  = Some (match u with c :: _ => three a b c | [] => false end).
Proof.
  intros Ha Hb Hu Hne. unfold valid_3, three. read_byte 0%nat a.
  destruct (_ && _) eqn:Ea; [|by destruct u].
  read_byte 1%nat b. fold (tail b).
  destruct (tail b) eqn:Eb; [|by destruct u].
  destruct u as [|c u]; [by destruct Hne|]. apply Forall_cons in Hu as [Hc _].
  unfold fits in Hc. read_byte 2%nat c. fold (tail c).
  destruct (tail c) eqn:Ec; [|done]. unfold tail in Eb.
  rewrite !(unless_lead_at _ _ _ _ a b), !and_then_some by (done || lia).
  repeat case_match; f_equal; lia.
Qed.

Lemma valid_4_at pre a b u :
  0 <= a < 256 -> 0 <= b < 256 -> Forall byte_ok u -> (tail b -> u <> []) ->
  (tail b -> forall c, head u = Some c -> tail c -> (1 < length u)%nat) ->
  valid_4 sg (pre ++ a :: b :: u) (zlen pre)
  = Some (match u with c :: d :: _ => four a b c d | _ => false end).
Proof.
  intros Ha Hb Hu Hne Hne2. unfold valid_4, four. read_byte 0%nat a.
  rewrite (uchr_at _ _ _ 0 a) by (done || lia). cbn [mbind option_bind].
  rewrite and_then_some.
  destruct ((240 <=? a) && (a <=? 247)) eqn:Ea; [|destruct u as [|? [|]]; f_equal; lia].
  destruct (a <=? 244) eqn:Ea'; [|destruct u as [|? [|]]; f_equal; lia].
  read_byte 1%nat b. fold (tail b).
  destruct (tail b) eqn:Eb; [|destruct u as [|? [|]]; f_equal; lia].
  destruct u as [|c u]; [by destruct Hne|]. apply Forall_cons in Hu as [Hc Hu].
  unfold fits in Hc. read_byte 2%nat c. fold (tail c).
  destruct (tail c) eqn:Ec; [|destruct u; f_equal; lia].
  destruct u as [|d u]; [specialize (Hne2 I c eq_refl (Is_true_eq_left _ Ec)); cbn in Hne2; lia|].
  apply Forall_cons in Hu as [Hd _]. unfold fits in Hd. read_byte 3%nat d. fold (tail d).
  destruct (tail d) eqn:Ed; [|f_equal; lia].
  rewrite !(unless_lead_at _ _ _ _ a b), !and_then_some by (done || lia).
  repeat case_match; f_equal; lia.
Qed.

(** The cascade finds the sequence at the front of the string. *)
Lemma sequence_at_string pre s post :
  s <> [] -> Forall (fun x => 0 < x < 256) s -> bytes_ok post ->
  sequence_at sg (pre ++ s ++ 0 :: post) (zlen pre) = Some (char_len s).
Proof.
  intros Hne Hs Hp. unfold sequence_at.
  destruct s as [|a s]; [done|]. apply Forall_cons in Hs as [Ha Hs]. cbn [app char_len].
  rewrite valid_1_at by lia. cbn [mbind option_bind].
  destruct (a <? 128); [done|].
  assert (exists b u, s ++ 0 :: post = b :: u /\ 0 <= b < 256 /\ Forall byte_ok u /\
    (tail b -> u <> []) /\
    (tail b -> forall c, head u = Some c -> tail c -> (1 < length u)%nat) /\
    match s with
    | [] => 0
    | b :: s2 => if two a b then 2 else
      match s2 with [] => 0 | c :: s3 => if three a b c then 3 else
      match s3 with [] => 0 | d :: _ => if four a b c d then 4 else 0 end end
    end =
    (if two a b then 2 else match u with [] => 0 | c :: u3 => if three a b c then 3 else
      match u3 with [] => 0 | d :: _ => if four a b c d then 4 else 0 end end))
    as (b & u & -> & Hb & Hu & Hu1 & Hu2 & ->).
  { destruct s as [|b [|c [|d s]]]; cbn [app].
    1: exists 0, post. 2: exists b, (0 :: post). 3: exists b, (c :: 0 :: post).
    4: exists b, (c :: d :: s ++ 0 :: post).
    all: decompose_Forall_hyps; split_and!; try done; try lia.
    all: try (repeat (apply Forall_cons; split); unfold fits; lia || done).
    all: try (intros _ ? [= <-]; cbn; done || lia).
    4: { repeat (apply Forall_cons; split); unfold fits; try lia.
         apply Forall_app_2; [|by apply Forall_cons; split].
         eapply Forall_impl; [done|]. unfold fits. cbn. lia. }
    all: unfold two, three, four; change (tail 0) with false;
         rewrite ?andb_false_r; cbn [andb]; repeat case_match; done. }
  rewrite valid_2_at by lia. cbn [mbind option_bind].
  destruct (two a b); [done|].
  rewrite valid_3_at, valid_4_at by (done || lia). cbn [mbind option_bind].
  destruct u as [|c [|d u]]; cbn; repeat case_match; done.
Qed.
End memory.

(** * Sequences and characters *)

#[local] Ltac Zify.zify_post_hook ::= Z.div_mod_to_equations.

Abbreviation text := (Forall (fun x => 0 < x < 256)).

Ltac encode_cases cp :=
  unfold encode; destruct (Z.ltb_spec cp 0x80);
  [|destruct (Z.ltb_spec cp 0x800); [|destruct (Z.ltb_spec cp 0x10000)]].

(** Decide a boolean test by arithmetic. *)
Ltac test b v := replace b with v by (symmetry; unfold two, three, four, tail; lia).

Lemma char_len_encode cp k :
  scalar cp -> char_len (encode cp ++ k) = zlen (encode cp).
Proof.
  unfold scalar. intros H. encode_cases cp; cbn [app char_len].
  - by test (cp <? 128) true.
  - test (192 + cp / 64 <? 128) false.
    by test (two (192 + cp / 64) (128 + cp mod 64)) true.
  - test (224 + cp / 4096 <? 128) false.
    test (two (224 + cp / 4096) (128 + cp / 64 mod 64)) false.
    by test (three (224 + cp / 4096) (128 + cp / 64 mod 64) (128 + cp mod 64)) true.
  - test (240 + cp / 262144 <? 128) false.
    test (two (240 + cp / 262144) (128 + cp / 4096 mod 64)) false.
    test (three (240 + cp / 262144) (128 + cp / 4096 mod 64) (128 + cp / 64 mod 64)) false.
    by test (four (240 + cp / 262144) (128 + cp / 4096 mod 64) (128 + cp / 64 mod 64)
      (128 + cp mod 64)) true.
Qed.

(** The code point a sequence encodes. *)
Lemma encode_1 a : 0 <= a < 0x80 -> scalar a /\ encode a = [a].
Proof. intros H. split; [unfold scalar; lia|]. encode_cases a; done || lia. Qed.

Lemma encode_2 a b : two a b = true ->
  exists cp, scalar cp /\ encode cp = [a; b].
Proof.
  unfold two, tail. intros H. exists ((a - 0xC0) * 64 + (b - 0x80)).
  split; [unfold scalar; lia|]. encode_cases ((a - 0xC0) * 64 + (b - 0x80)); try lia.
  repeat (f_equal; try lia).
Qed.

Lemma encode_3 a b c : three a b c = true ->
  exists cp, scalar cp /\ encode cp = [a; b; c].
Proof.
  unfold three, tail. intros H. set (cp := (a - 0xE0) * 4096 + (b - 0x80) * 64 + (c - 0x80)).
  exists cp. assert (scalar cp) as Hs by (unfold scalar; lia). split; [done|].
  assert (cp / 4096 = a - 0xE0 /\ cp / 64 mod 64 = b - 0x80 /\ cp mod 64 = c - 0x80)
    as (Ea & Eb & Ec) by lia.
  encode_cases cp; try lia. rewrite Ea, Eb, Ec. repeat (f_equal; try lia).
Qed.

Lemma encode_4 a b c d : four a b c d = true ->
  exists cp, scalar cp /\ encode cp = [a; b; c; d].
Proof.
  unfold four, tail. intros H.
  set (cp := (a - 0xF0) * 262144 + (b - 0x80) * 4096 + (c - 0x80) * 64 + (d - 0x80)).
  exists cp. assert (scalar cp) as Hs by (unfold scalar; lia). split; [done|].
  assert (cp / 262144 = a - 0xF0 /\ cp / 4096 mod 64 = b - 0x80 /\
    cp / 64 mod 64 = c - 0x80 /\ cp mod 64 = d - 0x80) as (Ea & Eb & Ec & Ed) by lia.
  encode_cases cp; try lia. rewrite Ea, Eb, Ec, Ed. repeat (f_equal; try lia).
Qed.

Lemma char_len_cases s :
  text s ->
  (char_len s = 0 /\ no_char s) \/
  exists cp k, scalar cp /\ s = encode cp ++ k /\ char_len s = zlen (encode cp).
Proof.
  intros Hs. destruct (decide (char_len s = 0)) as [E|E].
  - left. split; [done|]. intros cp k Hcp ->. rewrite char_len_encode in E by done.
    revert E. encode_cases cp; zlia.
  - right. assert (forall cp k, s = encode cp ++ k -> scalar cp ->
      exists cp k, scalar cp /\ s = encode cp ++ k /\ char_len s = zlen (encode cp)) as K.
    { intros cp k -> Hcp. exists cp, k. by rewrite char_len_encode. }
    destruct s as [|a s]; [done|]. cbn [char_len] in E.
    destruct (Z.ltb_spec a 0x80).
    { apply Forall_cons in Hs as [Ha _]. destruct (encode_1 a) as [? E1]; [lia|].
      apply (K a s); [by rewrite E1|done]. }
    destruct s as [|b s]; [done|]. destruct (two a b) eqn:E2.
    { apply encode_2 in E2 as (cp & ? & E2). apply (K cp s); [by rewrite E2|done]. }
    destruct s as [|c s]; [done|]. destruct (three a b c) eqn:E3.
    { apply encode_3 in E3 as (cp & ? & E3). apply (K cp s); [by rewrite E3|done]. }
    destruct s as [|d s]; [done|]. destruct (four a b c d) eqn:E4; [|done].
    apply encode_4 in E4 as (cp & ? & E4). apply (K cp s); [by rewrite E4|done].
Qed.

Lemma encode_inj cp cp' k k' :
  scalar cp -> scalar cp' -> encode cp ++ k = encode cp' ++ k' -> cp = cp' /\ k = k'.
Proof.
  intros H H' E. assert (zlen (encode cp) = zlen (encode cp')) as El.
  { by rewrite <- (char_len_encode cp k), <- (char_len_encode cp' k'), E. }
  unfold scalar in *. revert E El.
  encode_cases cp; encode_cases cp'; cbn [app]; intros E El; try (unfold zlen in El; cbn in El; lia).
  all: injection E; clear E El; intros; split; [lia|done].
Qed.

Lemma encode_all_cons cp cps : encode_all (cp :: cps) = encode cp ++ encode_all cps.
Proof. done. Qed.

Lemma encode_length cp : 1 <= zlen (encode cp) <= 4.
Proof. encode_cases cp; zlia. Qed.

Lemma no_char_nil : no_char [].
Proof. intros cp k _ E. pose proof (encode_length cp). apply (f_equal zlen) in E. zlia. Qed.

(** A valid string has no invalid remainder. *)
Lemma utf8_remainder cps rest :
  Forall scalar cps -> no_char rest -> utf8 (encode_all cps ++ rest) -> rest = [].
Proof.
  intros Hc Hr (cps' & Hc' & E). revert cps' Hc' E.
  induction Hc as [|cp cps Hcp Hc IH]; intros cps' Hc' E.
  - destruct cps' as [|cp' cps']; [done|]. apply Forall_cons in Hc' as [? _].
    rewrite encode_all_cons in E. by apply Hr in E.
  - rewrite encode_all_cons, <- app_assoc in E.
    destruct cps' as [|cp' cps'].
    { pose proof (encode_length cp). apply (f_equal zlen) in E. zlia. }
    apply Forall_cons in Hc' as [? ?].
    rewrite encode_all_cons in E. apply encode_inj in E as [_ E]; eauto.
Qed.

(** * The loops *)

Lemma string_text m i s : string_in m i s -> text s.
Proof.
  intros (Hm & pre & post & -> & _ & Hs). apply Forall_app in Hm as [_ Hm].
  apply Forall_app in Hm as [Hm _]. eapply Forall_impl; [apply Forall_and; split; [exact Hm|exact Hs]|].
  intros x. unfold fits. lia.
Qed.

Lemma string_in_suffix m i s k :
  string_in m i (s ++ k) -> string_in m (i + zlen s) k.
Proof.
  intros (Hm & pre & post & -> & -> & Hs). split; [done|].
  exists (pre ++ s), post. rewrite <- !app_assoc, zlen_app. by apply Forall_app in Hs as [_ ?].
Qed.

Section loops.
Variable sg : bool.

(** What a round sees: the terminator, an invalid byte, or a character. *)
Lemma round_nil m i : string_in m i [] -> chr sg m i = Some 0.
Proof.
  intros (Hm & pre & post & -> & -> & _). rewrite (chr_at sg _ _ _ 0 0) by (done || lia).
  by destruct sg.
Qed.

Lemma round_byte m i x s :
  string_in m i (x :: s) ->
  load1 m i = Some x /\ (exists c, chr sg m i = Some c /\ (c =? 0) = false) /\
  sequence_at sg m i = Some (char_len (x :: s)).
Proof.
  intros H. pose proof (string_text _ _ _ H) as Ht.
  destruct H as (Hm & pre & post & -> & -> & Hs).
  split_and!.
  - by rewrite (load1_at _ _ _ 0) by lia.
  - exists (char_of sg x). rewrite (chr_at sg _ _ _ 0 x) by (done || lia). split; [done|].
    apply Forall_cons in Ht as [? _]. rewrite char_of_zero; lia.
  - apply sequence_at_string; [done|done|].
    apply Forall_app in Hm as [_ Hm]. apply Forall_app in Hm as [_ Hm].
    by apply Forall_cons in Hm as [_ ?].
Qed.

Lemma string_cases m i s :
  string_in m i s ->
  s = [] \/ (exists x s', s = x :: s' /\ char_len s = 0 /\ no_char s) \/
  exists cp k, s = encode cp ++ k /\ scalar cp /\ char_len s = zlen (encode cp).
Proof.
  intros H%string_text. destruct s as [|x s]; [by left|right].
  destruct (char_len_cases _ H) as [[E N]|(cp & k & ? & ? & ?)]; [left|right]; eauto 6.
Qed.

(** [w_utf8_drop] passes over the characters and stops where none starts. *)
Lemma utf8_drop_spec fuel m i s :
  string_in m i s -> (length s < fuel)%nat ->
  exists cps rest, s = encode_all cps ++ rest /\ Forall scalar cps /\ no_char rest /\
    utf8_drop sg fuel m i = Some (i + zlen (encode_all cps)).
Proof.
  revert i s. induction fuel as [|fuel IH]; intros i s H Hf; [lia|]. cbn [utf8_drop].
  destruct (string_cases _ _ _ H) as [->|[(x & s' & -> & E & N)|(cp & k & -> & Hcp & E)]].
  - exists [], []. rewrite (round_nil _ _ H). cbn. rewrite Z.add_0_r.
    by split_and!; [|constructor|apply no_char_nil|].
  - exists [], (x :: s'). destruct (round_byte _ _ _ _ H) as (_ & (c & -> & Hc) & Hq).
    cbn [mbind option_bind]. rewrite Hc, Hq, E. cbn. rewrite Z.add_0_r. by split_and!.
  - pose proof (encode_length cp) as L. rewrite length_app in Hf.
    destruct (encode cp ++ k) as [|x s'] eqn:Es; [apply (f_equal zlen) in Es; zlia|].
    destruct (round_byte _ _ _ _ H) as (_ & (c & -> & Hc) & Hq). cbn [mbind option_bind].
    rewrite Hc, Hq, E. cbn [mbind option_bind].
    rewrite (proj2 (Z.eqb_neq _ _)) by lia. rewrite <- Es in *.
    apply string_in_suffix in H. destruct (IH _ _ H) as (cps & rest & -> & Hcs & Hr & ->).
    { unfold zlen in L. lia. }
    exists (cp :: cps), rest. rewrite encode_all_cons, <- app_assoc, zlen_app.
    split_and!; [done|by constructor|done|]. f_equal. lia.
Qed.

Lemma w_utf8_drop_spec m i s :
  string_in m i s ->
  exists cps rest, s = encode_all cps ++ rest /\ Forall scalar cps /\ no_char rest /\
    w_utf8_drop sg m i = Some (i + zlen (encode_all cps)).
Proof.
  intros H. apply utf8_drop_spec; [done|]. destruct H as (_ & pre & post & -> & _).
  rewrite !length_app. cbn. lia.
Qed.
End loops.

(** C16: [w_utf8_valid] decides UTF-8 as RFC 3629 defines it: for every string in
    memory it answers, without reading past the terminator, and it answers true
    exactly for the strings that are encodings of Unicode scalar values (no
    overlong form, no surrogate, nothing above U+10FFFF), on platforms with a
    signed and with an unsigned [char]. *)
Theorem utf8_valid_iff_rfc3629 (sg : bool) m i s :
  string_in m i s ->
  exists v, w_utf8_valid sg m i = Some v /\ (v = true <-> utf8 s).
Proof.
  intros H. unfold w_utf8_valid.
  destruct (w_utf8_drop_spec sg _ _ _ H) as (cps & rest & -> & Hc & Hr & ->).
  cbn [mbind option_bind]. apply string_in_suffix in H as Hrest.
  destruct rest as [|x rest].
  - rewrite (round_nil _ _ _ Hrest). exists true. split; [done|]. split; [|done].
    intros _. exists cps. by rewrite app_nil_r.
  - destruct (round_byte sg _ _ _ _ Hrest) as (_ & (c & -> & E) & _). cbn.
    exists false. rewrite E. split; [done|]. split; [done|].
    intros U. by apply utf8_remainder in U.
Qed.

Lemma utf8_valid_iff_rfc3629_witness :
  let m := [0xC3; 0xA9; 0xED; 0xA0; 0x80; 0] in
  (exists v, w_utf8_valid true m 0 = Some v /\
     (v = true <-> utf8 [0xC3; 0xA9; 0xED; 0xA0; 0x80])) /\
  w_utf8_valid true m 0 = Some false /\ w_utf8_valid false [0xE2; 0x82; 0xAC; 0] 0 = Some true.
Proof.
  split; [|split; by vm_compute].
  apply (utf8_valid_iff_rfc3629 true). split; [by apply (bool_decide_unpack _); vm_compute|].
  exists [], []. split; [done|]. split; [done|]. by apply (bool_decide_unpack _); vm_compute.
Defined.

(** * The filter *)

Lemma encode_utf8 cps : Forall scalar cps -> utf8 (encode_all cps).
Proof. by exists cps. Qed.

Lemma utf8_char cp s : scalar cp -> utf8 s -> utf8 (encode cp ++ s).
Proof. intros H (cps & Hc & ->). exists (cp :: cps). split; [by constructor|done]. Qed.

Lemma cleaned_utf8 repl s o : cleaned repl s o -> utf8 o.
Proof.
  induction 1 as [|cp s o Hcp _ IH|x s o _ _ IH]; [by exists []|by apply utf8_char|].
  destruct repl; [|done]. apply utf8_char; [|done]. by apply (bool_decide_unpack _); vm_compute.
Qed.

Lemma cleaned_id repl s o : cleaned repl s o -> utf8 s -> o = s.
Proof.
  induction 1 as [|cp s o Hcp _ IH|x s o N _ IH]; intros (cps & Hc & E); [done|..].
  - destruct cps as [|cp' cps].
    { pose proof (encode_length cp). apply (f_equal zlen) in E. zlia. }
    rewrite encode_all_cons in E. apply Forall_cons in Hc as [? ?].
    apply encode_inj in E as [_ ->]; [|done..]. f_equal. by apply IH, encode_utf8.
  - destruct cps as [|cp' cps]; [done|]. apply Forall_cons in Hc as [? _].
    by apply N in E.
Qed.

Lemma cleaned_prefix repl cps s o :
  Forall scalar cps -> cleaned repl s o ->
  cleaned repl (encode_all cps ++ s) (encode_all cps ++ o).
Proof.
  intros Hc H. induction Hc; [done|]. rewrite encode_all_cons, <- !app_assoc.
  by constructor.
Qed.

Lemma c_string_app s post :
  Forall (fun x => x <> 0) s -> c_string (s ++ 0 :: post) = Some s.
Proof.
  induction 1 as [|x s Hx Hs IH]; [done|]. cbn.
  rewrite (proj2 (Z.eqb_neq _ _)) by done. by rewrite IH.
Qed.

Lemma string_at_spec m i s : string_in m i s -> string_at m i = Some s.
Proof.
  intros (_ & pre & post & -> & -> & Hs). unfold string_at.
  rewrite !(proj2 (Z.leb_le _ _)) by zlia. cbn [andb].
  rewrite to_nat_zlen, drop_app_length.
  by apply c_string_app.
Qed.

Section filter.
Variable sg : bool.
Variable fresh : nat -> Z.
Variable m : bytes.

Lemma zlen_malloc_bytes n : 0 <= n -> zlen (malloc_bytes fresh n) = n.
Proof. intros. unfold zlen, malloc_bytes. rewrite length_map, length_seq. lia. Qed.

Lemma realloc_grows old n :
  zlen old <= n ->
  exists junk, realloc_bytes fresh old n = old ++ junk /\ zlen (old ++ junk) = n.
Proof.
  intros H. unfold realloc_bytes. rewrite take_ge by (unfold zlen in H; lia).
  eexists. split; [done|]. rewrite zlen_app, zlen_drop_nat.
  pose proof (zlen_nonneg old). rewrite zlen_malloc_bytes by lia. unfold zlen in *. lia.
Qed.

(** The state of the loop: [o] has been written, [s] remains, and the room
    left holds the rest, its terminator and what [repl] promises. *)
Definition filling (f : filter) (o s : bytes) : Prop :=
  (exists junk, f_copy f = o ++ junk) /\ f_i f = zlen o /\
  zlen (f_copy f) = f_size f /\ string_in m (f_valid f) s /\ 0 <= f_repl f /\
  zlen o + zlen s + 1 + f_repl f <= f_size f /\
  f_size f + REPLACEMENT_INC * zlen s < 2 ^ 64.

Lemma put_char_spec c f o junk :
  f_copy f = o ++ junk -> f_i f = zlen o -> 0 < zlen junk -> zlen o + 1 < 2 ^ 64 ->
  put_char c f =
    Some (f <| f_copy := (o ++ [c]) ++ drop 1 junk |> <| f_i := zlen (o ++ [c]) |>).
Proof.
  intros Ec Ei Hj Ho. unfold put_char. rewrite Ec, store_at by zlia.
  cbn [mbind option_bind]. rewrite Ei, uwrap_small by (unfold fits; zlia).
  by rewrite zlen_app.
Qed.

Lemma copy_chars_spec c f o s :
  filling f o (c ++ s) ->
  exists f', copy_chars (length c) m f = Some f' /\ filling f' (o ++ c) s.
Proof.
  revert f o. induction c as [|x c IH]; intros f o H; cbn [length copy_chars].
  { exists f. by rewrite app_nil_r. }
  destruct H as ([junk Ec] & Ei & Es & Hs & Hr & Hroom & Hw). cbn [app] in *.
  rewrite (proj1 (round_byte sg _ _ _ _ Hs)). cbn [mbind option_bind].
  pose proof (zlen_nonneg s). unfold REPLACEMENT_INC in Hw.
  assert (zlen junk = f_size f - zlen o) as Hj by (rewrite <- Es, Ec; zlia).
  rewrite (put_char_spec _ _ o junk) by (done || zlia). cbn [mbind option_bind].
  replace (o ++ x :: c) with ((o ++ [x]) ++ c) by (by rewrite <- app_assoc). apply IH. apply (string_in_suffix _ _ [x]) in Hs.
  split_and!; cbn; [by eexists|done| |exact Hs|done|zlia|unfold REPLACEMENT_INC; zlia].
  rewrite Ec in Es. zlia.
Qed.

Lemma put_replacement_spec f o x s :
  filling f o (x :: s) ->
  exists f', put_replacement fresh f = Some f' /\
    filling (f' <| f_valid := f_valid f' + 1 |>) (o ++ encode 0xFFFD) s.
Proof.
  intros ([junk Ec] & Ei & Es & Hs & Hr & Hroom & Hw).
  assert (exists f1 junk1, f_copy f1 = o ++ junk1 /\ f_i f1 = zlen o /\
    zlen (f_copy f1) = f_size f1 /\ f_valid f1 = f_valid f /\ 3 <= f_repl f1 /\
    zlen o + zlen (x :: s) + 1 + f_repl f1 <= f_size f1 /\
    f_size f1 + REPLACEMENT_INC * zlen s < 2 ^ 64 /\
    f1 = if f_repl f <? 3
      then f <| f_size := u64 (f_size f + REPLACEMENT_INC) |>
           <| f_copy := realloc_bytes fresh (f_copy f) (u64 (f_size f + REPLACEMENT_INC)) |>
           <| f_repl := u64 (f_repl f + REPLACEMENT_INC) |>
      else f)
    as (f1 & junk1 & Ec1 & Ei1 & Es1 & Ev1 & Hr1 & Hroom1 & Hw1 & E1).
  { clear Hs. unfold REPLACEMENT_INC in *. destruct (Z.ltb_spec (f_repl f) 3).
    - rewrite !uwrap_small by (unfold fits; zlia).
      destruct (realloc_grows (f_copy f) (f_size f + 4096)) as (j & Ej & Lj); [lia|].
      eexists _, (junk ++ j). split_and!; [| | | | | | |done]; cbn.
      + rewrite Ej, Ec. by rewrite app_assoc.
      + done.
      + by rewrite Ej.
      + done.
      + lia.
      + zlia.
      + zlia.
    - exists f, junk. split_and!; try done; zlia. }
  unfold put_replacement. rewrite <- E1. clear E1 Ec Ei Es Hroom Hw Hr.
  pose proof (zlen_nonneg s). unfold REPLACEMENT_INC in Hw1.
  assert (zlen junk1 = f_size f1 - zlen o) as Hj by (rewrite <- Es1, Ec1; zlia).
  rewrite (put_char_spec _ _ o junk1) by (done || zlia). cbn [mbind option_bind].
  erewrite (put_char_spec _ _ (o ++ [0xEF])) by (done || zlia). cbn [mbind option_bind].
  erewrite (put_char_spec _ _ ((o ++ [0xEF]) ++ [0xBF])) by (done || zlia).
  cbn [mbind option_bind]. eexists. split; [done|].
  apply (string_in_suffix _ _ [x]) in Hs. rewrite uwrap_small by (unfold fits; cbn; zlia).
  change (encode 0xFFFD) with [0xEF; 0xBF; 0xBD]. unfold filling. cbn [f_copy f_i f_size f_valid f_repl update].
  rewrite Ec1 in Es1. rewrite Ev1.
  split_and!; [|zlia|zlia|exact Hs|lia|zlia|unfold REPLACEMENT_INC; zlia].
  eexists. rewrite <- !app_assoc. done.
Qed.

Lemma filter_loop_spec repl fuel f o s :
  filling f o s -> (length s < fuel)%nat ->
  exists f' o', filter_loop sg fresh fuel repl m f = Some f' /\
    filling f' (o ++ o') [] /\ cleaned repl s o'.
Proof.
  revert f o s. induction fuel as [|fuel IH]; intros f o s H Hf; [lia|]. cbn [filter_loop].
  assert (Hs : string_in m (f_valid f) s) by apply H.
  destruct (string_cases _ _ _ Hs) as [->|[(x & s' & -> & E & N)|(cp & k & -> & Hcp & E)]].
  - rewrite (round_nil sg _ _ Hs). cbn. exists f, []. rewrite app_nil_r.
    by split_and!; [| |constructor].
  - destruct (round_byte sg _ _ _ _ Hs) as (_ & (c & -> & Hc) & Hq).
    cbn [mbind option_bind]. rewrite Hc, Hq, E. cbn [mbind option_bind Z.eqb].
    assert (exists f', (f0 ← (if repl then put_replacement fresh f else Some f);
        Some (f0 <| f_valid := f_valid f0 + 1 |>)) = Some f' /\
        filling f' (o ++ if repl then encode 0xFFFD else []) s') as (f' & -> & H').
    { destruct repl.
      - destruct (put_replacement_spec _ _ _ _ H) as (f' & -> & H'). by eexists.
      - eexists. split; [done|]. rewrite app_nil_r.
        destruct H as (Ec & Ei & Es & _ & Hr & Hroom & Hw).
        apply (string_in_suffix _ _ [x]) in Hs.
        unfold filling, REPLACEMENT_INC in *. split_and!; cbn; done || zlia. }
    cbn [mbind option_bind]. destruct (IH _ _ _ H') as (f2 & o2 & -> & H2 & C2); [cbn in Hf; lia|].
    eexists _, _. split; [done|]. split; [by rewrite app_assoc|by constructor].
  - pose proof (encode_length cp) as L. rewrite length_app in Hf.
    destruct (copy_chars_spec _ _ _ _ H) as (f' & Ef & H').
    destruct (encode cp ++ k) as [|x s'] eqn:Es; [apply (f_equal zlen) in Es; zlia|].
    destruct (round_byte sg _ _ _ _ Hs) as (_ & (c & -> & Hc) & Hq). cbn [mbind option_bind].
    rewrite Hc, Hq, E. cbn [mbind option_bind].
    rewrite (proj2 (Z.eqb_neq _ _)) by lia. rewrite to_nat_zlen, Ef. cbn [mbind option_bind].
    destruct (IH _ _ _ H') as (f2 & o2 & -> & H2 & C2); [unfold zlen in L; lia|].
    rewrite <- Es. eexists _, _. split; [done|]. split; [by rewrite app_assoc|by constructor].
Qed.
End filter.

(** C17: [w_utf8_filter] returns, for every string in memory, a fresh block
    holding a terminated string that is UTF-8: its valid characters in order,
    each invalid byte left out or, with [replacement], replaced by U+FFFD, and
    a string that was valid comes back unchanged.  It reads only the string and
    writes only inside the block, the replacements having room because [repl]
    counts what each reallocation adds. *)
Theorem utf8_filter_cleans (sg : bool) fresh m i s replacement :
  string_in m i s -> 4098 * zlen m < 2 ^ 64 ->
  exists out rest, w_utf8_filter sg fresh m i replacement = Some (out ++ 0 :: rest) /\
    cleaned replacement s out /\ utf8 out /\ (utf8 s -> out = s).
Proof.
  intros H Hm.
  assert (exists out rest, w_utf8_filter sg fresh m i replacement = Some (out ++ 0 :: rest) /\
    cleaned replacement s out) as (out & rest & E & C).
  2: { exists out, rest. split_and!; [done|done|by eapply cleaned_utf8|].
       by eapply cleaned_id. }
  unfold w_utf8_filter.
  destruct (w_utf8_drop_spec sg _ _ _ H) as (cps & rest & -> & Hc & Hr & ->).
  rewrite (string_at_spec _ _ _ H). cbn [mbind option_bind].
  apply string_in_suffix in H as Hrest.
  assert (Hlen : zlen (encode_all cps ++ rest) < zlen m).
  { destruct H as (_ & pre & post & -> & _). zlia. }
  destruct rest as [|x rest].
  { rewrite (round_nil _ _ _ Hrest). exists (encode_all cps), [].
    rewrite app_nil_r. cbn. split; [done|].
    rewrite <- (app_nil_r (encode_all cps)). apply cleaned_prefix; [done|constructor]. }
  destruct (round_byte sg _ _ _ _ Hrest) as (_ & (c & -> & E) & _). cbn [mbind option_bind].
  rewrite E, uwrap_small by (unfold fits; zlia).
  replace (i + zlen (encode_all cps) - i) with (zlen (encode_all cps)) by lia.
  assert (load m i (zlen (encode_all cps)) = Some (encode_all cps)) as ->.
  { destruct H as (_ & pre & post & -> & -> & _).
    rewrite <- app_assoc. apply load_mid. }
  set (size := zlen (encode_all cps ++ x :: rest) + 1).
  assert (Hz : zlen (malloc_bytes fresh size) = size) by (apply zlen_malloc_bytes; unfold size; zlia).
  cbn [mbind option_bind].
  rewrite (store_seq [] (malloc_bytes fresh size)) by (rewrite Hz; unfold size; zlia).
  cbn [app mbind option_bind].
  destruct (filter_loop_spec sg fresh m replacement (length m)
    (Filter (encode_all cps ++ drop (length (encode_all cps)) (malloc_bytes fresh size))
       size (zlen (encode_all cps)) 0 (i + zlen (encode_all cps)))
    (encode_all cps) (x :: rest)) as (f' & o & -> & Hf & C).
  { unfold filling, REPLACEMENT_INC. cbn [f_copy f_i f_size f_valid f_repl].
    rewrite zlen_app, zlen_drop_nat, Hz. unfold size.
    split_and!; [by eexists|done|zlia|done|done|zlia|zlia]. }
  { clear - Hlen. unfold zlen in Hlen. rewrite length_app in Hlen. lia. }
  destruct Hf as ([junk Ec] & Ei & Es & _ & Hr0 & Hroom & _). cbn [mbind option_bind].
  rewrite Ec in *.
  assert (0 < zlen junk) by zlia.
  rewrite (store_at _ _ _ [0]) by (done || zlia).
  eexists _, _. rewrite <- (app_assoc _ [0]). split; [done|]. by apply cleaned_prefix.
Qed.

Lemma utf8_filter_cleans_witness :
  let m := [0x61; 0xC0; 0xC3; 0xA9; 0] in
  (exists out rest, w_utf8_filter true (fun _ => 7) m 0 true = Some (out ++ 0 :: rest) /\
     cleaned true [0x61; 0xC0; 0xC3; 0xA9] out /\ utf8 out /\
     (utf8 [0x61; 0xC0; 0xC3; 0xA9] -> out = [0x61; 0xC0; 0xC3; 0xA9])) /\
  take 7 <$> w_utf8_filter true (fun _ => 7) m 0 true
    = Some [0x61; 0xEF; 0xBF; 0xBD; 0xC3; 0xA9; 0] /\
  w_utf8_filter true (fun _ => 7) m 0 false = Some [0x61; 0xC3; 0xA9; 0; 7].
Proof.
  split; [|split; by vm_compute].
  apply (utf8_filter_cleans true); [|by vm_compute].
  split; [by apply (bool_decide_unpack _); vm_compute|].
  exists [], []. split; [done|]. split; [done|]. by apply (bool_decide_unpack _); vm_compute.
Defined.
