(* ===== verification/Base64.v ===== *)
(** Base64, agents/shared/b64.c: encoding a block of memory, decoding a string.  A
    pointer to memory is the bytes from there to the end of its object; [None] is an
    access outside it, and a null result is [Some None].  The character tests compare
    with ASCII letters, which no byte above 127 passes whether [char] is signed or
    not, so a [char] is its byte. *)
From S2P Require Import Prelude Utf8.
#[local] Open Scope Z_scope.

(** * Characters *)

Definition encode (u : Z) : Z :=
  if u <? 26 then 65 + u
  else if u <? 52 then 97 + (u - 26)
  else if u <? 62 then 48 + (u - 52)
  else if u =? 62 then 43 else 47.

Definition decode (c : Z) : Z :=
  if (65 <=? c) && (c <=? 90) then c - 65
  else if (97 <=? c) && (c <=? 122) then c - 97 + 26
  else if (48 <=? c) && (c <=? 57) then c - 48 + 52
  else if c =? 43 then 62 else 63.

Definition is_base64 (c : Z) : bool :=
  ((65 <=? c) && (c <=? 90)) || ((97 <=? c) && (c <=? 122)) ||
  ((48 <=? c) && (c <=? 57)) || (c =? 43) || (c =? 47) || (c =? 61).

Definition PAD : Z := 61.

(** * Encoding *)

(** The four characters of a round of the loop. *)
Definition encode_group (src : bytes) (size i : Z) : option bytes :=
  b1 ← load1 src i;
  b2 ← (if i + 1 <? size then load1 src (i + 1) else Some 0);
  b3 ← (if i + 2 <? size then load1 src (i + 2) else Some 0);
  let b4 := Z.shiftr b1 2 in
  let b5 := u8 (Z.lor (Z.shiftl (Z.land b1 3) 4) (Z.shiftr b2 4)) in
  let b6 := u8 (Z.lor (Z.shiftl (Z.land b2 15) 2) (Z.shiftr b3 6)) in
  let b7 := Z.land b3 63 in
  Some [encode b4; encode b5;
        if i + 1 <? size then encode b6 else PAD;
        if i + 2 <? size then encode b7 else PAD].

Fixpoint encode_loop (fuel : nat) (src : bytes) (size i : Z) (out : bytes) (p : Z)
  : option bytes :=
  match fuel with
  | O => None
  | S k =>
      if i <? size then
        group ← encode_group src size i;
        out ← store out p group;
        encode_loop k src size (i + 3) out (p + 4)
      else Some out
  end.

(** [src] is [None] for a null pointer; [calloc]: does the allocation succeed? *)
Definition encode_base64 (calloc : bool) (size : Z) (src : option bytes)
  : option (option bytes) :=
  match src with
  | None => Some None
  | Some src =>
      size ← (if size =? 0 then s ← c_string src; Some (zlen s) else Some size);
      if 2 ^ 31 <=? size * 4 then None else (* the multiplication is on int *)
      if negb calloc then Some None else
      out ← encode_loop (S (Z.to_nat size)) src size 0
              (replicate (Z.to_nat (size * 4 / 3 + 4)) 0) 0;
      Some (Some out)
  end.

(** * Decoding *)

(** The characters of [src] that are base64, in [buf]; the result is their number. *)
Fixpoint keep_base64 (fuel : nat) (src : bytes) (k : Z) (buf : bytes) (l : Z)
  : option (bytes * Z) :=
  match fuel with
  | O => None
  | S f =>
      c ← load1 src k;
      if c =? 0 then Some (buf, l) else
      if is_base64 c then buf ← store buf l [c]; keep_base64 f src (k + 1) buf (l + 1)
      else keep_base64 f src (k + 1) buf l
  end.

(** What a round of the loop writes. *)
Definition decode_group (buf : bytes) (l k : Z) : option bytes :=
  c1 ← load1 buf k;
  c2 ← (if k + 1 <? l then load1 buf (k + 1) else Some 65);
  c3 ← (if k + 2 <? l then load1 buf (k + 2) else Some 65);
  c4 ← (if k + 3 <? l then load1 buf (k + 3) else Some 65);
  let b1 := decode c1 in let b2 := decode c2 in
  let b3 := decode c3 in let b4 := decode c4 in
  Some ([u8 (Z.lor (Z.shiftl b1 2) (Z.shiftr b2 4))] ++
        (if negb (c3 =? PAD)
         then [u8 (Z.lor (Z.shiftl (Z.land b2 15) 4) (Z.shiftr b3 2))] else []) ++
        (if negb (c4 =? PAD)
         then [u8 (Z.lor (Z.shiftl (Z.land b3 3) 6) b4)] else [])).

Fixpoint decode_loop (fuel : nat) (buf : bytes) (l k : Z) (dest : bytes) (p : Z)
  : option bytes :=
  match fuel with
  | O => None
  | S f =>
      if k <? l then
        group ← decode_group buf l k;
        dest ← store dest p group;
        decode_loop f buf l (k + 4) dest (p + zlen group)
      else Some dest
  end.

(** [calloc], [malloc]: do the allocations succeed?  [fresh] is what [malloc]'s block
    holds. *)
Definition decode_base64 (calloc malloc : bool) (fresh : nat -> Z) (src : option bytes)
  : option (option bytes) :=
  match src with
  | None => Some None
  | Some src =>
      c ← load1 src 0;
      if c =? 0 then Some None else
      s ← c_string src;
      let l := zlen s + 1 in
      if negb calloc || negb malloc then Some None else
      '(buf, l') ← keep_base64 (length src) src 0 (malloc_bytes fresh l) 0;
      dest ← decode_loop (length src) buf l' 0 (replicate (Z.to_nat (l + 13)) 0) 0;
      Some (Some dest)
  end.

(** * The encoding as a function of the bytes *)

Definition sextets (a b c : Z) : Z * Z * Z * Z :=
  (Z.shiftr a 2, u8 (Z.lor (Z.shiftl (Z.land a 3) 4) (Z.shiftr b 4)),
   u8 (Z.lor (Z.shiftl (Z.land b 15) 2) (Z.shiftr c 6)), Z.land c 63).

Fixpoint base64 (s : bytes) : bytes :=
  match s with
  | [] => []
  | [a] => let '(w, x, _, _) := sextets a 0 0 in [encode w; encode x; PAD; PAD]
  | [a; b] => let '(w, x, y, _) := sextets a b 0 in [encode w; encode x; encode y; PAD]
  | a :: b :: c :: s =>
      let '(w, x, y, z) := sextets a b c in
      [encode w; encode x; encode y; encode z] ++ base64 s
  end.

(** Induction by groups of three. *)
Lemma groups_ind (P : bytes -> Prop) :
  P [] -> (forall a, P [a]) -> (forall a b, P [a; b]) ->
  (forall a b c s, P s -> P (a :: b :: c :: s)) -> forall s, P s.
Proof.
  intros H0 H1 H2 H3. fix IH 1. intros [|a [|b [|c s]]]; [done|apply H1|apply H2|].
  apply H3, IH.
Qed.

#[local] Ltac Zify.zify_post_hook ::= Z.div_mod_to_equations.

Lemma land_mask a n m : 0 <= n -> m = 2 ^ n - 1 -> Z.land a m = a mod 2 ^ n.
Proof. intros Hn ->. rewrite Z.sub_1_r, <- Z.ones_equiv. by apply Z.land_ones. Qed.

Lemma sextets_value a b c :
  byte_ok a -> byte_ok b -> byte_ok c ->
  sextets a b c = (a / 4, a mod 4 * 16 + b / 16, b mod 16 * 4 + c / 64, c mod 64).
Proof.
  intros Ha Hb Hc. unfold fits in *. unfold sextets. rewrite !Z.shiftr_div_pow2 by lia.
  rewrite (land_mask a 2), (land_mask b 4), (land_mask c 6) by done.
  rewrite !lor_shiftl_add by (unfold fits; lia).
  rewrite !uwrap_small by (unfold fits; lia). done.
Qed.

Lemma encode_ok u : 0 <= u < 64 ->
  decode (encode u) = u /\ is_base64 (encode u) = true /\ encode u <> PAD /\ encode u <> 0.
Proof.
  intros H. unfold encode, PAD.
  destruct (Z.ltb_spec u 26); [|destruct (Z.ltb_spec u 52); [|destruct (Z.ltb_spec u 62);
    [|destruct (Z.eqb_spec u 62) as [->|]]]];
    unfold decode, is_base64; repeat case_match; lia.
Qed.

(** A group decodes to what was encoded. *)
Lemma unsextets a b c w x y z :
  byte_ok a -> byte_ok b -> byte_ok c -> sextets a b c = (w, x, y, z) ->
  (0 <= w < 64 /\ 0 <= x < 64 /\ 0 <= y < 64 /\ 0 <= z < 64) /\
  u8 (Z.lor (Z.shiftl w 2) (Z.shiftr x 4)) = a /\
  u8 (Z.lor (Z.shiftl (Z.land x 15) 4) (Z.shiftr y 2)) = b /\
  u8 (Z.lor (Z.shiftl (Z.land y 3) 6) z) = c.
Proof.
  intros Ha Hb Hc. rewrite sextets_value by done. unfold fits in *.
  intros [= <- <- <- <-]. rewrite !Z.shiftr_div_pow2 by lia.
  rewrite (land_mask _ 4 15), (land_mask _ 2 3) by done.
  rewrite !lor_shiftl_add by (unfold fits; lia).
  rewrite !uwrap_small by (unfold fits; lia). lia.
Qed.

Section proofs.
Implicit Types (pre s rest out : bytes).

Lemma encode_loop_spec s pre rest fuel done_ zs :
  (length s < fuel)%nat -> zlen (base64 s) <= zlen zs ->
  encode_loop fuel (pre ++ s ++ rest) (zlen pre + zlen s) (zlen pre) (done_ ++ zs) (zlen done_)
  = Some (done_ ++ base64 s ++ drop (length (base64 s)) zs).
Proof.
  revert pre fuel done_ zs. induction s as [|a|a b|a b c s IH] using groups_ind;
    intros pre fuel done_ zs Hf Hz; (destruct fuel as [|fuel]; [cbn in Hf; lia|]); cbn [encode_loop].
  - rewrite (proj2 (Z.ltb_ge _ _)) by zlia. by rewrite drop_0.
  - rewrite (proj2 (Z.ltb_lt _ _)) by zlia. unfold encode_group.
    rewrite (load1_at _ _ (zlen pre) 0) by lia.
    cbn [app lookup list_lookup mbind option_bind].
    rewrite !(proj2 (Z.ltb_ge (zlen pre + _) _)) by zlia. cbn [mbind option_bind].
    cbn [base64 sextets] in *. rewrite store_seq by (cbn in *; zlia). cbn [mbind option_bind].
    destruct fuel as [|fuel]; [cbn in Hf; lia|]. cbn [encode_loop].
    rewrite (proj2 (Z.ltb_ge _ _)) by zlia. by rewrite <- app_assoc.
  - rewrite (proj2 (Z.ltb_lt _ _)) by zlia. unfold encode_group.
    rewrite (load1_at _ _ (zlen pre) 0) by lia.
    rewrite (proj2 (Z.ltb_lt (zlen pre + 1) _)) by zlia.
    rewrite (load1_at _ _ (zlen pre + 1) 1) by lia.
    cbn [app lookup list_lookup mbind option_bind].
    rewrite !(proj2 (Z.ltb_ge (zlen pre + 2) _)) by zlia. cbn [mbind option_bind].
    cbn [base64 sextets] in *. rewrite store_seq by (cbn in *; zlia). cbn [mbind option_bind].
    destruct fuel as [|fuel]; [cbn in Hf; lia|]. cbn [encode_loop].
    rewrite (proj2 (Z.ltb_ge _ _)) by zlia. by rewrite <- app_assoc.
  - rewrite (proj2 (Z.ltb_lt _ _)) by zlia. unfold encode_group.
    rewrite (load1_at _ _ (zlen pre) 0) by lia.
    rewrite (proj2 (Z.ltb_lt (zlen pre + 1) _)) by zlia.
    rewrite (load1_at _ _ (zlen pre + 1) 1) by lia.
    rewrite (proj2 (Z.ltb_lt (zlen pre + 2) _)) by zlia.
    rewrite (load1_at _ _ (zlen pre + 2) 2) by lia.
    cbn [app lookup list_lookup mbind option_bind].
    cbn [base64 sextets app] in *. set (group := [_; _; _; _]).
    rewrite store_seq by (unfold group; cbn in *; zlia). cbn [mbind option_bind].
    replace (pre ++ a :: b :: c :: s ++ rest) with ((pre ++ [a; b; c]) ++ s ++ rest)
      by (by rewrite <- app_assoc).
    assert (Hg : zlen group = 4) by done.
    replace (zlen pre + zlen (a :: b :: c :: s)) with (zlen (pre ++ [a; b; c]) + zlen s) by zlia.
    replace (zlen pre + 3) with (zlen (pre ++ [a; b; c])) by zlia.
    replace (zlen done_ + 4) with (zlen (done_ ++ group)) by (rewrite zlen_app, Hg; done).
    rewrite IH; [|cbn in Hf; lia|cbn in Hz; zlia].
    by rewrite <- app_assoc, drop_drop.
Qed.

Lemma keep_base64_spec s rest pre fuel done_ zs :
  Forall (fun c => is_base64 c = true) s -> (length s < fuel)%nat -> zlen s <= zlen zs ->
  keep_base64 fuel (pre ++ s ++ 0 :: rest) (zlen pre) (done_ ++ zs) (zlen done_)
  = Some (done_ ++ s ++ drop (length s) zs, zlen done_ + zlen s).
Proof.
  intros Hs. revert pre fuel done_ zs. induction Hs as [|c s Hc Hs IH];
    intros pre fuel done_ zs Hf Hz; (destruct fuel as [|fuel]; [cbn in Hf; lia|]); cbn [keep_base64];
    rewrite (load1_at _ _ (zlen pre) 0) by lia; cbn [app lookup list_lookup mbind option_bind].
  - by rewrite drop_0, Z.add_0_r.
  - destruct (Z.eqb_spec c 0) as [->|]; [done|]. rewrite Hc.
    rewrite store_seq by zlia. cbn [mbind option_bind].
    replace (pre ++ c :: s ++ 0 :: rest) with ((pre ++ [c]) ++ s ++ 0 :: rest)
      by (by rewrite <- app_assoc).
    replace (zlen pre + 1) with (zlen (pre ++ [c])) by zlia.
    replace (zlen done_ + 1) with (zlen (done_ ++ [c])) by zlia.
    rewrite IH; [|cbn in Hf; lia|zlia].
    rewrite <- app_assoc, drop_drop. do 2 f_equal. zlia.
Qed.

Lemma base64_chars s : bytes_ok s -> Forall (fun c => is_base64 c = true) (base64 s).
Proof.
  induction s as [|a|a b|a b c s IH] using groups_ind; intros H; [by constructor|..];
    unfold bytes_ok in H; rewrite ?Forall_cons in H; cbn [base64];
    match goal with |- context [sextets ?a ?b ?c] =>
      destruct (sextets a b c) as [[[w x] y] z] eqn:E; apply unsextets in E as [(Hw & Hx & Hy & Hz) _] end;
    try (unfold fits; lia); try tauto;
    repeat (apply Forall_cons; split); try done; try by apply encode_ok.
  apply IH. apply H.
Qed.

Lemma decode_loop_spec s pre junk fuel done_ zs :
  bytes_ok s -> (length s < fuel)%nat -> zlen s <= zlen zs ->
  decode_loop fuel (pre ++ base64 s ++ junk) (zlen pre + zlen (base64 s)) (zlen pre)
    (done_ ++ zs) (zlen done_)
  = Some (done_ ++ s ++ drop (length s) zs).
Proof.
  revert pre fuel done_ zs. induction s as [|a|a b|a b c s IH] using groups_ind;
    intros pre fuel done_ zs Hs Hf Hz; (destruct fuel as [|fuel]; [cbn in Hf; lia|]); cbn [decode_loop].
  { rewrite (proj2 (Z.ltb_ge _ _)) by zlia. by rewrite drop_0. }
  all: unfold bytes_ok in Hs; rewrite ?Forall_cons in Hs; cbn [base64];
    match goal with |- context [sextets ?a ?b ?c] =>
      destruct (sextets a b c) as [[[w x] y] z] eqn:E;
      apply unsextets in E as [(Hw & Hx & Hy & Hz') (E1 & E2 & E3)] end;
    try (unfold fits; lia); try tauto.
  all: rewrite (proj2 (Z.ltb_lt _ _)) by (cbn [app]; zlia); unfold decode_group;
    rewrite !(proj2 (Z.ltb_lt (zlen pre + _) _)) by (cbn [app]; zlia);
    rewrite (load1_at _ _ (zlen pre) 0), (load1_at _ _ (zlen pre + 1) 1),
      (load1_at _ _ (zlen pre + 2) 2), (load1_at _ _ (zlen pre + 3) 3) by lia;
    cbn [app lookup list_lookup mbind option_bind];
    destruct (encode_ok w Hw) as (-> & _ & _), (encode_ok x Hx) as (-> & _ & _);
    rewrite E1.
  - change (PAD =? PAD) with true. cbn [negb app]. rewrite store_seq by (cbn in *; zlia).
    cbn [mbind option_bind]. destruct fuel as [|fuel]; [cbn in Hf; lia|]. cbn [decode_loop].
    rewrite (proj2 (Z.ltb_ge _ _)) by zlia. by rewrite <- app_assoc.
  - destruct (encode_ok y Hy) as (-> & _ & Hp & _). rewrite (proj2 (Z.eqb_neq _ _) Hp), E2.
    change (PAD =? PAD) with true. cbn [negb app]. rewrite store_seq by (cbn in *; zlia).
    cbn [mbind option_bind]. destruct fuel as [|fuel]; [cbn in Hf; lia|]. cbn [decode_loop].
    rewrite (proj2 (Z.ltb_ge _ _)) by zlia. by rewrite <- app_assoc.
  - destruct (encode_ok y Hy) as (-> & _ & Hp & _), (encode_ok z Hz') as (-> & _ & Hp' & _).
    rewrite (proj2 (Z.eqb_neq _ _) Hp), (proj2 (Z.eqb_neq _ _) Hp'), E2, E3.
    cbn [negb app]. rewrite store_seq by (cbn in *; zlia). cbn [mbind option_bind].
    set (g := [encode w; encode x; encode y; encode z]).
    replace (pre ++ encode w :: encode x :: encode y :: encode z :: base64 s ++ junk)
      with ((pre ++ g) ++ base64 s ++ junk) by (by rewrite <- app_assoc).
    assert (Hg : zlen g = 4) by done. assert (Hd : zlen [a; b; c] = 3) by done.
    replace (zlen pre + zlen (encode w :: encode x :: encode y :: encode z :: base64 s))
      with (zlen (pre ++ g) + zlen (base64 s)) by zlia.
    replace (zlen pre + 4) with (zlen (pre ++ g)) by zlia.
    replace (zlen done_ + zlen [a; b; c]) with (zlen (done_ ++ [a; b; c])) by zlia.
    rewrite IH; [|by apply Hs|cbn in Hf; lia|cbn in Hz; zlia].
    by rewrite <- app_assoc, drop_drop.
Qed.
End proofs.

Lemma base64_length s : zlen (base64 s) = 4 * ((zlen s + 2) / 3).
Proof.
  induction s as [|a|a b|a b c s IH] using groups_ind; [done..|].
  cbn [base64 sextets app]. rewrite !zlen_cons, IH. zlia.
Qed.

(** C22: decoding undoes encoding: for every block of bytes [encode_base64] writes, inside
    the block it allocates, the base64 text of the bytes and a terminator, and
    [decode_base64] of that string gives the bytes back, terminated, without leaving
    the string, its working buffer or its result. *)
Theorem base64_roundtrip s rest fresh :
  bytes_ok s -> s <> [] -> zlen s * 4 < 2 ^ 31 ->
  exists n m, (0 < n)%nat /\ (0 < m)%nat /\
    encode_base64 true (zlen s) (Some (s ++ rest)) = Some (Some (base64 s ++ replicate n 0)) /\
    decode_base64 true true fresh (Some (base64 s ++ replicate n 0))
    = Some (Some (s ++ replicate m 0)).
Proof.
  intros Hs Hne Hlen. pose proof (base64_length s) as HL. pose proof (base64_chars s Hs) as Hc.
  assert (Hpos : 0 < zlen s) by (destruct s; [done|zlia]).
  set (room := Z.to_nat (zlen s * 4 / 3 + 4)).
  assert (Hroom : (length (base64 s) < room)%nat) by (unfold room, zlen in *; lia).
  set (room' := Z.to_nat (zlen (base64 s) + 1 + 13)).
  assert (Hroom' : (length s < room')%nat) by (unfold room', zlen in *; lia).
  assert (Hr : Z.to_nat (zlen (base64 s) + 1 + 13) = room') by done. clearbody room'.
  exists (room - length (base64 s))%nat, (room' - length s)%nat.
  split; [lia|]. split; [lia|]. split.
  - unfold encode_base64. rewrite (proj2 (Z.eqb_neq _ _)) by lia. cbn [mbind option_bind negb].
    rewrite (proj2 (Z.leb_gt _ _)) by lia.
    pose proof (encode_loop_spec s [] rest (S (Z.to_nat (zlen s))) [] (replicate room 0)) as E.
    cbn [app] in E. change (zlen []) with 0 in E. rewrite Z.add_0_l in E. fold room.
    rewrite E; [|unfold zlen; lia|unfold zlen; rewrite length_replicate; lia].
    cbn [mbind option_bind]. by rewrite drop_replicate.
  - destruct (room - length (base64 s))%nat as [|n] eqn:En; [lia|]. cbn [replicate].
    assert (Hz : Forall (fun c => c <> 0) (base64 s)).
    { eapply Forall_impl; [exact Hc|]. intros c H ->. done. }
    unfold decode_base64. rewrite (c_string_app _ _ Hz).
    destruct (base64 s) as [|c text] eqn:Et; [exfalso; change (zlen []) with 0 in HL; lia|].
    change (load1 ((c :: text) ++ 0 :: replicate n 0) 0) with (Some c). cbn [mbind option_bind].
    apply Forall_cons in Hz as [Hc0 _]. rewrite (proj2 (Z.eqb_neq _ _) Hc0). cbn [negb orb].
    rewrite <- Et in *.
    pose proof (keep_base64_spec (base64 s) (replicate n 0) [] (length (base64 s ++ 0 :: replicate n 0))
      [] (malloc_bytes fresh (zlen (base64 s) + 1)) Hc) as K.
    cbn [app] in K. change (zlen []) with 0 in K. rewrite K.
    2: { rewrite length_app. cbn. lia. }
    2: { rewrite zlen_malloc_bytes; zlia. }
    cbn [mbind option_bind]. rewrite Z.add_0_l.
    pose proof (decode_loop_spec s [] (drop (length (base64 s)) (malloc_bytes fresh (zlen (base64 s) + 1)))
      (length (base64 s ++ 0 :: replicate n 0)) [] (replicate room' 0) Hs) as D.
    cbn [app] in D. change (zlen []) with 0 in D. rewrite Z.add_0_l in D. rewrite Hr, D.
    2: { rewrite length_app. unfold zlen in HL. cbn. lia. }
    2: { unfold zlen. rewrite length_replicate. lia. }
    cbn [mbind option_bind]. by rewrite drop_replicate.
Qed.

Lemma base64_roundtrip_witness :
  let s := [77; 97; 110; 0; 255] in
  (exists n m, (0 < n)%nat /\ (0 < m)%nat /\
    encode_base64 true (zlen s) (Some (s ++ [])) = Some (Some (base64 s ++ replicate n 0)) /\
    decode_base64 true true (fun _ => 9) (Some (base64 s ++ replicate n 0))
    = Some (Some (s ++ replicate m 0))) /\
  base64 s = str "TWFuAP8=".
Proof.
  split; [|by vm_compute].
  apply base64_roundtrip; [by apply (bool_decide_unpack _); vm_compute|done|by vm_compute].
Defined.
