(* ===== verification/MathOp.v ===== *)
(** Prime sizes, agents/shared/math_op.c: [os_getprime], from which the hash table
    takes its number of rows and the constants of its hash function.  Its loops may run
    billions of rounds, so a bound on them is a binary number. *)
From Stdlib Require Import Znumtheory.
From S2P Require Import Prelude.
#[local] Open Scope Z_scope.

(** * Loops with a binary bound *)

(** At most [p] rounds of [body]. *)
Fixpoint rounds {A B} (p : positive) (body : A -> A + B) (a : A) : A + B :=
  match p with
  | xH => body a
  | xO p => match rounds p body a with inl a => rounds p body a | inr b => inr b end
  | xI p =>
      match body a with
      | inl a => match rounds p body a with inl a => rounds p body a | inr b => inr b end
      | inr b => inr b
      end
  end.

Section rounds_rule.
Context {A B : Type} (body : A -> A + B) (I : A -> Prop) (measure : A -> Z) (Q : B -> Prop).
Hypothesis Hstep : forall a, I a ->
  match body a with inl a' => I a' /\ 0 <= measure a' < measure a | inr b => Q b end.

Lemma rounds_progress p a :
  I a ->
  match rounds p body a with
  | inl a' => I a' /\ 0 <= measure a' /\ measure a' + Zpos p <= measure a
  | inr b => Q b
  end.
Proof.
  revert a. induction p as [p IH|p IH|]; intros a Ha; cbn [rounds].
  - specialize (Hstep a Ha) as H1. destruct (body a) as [a1|b]; [|done]. destruct H1 as [H1 M1].
    specialize (IH a1 H1) as H2. destruct (rounds p body a1) as [a2|b]; [|done].
    specialize (IH a2 (proj1 H2)) as H3. destruct (rounds p body a2) as [a3|b]; [|done].
    split; [tauto|]. lia.
  - specialize (IH a Ha) as H2. destruct (rounds p body a) as [a2|b]; [|done].
    specialize (IH a2 (proj1 H2)) as H3. destruct (rounds p body a2) as [a3|b]; [|done].
    split; [tauto|]. lia.
  - specialize (Hstep a Ha) as H1. destruct (body a) as [a1|b]; [|done]. split; [tauto|]. lia.
Qed.

(** The bound is enough when a measure starts below it. *)
Lemma rounds_enough p a : I a -> measure a < Zpos p -> exists b, rounds p body a = inr b /\ Q b.
Proof.
  intros Ha Hm. pose proof (rounds_progress p a Ha) as H.
  destruct (rounds p body a) as [a'|b]; [lia|eauto].
Qed.
End rounds_rule.

(** * [os_getprime] *)

(** The inner loop: the first odd number from 3 on that divides [val] or is past
    [max_i]. *)
Definition trial (val max_i i : Z) : Z + Z :=
  if i <=? max_i then if val mod i =? 0 then inr i else inl (u32 (i + 2)) else inr i.

Definition find_divisor (val : Z) : option Z :=
  match rounds (2 ^ 32) (trial val (val / 2)) 3 with inr i => Some i | inl _ => None end.

(** A round of the outer loop. *)
Definition try_value (val : Z) : Z + option Z :=
  match find_divisor val with
  | None => inr None
  | Some i =>
      if i >=? val / 2 then inr (Some val) else
      let val := u32 (val + 2) in
      if val =? 0 then inr (Some 0) else inl val
  end.

(** [None] if a loop had more rounds than its bound. *)
Definition os_getprime (val : Z) : option Z :=
  let val := if val mod 2 =? 0 then u32 (val + 1) else val in
  match rounds (2 ^ 32) try_value val with inr r => r | inl _ => None end.

(** * What it returns *)

#[local] Ltac Zify.zify_post_hook ::= Z.div_mod_to_equations.

Definition odd_prime (p : Z) : Prop := prime p /\ p <> 2.

(** The largest prime below [2 ^ 32]. *)
Definition last_prime : Z := 4294967291.

Lemma prime_no_divisor v :
  3 <= v -> v mod 2 = 1 -> (forall d, 3 <= d <= v / 2 -> d mod 2 = 1 -> v mod d <> 0) -> prime v.
Proof.
  intros Hv Hodd Hd. apply prime_alt. split; [lia|]. intros n Hn Hdiv.
  pose proof Hdiv as [q Hq]. assert (0 < q) by nia.
  assert (Hn2 : n mod 2 = 1).
  { rewrite Hq, Z.mul_mod in Hodd by lia. destruct (Z.eq_dec (n mod 2) 0) as [E|]; [|lia].
    rewrite E, Z.mul_0_r in Hodd. by cbn in Hodd. }
  assert (q <> 1) by nia.
  apply (Hd n); [split; [lia|]|done|].
  - apply Z.div_le_lower_bound; nia.
  - apply Z.mod_divide; [lia|done].
Qed.

Lemma divisor_not_prime v d : 1 < d < v -> v mod d = 0 -> ~ prime v.
Proof.
  intros Hd Hm Hp. apply prime_alt in Hp as [_ Hp]. apply (Hp d Hd), Z.mod_divide; lia.
Qed.

(** Trial division up to the square root. *)
Definition no_divisor (n d : Z) : Z + bool :=
  if d * d >? n then inr true else if n mod d =? 0 then inr false else inl (d + 1).

Lemma trial_division n :
  1 < n -> rounds 100000 (no_divisor n) 2 = inr true -> prime n.
Proof.
  intros Hn E.
  pose proof (rounds_progress (no_divisor n)
    (fun d => 2 <= d /\ forall k, 2 <= k < d -> ~ (k | n)) (fun d => n + 2 - d)
    (fun b => b = true -> exists d, n < d * d /\ 2 <= d /\ forall k, 2 <= k < d -> ~ (k | n)))
    as H. specialize (H) with (p := 100000%positive) (a := 2). rewrite E in H.
  destruct H as (d & Hd & Hd2 & Hno); [| |done|].
  - intros d [Hd Hno]. unfold no_divisor. destruct (Z.gtb_spec (d * d) n).
    { intros _. by exists d. }
    destruct (Z.eqb_spec (n mod d) 0) as [|Hnz]; [done|]. split; [|nia].
    split; [lia|]. intros k Hk. destruct (Z.eq_dec k d) as [->|]; [|apply Hno; lia].
    intros Hdiv. apply Hnz, Z.mod_divide; [lia|done].
  - split; [lia|]. lia.
  - apply prime_alt. split; [done|]. intros k Hk Hdiv. pose proof Hdiv as [q Hq].
    destruct (Z.le_gt_cases d k); [|by apply (Hno k); [lia|]].
    apply (Hno q); [nia|]. exists k. lia.
Qed.

Lemma last_prime_prime : prime last_prime.
Proof. apply trial_division; [done|by vm_compute]. Qed.

(** Trial division decides primality: an odd number is kept exactly if it is prime. *)
Lemma find_divisor_spec v :
  1 <= v < 2 ^ 32 -> v mod 2 = 1 ->
  exists i, find_divisor v = Some i /\ (v / 2 <= i <-> v = 1 \/ prime v).
Proof.
  intros Hv Hodd. unfold find_divisor.
  destruct (rounds_enough (trial v (v / 2))
    (fun i => 3 <= i <= v / 2 + 3 /\ i mod 2 = 1 /\
       forall d, 3 <= d < i -> d mod 2 = 1 -> d <= v / 2 -> v mod d <> 0)
    (fun i => v / 2 + 3 - i)
    (fun i => v / 2 <= i <-> v = 1 \/ prime v) ) with (p := (2 ^ 32)%positive) (a := 3)
    as (i & -> & Hi).
  - intros i (Hi & Hi2 & Hd). unfold trial. destruct (Z.leb_spec i (v / 2)) as [Hle|Hgt].
    + assert (v / 2 * 2 <= v) by lia.
      destruct (Z.eqb_spec (v mod i) 0) as [Hz|Hnz].
      * assert (v / 2 <> i).
        { intros E. assert (v = i * 2 + 1) as -> by lia.
          rewrite Z.add_comm, Z.mul_comm, Z_mod_plus_full, Z.mod_small in Hz by lia. done. }
        split; [lia|]. intros [->|Hp]; [cbn in Hle; lia|].
        exfalso. by eapply (divisor_not_prime v i); [lia| |].
      * rewrite uwrap_small by (unfold fits; lia). split; [|lia]. split; [lia|].
        split; [lia|]. intros d Hd1 Hd2 Hd3.
        destruct (Z.eq_dec d i) as [->|]; [done|]. apply Hd; lia.
    + split; [|lia]. intros _. destruct (Z.eq_dec v 1) as [|Hne]; [by left|right].
      apply prime_no_divisor; [lia|done|]. intros d Hd1 Hd2. apply Hd; lia.
  - split; [lia|]. split; [done|]. lia.
  - lia.
  - exists i. done.
Qed.

(** In range, and out of it. *)
Lemma getprime_in_range v :
  2 <= v <= last_prime ->
  exists r, os_getprime v = Some r /\ odd_prime r /\ v <= r <= last_prime /\
    forall q, odd_prime q -> v <= q -> r <= q.
Proof.
  intros Hr.
  set (v1 := if v mod 2 =? 0 then u32 (v + 1) else v).
  assert (Hv1 : v <= v1 <= last_prime /\ v1 mod 2 = 1 /\ 3 <= v1).
  { unfold v1, last_prime in *. destruct (Z.eqb_spec (v mod 2) 0).
    - rewrite uwrap_small by (unfold fits; lia). lia.
    - lia. }
  destruct (rounds_enough try_value
    (fun w => v1 <= w <= last_prime /\ w mod 2 = 1 /\
       forall q, odd_prime q -> v <= q -> w <= q)
    (fun w => last_prime - w)
    (fun r => exists r', r = Some r' /\ odd_prime r' /\ v <= r' <= last_prime /\
       forall q, odd_prime q -> v <= q -> r' <= q))
    with (p := (2 ^ 32)%positive) (a := v1) as (r & E & r' & -> & Hp & Hle & Hleast).
  - intros w (Hw & Hodd & Hmin). unfold try_value.
    destruct (find_divisor_spec w) as (i & -> & Hi); [unfold last_prime in *; lia|done|].
    destruct (Z.geb_spec i (w / 2)) as [Hge|Hlt].
    + exists w. split; [done|]. split; [|split; [lia|done]].
      split; [|lia]. destruct Hi as [Hi _]. destruct (Hi ltac:(lia)) as [->|]; [lia|done].
    + assert (~ prime w) as Hnp by (intros Hp; destruct Hi as [_ Hi]; specialize (Hi (or_intror Hp)); lia).
      assert (w <> last_prime) by (intros ->; apply Hnp, last_prime_prime).
      assert (w + 2 <= last_prime) by (unfold last_prime in *; lia).
      rewrite uwrap_small by (unfold fits, last_prime in *; lia).
      destruct (Z.eqb_spec (w + 2) 0); [lia|]. split; [|lia]. split; [lia|]. split; [lia|].
      intros q Hq Hvq. specialize (Hmin q Hq Hvq).
      destruct (Z.eq_dec q w) as [->|]; [by destruct Hq|].
      destruct (Z.eq_dec q (w + 1)) as [->|]; [|lia].
      exfalso. destruct Hq as [Hq _]. apply (divisor_not_prime (w + 1) 2); [lia|lia|done].
  - split; [lia|]. split; [lia|]. intros q [Hq Hq2] Hvq. unfold v1.
    destruct (Z.eqb_spec (v mod 2) 0) as [He|]; [|done].
    rewrite uwrap_small by (unfold fits, last_prime in *; lia).
    destruct (Z.eq_dec q v) as [->|]; [|lia].
    exfalso. apply (divisor_not_prime v 2); [lia|lia|done].
  - unfold last_prime in *. lia.
  - exists r'. split; [unfold os_getprime; fold v1; by rewrite E|]. done.
Qed.

Lemma getprime_out_of_range v :
  0 <= v < 2 ^ 32 -> v < 2 \/ last_prime < v -> os_getprime v = Some 1.
Proof.
  intros Hv Hout.
  assert (v ∈ [0; 1; 4294967292; 4294967293; 4294967294; 4294967295]) as Hcases.
  { unfold last_prime in *. rewrite !elem_of_cons. lia. }
  revert Hcases. clear. rewrite !elem_of_cons, elem_of_nil.
  intros [->|[->|[->|[->|[->|[->|[]]]]]]]; by vm_compute.
Qed.

(** What a caller can rely on for any argument. *)
Lemma getprime_total v :
  0 <= v < 2 ^ 32 ->
  exists r, os_getprime v = Some r /\ 0 < r <= last_prime /\ (v <= last_prime -> v <= r).
Proof.
  intros Hv. destruct (decide (v < 2 \/ last_prime < v)) as [Hout|Hin].
  - exists 1. rewrite getprime_out_of_range by done. unfold last_prime in *. split; [done|]. lia.
  - destruct (getprime_in_range v) as (r & -> & _ & Hr & _); [lia|]. exists r.
    split; [done|]. lia.
Qed.

(** C26: [os_getprime] ends for every 32-bit value; from 2 to the largest prime of 32 bits
    it returns the least odd prime that is not smaller, and otherwise 1. *)
Theorem os_getprime_least_prime v :
  0 <= v < 2 ^ 32 ->
  exists r, os_getprime v = Some r /\
    (2 <= v <= last_prime ->
       odd_prime r /\ v <= r <= last_prime /\ forall q, odd_prime q -> v <= q -> r <= q) /\
    (v < 2 \/ last_prime < v -> r = 1).
Proof.
  intros Hv. destruct (decide (v < 2 \/ last_prime < v)) as [Hout|Hin].
  - exists 1. rewrite getprime_out_of_range by done. split; [done|].
    split; [unfold last_prime in *; lia|done].
  - destruct (getprime_in_range v) as (r & -> & H); [lia|]. exists r.
    split; [done|]. split; [tauto|lia].
Qed.

Lemma os_getprime_least_prime_witness :
  (exists r, os_getprime 2048 = Some r /\
    (2 <= 2048 <= last_prime ->
       odd_prime r /\ 2048 <= r <= last_prime /\ forall q, odd_prime q -> 2048 <= q -> r <= q) /\
    (2048 < 2 \/ last_prime < 2048 -> r = 1)) /\
  os_getprime 32 = Some 37 /\ os_getprime 2048 = Some 2053 /\ os_getprime 4294967292 = Some 1.
Proof.
  split; [by apply os_getprime_least_prime|]. split; [by vm_compute|].
  split; by vm_compute.
Defined.
