(* ===== verification/Hash.v ===== *)
(** The agent's hash table, agents/shared/hash_op.c: chained buckets of nodes, a
    polynomial hash of the key, a prime number of rows.  A pointer to a node is its
    address in the heap of the table's nodes; a pointer to data is a number, 0 being
    null.  [None] as a row is memory that [realloc] added and nothing has written.
    The functions that end in [_ex] hold the lock of the table: each is one step. *)
From stdpp Require Import gmap.
From S2P Require Import Prelude Utf8 MathOp.
#[local] Open Scope Z_scope.

(** * State *)

Record OSHashNode := HashNode {
  hn_next : option nat;
  hn_prev : option nat;
  hn_key : option bytes;
  hn_data : Z;
}.
#[export] Instance eta_hash_node : Eta OSHashNode := fun n =>
  HashNode (hn_next n) (hn_prev n) (hn_key n) (hn_data n).

(** [oh_nodes] are the allocated nodes, [oh_strings] counts the allocated copies of
    keys and [oh_blocks] the table's own blocks; [oh_freed] is the data given to
    [free_data_function], which is set if [oh_free_data]; [oh_alloc] answers whether
    an allocation succeeds. *)
Record OSHash := Hash {
  oh_rows : Z;
  oh_initial_seed : Z;
  oh_constant : Z;
  oh_elements : Z;
  oh_free_data : bool;
  oh_table : list (option (option nat));
  oh_nodes : gmap nat OSHashNode;
  oh_fresh : nat;
  oh_strings : Z;
  oh_blocks : Z;
  oh_freed : list Z;
  oh_alloc : oracle bool;
}.
#[export] Instance eta_hash : Eta OSHash := fun h =>
  Hash (oh_rows h) (oh_initial_seed h) (oh_constant h) (oh_elements h) (oh_free_data h)
    (oh_table h) (oh_nodes h) (oh_fresh h) (oh_strings h) (oh_blocks h) (oh_freed h)
    (oh_alloc h).

Ltac oh_simpl :=
  cbn [update eta_hash oh_rows oh_initial_seed oh_constant oh_elements oh_free_data
       oh_table oh_nodes oh_fresh oh_strings oh_blocks oh_freed oh_alloc].

Abbreviation HT := (ST OSHash).

(** * Memory *)

Definition hash_node_at (p : nat) : HT OSHashNode :=
  n ← gets (fun h => oh_nodes h !! p); lift n.
Definition hash_node_set (p : nat) (f : OSHashNode -> OSHashNode) : HT unit :=
  _ ← hash_node_at p; modify (fun h => h <| oh_nodes := alter f p (oh_nodes h) |>).
Definition hash_node_new (key : option bytes) (data : Z) : HT nat :=
  p ← gets oh_fresh;
  _ ← modify (fun h => h <| oh_nodes := <[p := HashNode None None key data]> (oh_nodes h) |>
                         <| oh_fresh := S p |>);
  mret p.
Definition hash_node_free (p : nat) : HT unit :=
  _ ← hash_node_at p; modify (fun h => h <| oh_nodes := delete p (oh_nodes h) |>).

(** [self->table[i]]. *)
Definition row_at (i : Z) : HT (option nat) :=
  r ← gets (fun h => oh_table h !! Z.to_nat i); r ← lift r; lift r.
Definition row_set (i : Z) (p : option nat) : HT unit :=
  r ← gets (fun h => oh_table h !! Z.to_nat i);
  _ ← lift r;
  modify (fun h => h <| oh_table := <[Z.to_nat i := Some p]> (oh_table h) |>).

Definition allocated : HT bool :=
  ok ← gets (fun h => next (oh_alloc h));
  _ ← modify (fun h => h <| oh_alloc := advance (oh_alloc h) |>);
  mret ok.

Definition add_strings (d : Z) : HT unit :=
  modify (fun h => h <| oh_strings := oh_strings h + d |>).

(** [if (key) free(key)], and the call of [free_data_function]. *)
Definition free_node_key (key : option bytes) : HT unit :=
  match key with Some _ => add_strings (-1) | None => mret tt end.
Definition pass_data (data : Z) : HT unit :=
  modify (fun h => h <| oh_freed := oh_freed h ++ [data] |>).
Definition free_data (data : Z) : HT unit :=
  set ← gets oh_free_data;
  if negb (data =? 0) && set then pass_data data else mret tt.

(** A chain, and a walk over the rows, have no more nodes than are allocated. *)
Definition node_bound : HT nat := gets (fun h => S (size (oh_nodes h))).

(** * Creating *)

(** [None] is undefined behaviour, [Some None] a null result.  [random1] and [random2]
    are what [os_random] returns. *)
Definition OSHash_Create (alloc : oracle bool) (random1 random2 : Z) : option (option OSHash) :=
  if negb (next alloc) then Some None else
  rows ← os_getprime 32;
  if rows =? 0 then Some None else
  let alloc := advance alloc in
  if negb (next alloc) then Some None else
  initial_seed ← os_getprime (u32 random1 mod rows);
  constant ← os_getprime (u32 random2 mod rows);
  Some (Some (Hash rows initial_seed constant 0 false
    (replicate (Z.to_nat (rows + 1)) (Some None)) ∅ 0 0 2 [] (advance alloc))).

Definition OSHash_SetFreeDataPointer (set : bool) : HT Z :=
  _ ← modify (fun h => h <| oh_free_data := set |>); mret 1.

(** * The hash function; [char_signed]: is plain [char] signed? *)

Section functions.
Variable char_signed : bool.

Fixpoint hash_chars (constant hash_key : Z) (key : bytes) : Z :=
  match key with
  | [] => hash_key
  | c :: key =>
      hash_chars constant (u32 (u32 (hash_key * constant) + u32 (char_of char_signed c))) key
  end.

Definition _os_genhash (key : bytes) : HT Z :=
  gets (fun h => hash_chars (oh_constant h) (oh_initial_seed h) key).

Definition OSHash_GetIndex (key : bytes) : HT Z :=
  hash_key ← _os_genhash key;
  rows ← gets oh_rows;
  if rows =? 0 then ub else mret (hash_key mod rows).

(** * Looking up *)

(** [strcmp(node->key, key) == 0]; the key of the node is not tested for null. *)
Definition key_matches (n : OSHashNode) (key : bytes) : HT bool :=
  match hn_key n with Some k => mret (streq k key) | None => ub end.

(** The node of a key, with the node before it. *)
Definition find_in_row (cur : option nat) (key : bytes) : HT (option (option nat * nat)) :=
  fuel ← node_bound;
  loop fuel (fun '(prev, cur) =>
    match cur with
    | None => mret (inr None)
    | Some p =>
        n ← hash_node_at p;
        found ← key_matches n key;
        if found : bool then mret (inr (Some (prev, p))) else mret (inl (Some p, hn_next n))
    end) (None, cur).

Definition OSHash_Update (key : bytes) (data : Z) : HT Z :=
  index ← OSHash_GetIndex key;
  cur ← row_at index;
  found ← find_in_row cur key;
  match found with
  | Some (_, p) =>
      n ← hash_node_at p;
      _ ← free_data (hn_data n);
      _ ← hash_node_set p (fun n => n <| hn_data := data |>);
      mret 1
  | None => mret 0
  end.

Definition _OSHash_Add (key : bytes) (data : Z) (update : bool) : HT Z :=
  index ← OSHash_GetIndex key;
  cur ← row_at index;
  found ← find_in_row cur key;
  match found with
  | Some (_, p) =>
      _ ← (if update then hash_node_set p (fun n => n <| hn_data := data |>) else mret tt);
      mret 1
  | None =>
      ok ← allocated;
      if negb ok then mret 0 else
      copied ← allocated;
      if negb copied then mret 0 else
      new_node ← hash_node_new (Some key) data;
      _ ← add_strings 1;
      row ← row_at index;
      _ ← match row with
          | None => row_set index (Some new_node)
          | Some first =>
              _ ← hash_node_set new_node (fun n => n <| hn_next := Some first |>);
              _ ← hash_node_set first (fun n => n <| hn_prev := Some new_node |>);
              row_set index (Some new_node)
          end;
      _ ← modify (fun h => h <| oh_elements := u32 (oh_elements h + 1) |>);
      mret 2
  end.

Definition OSHash_Add (key : bytes) (data : Z) : HT Z := _OSHash_Add key data false.
Definition OSHash_Set (key : bytes) (data : Z) : HT Z := _OSHash_Add key data true.

(** The walk of [OSHash_Get] skips null keys. *)
Definition OSHash_Get (key : bytes) : HT Z :=
  index ← OSHash_GetIndex key;
  cur ← row_at index;
  fuel ← node_bound;
  loop fuel (fun cur =>
    match cur with
    | None => mret (inr 0)
    | Some p =>
        n ← hash_node_at p;
        let found := match hn_key n with Some k => streq k key | None => false end in
        if found : bool then mret (inr (hn_data n)) else mret (inl (hn_next n))
    end) cur.

Definition OSHash_Delete (key : bytes) : HT Z :=
  index ← OSHash_GetIndex key;
  cur ← row_at index;
  found ← find_in_row cur key;
  match found with
  | None => mret 0
  | Some (prev, p) =>
      n ← hash_node_at p;
      _ ← match prev with
          | None => row_set index (hn_next n)
          | Some q => hash_node_set q (fun m => m <| hn_next := hn_next n |>)
          end;
      _ ← match hn_next n with
          | Some q => hash_node_set q (fun m => m <| hn_prev := prev |>)
          | None => mret tt
          end;
      _ ← free_node_key (hn_key n);
      _ ← hash_node_free p;
      _ ← modify (fun h => h <| oh_elements := u32 (oh_elements h - 1) |>);
      mret (hn_data n)
  end.

Definition OSHash_Get_Elem_ex : HT Z := gets oh_elements.

(** * Freeing and resizing *)

(** The nodes of a row, their keys and their data. *)
Definition free_row (cur : option nat) : HT unit :=
  fuel ← node_bound;
  loop fuel (fun cur =>
    match cur with
    | None => mret (inr tt)
    | Some p =>
        n ← hash_node_at p;
        _ ← free_node_key (hn_key n);
        _ ← free_data (hn_data n);
        _ ← hash_node_free p;
        mret (inl (hn_next n))
    end) cur.

(** [count] rows from row [i] on. *)
Fixpoint free_rows (i count : nat) : HT unit :=
  match count with
  | O => mret tt
  | S count => cur ← row_at (Z.of_nat i); _ ← free_row cur; free_rows (S i) count
  end.

Definition OSHash_Free : HT unit :=
  rows ← gets oh_rows;
  _ ← free_rows 0 (Z.to_nat (rows + 1));
  modify (fun h => h <| oh_blocks := oh_blocks h - 2 |>).

(** The loop that zeroes the table. *)
Definition zero_table : HT unit :=
  rows ← gets oh_rows;
  table ← gets oh_table;
  if rows + 1 <=? zlen table
  then modify (fun h => h <| oh_table :=
         replicate (Z.to_nat (rows + 1)) (Some None) ++ drop (Z.to_nat (rows + 1)) table |>)
  else ub.

(** [realloc]: the table keeps its rows, and what is added is not initialised. *)
Definition resize_table (n : Z) : HT unit :=
  modify (fun h => h <| oh_table := take (Z.to_nat n) (oh_table h) ++
    replicate (Z.to_nat n - length (oh_table h)) None |>).

Definition OSHash_setSize (new_size : Z) : HT Z :=
  orig_size ← gets oh_rows;
  if new_size <=? orig_size then mret 1 else
  rows ← lift (os_getprime new_size);
  _ ← modify (fun h => h <| oh_rows := rows |>);
  if rows =? 0 then mret 0 else
  ok ← allocated;
  if negb ok then mret 0 else
  _ ← resize_table (rows + 1);
  _ ← free_rows 0 (Z.to_nat orig_size);
  _ ← zero_table;
  initial_seed ← lift (os_getprime (456 mod rows));
  constant ← lift (os_getprime (789 mod rows));
  _ ← modify (fun h => h <| oh_initial_seed := initial_seed |> <| oh_constant := constant |>);
  mret 1.

(** * Iterating *)

(** The rows from [i] on, up to the first that is not empty. *)
Definition next_row (i : Z) : HT (option nat * Z) :=
  rows ← gets oh_rows;
  loop (S (Z.to_nat (rows + 1 - i))) (fun i =>
    if i <=? rows then
      cur ← row_at i;
      match cur with
      | Some p =>
          n ← hash_node_at p;
          match hn_key n with
          | Some _ => mret (inr (Some p, i))
          | None => mret (inl (i + 1))
          end
      | None => mret (inl (i + 1))
      end
    else mret (inr (None, i))) i.

Definition OSHash_Begin : HT (option nat * Z) := next_row 0.

Definition OSHash_Next (i : Z) (current : option nat) : HT (option nat * Z) :=
  match current with
  | Some p =>
      n ← hash_node_at p;
      match hn_next n with
      | Some q => mret (Some q, i)
      | None => next_row (i + 1)
      end
  | None => next_row (i + 1)
  end.

(** The cleaner gets the data that is not null. *)
Definition OSHash_Clean : HT unit :=
  '(cur, i) ← OSHash_Begin;
  fuel ← node_bound;
  _ ← loop fuel (fun '(cur, i) =>
        match cur with
        | None => mret (inr tt)
        | Some p =>
            '(next_node, i) ← OSHash_Next i (Some p);
            n ← hash_node_at p;
            _ ← free_node_key (hn_key n);
            _ ← (if negb (hn_data n =? 0) then pass_data (hn_data n) else mret tt);
            _ ← hash_node_free p;
            mret (inl (next_node, i))
        end) (cur, i);
  modify (fun h => h <| oh_blocks := oh_blocks h - 2 |>).

(** [OSHash_It] with a function that may change what [data] points to ([e]), and does
    not change the table. *)
Section iterate.
Context {E : Type} (iterating_function : Z -> OSHashNode -> E -> E).

Definition iterate_row (i : Z) (node_it : option nat) (e : E) : HT E :=
  fuel ← node_bound;
  loop fuel (fun '(node_it, e) =>
    match node_it with
    | None => mret (inr e)
    | Some p =>
        n ← hash_node_at p;
        match hn_key n with
        | Some _ => mret (inl (hn_next n, iterating_function i n e))
        | None => mret (inr e)
        end
    end) (node_it, e).

Fixpoint iterate_rows (i count : nat) (e : E) : HT E :=
  match count with
  | O => mret e
  | S count =>
      node_it ← row_at (Z.of_nat i);
      e ← iterate_row (Z.of_nat i) node_it e;
      iterate_rows (S i) count e
  end.

Definition OSHash_It (e : E) : HT E :=
  rows ← gets oh_rows; iterate_rows 0 (Z.to_nat rows) e.

Definition OSHash_It_ex (mode : Z) (e : E) : HT E :=
  if (mode =? 0) || (mode =? 1) || (mode =? 2) then OSHash_It e else mret e.
End iterate.

(** * Duplicating *)

(** Where the address of the next copy goes: a row, or the [next] of a node. *)
Inductive next_addr := RowAddr (i : nat) | NextAddr (p : nat).

Definition write_addr (a : next_addr) (p : nat) : HT unit :=
  match a with
  | RowAddr i => row_set (Z.of_nat i) (Some p)
  | NextAddr q => hash_node_set q (fun n => n <| hn_next := Some p |>)
  end.

(** The chain at [cur] of [hash], copied into the table that is built. *)
Fixpoint copy_chain (fuel : nat) (hash : OSHash) (cur : option nat) (a : next_addr) : HT unit :=
  match fuel with
  | O => ub
  | S fuel =>
      match cur with
      | None => mret tt
      | Some p =>
          n ← lift (oh_nodes hash !! p);
          key ← lift (hn_key n);
          copied ← allocated;
          new ← hash_node_new (if copied : bool then Some key else None) (hn_data n);
          _ ← (if copied : bool then add_strings 1 else mret tt);
          _ ← write_addr a new;
          copy_chain fuel hash (hn_next n) (NextAddr new)
      end
  end.

Fixpoint copy_rows (hash : OSHash) (i count : nat) : HT unit :=
  match count with
  | O => mret tt
  | S count =>
      row ← lift (oh_table hash !! i);
      cur ← lift row;
      _ ← copy_chain (S (size (oh_nodes hash))) hash cur (RowAddr i);
      copy_rows hash (S i) count
  end.

Definition OSHash_Duplicate (hash : OSHash) (alloc : oracle bool) : option OSHash :=
  snd <$> copy_rows hash 0 (Z.to_nat (oh_rows hash + 1))
    (Hash (oh_rows hash) (oh_initial_seed hash) (oh_constant hash) 0 (oh_free_data hash)
       (replicate (Z.to_nat (oh_rows hash + 1)) (Some None)) ∅ 0 0 2 [] alloc).

(** * Under the lock, and with other keys *)

Definition OSHash_setSize_ex := OSHash_setSize.
Definition OSHash_Update_ex := OSHash_Update.
Definition OSHash_Add_ex := OSHash_Add.
Definition OSHash_Set_ex := OSHash_Set.
Definition OSHash_Get_ex := OSHash_Get.
Definition OSHash_Delete_ex := OSHash_Delete.
Definition OSHash_Begin_ex := OSHash_Begin.
Definition OSHash_Duplicate_ex := OSHash_Duplicate.

Definition OSHash_Get_ex_dup (key : bytes) (duplicator : Z -> Z) : HT Z :=
  data ← OSHash_Get key; mret (duplicator data).

(** [str_lowercase] of a copy of the key, in the C locale.  [tolower] is undefined for
    a negative [char] other than [EOF]; a copy that was not allocated is dereferenced. *)
Definition to_lower (c : Z) : option Z :=
  let x := char_of char_signed c in
  if (x <? 0) && negb (x =? -1) then None else
  Some (if (65 <=? c) && (c <=? 90) then c + 32 else c).
Definition lowercase_copy (key : bytes) : HT bytes :=
  copied ← allocated;
  if copied : bool then lift (mapM to_lower key) else ub.

Definition OSHash_Add_ins (key : bytes) (data : Z) : HT Z :=
  key_cpy ← lowercase_copy key; OSHash_Add_ex key_cpy data.
Definition OSHash_Get_ins (key : bytes) : HT Z :=
  key_cpy ← lowercase_copy key; OSHash_Get_ex key_cpy.
Definition OSHash_Delete_ins (key : bytes) : HT Z :=
  key_cpy ← lowercase_copy key; OSHash_Delete_ex key_cpy.

(** [snprintf(string_key, 12, "%d", key)] *)
Definition string_key (key : Z) : bytes :=
  take 11 (if key <? 0 then str "-" ++ dec (- key) else dec key).

Definition OSHash_Numeric_Add_ex (key data : Z) : HT Z := OSHash_Add_ex (string_key key) data.
Definition OSHash_Numeric_Get_ex (key : Z) : HT Z := OSHash_Get_ex (string_key key).
Definition OSHash_Numeric_Delete_ex (key : Z) : HT Z := OSHash_Delete_ex (string_key key).
End functions.
