(* ===== verification/HashMap.v ===== *)
(** The hash table of [Hash] is a finite map: the rows are lists of entries, each in the
    row its key hashes to, and the functions of agents/shared/hash_op.c answer what they
    answer on a [gmap]; a traversal meets every entry once, and what frees the table
    frees all of it. *)
From stdpp Require Import gmap.
From S2P Require Import Prelude MathOp Hash.
#[local] Open Scope Z_scope.

(** * The rows as lists *)

Record entry := Entry { e_addr : nat; e_key : bytes; e_data : Z }.
Definition e_pair (e : entry) : bytes * Z := (e_key e, e_data e).

Implicit Types (L R : list entry) (B : list (list entry)) (nodes : gmap nat OSHashNode)
  (h : OSHash) (m : gmap bytes Z).

Definition head_of L : option nat := e_addr <$> head L.
Definition keys L : list bytes := e_key <$> L.
Definition addrs L : list nat := e_addr <$> L.

(** The nodes of [L] are linked in this order; nothing reads their [prev]. *)
Fixpoint chain nodes L : Prop :=
  match L with
  | [] => True
  | e :: L =>
      (exists prev, nodes !! e_addr e
         = Some (HashNode (head_of L) prev (Some (e_key e)) (e_data e))) /\ chain nodes L
  end.

(** What a row has for a key. *)
Fixpoint assoc (key : bytes) L : option Z :=
  match L with
  | [] => None
  | e :: L => if streq (e_key e) key then Some (e_data e) else assoc key L
  end.

Record row_ok nodes (slot : bytes -> nat) (i : nat) L : Prop := {
  row_chain : chain nodes L;
  row_keys : NoDup (keys L);
  row_slot : forall e, e ∈ L -> slot (e_key e) = i;
}.

Lemma addrs_app L R : addrs (L ++ R) = addrs L ++ addrs R.
Proof. apply fmap_app. Qed.

Lemma keys_app L R : keys (L ++ R) = keys L ++ keys R.
Proof. apply fmap_app. Qed.

Lemma elem_of_concat e B : e ∈ concat B <-> exists L, e ∈ L /\ L ∈ B.
Proof.
  rewrite list_elem_of_In, in_concat. setoid_rewrite list_elem_of_In. naive_solver.
Qed.

(** ** Chains *)

Lemma chain_lookup nodes L e :
  chain nodes L -> e ∈ L ->
  exists n, nodes !! e_addr e = Some n /\ hn_key n = Some (e_key e) /\ hn_data n = e_data e.
Proof.
  induction L as [|e' L IH]; [by intros _ ?%elem_of_nil|].
  intros [[prev H] HL] [->|He]%elem_of_cons; [by eexists|by apply IH].
Qed.

Lemma chain_congr nodes nodes' L :
  (forall p, p ∈ addrs L -> nodes' !! p = nodes !! p) -> chain nodes L -> chain nodes' L.
Proof.
  induction L as [|e L IH]; [done|]. intros E [[prev H] HL]. split.
  - exists prev. rewrite E; [done|by left].
  - apply IH; [|done]. intros p Hp. apply E. by right.
Qed.

Lemma chain_app nodes L R : chain nodes (L ++ R) -> chain nodes R.
Proof. induction L as [|e L IH]; [done|]. intros [_ H]. by apply IH. Qed.

Lemma chain_addrs nodes L p : chain nodes L -> p ∈ addrs L -> is_Some (nodes !! p).
Proof.
  intros H (e & -> & He)%list_elem_of_fmap. destruct (chain_lookup _ _ _ H He) as (n & -> & _).
  by eexists.
Qed.

(** Entries at the same address have the same key. *)
Lemma chain_same_key nodes L R e e' :
  chain nodes L -> chain nodes R -> e ∈ L -> e' ∈ R -> e_addr e = e_addr e' -> e_key e = e_key e'.
Proof.
  intros HL HR He He' E. destruct (chain_lookup _ _ _ HL He) as (n & Hn & Hk & _).
  destruct (chain_lookup _ _ _ HR He') as (n' & Hn' & Hk' & _). congruence.
Qed.

Lemma chain_nodup nodes L : chain nodes L -> NoDup (keys L) -> NoDup (addrs L).
Proof.
  intros Hc. induction L as [|e L IH]; [constructor|]. intros [Hk HL]%NoDup_cons.
  constructor; [|by apply IH; [apply Hc|]].
  intros (e' & E & He')%list_elem_of_fmap. apply Hk.
  rewrite (chain_same_key nodes (e :: L) (e :: L) e e'); [|done|done|by left|by right|done].
  by apply list_elem_of_fmap_2.
Qed.

Lemma chain_insert nodes L p n : p ∉ addrs L -> chain nodes L -> chain (<[p := n]> nodes) L.
Proof. intros. eapply chain_congr; [|done]. intros q Hq. apply lookup_insert_ne. by intros ->. Qed.

Lemma chain_alter nodes L p f : p ∉ addrs L -> chain nodes L -> chain (alter f p nodes) L.
Proof. intros. eapply chain_congr; [|done]. intros q Hq. apply lookup_alter_ne. by intros ->. Qed.

Lemma chain_delete nodes L p : p ∉ addrs L -> chain nodes L -> chain (delete p nodes) L.
Proof. intros. eapply chain_congr; [|done]. intros q Hq. apply lookup_delete_ne. by intros ->. Qed.

Lemma chain_set_prev nodes L p prev :
  chain nodes L -> chain (alter (fun n => n <| hn_prev := prev |>) p nodes) L.
Proof.
  induction L as [|e L IH]; [done|]. intros [[prev' H] HL]. split; [|by apply IH].
  destruct (decide (p = e_addr e)) as [->|]; [|exists prev'; by rewrite lookup_alter_ne].
  exists prev. by rewrite lookup_alter_eq, H.
Qed.

Lemma head_of_app L R R' : head_of R = head_of R' -> head_of (L ++ R) = head_of (L ++ R').
Proof. by destruct L. Qed.

(** Redirecting the pointer out of an entry. *)
Lemma chain_splice nodes L e R R' :
  NoDup (addrs (L ++ e :: R)) -> chain nodes (L ++ e :: R) ->
  chain nodes R' -> e_addr e ∉ addrs R' ->
  chain (alter (fun n => n <| hn_next := head_of R' |>) (e_addr e) nodes) (L ++ e :: R').
Proof.
  induction L as [|e0 L IH]; cbn [app].
  - intros _ [[prev H] _] HR' He. split; [|by apply chain_alter].
    exists prev. by rewrite lookup_alter_eq, H.
  - intros [Hn0 Hn]%NoDup_cons [[prev H] HL] HR' He. split; [|by apply IH].
    exists prev. rewrite lookup_alter_ne; [rewrite H; by erewrite head_of_app|].
    intros E. apply Hn0. change (e_addr e0 ∈ addrs (L ++ e :: R)). rewrite addrs_app, <- E. set_solver.
Qed.

Lemma chain_set_data nodes L e R d :
  NoDup (addrs (L ++ e :: R)) -> chain nodes (L ++ e :: R) ->
  chain (alter (fun n => n <| hn_data := d |>) (e_addr e) nodes)
    (L ++ Entry (e_addr e) (e_key e) d :: R).
Proof.
  induction L as [|e0 L IH]; cbn [app].
  - intros [Hn _]%NoDup_cons [[prev H] HL]. split; [|by apply chain_alter].
    exists prev. by rewrite lookup_alter_eq, H.
  - intros [Hn0 Hn]%NoDup_cons [[prev H] HL]. split; [|by apply IH].
    exists prev. rewrite lookup_alter_ne; [rewrite H; by erewrite head_of_app|].
    intros E. apply Hn0. change (e_addr e0 ∈ addrs (L ++ e :: R)). rewrite addrs_app, <- E. set_solver.
Qed.

Lemma assoc_None key L : assoc key L = None <-> key ∉ keys L.
Proof.
  induction L as [|e L IH]; cbn; [by split; [intros _ ?%elem_of_nil|]|].
  unfold streq. case_bool_decide as E; rewrite not_elem_of_cons.
  - split; [done|]. intros [? _]. by subst.
  - rewrite IH. naive_solver.
Qed.

Lemma assoc_app key L R :
  assoc key (L ++ R) = match assoc key L with Some d => Some d | None => assoc key R end.
Proof. induction L as [|e L IH]; cbn; [done|]. by destruct (streq _ _). Qed.

Lemma assoc_Some key L d :
  NoDup (keys L) -> assoc key L = Some d <-> exists e, e ∈ L /\ e_pair e = (key, d).
Proof.
  induction L as [|e L IH]; cbn; [by split; [|intros (? & ?%elem_of_nil & _)]|].
  intros [Hk HL]%NoDup_cons. unfold streq. case_bool_decide as E.
  - split; [intros [= <-]; exists e; split; [by left|]; unfold e_pair; by rewrite E|].
    intros (e' & [->|He']%elem_of_cons & [= E1 E2]); [by f_equal|].
    destruct Hk. rewrite E, <- E1. by apply list_elem_of_fmap_2.
  - rewrite IH by done. split; intros (e' & He' & Ee'); exists e'; (split; [|done]); [by right|].
    apply elem_of_cons in He' as [->|]; [|done]. by injection Ee'.
Qed.

(** * The invariant *)

Section table.
Variable char_signed : bool.

(** The row of a key. *)
Definition slot h (key : bytes) : nat :=
  Z.to_nat (hash_chars char_signed (oh_constant h) (oh_initial_seed h) key mod oh_rows h).

Record oh_holds B h : Prop := {
  oh_bound : 0 < oh_rows h <= last_prime;
  oh_length : length B = Z.to_nat (oh_rows h + 1);
  oh_heads : oh_table h = (fun L => Some (head_of L)) <$> B;
  oh_row : forall i L, B !! i = Some L -> row_ok (oh_nodes h) (slot h) i L;
  oh_only : forall p, is_Some (oh_nodes h !! p) -> exists i L, B !! i = Some L /\ p ∈ addrs L;
  oh_below : forall p, is_Some (oh_nodes h !! p) -> (p < oh_fresh h)%nat;
  oh_count : oh_strings h = zlen (concat B);
}.

(** The entries are those of the map. *)
Definition represents m B h : Prop :=
  forall key, m !! key = assoc key (B !!! slot h key).

Lemma slot_bound B h key : oh_holds B h -> (slot h key < length B)%nat.
Proof.
  intros H. rewrite (oh_length _ _ H). unfold slot. pose proof (oh_bound _ _ H).
  pose proof (Z.mod_pos_bound (hash_chars char_signed (oh_constant h) (oh_initial_seed h) key)
    (oh_rows h)). lia.
Qed.

(** Rows have no address in common. *)
Lemma rows_disjoint B h i j L R p :
  oh_holds B h -> B !! i = Some L -> B !! j = Some R -> p ∈ addrs L -> p ∈ addrs R -> i = j.
Proof.
  intros H Hi Hj (e & -> & He)%list_elem_of_fmap (e' & E & He')%list_elem_of_fmap.
  destruct (oh_row _ _ H _ _ Hi) as [HL _ SL], (oh_row _ _ H _ _ Hj) as [HR _ SR].
  rewrite <- (SL e He), <- (SR e' He'). f_equal. exact (chain_same_key _ _ _ _ _ HL HR He He' E).
Qed.

(** Replacing a row: what the operations on one key do. *)
Lemma holds_update B i L L' h h' :
  oh_holds B h -> B !! i = Some L ->
  oh_rows h' = oh_rows h -> slot h' = slot h ->
  oh_table h' = <[i := Some (head_of L')]> (oh_table h) ->
  row_ok (oh_nodes h') (slot h) i L' ->
  (forall p, p ∈ addrs L' -> p ∈ addrs L \/ oh_nodes h !! p = None) ->
  (forall p, p ∉ addrs L' -> p ∈ addrs L /\ oh_nodes h' !! p = None \/
     p ∉ addrs L /\ oh_nodes h' !! p = oh_nodes h !! p) ->
  (forall p, is_Some (oh_nodes h' !! p) -> (p < oh_fresh h')%nat) ->
  oh_strings h' = oh_strings h + (zlen L' - zlen L) ->
  oh_holds (<[i := L']> B) h'.
Proof.
  intros H Hi Er Es Et Hrow Hin Hout Hfr Hstr. assert (Hil : (i < length B)%nat) by (by eapply lookup_lt_Some).
  constructor.
  - rewrite Er. apply H.
  - rewrite length_insert, Er. apply H.
  - rewrite Et, (oh_heads _ _ H), list_fmap_insert. done.
  - intros j R. rewrite Es. destruct (decide (i = j)) as [<-|Hne].
    { rewrite list_lookup_insert_eq by done. by intros [= <-]. }
    rewrite list_lookup_insert_ne by done. intros Hj.
    destruct (oh_row _ _ H _ _ Hj) as [HR Hk HS]. constructor; [|done|done].
    eapply chain_congr; [|exact HR]. intros p Hp.
    destruct (Hout p) as [[HpL _]|[_ E]]; [|destruct Hne; by eapply rows_disjoint|done].
    intros [HpL|E]%Hin; [destruct Hne; by eapply rows_disjoint|].
    destruct (chain_addrs _ _ _ HR Hp) as [n En]. congruence.
  - intros p Hp. destruct (decide (p ∈ addrs L')) as [HpL'|HpL'].
    { exists i, L'. by rewrite list_lookup_insert_eq. }
    destruct (Hout p HpL') as [[_ E]|[HpL E]]; rewrite E in Hp; [by destruct Hp|].
    destruct (oh_only _ _ H p Hp) as (j & R & Hj & HpR). exists j, R.
    rewrite list_lookup_insert_ne; [done|]. intros ->. congruence.
  - done.
  - rewrite Hstr, (oh_count _ _ H). clear - Hi Hil.
    rewrite insert_take_drop by done. rewrite <- (take_drop_middle B i L Hi) at 1.
    rewrite !concat_app. cbn [concat]. rewrite !zlen_app. lia.
Qed.

Lemma represents_update m m' B i L L' h h' :
  represents m B h -> B !! i = Some L -> slot h' = slot h ->
  (forall key, slot h key = i -> m' !! key = assoc key L') ->
  (forall key, slot h key <> i -> m' !! key = m !! key) ->
  represents m' (<[i := L']> B) h'.
Proof.
  intros Hm Hi Es Hin Hout key. rewrite Es. destruct (decide (slot h key = i)) as [E|E].
  - rewrite Hin, E, list_lookup_total_insert_eq; [done|by eapply lookup_lt_Some|done].
  - rewrite Hout, Hm, list_lookup_total_insert_ne; [done|congruence|done].
Qed.

(** * The steps of the operations *)

Lemma wp_hash_node_at p n h (Q : OSHashNode -> OSHash -> Prop) :
  oh_nodes h !! p = Some n -> Q n h -> wp (hash_node_at p) Q h.
Proof. intros H HQ. apply wp_bind, wp_gets. by eapply wp_lift. Qed.

Lemma wp_hash_node_set p f h (Q : unit -> OSHash -> Prop) :
  is_Some (oh_nodes h !! p) ->
  Q tt (h <| oh_nodes := alter f p (oh_nodes h) |>) -> wp (hash_node_set p f) Q h.
Proof. intros [n H] HQ. apply wp_bind. eapply wp_hash_node_at; [done|]. by apply wp_modify. Qed.

Lemma wp_hash_node_free p h (Q : unit -> OSHash -> Prop) :
  is_Some (oh_nodes h !! p) ->
  Q tt (h <| oh_nodes := delete p (oh_nodes h) |>) -> wp (hash_node_free p) Q h.
Proof. intros [n H] HQ. apply wp_bind. eapply wp_hash_node_at; [done|]. by apply wp_modify. Qed.

Lemma wp_row_at i r h (Q : option nat -> OSHash -> Prop) :
  oh_table h !! Z.to_nat i = Some (Some r) -> Q r h -> wp (row_at i) Q h.
Proof. intros H HQ. apply wp_bind, wp_gets. rewrite H. by apply wp_bind. Qed.

Lemma wp_row_set i p h (Q : unit -> OSHash -> Prop) :
  is_Some (oh_table h !! Z.to_nat i) ->
  Q tt (h <| oh_table := <[Z.to_nat i := Some p]> (oh_table h) |>) -> wp (row_set i p) Q h.
Proof. intros [r H] HQ. apply wp_bind, wp_gets. rewrite H. by apply wp_bind, wp_modify. Qed.

Lemma wp_allocated h (Q : bool -> OSHash -> Prop) :
  Q (next (oh_alloc h)) (h <| oh_alloc := advance (oh_alloc h) |>) -> wp allocated Q h.
Proof. done. Qed.

(** A chain fits in the heap. *)
Lemma chain_size nodes L : chain nodes L -> NoDup (addrs L) -> (length L <= size nodes)%nat.
Proof.
  intros Hc Hn. rewrite <- (length_fmap e_addr), <- (size_list_to_set (C := gset nat)) by exact Hn.
  rewrite <- size_dom. apply subseteq_size. intros p. rewrite elem_of_list_to_set, elem_of_dom.
  by apply chain_addrs.
Qed.

Section specs.
Context (B : list (list entry)) (h : OSHash) (H : oh_holds B h).

Lemma row_lookup i : (i < length B)%nat -> B !! i = Some (B !!! i).
Proof. intros Hi. by apply list_lookup_lookup_total_lt. Qed.

Lemma key_row key : row_ok (oh_nodes h) (slot h) (slot h key) (B !!! slot h key).
Proof. eapply oh_row; [exact H|]. by apply row_lookup, slot_bound. Qed.

Lemma head_lookup i : (i < length B)%nat -> oh_table h !! i = Some (Some (head_of (B !!! i))).
Proof. intros Hi. by rewrite (oh_heads _ _ H), list_lookup_fmap, row_lookup. Qed.

(** The row of a key is read. *)
Lemma get_index_spec {A} key (f : Z -> HT A) (Q : A -> OSHash -> Prop) :
  (forall i, Z.to_nat i = slot h key -> wp (f i) Q h) ->
  wp (index ← OSHash_GetIndex char_signed key; f index) Q h.
Proof.
  intros HQ. unfold OSHash_GetIndex, _os_genhash. apply wp_bind, wp_bind, wp_gets, wp_bind, wp_gets.
  pose proof (oh_bound _ _ H). destruct (Z.eqb_spec (oh_rows h) 0); [lia|]. by apply wp_ret, HQ.
Qed.

Lemma key_row_spec {A} i key (f : option nat -> HT A) (Q : A -> OSHash -> Prop) :
  Z.to_nat i = slot h key -> wp (f (head_of (B !!! slot h key))) Q h ->
  wp (cur ← row_at i; f cur) Q h.
Proof.
  intros Hi HQ. apply wp_bind. eapply wp_row_at; [|exact HQ].
  by rewrite Hi, head_lookup by by apply slot_bound.
Qed.
End specs.

(** Searching a chain: the entry with the key, and the address before it. *)
Definition found_at (key : bytes) L (r : option (option nat * nat)) : Prop :=
  match r with
  | None => key ∉ keys L
  | Some (prev, p) =>
      exists L1 e L2, L = L1 ++ e :: L2 /\ e_key e = key /\ p = e_addr e /\
        prev = e_addr <$> last L1
  end.

Lemma find_in_row_spec key L h (Q : option (option nat * nat) -> OSHash -> Prop) :
  chain (oh_nodes h) L -> NoDup (addrs L) ->
  (forall r, found_at key L r -> Q r h) ->
  wp (find_in_row (head_of L) key) Q h.
Proof.
  intros Hc Hn HQ. apply wp_bind, wp_gets.
  apply (wp_loop_nat (fun n '(prev, cur) h' => h' = h /\ exists L1 L2, L = L1 ++ L2 /\
    n = length L2 /\ cur = head_of L2 /\ prev = e_addr <$> last L1 /\ key ∉ keys L1))
    with (n := length L).
  - split; [done|]. exists [], L. split_and!; try done. by intros ?%elem_of_nil.
  - pose proof (chain_size _ _ Hc Hn). lia.
  - intros n [prev cur] h' (-> & L1 & L2 & -> & -> & -> & -> & Hk).
    destruct L2 as [|e L2]; cbn [head_of head fmap option_fmap option_map].
    { apply wp_ret, HQ. by rewrite app_nil_r. }
    apply chain_app in Hc as [[prev Hp] _]. apply wp_bind. eapply wp_hash_node_at; [exact Hp|].
    apply wp_bind. cbn [key_matches hn_key]. apply wp_ret. unfold streq. case_bool_decide as E.
    + apply wp_ret, HQ. by exists L1, e, L2.
    + apply wp_ret. exists (length L2). split; [cbn; lia|]. split; [done|].
      exists (L1 ++ [e]), L2. rewrite <- app_assoc, last_snoc. split_and!; try done.
      unfold keys in *. rewrite fmap_app. set_solver.
Qed.

(** * The operations on a key *)

Lemma row_addrs nodes f i L : row_ok nodes f i L -> NoDup (addrs L).
Proof. intros [Hc Hk _]. by eapply chain_nodup. Qed.

(** The data of an entry is replaced. *)
Lemma holds_set_data B h key L1 e L2 d :
  oh_holds B h -> B !!! slot h key = L1 ++ e :: L2 ->
  oh_holds (<[slot h key := L1 ++ Entry (e_addr e) (e_key e) d :: L2]> B)
    (h <| oh_nodes := alter (fun n => n <| hn_data := d |>) (e_addr e) (oh_nodes h) |>).
Proof.
  intros H EL. pose proof (key_row _ _ H key) as Hrow. rewrite EL in Hrow.
  assert (Hi : B !! slot h key = Some (L1 ++ e :: L2)) by (rewrite <- EL; by apply row_lookup, slot_bound).
  assert (Ea : addrs (L1 ++ Entry (e_addr e) (e_key e) d :: L2) = addrs (L1 ++ e :: L2))
    by (unfold addrs; by rewrite !fmap_app).
  assert (He : e_addr e ∈ addrs (L1 ++ e :: L2)).
  { unfold addrs. rewrite fmap_app. set_solver. }
  eapply holds_update; [exact H|exact Hi|done|done| | | | | |]; oh_simpl.
  - rewrite list_insert_id; [done|]. rewrite (head_lookup _ _ H) by by apply slot_bound.
    rewrite EL. by erewrite (head_of_app L1).
  - destruct Hrow as [Hc Hk HS]. constructor.
    + apply chain_set_data; [by eapply chain_nodup|done].
    + unfold keys in *. by rewrite fmap_app in *.
    + intros e'. rewrite elem_of_app, elem_of_cons. intros [?|[->|?]];
        [apply HS|apply (HS e)|apply HS]; rewrite elem_of_app, elem_of_cons; tauto.
  - rewrite Ea. tauto.
  - intros p. rewrite Ea. intros Hp. right. split; [done|]. apply lookup_alter_ne. by intros <-.
  - intros p Hp. apply (oh_below _ _ H). destruct (decide (p = e_addr e)) as [->|].
    + eapply chain_addrs; [apply Hrow|done].
    + by rewrite lookup_alter_ne in Hp.
  - rewrite !zlen_app, !zlen_cons. lia.
Qed.

(** A new entry comes first in its row. *)
Lemma holds_add B h key d nodes :
  oh_holds B h -> assoc key (B !!! slot h key) = None ->
  (exists prev, nodes !! oh_fresh h
     = Some (HashNode (head_of (B !!! slot h key)) prev (Some key) d)) ->
  chain nodes (B !!! slot h key) ->
  (forall p, p ∉ addrs (B !!! slot h key) -> p <> oh_fresh h -> nodes !! p = oh_nodes h !! p) ->
  (forall p, is_Some (nodes !! p) -> p <> oh_fresh h -> is_Some (oh_nodes h !! p)) ->
  forall h', oh_rows h' = oh_rows h -> slot h' = slot h -> oh_nodes h' = nodes ->
  oh_table h' = <[slot h key := Some (Some (oh_fresh h))]> (oh_table h) ->
  oh_fresh h' = S (oh_fresh h) -> oh_strings h' = oh_strings h + 1 ->
  oh_holds (<[slot h key := Entry (oh_fresh h) key d :: B !!! slot h key]> B) h'.
Proof.
  intros H Hnew Hn Hc Hout Hall h' Er Es En Et Ef Estr.
  pose proof (key_row _ _ H key) as Hrow.
  assert (Hfresh : oh_nodes h !! oh_fresh h = None).
  { destruct (oh_nodes h !! oh_fresh h) eqn:E; [|done].
    assert (oh_fresh h < oh_fresh h)%nat; [by eapply oh_below|lia]. }
  eapply holds_update; [exact H|by apply row_lookup, slot_bound|done|done|done| | | | |].
  - destruct Hrow as [_ Hk HS]. rewrite En. constructor.
    + by split.
    + unfold keys. cbn. apply NoDup_cons. split; [by apply assoc_None|done].
    + intros e' [->|He']%elem_of_cons; [done|by apply HS].
  - intros p [->|Hp]%elem_of_cons; [by right|by left].
  - intros p. cbn. rewrite not_elem_of_cons. intros [Hp1 Hp2]. right. split; [done|].
    rewrite En. by apply Hout.
  - intros p. rewrite En, Ef. intros Hp. destruct (decide (p = oh_fresh h)) as [->|Hne]; [lia|].
    specialize (Hall p Hp Hne). apply (oh_below _ _ H) in Hall. lia.
  - rewrite Estr, zlen_cons. lia.
Qed.
(** An entry is unlinked and freed. *)
Lemma holds_remove B h key L1 e L2 h' :
  oh_holds B h -> B !!! slot h key = L1 ++ e :: L2 ->
  chain (oh_nodes h') (L1 ++ L2) -> oh_nodes h' !! e_addr e = None ->
  (forall p, p ∉ addrs (L1 ++ e :: L2) -> oh_nodes h' !! p = oh_nodes h !! p) ->
  oh_rows h' = oh_rows h -> slot h' = slot h ->
  oh_table h' = <[slot h key := Some (head_of (L1 ++ L2))]> (oh_table h) ->
  oh_fresh h' = oh_fresh h -> oh_strings h' = oh_strings h - 1 ->
  oh_holds (<[slot h key := L1 ++ L2]> B) h'.
Proof.
  intros H EL Hc He Hout Er Es Et Ef Estr. pose proof (key_row _ _ H key) as Hrow.
  rewrite EL in Hrow. pose proof (row_addrs _ _ _ _ Hrow) as Hn.
  assert (Hsub : forall p, p ∈ addrs (L1 ++ e :: L2) <-> p = e_addr e \/ p ∈ addrs (L1 ++ L2)).
  { intros p. rewrite !addrs_app. cbn. set_solver. }
  assert (Hi : B !! slot h key = Some (L1 ++ e :: L2)) by (rewrite <- EL; by apply row_lookup, slot_bound).
  eapply holds_update; [exact H|exact Hi|done|done|done| | | | |].
  - destruct Hrow as [_ Hk HS]. constructor; [done| |].
    + assert (NoDup (keys (e :: L1 ++ L2))) as [_ ?]%NoDup_cons; [|done].
      unfold keys. by rewrite Permutation_middle.
    + intros e'. rewrite elem_of_app. intros He'. apply HS. rewrite elem_of_app, elem_of_cons. tauto.
  - intros p Hp. left. apply Hsub. by right.
  - intros p Hp. destruct (decide (p = e_addr e)) as [->|Hne].
    + left. split; [apply Hsub; by left|done].
    + assert (p ∉ addrs (L1 ++ e :: L2)) by (rewrite Hsub; tauto). right. split; [done|]. by apply Hout.
  - intros p Hp. rewrite Ef. apply (oh_below _ _ H).
    destruct (decide (p ∈ addrs (L1 ++ e :: L2))) as [Hin|Hin]; [eapply chain_addrs; [apply Hrow|done]|].
    by rewrite <- Hout.
  - rewrite Estr, !zlen_app, zlen_cons. lia.
Qed.
End table.

(** * The abstract table

    [sp_dropped] are the entries that resizing has dropped without counting them off;
    [sp_freed] is the data given to the free function, up to its order. *)

Record oh_spec := Spec {
  sp_map : gmap bytes Z;
  sp_dropped : Z;
  sp_rows : Z;
  sp_free : bool;
  sp_alloc : oracle bool;
  sp_freed : list Z;
}.
#[export] Instance eta_oh_spec : Eta oh_spec := fun s =>
  Spec (sp_map s) (sp_dropped s) (sp_rows s) (sp_free s) (sp_alloc s) (sp_freed s).

Inductive oh_op :=
| OpAdd (key : bytes) (data : Z)
| OpSet (key : bytes) (data : Z)
| OpUpdate (key : bytes) (data : Z)
| OpGet (key : bytes)
| OpDelete (key : bytes)
| OpElements
| OpResize (new_size : Z)
| OpFreeData (set : bool).

(** The data that is given to the free function, if it is set. *)
Definition releases (set : bool) (data : list Z) : list Z :=
  if set then filter (fun d => d <> 0) data else [].

(** A key that is not there is added if both allocations, of the node and of the copy
    of the key, succeed. *)
Definition spec_add (key : bytes) (data : Z) (s : oh_spec) : Z * oh_spec :=
  let s1 := s <| sp_alloc := advance (sp_alloc s) |> in
  if negb (next (sp_alloc s)) then (0, s1) else
  let s2 := s1 <| sp_alloc := advance (sp_alloc s1) |> in
  if negb (next (sp_alloc s1)) then (0, s2) else
  (2, s2 <| sp_map := <[key := data]> (sp_map s) |>).

(** [None] is a resize that breaks the table: its allocation fails, or no prime of 32
    bits is large enough. *)
Definition spec_op (o : oh_op) (s : oh_spec) : option (Z * oh_spec) :=
  match o with
  | OpAdd key data =>
      Some match sp_map s !! key with Some _ => (1, s) | None => spec_add key data s end
  | OpSet key data =>
      Some match sp_map s !! key with
           | Some _ => (1, s <| sp_map := <[key := data]> (sp_map s) |>)
           | None => spec_add key data s
           end
  | OpUpdate key data =>
      Some match sp_map s !! key with
           | Some old => (1, s <| sp_map := <[key := data]> (sp_map s) |>
                               <| sp_freed := sp_freed s ++ releases (sp_free s) [old] |>)
           | None => (0, s)
           end
  | OpGet key => Some (default 0 (sp_map s !! key), s)
  | OpDelete key =>
      Some (default 0 (sp_map s !! key), s <| sp_map := delete key (sp_map s) |>)
  | OpElements => Some (u32 (Z.of_nat (size (sp_map s)) + sp_dropped s), s)
  | OpResize new_size =>
      if new_size <=? sp_rows s then Some (1, s) else
      if (last_prime <? new_size) || negb (next (sp_alloc s)) then None else
      rows ← os_getprime new_size;
      Some (1, Spec ∅ (sp_dropped s + Z.of_nat (size (sp_map s))) rows (sp_free s)
        (advance (sp_alloc s))
        (sp_freed s ++ releases (sp_free s) (snd <$> map_to_list (sp_map s))))
  | OpFreeData set => Some (1, s <| sp_free := set |>)
  end.

Fixpoint spec_run (ops : list oh_op) (s : oh_spec) : option (list Z * oh_spec) :=
  match ops with
  | [] => Some ([], s)
  | o :: ops =>
      '(a, s) ← spec_op o s;
      '(answers, s) ← spec_run ops s;
      Some (a :: answers, s)
  end.

Definition oh_run_op (char_signed : bool) (o : oh_op) : HT Z :=
  match o with
  | OpAdd key data => OSHash_Add_ex char_signed key data
  | OpSet key data => OSHash_Set_ex char_signed key data
  | OpUpdate key data => OSHash_Update_ex char_signed key data
  | OpGet key => OSHash_Get_ex char_signed key
  | OpDelete key => OSHash_Delete_ex char_signed key
  | OpElements => OSHash_Get_Elem_ex
  | OpResize new_size => OSHash_setSize_ex new_size
  | OpFreeData set => OSHash_SetFreeDataPointer set
  end.

Fixpoint oh_run (char_signed : bool) (ops : list oh_op) : HT (list Z) :=
  match ops with
  | [] => mret []
  | o :: ops => a ← oh_run_op char_signed o; answers ← oh_run char_signed ops; mret (a :: answers)
  end.

(** The table implements the abstract one. *)
Record implements (char_signed : bool) B (s : oh_spec) h : Prop := {
  im_holds : oh_holds char_signed B h;
  im_map : represents char_signed (sp_map s) B h;
  im_elements : oh_elements h = u32 (Z.of_nat (size (sp_map s)) + sp_dropped s);
  im_rows : oh_rows h = sp_rows s;
  im_free : oh_free_data h = sp_free s;
  im_alloc : oh_alloc h = sp_alloc s;
  im_freed : oh_freed h ≡ₚ sp_freed s;
  im_blocks : oh_blocks h = 2;
}.

(** * Freeing *)

Fixpoint drop_nodes L nodes : gmap nat OSHashNode :=
  match L with [] => nodes | e :: L => drop_nodes L (delete (e_addr e) nodes) end.

(** The entries [L] are gone; [set] says whether their data went to the free function. *)
Definition after_free (set : bool) L h : OSHash :=
  h <| oh_nodes := drop_nodes L (oh_nodes h) |>
    <| oh_strings := oh_strings h - zlen L |>
    <| oh_freed := oh_freed h ++ releases set (e_data <$> L) |>.

Lemma drop_nodes_app L R nodes : drop_nodes (L ++ R) nodes = drop_nodes R (drop_nodes L nodes).
Proof. revert nodes. induction L as [|e L IH]; intros nodes; cbn; [done|]. by rewrite IH. Qed.

Lemma drop_nodes_in L nodes p : p ∈ addrs L -> drop_nodes L nodes !! p = None.
Proof.
  revert nodes. induction L as [|e L IH]; intros nodes; [by intros ?%elem_of_nil|]. cbn.
  destruct (decide (p ∈ addrs L)) as [Hp|Hp]; [by intros _; apply IH|].
  intros [->|?]%elem_of_cons; [|done]. clear IH. revert nodes Hp.
  induction L as [|e' L IH]; intros nodes Hp; cbn; [apply lookup_delete_eq|].
  cbn in Hp. apply not_elem_of_cons in Hp as [Hne Hp].
  rewrite delete_delete by congruence. by apply IH.
Qed.

Lemma drop_nodes_out L nodes p : p ∉ addrs L -> drop_nodes L nodes !! p = nodes !! p.
Proof.
  revert nodes. induction L as [|e L IH]; intros nodes; [done|]. cbn.
  intros [Hne Hp]%not_elem_of_cons. rewrite IH by done. by apply lookup_delete_ne.
Qed.

Lemma releases_app set l l' : releases set (l ++ l') = releases set l ++ releases set l'.
Proof. destruct set; [apply filter_app|done]. Qed.

Lemma after_free_nil set h : after_free set [] h = h.
Proof.
  unfold after_free, releases. destruct h. oh_simpl. cbn [fmap list_fmap drop_nodes].
  f_equal; [zlia|]. destruct set; rewrite ?filter_nil; apply app_nil_r.
Qed.

Lemma after_free_app set L R h : after_free set (L ++ R) h = after_free set R (after_free set L h).
Proof.
  unfold after_free. oh_simpl. rewrite drop_nodes_app, fmap_app, releases_app, zlen_app, app_assoc.
  by rewrite Z.sub_add_distr.
Qed.

Lemma free_data_spec d h (Q : unit -> OSHash -> Prop) :
  Q tt (h <| oh_freed := oh_freed h ++ releases (oh_free_data h) [d] |>) -> wp (free_data d) Q h.
Proof.
  intros HQ. apply wp_bind, wp_gets. unfold releases in HQ.
  assert (E : h <| oh_freed := oh_freed h ++ [] |> = h) by (destruct h; oh_simpl; by rewrite app_nil_r).
  destruct (oh_free_data h); [|rewrite andb_false_r; apply wp_ret; by rewrite E in HQ].
  rewrite filter_cons, filter_nil in HQ.
  destruct (Z.eqb_spec d 0) as [->|Hd]; cbn [negb andb].
  - apply wp_ret. rewrite decide_False in HQ by (by intros []). by rewrite E in HQ.
  - apply wp_modify. by rewrite decide_True in HQ by done.
Qed.

Lemma free_row_spec L h (Q : unit -> OSHash -> Prop) :
  chain (oh_nodes h) L -> NoDup (addrs L) -> Q tt (after_free (oh_free_data h) L h) ->
  wp (free_row (head_of L)) Q h.
Proof.
  intros Hc Hn HQ. apply wp_bind, wp_gets.
  apply (wp_loop_nat (fun n cur h' => exists L1 L2, L = L1 ++ L2 /\ n = length L2 /\
    cur = head_of L2 /\ h' = after_free (oh_free_data h) L1 h /\ chain (oh_nodes h') L2))
    with (n := length L).
  - exists [], L. by rewrite after_free_nil.
  - pose proof (chain_size _ _ Hc Hn). lia.
  - intros n cur h' (L1 & L2 & -> & -> & -> & -> & Hc').
    destruct L2 as [|e L2]; cbn [head_of head fmap option_fmap option_map].
    { apply wp_ret. by rewrite app_nil_r in HQ. }
    destruct Hc' as [[prev Hp] Hc'].
    assert (He : e_addr e ∉ addrs L2).
    { rewrite addrs_app in Hn. by apply NoDup_app in Hn as (_ & _ & [? _]%NoDup_cons). }
    apply wp_bind. eapply wp_hash_node_at; [exact Hp|]. cbn [hn_key hn_data hn_next].
    apply wp_bind, wp_modify, wp_bind, free_data_spec, wp_bind, wp_hash_node_free; [by eexists|].
    apply wp_ret. exists (length L2). split; [cbn; lia|]. exists (L1 ++ [e]), L2.
    rewrite <- app_assoc. split_and!; [done|done|done| |by apply chain_delete].
    by rewrite after_free_app.
Qed.

Lemma free_rows_spec B i h (Q : unit -> OSHash -> Prop) :
  (forall j L, B !! j = Some L -> oh_table h !! (i + j)%nat = Some (Some (head_of L))) ->
  Forall (chain (oh_nodes h)) B -> NoDup (addrs (concat B)) ->
  Q tt (after_free (oh_free_data h) (concat B) h) ->
  wp (free_rows i (length B)) Q h.
Proof.
  revert i h. induction B as [|L B IH]; intros i h Ht Hc Hn HQ.
  { apply wp_ret. by rewrite after_free_nil in HQ. }
  cbn [length free_rows concat] in *. rewrite addrs_app in Hn. apply NoDup_app in Hn as (HnL & Hd & HnB).
  apply Forall_cons in Hc as [HcL HcB]. apply wp_bind. eapply wp_row_at.
  { rewrite Nat2Z.id. specialize (Ht 0%nat L eq_refl). by rewrite Nat.add_0_r in Ht. }
  apply wp_bind, free_row_spec; [done|done|]. apply IH; [| |done|by rewrite after_free_app in HQ].
  - intros j R Hj. specialize (Ht (S j) R Hj). by rewrite <- plus_n_Sm in Ht.
  - rewrite Forall_forall in *. intros R HR. eapply chain_congr; [|by apply HcB]. intros p Hp.
    oh_simpl. apply drop_nodes_out. intros HpL. apply (Hd p HpL).
    apply list_elem_of_fmap in Hp as (e & -> & He). apply list_elem_of_fmap_2, elem_of_concat. by exists R.
Qed.

(** * The whole table *)

Section contents.
Context (char_signed : bool) (B : list (list entry)) (h : OSHash) (H : oh_holds char_signed B h).

Lemma concat_entry e : e ∈ concat B -> B !! slot char_signed h (e_key e) = Some (B !!! slot char_signed h (e_key e))
  /\ e ∈ B !!! slot char_signed h (e_key e).
Proof.
  intros (L & He & (i & Hi)%list_elem_of_lookup)%elem_of_concat.
  destruct (oh_row _ _ _ H i L Hi) as [_ _ HS]. rewrite (HS e He).
  by rewrite (list_lookup_total_correct _ _ _ Hi).
Qed.

Lemma rows_nodup (f : bytes -> nat) B' off :
  (forall i L, B' !! i = Some L -> NoDup (keys L) /\ forall e, e ∈ L -> f (e_key e) = (off + i)%nat) ->
  NoDup (keys (concat B')).
Proof.
  revert off. induction B' as [|L B' IH]; intros off HB; [constructor|]. cbn [concat].
  rewrite keys_app. destruct (HB 0%nat L eq_refl) as [Hn HL]. apply NoDup_app. split_and!; [done| |].
  - intros key (e & -> & He)%list_elem_of_fmap
      (e' & E & (R & He' & (i & Hi)%list_elem_of_lookup)%elem_of_concat)%list_elem_of_fmap.
    destruct (HB (S i) R Hi) as [_ HR]. specialize (HL e He). specialize (HR e' He').
    rewrite E in HL. lia.
  - apply (IH (S off)). intros i R Hi. destruct (HB (S i) R Hi) as [? HR]. split; [done|].
    intros e He. rewrite HR by done. lia.
Qed.

Lemma concat_keys : NoDup (keys (concat B)).
Proof.
  apply (rows_nodup (slot char_signed h) B 0). intros i L Hi.
  by destruct (oh_row _ _ _ H i L Hi).
Qed.

Lemma concat_addrs : NoDup (addrs (concat B)).
Proof.
  apply NoDup_fmap_2_strong with (f := e_addr); [|eapply NoDup_fmap_1, concat_keys].
  intros e e' [He1 He2]%concat_entry [He1' He2']%concat_entry E.
  destruct (oh_row _ _ _ H _ _ He1) as [Hc _ _], (oh_row _ _ _ H _ _ He1') as [Hc' Hk' _].
  pose proof (chain_same_key _ _ _ _ _ Hc Hc' He2 He2' E) as Ek. rewrite Ek in He2.
  destruct (assoc_Some (e_key e') _ (e_data e) Hk') as [_ H1].
  destruct (assoc_Some (e_key e') _ (e_data e') Hk') as [_ H2].
  assert (Some (e_data e) = Some (e_data e')) as [= Ed].
  { rewrite <- H1, <- H2; [done|by exists e'|exists e; split; [done|]]. unfold e_pair. by rewrite Ek. }
  destruct e, e'. cbn in *. by subst.
Qed.

Lemma concat_only p : is_Some (oh_nodes h !! p) -> p ∈ addrs (concat B).
Proof.
  intros (i & L & Hi & (e & -> & He)%list_elem_of_fmap)%(oh_only _ _ _ H). apply list_elem_of_fmap_2.
  apply elem_of_concat. exists L. split; [done|]. by eapply list_elem_of_lookup_2.
Qed.

Lemma contents m : represents char_signed m B h -> map_to_list m ≡ₚ e_pair <$> concat B.
Proof.
  intros Hm. apply NoDup_Permutation.
  - apply NoDup_map_to_list.
  - apply (NoDup_fmap_1 fst). rewrite <- list_fmap_compose. exact concat_keys.
  - intros [key d]. rewrite elem_of_map_to_list, Hm, assoc_Some by apply (key_row _ _ _ H key).
    rewrite list_elem_of_fmap. split.
    + intros (e & He & Ee). exists e. split; [done|]. apply elem_of_concat.
      eexists. split; [exact He|]. apply list_elem_of_lookup. eexists. by apply row_lookup, slot_bound.
    + intros (e & Ee & [_ He]%concat_entry). exists e. split; [|done]. by injection Ee as -> _.
Qed.
End contents.

Section refinement.
Variable char_signed : bool.
Implicit Types s : oh_spec.

Abbreviation refines s' := (fun h' => exists B', implements char_signed B' s' h').

(** The map after a change of the entry of [key], when the row is [L']. *)
Lemma represents_key m m' B h h' key L' v :
  oh_holds char_signed B h -> represents char_signed m B h ->
  slot char_signed h' = slot char_signed h ->
  m' = partial_alter (fun _ => v) key m ->
  (forall k, assoc k L' = if decide (k = key) then v else assoc k (B !!! slot char_signed h key)) ->
  represents char_signed m' (<[slot char_signed h key := L']> B) h'.
Proof.
  intros H Hm Es -> Ha. eapply represents_update; [exact Hm| |done| |].
  - by apply row_lookup, slot_bound.
  - intros k Ek. rewrite Ha. destruct (decide (k = key)) as [->|Hne].
    + by rewrite lookup_partial_alter_eq.
    + rewrite lookup_partial_alter_ne by done. by rewrite Hm, Ek.
  - intros k Ek. apply lookup_partial_alter_ne. intros ->. done.
Qed.

Lemma assoc_middle key L1 e L2 d k :
  e_key e = key -> NoDup (keys (L1 ++ e :: L2)) ->
  assoc k (L1 ++ Entry (e_addr e) (e_key e) d :: L2)
  = if decide (k = key) then Some d else assoc k (L1 ++ e :: L2).
Proof.
  intros E Hn. rewrite !assoc_app. cbn [assoc e_key e_data]. unfold streq.
  rewrite keys_app in Hn. apply NoDup_app in Hn as (_ & Hn & _). destruct (decide (k = key)) as [->|Hne].
  - rewrite E, bool_decide_true by done. rewrite (proj2 (assoc_None key L1)); [done|].
    intros Hk. apply (Hn _ Hk). rewrite <- E. by left.
  - by rewrite !bool_decide_false by congruence.
Qed.

Lemma assoc_here key L1 e L2 :
  e_key e = key -> NoDup (keys (L1 ++ e :: L2)) -> assoc key (L1 ++ e :: L2) = Some (e_data e).
Proof.
  intros E Hn. apply assoc_Some; [done|]. exists e. unfold e_pair. rewrite E.
  split; [|done]. rewrite elem_of_app. right. by left.
Qed.

Lemma assoc_removed key L1 e L2 k :
  e_key e = key -> NoDup (keys (L1 ++ e :: L2)) ->
  assoc k (L1 ++ L2) = if decide (k = key) then None else assoc k (L1 ++ e :: L2).
Proof.
  intros E Hn. destruct (decide (k = key)) as [->|Hne].
  - apply assoc_None. assert (NoDup (keys (e :: L1 ++ L2))) as [Hk _]%NoDup_cons
      by (unfold keys; by rewrite Permutation_middle).
    by rewrite <- E.
  - rewrite !assoc_app. cbn [assoc]. unfold streq. by rewrite bool_decide_false by congruence.
Qed.

Lemma find_key_spec key B h (Q : option (option nat * nat) -> OSHash -> Prop) :
  oh_holds char_signed B h ->
  (forall r, found_at key (B !!! slot char_signed h key) r -> Q r h) ->
  wp (find_in_row (head_of (B !!! slot char_signed h key)) key) Q h.
Proof.
  intros H HQ. pose proof (key_row _ _ _ H key) as Hrow.
  apply find_in_row_spec; [apply Hrow|by eapply row_addrs|done].
Qed.

(** ** Looking up *)

Lemma hash_get_spec key B s h (Q : Z -> OSHash -> Prop) :
  implements char_signed B s h -> Q (default 0 (sp_map s !! key)) h ->
  wp (OSHash_Get char_signed key) Q h.
Proof.
  intros Hi HQ. pose proof (im_holds _ _ _ _ Hi) as H. rewrite (im_map _ _ _ _ Hi) in HQ.
  apply (get_index_spec _ B); [done|]. intros i Ei. apply (key_row_spec _ B _ H _ key); [done|].
  pose proof (key_row _ _ _ H key) as Hrow. set (L := B !!! _) in *.
  apply wp_bind, wp_gets.
  apply (wp_loop_nat (fun n cur h' => h' = h /\ exists L1 L2, L = L1 ++ L2 /\
    n = length L2 /\ cur = head_of L2 /\ assoc key L1 = None)) with (n := length L).
  - split; [done|]. by exists [], L.
  - pose proof (chain_size _ _ (row_chain _ _ _ _ Hrow) (row_addrs _ _ _ _ Hrow)). lia.
  - intros n cur h' (-> & L1 & L2 & EL & -> & -> & Hk). rewrite EL, assoc_app, Hk in HQ.
    destruct L2 as [|e L2]; [by apply wp_ret|]. destruct Hrow as [Hc _ _]. rewrite EL in Hc.
    apply chain_app in Hc as [[prev Hp] _]. apply wp_bind. eapply wp_hash_node_at; [exact Hp|].
    cbn [hn_key assoc] in *. destruct (streq (e_key e) key) eqn:E; [by apply wp_ret|].
    apply wp_ret. exists (length L2). split; [cbn; lia|]. split; [done|].
    exists (L1 ++ [e]), L2. rewrite <- app_assoc, assoc_app, Hk. cbn [assoc]. by rewrite E.
Qed.

(** ** Changing the data of a key *)

Lemma set_data_implements key L1 e L2 d B s h fl fr :
  implements char_signed B s h -> B !!! slot char_signed h key = L1 ++ e :: L2 -> e_key e = key ->
  fl ≡ₚ sp_freed s ++ fr ->
  refines (s <| sp_map := <[key := d]> (sp_map s) |> <| sp_freed := sp_freed s ++ fr |>)
    (h <| oh_freed := fl |>
       <| oh_nodes := alter (fun n => n <| hn_data := d |>) (e_addr e) (oh_nodes h) |>).
Proof.
  intros [H Hm He Hr Hfree Ha Hf Hbl] EL Ek Hfl. pose proof (key_row _ _ _ H key) as [_ Hk _].
  rewrite EL in Hk.
  exists (<[slot char_signed h key := L1 ++ Entry (e_addr e) (e_key e) d :: L2]> B).
  constructor; oh_simpl; cbn [update eta_oh_spec sp_map sp_dropped sp_rows sp_free sp_alloc sp_freed];
    try done.
  - destruct (holds_set_data _ _ _ key L1 e L2 d H EL). by constructor.
  - eapply represents_key; [exact H|exact Hm|done|done|]. intros k. rewrite EL.
    by apply assoc_middle.
  - rewrite map_size_insert_Some; [done|].
    rewrite Hm, EL, assoc_here by done. by eexists.
Qed.
Lemma hash_update_spec key d B s h (Q : Z -> OSHash -> Prop) :
  implements char_signed B s h ->
  match spec_op (OpUpdate key d) s with
  | Some (a, s') => forall h', refines s' h' -> Q a h'
  | None => True
  end ->
  wp (OSHash_Update char_signed key d) Q h.
Proof.
  intros Hi HQ. pose proof (im_holds _ _ _ _ Hi) as H.
  apply (get_index_spec _ B); [done|]. intros i Ei. apply (key_row_spec _ B _ H _ key); [done|].
  apply wp_bind, (find_key_spec _ B); [done|].
  pose proof (key_row _ _ _ H key) as [Hc Hk _]. cbn [spec_op] in HQ.
  rewrite (im_map _ _ _ _ Hi) in HQ.
  intros [[prev p]|] Hf; cbn [found_at] in Hf.
  - destruct Hf as (L1 & e & L2 & EL & Ee & -> & _). rewrite EL in *.
    rewrite assoc_here in HQ by done. pose proof (chain_app _ _ _ Hc) as [[prev' Hp] _].
    apply wp_bind. eapply wp_hash_node_at; [exact Hp|]. cbn [hn_data].
    apply wp_bind, free_data_spec, wp_bind, wp_hash_node_set; [by eexists|]. apply wp_ret, HQ.
    refine (set_data_implements key L1 e L2 d B s h (oh_freed h ++ _) _ Hi EL Ee _).
    rewrite (im_free _ _ _ _ Hi). by rewrite (im_freed _ _ _ _ Hi).
  - rewrite (proj2 (assoc_None key _)) in HQ by done. apply wp_ret, HQ. by exists B.
Qed.

(** ** Adding *)

Lemma alloc_implements B s h :
  implements char_signed B s h ->
  next (oh_alloc h) = next (sp_alloc s) /\
  implements char_signed B (s <| sp_alloc := advance (sp_alloc s) |>)
    (h <| oh_alloc := advance (oh_alloc h) |>).
Proof.
  intros [[] Hm He Hr Hfree Ha Hf Hbl]. rewrite Ha. split; [done|]. by split.
Qed.

Lemma link_new_implements key d B s h h' el :
  implements char_signed B s h -> sp_map s !! key = None ->
  oh_holds char_signed (<[slot char_signed h key := Entry (oh_fresh h) key d
    :: B !!! slot char_signed h key]> B) h' ->
  slot char_signed h' = slot char_signed h ->
  oh_elements h' = el -> el = u32 (oh_elements h + 1) -> oh_rows h' = oh_rows h ->
  oh_free_data h' = oh_free_data h -> oh_alloc h' = oh_alloc h -> oh_freed h' = oh_freed h ->
  oh_blocks h' = oh_blocks h ->
  refines (s <| sp_map := <[key := d]> (sp_map s) |>) h'.
Proof.
  intros [H Hm He Hr Hfree Ha Hf Hbl] Hnew H' Es E1 E2 Er Ef Eal Efr Ebl. eexists. constructor;
    [exact H'| | |cbn; congruence|cbn; congruence|cbn; congruence|by rewrite Efr|congruence].
  - eapply represents_key; [exact H|exact Hm|done|done|]. intros k. cbn [assoc e_key e_data].
    unfold streq. destruct (decide (k = key)) as [->|]; [by rewrite bool_decide_true|].
    by rewrite bool_decide_false by congruence.
  - cbn [sp_map sp_dropped update eta_oh_spec]. rewrite E1, E2, He, uwrap_add_l.
    rewrite map_size_insert_None by done. f_equal. lia.
Qed.

(** The part of [_OSHash_Add] after its allocations. *)
Definition link_new (key : bytes) (data index : Z) : HT Z :=
  new_node ← hash_node_new (Some key) data;
  _ ← add_strings 1;
  row ← row_at index;
  _ ← match row with
      | None => row_set index (Some new_node)
      | Some first =>
          _ ← hash_node_set new_node (fun n => n <| hn_next := Some first |>);
          _ ← hash_node_set first (fun n => n <| hn_prev := Some new_node |>);
          row_set index (Some new_node)
      end;
  _ ← modify (fun h => h <| oh_elements := u32 (oh_elements h + 1) |>);
  mret 2.

Lemma link_new_spec key d i B s h (Q : Z -> OSHash -> Prop) :
  implements char_signed B s h -> Z.to_nat i = slot char_signed h key -> sp_map s !! key = None ->
  (forall h', refines (s <| sp_map := <[key := d]> (sp_map s) |>) h' -> Q 2 h') ->
  wp (link_new key d i) Q h.
Proof.
  intros Hi Ei Hnew HQ. pose proof (im_holds _ _ _ _ Hi) as H.
  pose proof (key_row _ _ _ H key) as Hrow. pose proof (slot_bound _ _ _ key H) as Hsl.
  pose proof (head_lookup _ _ _ H _ Hsl) as Hhead.
  assert (Habs : assoc key (B !!! slot char_signed h key) = None) by (by rewrite <- (im_map _ _ _ _ Hi)).
  set (L := B !!! slot char_signed h key) in *.
  assert (Hfresh : forall p, p ∈ addrs L -> p <> oh_fresh h).
  { intros p Hp ->. assert (oh_fresh h < oh_fresh h)%nat; [|lia].
    eapply oh_below; [exact H|]. eapply chain_addrs; [apply Hrow|done]. }
  apply wp_bind, wp_bind, wp_gets, wp_bind, wp_modify, wp_ret, wp_bind, wp_modify, wp_bind.
  eapply wp_row_at; [oh_simpl; rewrite Ei; exact Hhead|]. oh_simpl.
  assert (Hend : forall nodes,
    (exists prev, nodes !! oh_fresh h = Some (HashNode (head_of L) prev (Some key) d)) ->
    chain nodes L ->
    (forall p, p ∉ addrs L -> p <> oh_fresh h -> nodes !! p = oh_nodes h !! p) ->
    (forall p, is_Some (nodes !! p) -> p <> oh_fresh h -> is_Some (oh_nodes h !! p)) ->
    forall h', h' = h <| oh_nodes := nodes |> <| oh_fresh := S (oh_fresh h) |>
        <| oh_strings := oh_strings h + 1 |>
        <| oh_table := <[Z.to_nat i := Some (Some (oh_fresh h))]> (oh_table h) |>
        <| oh_elements := u32 (oh_elements h + 1) |> -> Q 2 h').
  { intros nodes H1 H2 H3 H4 h' ->. apply HQ.
    eapply (link_new_implements key d B s h); [exact Hi|done| |done..].
    eapply holds_add; [exact H|exact Habs|exact H1|exact H2|exact H3|exact H4|done|done|done| |done|done].
    oh_simpl. by rewrite Ei. }
  destruct (head_of L) as [first|] eqn:Eh.
  - assert (Hfirst : first ∈ addrs L) by (destruct L as [|e L']; [done|]; injection Eh as <-; by left).
    pose proof (Hfresh _ Hfirst).
    apply wp_bind, wp_bind, wp_hash_node_set; [oh_simpl; rewrite lookup_insert_eq; by eexists|].
    apply wp_bind, wp_hash_node_set.
    { oh_simpl. rewrite lookup_alter_ne, lookup_insert_ne by done. eapply chain_addrs; [apply Hrow|done]. }
    apply wp_row_set; [oh_simpl; rewrite Ei, Hhead; by eexists|]. apply wp_bind, wp_modify, wp_ret.
    oh_simpl. match goal with |- Q 2 ?h' => apply (Hend (oh_nodes h')); [| | | |reflexivity]; oh_simpl end.
    + rewrite lookup_alter_ne, lookup_alter_eq, lookup_insert_eq by done. by eexists.
    + apply chain_set_prev, chain_alter; [intros ?%Hfresh; done|].
      apply chain_insert; [intros ?%Hfresh; done|apply Hrow].
    + intros p Hp Hpf. rewrite !lookup_alter_ne, lookup_insert_ne by (by intros <-). done.
    + intros p Hp Hpf. rewrite lookup_alter_is_Some, lookup_alter_is_Some in Hp.
      by rewrite lookup_insert_ne in Hp.
  - apply wp_bind, wp_row_set; [oh_simpl; rewrite Ei, Hhead; by eexists|]. apply wp_bind, wp_modify, wp_ret.
    oh_simpl. match goal with |- Q 2 ?h' => apply (Hend (oh_nodes h')); [| | | |reflexivity]; oh_simpl end.
    + rewrite lookup_insert_eq. by eexists.
    + apply chain_insert; [intros ?%Hfresh; done|apply Hrow].
    + intros p Hp Hpf. by rewrite lookup_insert_ne.
    + intros p Hp Hpf. by rewrite lookup_insert_ne in Hp.
Qed.

Lemma add_spec key d update B s h (Q : Z -> OSHash -> Prop) :
  implements char_signed B s h ->
  match spec_op (if update : bool then OpSet key d else OpAdd key d) s with
  | Some (a, s') => forall h', refines s' h' -> Q a h'
  | None => True
  end ->
  wp (_OSHash_Add char_signed key d update) Q h.
Proof.
  intros Hi HQ. pose proof (im_holds _ _ _ _ Hi) as H.
  apply (get_index_spec _ B); [done|]. intros i Ei. apply (key_row_spec _ B _ H _ key); [done|].
  apply wp_bind, (find_key_spec _ B); [done|].
  pose proof (key_row _ _ _ H key) as [Hc Hk _]. pose proof (im_map _ _ _ _ Hi key) as Em.
  intros [[prev p]|] Hf; cbn [found_at] in Hf.
  - destruct Hf as (L1 & e & L2 & EL & Ee & -> & _). rewrite EL in *.
    rewrite assoc_here in Em by done. pose proof (chain_app _ _ _ Hc) as [[prev' Hp] _].
    apply wp_bind. destruct update; cbn [spec_op] in HQ; rewrite Em in HQ.
    + apply wp_hash_node_set; [by eexists|]. apply wp_ret, HQ.
      destruct (set_data_implements key L1 e L2 d B s h (oh_freed h) [] Hi EL Ee) as [B' HB'].
      { rewrite app_nil_r. apply Hi. }
      exists B'. destruct HB' as [[] Hm He Hr Hfree Ha Hfr Hbl]. split; try done.
      cbn [sp_freed update eta_oh_spec] in Hfr. by rewrite app_nil_r in Hfr.
    + apply wp_ret, wp_ret, HQ. by exists B.
  - rewrite (proj2 (assoc_None key _)) in Em by done.
    assert (HQ' : forall h', refines (snd (spec_add key d s)) h' -> Q (fst (spec_add key d s)) h').
    { destruct update; cbn [spec_op] in HQ; rewrite Em in HQ; by destruct (spec_add key d s). }
    clear HQ. unfold spec_add in HQ'.
    apply wp_bind, wp_allocated. destruct (alloc_implements _ _ _ Hi) as [-> H1].
    destruct (next (sp_alloc s)); cbn [negb] in *; [|apply wp_ret, HQ'; by exists B].
    apply wp_bind, wp_allocated. destruct (alloc_implements _ _ _ H1) as [E H2]. rewrite E.
    destruct (next (sp_alloc _)); cbn [negb] in *; [|apply wp_ret, HQ'; by exists B].
    change (slot char_signed h) with (slot char_signed ((h <| oh_alloc := advance (oh_alloc h) |>) <| oh_alloc := advance (oh_alloc (h <| oh_alloc := advance (oh_alloc h) |>)) |>)) in Ei, Hf, Hc, Hk.
    cbn [fst snd] in HQ'. eapply link_new_spec; [exact H2|exact Ei|done|exact HQ'].
Qed.
(** ** Deleting *)

Lemma remove_implements key L1 e L2 B s h h' :
  implements char_signed B s h -> B !!! slot char_signed h key = L1 ++ e :: L2 -> e_key e = key ->
  oh_holds char_signed (<[slot char_signed h key := L1 ++ L2]> B) h' ->
  slot char_signed h' = slot char_signed h ->
  oh_elements h' = u32 (oh_elements h - 1) -> oh_rows h' = oh_rows h ->
  oh_free_data h' = oh_free_data h -> oh_alloc h' = oh_alloc h -> oh_freed h' = oh_freed h ->
  oh_blocks h' = oh_blocks h ->
  refines (s <| sp_map := delete key (sp_map s) |>) h'.
Proof.
  intros [H Hm He Hr Hfree Ha Hf Hbl] EL Ek H' Es E1 Er Ef Eal Efr Ebl.
  pose proof (key_row _ _ _ H key) as [_ Hk _]. rewrite EL in Hk. eexists. constructor;
    [exact H'| | |cbn; congruence|cbn; congruence|cbn; congruence|by rewrite Efr|congruence].
  - eapply represents_key; [exact H|exact Hm|done|done|]. intros k. rewrite EL. by apply assoc_removed.
  - cbn [sp_map sp_dropped update eta_oh_spec]. rewrite E1, He, uwrap_sub_l. f_equal.
    assert (Hin : is_Some (sp_map s !! key)) by (rewrite Hm, EL, assoc_here by done; by eexists).
    rewrite map_size_delete_Some by done.
    assert (size (sp_map s) <> 0%nat); [|lia]. intros E%map_size_empty_iff.
    rewrite E, lookup_empty in Hin. by destruct Hin.
Qed.

(** Unlinking an entry: the assignments to the row or to the entry before. *)
Lemma unlink_chain nodes L1 e L2 :
  NoDup (addrs (L1 ++ e :: L2)) -> chain nodes (L1 ++ e :: L2) ->
  chain (match last L1 with
         | Some e' => alter (fun n => n <| hn_next := head_of L2 |>) (e_addr e') nodes
         | None => nodes
         end) (L1 ++ L2).
Proof.
  destruct L1 as [|e' L1 _] using rev_ind; [by intros _ [_ ?]|].
  rewrite last_snoc, <- !app_assoc. cbn [app]. intros Hn Hc. eapply chain_splice; [exact Hn|exact Hc| |].
  - by apply chain_app in Hc as [_ [_ Hc]].
  - rewrite addrs_app in Hn. apply NoDup_app in Hn as (_ & _ & [Hn _]%NoDup_cons).
    intros Hin. apply Hn. by right.
Qed.

(** The rest of [OSHash_Delete], when the entry is unlinked. *)
Lemma unlinked_spec key L1 e L2 prev B s h h1 (Q : Z -> OSHash -> Prop) :
  implements char_signed B s h -> B !!! slot char_signed h key = L1 ++ e :: L2 -> e_key e = key ->
  chain (oh_nodes h1) (L1 ++ L2) -> is_Some (oh_nodes h1 !! e_addr e) ->
  (forall q, q ∉ addrs (L1 ++ e :: L2) -> oh_nodes h1 !! q = oh_nodes h !! q) ->
  h1 = h <| oh_nodes := oh_nodes h1 |>
         <| oh_table := <[slot char_signed h key := Some (head_of (L1 ++ L2))]> (oh_table h) |> ->
  (forall h', refines (s <| sp_map := delete key (sp_map s) |>) h' -> Q (e_data e) h') ->
  wp (_ ← match head_of L2 with
          | Some q => hash_node_set q (fun n => n <| hn_prev := prev |>)
          | None => mret tt
          end;
      _ ← free_node_key (Some (e_key e));
      _ ← hash_node_free (e_addr e);
      _ ← modify (fun h => h <| oh_elements := u32 (oh_elements h - 1) |>);
      mret (e_data e)) Q h1.
Proof.
  intros Hi EL Ek Hc He Hout E1 HQ. pose proof (im_holds _ _ _ _ Hi) as H.
  pose proof (key_row _ _ _ H key) as Hrow. rewrite EL in Hrow.
  pose proof (row_addrs _ _ _ _ Hrow) as Hn.
  assert (Hne : e_addr e ∉ addrs (L1 ++ L2)).
  { assert (NoDup (addrs (e :: L1 ++ L2))) as [? _]%NoDup_cons; [|done].
    unfold addrs. by rewrite Permutation_middle. }
  set (nodes2 := match head_of L2 with
    | Some q => alter (fun n => n <| hn_prev := prev |>) q (oh_nodes h1) | None => oh_nodes h1 end).
  apply wp_bind. assert (Hend : forall h2, h2 = h1 <| oh_nodes := nodes2 |> ->
    wp (_ ← free_node_key (Some (e_key e)); _ ← hash_node_free (e_addr e);
        _ ← modify (fun h => h <| oh_elements := u32 (oh_elements h - 1) |>);
        mret (e_data e)) Q h2).
  { intros h2 ->. apply wp_bind, wp_modify, wp_bind, wp_hash_node_free.
    { unfold nodes2. oh_simpl. destruct (head_of L2); [by rewrite lookup_alter_is_Some|done]. }
    apply wp_bind, wp_modify, wp_ret, HQ. rewrite E1.
    eapply (remove_implements key L1 e L2); [exact Hi|exact EL|done| |done..].
    apply (holds_remove _ B h key L1 e L2); try done; oh_simpl.
    - apply chain_delete; [done|]. unfold nodes2. destruct (head_of L2); [by apply chain_set_prev|done].
    - apply lookup_delete_eq.
    - intros q Hq. assert (q <> e_addr e).
      { intros ->. apply Hq. rewrite addrs_app. set_solver. }
      rewrite lookup_delete_ne by done. unfold nodes2. destruct L2 as [|e2 L2]; [by apply Hout|].
      cbn [head_of head fmap option_fmap option_map]. rewrite lookup_alter_ne; [by apply Hout|].
      intros <-. apply Hq. rewrite addrs_app. set_solver. }
  destruct L2 as [|e2 L2]; cbn [head_of head fmap option_fmap option_map] in *.
  - apply wp_ret, Hend. by destruct h1.
  - apply wp_hash_node_set; [|by apply Hend]. eapply chain_addrs; [exact Hc|].
    rewrite addrs_app. set_solver.
Qed.

Lemma delete_spec key B s h (Q : Z -> OSHash -> Prop) :
  implements char_signed B s h ->
  match spec_op (OpDelete key) s with
  | Some (a, s') => forall h', refines s' h' -> Q a h'
  | None => True
  end ->
  wp (OSHash_Delete char_signed key) Q h.
Proof.
  intros Hi HQ. pose proof (im_holds _ _ _ _ Hi) as H.
  apply (get_index_spec _ B); [done|]. intros i Ei. apply (key_row_spec _ B _ H _ key); [done|].
  apply wp_bind, (find_key_spec _ B); [done|].
  pose proof (key_row _ _ _ H key) as Hrow. pose proof (im_map _ _ _ _ Hi key) as Em.
  pose proof (head_lookup _ _ _ H _ (slot_bound _ _ _ key H)) as Hhead.
  cbn [spec_op] in HQ. intros [[prev p]|] Hf; cbn [found_at] in Hf.
  2: { rewrite (proj2 (assoc_None key _)) in Em by done. rewrite Em in HQ. cbn [default] in HQ.
       apply wp_ret, HQ. exists B. rewrite delete_id by done. by destruct s. }
  destruct Hf as (L1 & e & L2 & EL & Ee & -> & ->). rewrite EL in Hrow, Em, Hhead.
  rewrite assoc_here in Em by first [done|apply Hrow]. rewrite Em in HQ. cbn [default from_option] in HQ.
  pose proof (row_addrs _ _ _ _ Hrow) as Hn. destruct Hrow as [Hc Hk HS].
  pose proof (chain_app _ _ _ Hc) as [[prev' Hp] HL2].
  apply wp_bind. eapply wp_hash_node_at; [exact Hp|]. cbn [hn_next hn_data hn_key].
  pose proof (unlink_chain _ _ _ _ Hn Hc) as Hunl.
  set (nodes1 := match last L1 with Some e' => _ | None => _ end) in Hunl.
  assert (Hnodes1 : forall q, q ∉ addrs L1 -> nodes1 !! q = oh_nodes h !! q).
  { intros q Hq. unfold nodes1. destruct (last L1) as [e'|] eqn:El; [|done].
    apply lookup_alter_ne. intros <-. apply Hq. apply list_elem_of_fmap_2.
    apply last_Some_elem_of. done. }
  assert (He1 : e_addr e ∉ addrs L1).
  { rewrite addrs_app in Hn. apply NoDup_app in Hn as (_ & Hn & _). intros Hin. apply (Hn _ Hin). by left. }
  apply wp_bind. assert (Hend : forall h1, oh_nodes h1 = nodes1 ->
    h1 = h <| oh_nodes := nodes1 |>
           <| oh_table := <[slot char_signed h key := Some (head_of (L1 ++ L2))]> (oh_table h) |> ->
    wp (_ ← match head_of L2 with
            | Some q => hash_node_set q (fun n => n <| hn_prev := e_addr <$> last L1 |>)
            | None => mret tt
            end;
        _ ← free_node_key (Some (e_key e));
        _ ← hash_node_free (e_addr e);
        _ ← modify (fun h => h <| oh_elements := u32 (oh_elements h - 1) |>);
        mret (e_data e)) Q h1).
  { intros h1 En E1. eapply (unlinked_spec key L1 e L2 _ B s h); rewrite ?En; try done.
    - rewrite Hnodes1 by done. by eexists.
    - intros q Hq. apply Hnodes1. intros Hin. apply Hq. rewrite addrs_app. set_solver. }
  destruct L1 as [|e' L1 _] using rev_ind; [|rewrite last_snoc in *];
    cbn [last fmap option_fmap option_map] in *.
  - apply wp_row_set; [rewrite Ei, Hhead; by eexists|]. apply Hend; [done|]. by rewrite Ei.
  - apply wp_hash_node_set.
    + rewrite <- app_assoc in Hc. apply chain_app in Hc as [[? ->] _]. by eexists.
    + apply Hend; [by unfold nodes1; rewrite ?last_snoc|]. rewrite list_insert_id; [by unfold nodes1; rewrite ?last_snoc; destruct h|]. rewrite Hhead.
      by rewrite <- !app_assoc; erewrite head_of_app.
Qed.
(** ** Resizing *)

#[local] Opaque os_getprime hash_chars.

Lemma lookup_replicate_heads {A} n (x : A) (i : nat) y :
  replicate n x !! i = Some y -> y = x.
Proof. by intros [-> _]%lookup_replicate. Qed.

Lemma concat_replicate_nil {A} n : concat (replicate n (@nil A)) = [].
Proof. by induction n. Qed.

(** A table without entries. *)
Lemma empty_holds h n :
  0 < oh_rows h <= last_prime -> n = Z.to_nat (oh_rows h + 1) -> oh_nodes h = ∅ ->
  oh_table h = replicate n (Some None) -> oh_strings h = 0 ->
  oh_holds char_signed (replicate n []) h /\ represents char_signed ∅ (replicate n []) h.
Proof.
  intros Hr -> Hn Ht Hs. split; [constructor|].
  - done.
  - apply length_replicate.
  - by rewrite fmap_replicate.
  - intros i L ->%lookup_replicate_heads. constructor; [done|constructor|].
    by intros e ?%elem_of_nil.
  - intros p. rewrite Hn, lookup_empty. by intros [].
  - intros p. rewrite Hn, lookup_empty. by intros [].
  - by rewrite Hs, concat_replicate_nil.
  - intros key. rewrite lookup_empty, list_lookup_total_alt.
    destruct (replicate _ _ !! _) as [L|] eqn:E; [|done]. by apply lookup_replicate_heads in E as ->.
Qed.

(** No key is in the last row. *)
Lemma last_row_empty B h :
  oh_holds char_signed B h -> B = take (Z.to_nat (oh_rows h)) B ++ [[]].
Proof.
  intros H. pose proof (oh_bound _ _ _ H) as Hr. pose proof (oh_length _ _ _ H) as Hl.
  assert (Hi : (Z.to_nat (oh_rows h) < length B)%nat) by lia.
  apply lookup_lt_is_Some in Hi as [L HL].
  assert (L = []) as ->.
  { destruct L as [|e L]; [done|]. destruct (oh_row _ _ _ H _ _ HL) as [_ _ HS].
    specialize (HS e ltac:(by left)). unfold slot in HS.
    pose proof (Z.mod_pos_bound (hash_chars char_signed (oh_constant h) (oh_initial_seed h) (e_key e))
      (oh_rows h)). lia. }
  rewrite <- (take_drop_middle _ _ _ HL) at 1. f_equal. f_equal. apply drop_ge. lia.
Qed.

Lemma chain_rows B h : oh_holds char_signed B h -> Forall (chain (oh_nodes h)) B.
Proof.
  intros H. apply Forall_lookup. intros i L Hi. by destruct (oh_row _ _ _ H _ _ Hi).
Qed.

(** All the entries freed, up to the order of their data. *)
Lemma freed_all set B s h :
  implements char_signed B s h ->
  oh_nodes (after_free set (concat B) h) = ∅ /\
  oh_strings (after_free set (concat B) h) = 0 /\
  oh_freed (after_free set (concat B) h)
    ≡ₚ sp_freed s ++ releases set (snd <$> map_to_list (sp_map s)).
Proof.
  intros [H Hm _ _ _ _ Hfr _]. unfold after_free. oh_simpl. split_and!.
  - apply map_empty. intros p. destruct (decide (p ∈ addrs (concat B))) as [Hp|Hp].
    + by apply drop_nodes_in.
    + rewrite drop_nodes_out by done. apply eq_None_not_Some. intros Hs. apply Hp.
      by eapply concat_only.
  - rewrite (oh_count _ _ _ H). lia.
  - rewrite Hfr. apply Permutation_app_head. unfold releases.
    destruct set; [|done]. rewrite (contents _ _ _ H _ Hm), <- list_fmap_compose. done.
Qed.

Lemma resize_spec n B s h (Q : Z -> OSHash -> Prop) :
  implements char_signed B s h -> 0 <= n < 2 ^ 32 ->
  match spec_op (OpResize n) s with
  | Some (a, s') => forall h', refines s' h' -> Q a h'
  | None => False
  end ->
  wp (OSHash_setSize n) Q h.
Proof.
  intros Hi Hn HQ. pose proof (im_holds _ _ _ _ Hi) as H. cbn [spec_op] in HQ.
  apply wp_bind, wp_gets. rewrite (im_rows _ _ _ _ Hi).
  destruct (Z.leb_spec n (sp_rows s)) as [Hle|Hgt]; [apply wp_ret, HQ; by exists B|].
  destruct (Z.ltb_spec last_prime n) as [|Hp]; [done|]. cbn [orb] in HQ.
  destruct (next (sp_alloc s)) eqn:Ealloc; cbn [negb] in HQ; [|done].
  destruct (getprime_total n Hn) as (rows & Er & Hr & Hmore). specialize (Hmore Hp).
  rewrite Er in HQ. cbn [mbind option_bind] in HQ.
  apply wp_bind. eapply wp_lift; [exact Er|]. apply wp_bind, wp_modify.
  destruct (Z.eqb_spec rows 0) as [|_]; [lia|].
  apply wp_bind, wp_allocated. oh_simpl. rewrite (im_alloc _ _ _ _ Hi), Ealloc. cbn [negb].
  pose proof (oh_length _ _ _ H) as Hl. pose proof (im_rows _ _ _ _ Hi) as Hrows.
  pose proof (oh_bound _ _ _ H) as Hb. rewrite Hrows in Hl, Hb.
  apply wp_bind, wp_modify. oh_simpl.
  assert (Et : length (oh_table h) = length B) by (by rewrite (oh_heads _ _ _ H), length_fmap).
  pose proof (last_row_empty _ _ H) as HB. rewrite Hrows in HB.
  assert (Hconcat : concat (take (Z.to_nat (sp_rows s)) B) = concat B).
  { rewrite HB at 2. rewrite concat_app. cbn. by rewrite app_nil_r. }
  assert (Hlen : Z.to_nat (sp_rows s) = length (take (Z.to_nat (sp_rows s)) B)) by (rewrite length_take; lia).
  rewrite take_ge, Et by lia. apply wp_bind. rewrite Hlen. apply free_rows_spec; oh_simpl.
  - intros j L Hj. pose proof (lookup_lt_Some _ _ _ Hj) as Hjl. rewrite <- Hlen in Hjl.
    rewrite lookup_app_l by lia. rewrite (oh_heads _ _ _ H), list_lookup_fmap.
    rewrite lookup_take, decide_True in Hj by lia. by rewrite Nat.add_0_l, Hj.
  - apply Forall_take. by apply chain_rows.
  - rewrite Hconcat. by eapply concat_addrs.
  - rewrite Hconcat. pose proof (freed_all (oh_free_data h) _ _ _ Hi) as Hfree.
    rewrite (im_free _ _ _ _ Hi) in Hfree at 4. revert Hfree. unfold after_free. oh_simpl. intros (Fn & Fs & Ff).
    apply wp_bind, wp_bind, wp_gets, wp_bind, wp_gets. oh_simpl.
    rewrite (proj2 (Z.leb_le _ _)) by (unfold zlen; rewrite length_app, length_replicate; lia).
    apply wp_modify. destruct (getprime_total (456 mod rows)) as (r1 & -> & _);
      [pose proof (Z.mod_pos_bound 456 rows); unfold last_prime in *; lia|].
    destruct (getprime_total (789 mod rows)) as (r2 & -> & _);
      [pose proof (Z.mod_pos_bound 789 rows); unfold last_prime in *; lia|].
    do 2 (apply wp_bind; eapply wp_lift; [reflexivity|]). apply wp_bind, wp_modify, wp_ret, HQ.
    exists (replicate (Z.to_nat (rows + 1)) []). oh_simpl.
    rewrite drop_ge by (rewrite length_app, length_replicate; lia). rewrite app_nil_r.
    edestruct (empty_holds) as [He Hm]; [| | | | |constructor; [exact He|exact Hm|..]]; oh_simpl;
      cbn [sp_map sp_dropped sp_rows sp_free sp_alloc sp_freed]; try done.
    + rewrite (im_elements _ _ _ _ Hi), map_size_empty. f_equal. lia.
    + apply Hi.
    + apply Hi.
Qed.

(** ** Any operations *)

(** Sizes are unsigned integers. *)
Definition op_ok (o : oh_op) : Prop :=
  match o with OpResize new_size => 0 <= new_size < 2 ^ 32 | _ => True end.

Lemma hash_run_op_spec o B s s' h a :
  implements char_signed B s h -> op_ok o -> spec_op o s = Some (a, s') ->
  wp (oh_run_op char_signed o) (fun a' h' => a' = a /\ refines s' h') h.
Proof.
  intros Hi Ho Hspec. destruct o as [key d|key d|key d|key|key| |n|set]; cbn [oh_run_op op_ok] in *.
  - eapply (add_spec key d false); [exact Hi|]. by rewrite Hspec.
  - eapply (add_spec key d true); [exact Hi|]. by rewrite Hspec.
  - eapply hash_update_spec; [exact Hi|]. by rewrite Hspec.
  - injection Hspec as <- <-. eapply hash_get_spec; [exact Hi|]. split; [done|]. by exists B.
  - eapply delete_spec; [exact Hi|]. by rewrite Hspec.
  - injection Hspec as <- <-. apply wp_gets. split; [apply Hi|]. by exists B.
  - eapply resize_spec; [exact Hi|exact Ho|]. by rewrite Hspec.
  - injection Hspec as <- <-. apply wp_bind, wp_modify, wp_ret. split; [done|].
    exists B. destruct Hi as [[] Hm He Hr Hf Ha Hfr Hbl]. by split.
Qed.

Lemma hash_run_spec ops B s s' h answers :
  implements char_signed B s h -> Forall op_ok ops -> spec_run ops s = Some (answers, s') ->
  wp (oh_run char_signed ops) (fun answers' h' => answers' = answers /\ refines s' h') h.
Proof.
  intros Hi Hok. revert B s h answers Hi. induction Hok as [|o ops Ho _ IH]; intros B s h answers Hi Hrun.
  { injection Hrun as <- <-. apply wp_ret. split; [done|]. by exists B. }
  cbn [spec_run] in Hrun. destruct (spec_op o s) as [[a s1]|] eqn:E1; [|done]. cbn in Hrun.
  destruct (spec_run ops s1) as [[answers1 s2]|] eqn:E2; [|done]. cbn in Hrun.
  injection Hrun as <- <-.
  apply wp_bind. eapply wp_mono; [by eapply hash_run_op_spec|]. intros a' h1 [-> [B1 Hi1]].
  apply wp_bind. eapply wp_mono; [by eapply IH|]. intros answers' h2 [-> Hi2].
  by apply wp_ret.
Qed.

(** Two allocations, and a new table has 37 rows. *)
Definition new_table (alloc : oracle bool) : oh_spec :=
  Spec ∅ 0 37 false (advance (advance alloc)) [].

Lemma create_spec alloc random1 random2 :
  next alloc = true -> next (advance alloc) = true ->
  exists h, OSHash_Create alloc random1 random2 = Some (Some h) /\ refines (new_table alloc) h.
Proof.
  intros H1 H2. assert (E : os_getprime 32 = Some 37) by (by vm_compute).
  unfold OSHash_Create. rewrite H1, E. cbn [negb mbind option_bind]. change (37 =? 0) with false.
  cbv iota. rewrite H2. cbn [negb].
  assert (forall r, exists p, os_getprime (u32 r mod 37) = Some p) as Hp.
  { intros r. pose proof (Z.mod_pos_bound (u32 r) 37).
    destruct (getprime_total (u32 r mod 37)) as (p & -> & _); [lia|]. by exists p. }
  destruct (Hp random1) as [p1 ->], (Hp random2) as [p2 ->]. cbn [mbind option_bind].
  eexists. split; [reflexivity|]. exists (replicate 38 []).
  edestruct empty_holds as [He Hm]; [| | | | |constructor; [exact He|exact Hm|done..]]; done.
Qed.

(** Freeing the table gives back everything. *)
Definition all_released (set : bool) (s : oh_spec) h : Prop :=
  oh_nodes h = ∅ /\ oh_strings h = 0 /\ oh_blocks h = 0 /\
  oh_freed h ≡ₚ sp_freed s ++ releases set (snd <$> map_to_list (sp_map s)).

Lemma hash_free_spec B s h :
  implements char_signed B s h -> wp OSHash_Free (fun _ => all_released (sp_free s) s) h.
Proof.
  intros Hi. pose proof (im_holds _ _ _ _ Hi) as H. apply wp_bind, wp_gets, wp_bind.
  rewrite <- (oh_length _ _ _ H). apply free_rows_spec.
  - intros j L Hj. by rewrite (oh_heads _ _ _ H), list_lookup_fmap, Nat.add_0_l, Hj.
  - by apply chain_rows.
  - by eapply concat_addrs.
  - apply wp_modify. destruct (freed_all (oh_free_data h) _ _ _ Hi) as (Fn & Fs & Ff).
    rewrite (im_free _ _ _ _ Hi) in Ff at 2.
    split_and!; [exact Fn|exact Fs| |exact Ff]. unfold after_free. oh_simpl.
    by rewrite (im_blocks _ _ _ _ Hi).
Qed.

Lemma implements_size B s h : implements char_signed B s h -> size (oh_nodes h) = size (sp_map s).
Proof.
  intros [H Hm _ _ _ _ _ _]. rewrite <- (length_map_to_list (sp_map s)), (contents _ _ _ H _ Hm), length_fmap.
  rewrite <- (length_fmap e_addr), <- (size_list_to_set (C := gset nat)) by by eapply concat_addrs.
  rewrite <- size_dom. f_equal. apply set_eq. intros p. rewrite elem_of_dom, elem_of_list_to_set.
  split; [by eapply concat_only|]. intros (e & -> & (L & He & (i & Hi)%list_elem_of_lookup)%elem_of_concat)%list_elem_of_fmap.
  destruct (oh_row _ _ _ H _ _ Hi) as [Hc _ _]. destruct (chain_lookup _ _ _ Hc He) as (n & -> & _).
  by eexists.
Qed.
End refinement.

(** C23: the hash table is a finite map: whatever operations are applied to a new table, each
    answers what it answers on a [gmap], allocation failures included, as long as no
    resize fails; no operation touches memory it should not.  Afterwards there is one
    node and one copy of a key for each key, and freeing the table frees all of them
    and gives every datum to the free function once. *)
Theorem oshash_is_map (char_signed : bool) (ops : list oh_op) (alloc : oracle bool)
    (random1 random2 : Z) (answers : list Z) (s : oh_spec) :
  next alloc = true -> next (advance alloc) = true -> Forall op_ok ops ->
  spec_run ops (new_table alloc) = Some (answers, s) ->
  exists h0 h h', OSHash_Create alloc random1 random2 = Some (Some h0) /\
    oh_run char_signed ops h0 = Some (answers, h) /\
    size (oh_nodes h) = size (sp_map s) /\ oh_strings h = Z.of_nat (size (sp_map s)) /\
    OSHash_Free h = Some (tt, h') /\ all_released (sp_free s) s h'.
Proof.
  intros H1 H2 Hok Hrun. destruct (create_spec char_signed alloc random1 random2 H1 H2) as (h0 & E0 & B0 & Hi0).
  pose proof (hash_run_spec _ _ _ _ _ _ _ Hi0 Hok Hrun) as W.
  apply wp_run in W as (? & h & Eh & -> & B & Hi).
  pose proof (hash_free_spec _ _ _ _ Hi) as W. apply wp_run in W as ([] & h' & Eh' & Hall).
  exists h0, h, h'. split_and!; [done|done|by eapply implements_size| |done|done].
  destruct Hi as [H Hm _ _ _ _ _ _]. rewrite (oh_count _ _ _ H).
  rewrite <- (length_map_to_list (sp_map s)), (contents _ _ _ H _ Hm), length_fmap. done.
Qed.

(** * Concrete instances *)

Definition no_failures : oracle bool := Oracle (fun _ => true) 0.
(** The 0-based call [n] fails. *)
Definition failing (n : nat) : oracle bool := Oracle (fun k => negb (k =? n)%nat) 0.

Definition sample_ops : list oh_op :=
  [OpFreeData true; OpAdd (str "a") 1; OpAdd (str "b") 2; OpAdd (str "a") 3; OpSet (str "a") 4;
   OpUpdate (str "b") 5; OpUpdate (str "c") 6; OpGet (str "a"); OpGet (str "c"); OpElements;
   OpDelete (str "a"); OpDelete (str "a"); OpAdd (str "c") 7; OpResize 100; OpGet (str "b");
   OpAdd (str "b") 8; OpElements; OpResize 10].

Definition sample_answers : list Z := [1; 2; 2; 1; 1; 1; 0; 4; 0; 2; 4; 0; 2; 1; 0; 2; 3; 1].

Lemma sample_spec : exists s, spec_run sample_ops (new_table no_failures) = Some (sample_answers, s) /\
  sp_map s = {[str "b" := 8]} /\ sp_freed s = [2; 7; 5].
Proof. eexists. split; [by vm_compute|]. split; by vm_compute. Qed.

Example oshash_is_map_witness :
  exists s h0 h h', OSHash_Create no_failures 12 345 = Some (Some h0) /\
    oh_run true sample_ops h0 = Some (sample_answers, h) /\
    size (oh_nodes h) = size (sp_map s) /\ oh_strings h = Z.of_nat (size (sp_map s)) /\
    OSHash_Free h = Some (tt, h') /\ all_released (sp_free s) s h'.
Proof.
  destruct sample_spec as (s & Hs & _). exists s.
  apply oshash_is_map; [reflexivity|reflexivity| |exact Hs].
  repeat constructor; cbn; lia.
Defined.

(** * Where the table breaks *)

(** A resize whose allocation fails answers 0 and leaves the new number of rows over the
    old table: a key of a row that is not there is looked up outside of it. *)
Theorem failed_resize_breaks_table :
  exists h0 h, OSHash_Create (failing 2) 1 1 = Some (Some h0) /\
    oh_run true [OpResize 100; OpGet (str " ")] h0 = Some ([0; 0], h) /\
    oh_rows h = 101 /\ length (oh_table h) = 38%nat /\
    OSHash_Get true (str "a") h = None.
Proof. do 2 eexists. repeat (split; [vm_compute; reflexivity|]). vm_compute. reflexivity. Qed.

(** No prime of 32 bits is large enough for some sizes: the table shrinks to one row,
    and the rows that are freed are outside of it. *)
Theorem resize_past_last_prime :
  exists h0, OSHash_Create no_failures 1 1 = Some (Some h0) /\
    OSHash_setSize (last_prime + 1) h0 = None.
Proof. eexists. split; vm_compute; reflexivity. Qed.

(** Resizing drops the entries and does not count them off. *)
Theorem resize_keeps_count :
  exists h0 h, OSHash_Create no_failures 1 1 = Some (Some h0) /\
    oh_run true [OpAdd (str "a") 1; OpResize 100; OpGet (str "a"); OpElements] h0
      = Some ([2; 1; 0; 1], h) /\ oh_nodes h = ∅.
Proof. do 2 eexists. repeat (split; [vm_compute; reflexivity|]). vm_compute. reflexivity. Qed.
