(* ===== verification/HashWalk.v ===== *)
(** Walks over the whole hash table of [Hash]: [OSHash_Begin] and [OSHash_Next],
    [OSHash_It], [OSHash_Clean] and [OSHash_Duplicate] of agents/shared/hash_op.c meet the
    entries of the map that the table implements, each of them once. *)
From stdpp Require Import gmap.
From S2P Require Import Prelude MathOp Hash HashMap.
#[local] Open Scope Z_scope.

Implicit Types (L R : list entry) (B : list (list entry)) (h : OSHash) (e : entry).

(** The loop of the clients of [OSHash_Begin] and [OSHash_Next]. *)
Definition walk : HT (list (bytes * Z)) :=
  '(cur, i) ← OSHash_Begin;
  fuel ← node_bound;
  loop fuel (fun '(cur, i, seen) =>
    match cur with
    | None => mret (inr seen)
    | Some p =>
        n ← hash_node_at p;
        key ← lift (hn_key n);
        '(cur, i) ← OSHash_Next i (Some p);
        mret (inl (cur, i, seen ++ [(key, hn_data n)]))
    end) (cur, i, []).

(** A function on entries, as an iterating function. *)
Definition on_pair {E} (g : bytes * Z -> E -> E) (i : Z) (n : OSHashNode) (x : E) : E :=
  match hn_key n with Some key => g (key, hn_data n) x | None => x end.

(** * Positions of a walk *)

(** The rows of the table from [i] on are [B]. *)
Record rows_from h (i : Z) B : Prop := {
  rf_start : 0 <= i;
  rf_end : i + zlen B = oh_rows h + 1;
  rf_head : forall j L, B !! j = Some L -> oh_table h !! (Z.to_nat i + j)%nat = Some (Some (head_of L));
  rf_chain : Forall (chain (oh_nodes h)) B;
}.

(** The entries [R] are still to be met. *)
Definition position h (cur : option nat) (i : Z) R : Prop :=
  R = [] /\ cur = None \/
  exists e L B, R = e :: L ++ concat B /\ cur = Some (e_addr e) /\
    chain (oh_nodes h) (e :: L) /\ rows_from h (i + 1) B.

Lemma rows_from_tail h i L B : rows_from h i (L :: B) -> rows_from h (i + 1) B.
Proof.
  intros [H1 H2 H3 H4]. constructor; [lia|rewrite zlen_cons in H2; lia| |by apply Forall_cons in H4 as [_ ?]].
  intros j R Hj. specialize (H3 (S j) R Hj). rewrite <- H3. f_equal. lia.
Qed.

Lemma next_row_spec h i B (Q : option nat * Z -> OSHash -> Prop) :
  rows_from h i B -> (forall cur j, position h cur j (concat B) -> Q (cur, j) h) ->
  wp (next_row i) Q h.
Proof.
  intros H HQ. apply wp_bind, wp_gets.
  apply (wp_loop_nat (fun n j h' => h' = h /\ exists B2, concat B = concat B2 /\
    n = length B2 /\ rows_from h j B2)) with (n := length B).
  - split; [done|]. by exists B.
  - pose proof (rf_end _ _ _ H). unfold zlen in *. lia.
  - intros n j h' (-> & B2 & E & -> & H2). rewrite E in HQ.
    destruct B2 as [|L B2].
    { pose proof (rf_end _ _ _ H2) as He. rewrite zlen_nil in He.
      rewrite (proj2 (Z.leb_gt _ _)) by lia. apply wp_ret, HQ. by left. }
    pose proof (rf_end _ _ _ H2) as He. rewrite zlen_cons in He.
    rewrite (proj2 (Z.leb_le _ _)) by zlia. apply wp_bind. eapply wp_row_at.
    { pose proof (rf_head _ _ _ H2 0%nat L eq_refl) as Hh. by rewrite Nat.add_0_r in Hh. }
    destruct L as [|e L]; cbn [head_of head fmap option_fmap option_map].
    + apply wp_ret. exists (length B2). split; [cbn; lia|]. split; [done|].
      exists B2. split_and!; [done|done|by eapply rows_from_tail].
    + pose proof (rf_chain _ _ _ H2) as [[[prev Hp] Hc] _]%Forall_cons.
      apply wp_bind. eapply wp_hash_node_at; [exact Hp|]. apply wp_ret, HQ. right.
      exists e, L, B2. split_and!; [done|done|by split; [by exists prev|]|by eapply rows_from_tail].
Qed.

Lemma next_spec h p i e R (Q : option nat * Z -> OSHash -> Prop) :
  position h (Some p) i (e :: R) ->
  (forall cur j, position h cur j R -> Q (cur, j) h) ->
  wp (OSHash_Next i (Some p)) Q h.
Proof.
  intros [[? _]|(e' & L & B & [= <- ->] & [= ->] & [[prev Hp] Hc] & HB)] HQ; [done|].
  apply wp_bind. eapply wp_hash_node_at; [exact Hp|]. cbn [hn_next].
  destruct L as [|e' L]; cbn [head_of head fmap option_fmap option_map].
  - by eapply next_row_spec.
  - apply wp_ret, HQ. right. by exists e', L, B.
Qed.

Lemma position_at h p i e R :
  position h (Some p) i (e :: R) ->
  p = e_addr e /\ exists next prev, oh_nodes h !! p = Some (HashNode next prev (Some (e_key e)) (e_data e)).
Proof.
  intros [[? _]|(e' & L & B & [= <- ->] & [= ->] & [[prev Hp] Hc] & HB)]; [done|].
  split; [done|]. by eexists _, _.
Qed.

Lemma position_cur h cur i R : position h cur i R -> cur = head_of R.
Proof. by intros [[-> ->]|(e & L & B & -> & -> & _)]. Qed.

(** A position depends on the entries to be met only. *)
Lemma position_congr h h' cur i R :
  oh_rows h' = oh_rows h -> oh_table h' = oh_table h ->
  (forall p, p ∈ addrs R -> oh_nodes h' !! p = oh_nodes h !! p) ->
  position h cur i R -> position h' cur i R.
Proof.
  intros Er Et En [?|(e & L & B & -> & -> & Hc & [H1 H2 H3 H4])]; [by left|].
  right. exists e, L, B. split_and!; [done|done| |].
  - eapply chain_congr; [|exact Hc]. intros p Hp. apply En.
    change (p ∈ addrs ((e :: L) ++ concat B)). rewrite addrs_app. set_solver.
  - constructor; [done|by rewrite Er|by rewrite Et|]. rewrite Forall_forall in *.
    intros L' HL'. eapply chain_congr; [|by apply H4]. intros p (e' & -> & He')%list_elem_of_fmap.
    apply En. change (e_addr e' ∈ addrs ((e :: L) ++ concat B)). rewrite addrs_app, elem_of_app.
    right. apply list_elem_of_fmap_2, elem_of_concat. by exists L'.
Qed.

Section walks.
Variable char_signed : bool.

(** What the walks use of a table that implements a map. *)
Lemma holds_rows B h : oh_holds char_signed B h -> rows_from h 0 B.
Proof.
  intros H. constructor; [done| | |by eapply chain_rows].
  - pose proof (oh_bound _ _ _ H). pose proof (oh_length _ _ _ H). unfold zlen. lia.
  - intros j L Hj. by rewrite (oh_heads _ _ _ H), list_lookup_fmap, Nat.add_0_l, Hj.
Qed.

Lemma hash_holds_size B h : oh_holds char_signed B h -> (length (concat B) <= size (oh_nodes h))%nat.
Proof.
  intros H. rewrite <- (length_fmap e_addr), <- (size_list_to_set (C := gset nat)) by by eapply concat_addrs.
  rewrite <- size_dom. apply subseteq_size. intros p. rewrite elem_of_list_to_set, elem_of_dom.
  intros (e & -> & (L & He & HL)%elem_of_concat)%list_elem_of_fmap.
  pose proof (chain_rows _ _ _ H) as Hc. rewrite Forall_forall in Hc.
  destruct (chain_lookup _ _ _ (Hc L HL) He) as (n & -> & _). by eexists.
Qed.

Lemma begin_spec B h (Q : option nat * Z -> OSHash -> Prop) :
  oh_holds char_signed B h -> (forall cur j, position h cur j (concat B) -> Q (cur, j) h) ->
  wp OSHash_Begin Q h.
Proof. intros H HQ. eapply next_row_spec; [by apply holds_rows|done]. Qed.

Lemma walk_spec B h :
  oh_holds char_signed B h -> wp walk (fun l h' => h' = h /\ l = e_pair <$> concat B) h.
Proof.
  intros H. apply wp_bind. eapply begin_spec; [exact H|]. intros cur i Hpos.
  apply wp_bind, wp_gets.
  apply (wp_loop_nat (fun n '(cur, i, seen) h' => h' = h /\ exists L R, concat B = L ++ R /\
    n = length R /\ seen = e_pair <$> L /\ position h cur i R)) with (n := length (concat B)).
  - split; [done|]. by exists [], (concat B).
  - pose proof (hash_holds_size _ _ H). lia.
  - intros n [[cur' i'] seen] h' (-> & L & R & E & -> & -> & Hp).
    destruct R as [|e R]; pose proof (position_cur _ _ _ _ Hp) as Ec;
      cbn [head_of head fmap option_fmap option_map] in Ec; subst cur'.
    { apply wp_ret. by rewrite E, app_nil_r. }
    destruct (position_at _ _ _ _ _ Hp) as (_ & nxt & prev & Hn).
    apply wp_bind. eapply wp_hash_node_at; [exact Hn|]. apply wp_bind. eapply wp_lift; [reflexivity|].
    apply wp_bind. eapply next_spec; [exact Hp|]. intros cur' j' Hp'. apply wp_ret.
    exists (length R). split; [cbn; lia|]. split; [done|]. exists (L ++ [e]), R.
    rewrite <- app_assoc, fmap_app. by split_and!.
Qed.

(** ** [OSHash_It] *)

Lemma iterate_row_spec {E} (g : bytes * Z -> E -> E) i L x h (Q : E -> OSHash -> Prop) :
  chain (oh_nodes h) L -> NoDup (addrs L) ->
  Q (foldl (fun x p => g p x) x (e_pair <$> L)) h ->
  wp (iterate_row (on_pair g) i (head_of L) x) Q h.
Proof.
  intros Hc Hn HQ. apply wp_bind, wp_gets.
  apply (wp_loop_nat (fun n '(cur, y) h' => h' = h /\ exists R, n = length R /\ cur = head_of R /\
    chain (oh_nodes h) R /\ Q (foldl (fun x p => g p x) y (e_pair <$> R)) h)) with (n := length L).
  - split; [done|]. by exists L.
  - pose proof (chain_size _ _ Hc Hn). lia.
  - intros n [cur y] h' (-> & R & -> & -> & HR & HQR).
    destruct R as [|e R]; [by apply wp_ret|]. destruct HR as [[prev Hp] HR].
    apply wp_bind. eapply wp_hash_node_at; [exact Hp|]. cbn [hn_key hn_next]. apply wp_ret.
    exists (length R). split; [cbn; lia|]. split; [done|]. by exists R.
Qed.

Lemma iterate_rows_spec {E} (g : bytes * Z -> E -> E) i B x h (Q : E -> OSHash -> Prop) :
  (forall j L, B !! j = Some L -> oh_table h !! (i + j)%nat = Some (Some (head_of L)) /\
     chain (oh_nodes h) L /\ NoDup (addrs L)) ->
  Q (foldl (fun x p => g p x) x (e_pair <$> concat B)) h ->
  wp (iterate_rows (on_pair g) i (length B) x) Q h.
Proof.
  revert i x. induction B as [|L B IH]; intros i x HB HQ; [by apply wp_ret|].
  cbn [length iterate_rows concat] in *. destruct (HB 0%nat L eq_refl) as (Ht & Hc & Hn).
  apply wp_bind. eapply wp_row_at; [by rewrite Nat2Z.id, Nat.add_0_r in *|].
  apply wp_bind, iterate_row_spec; [done|done|]. apply IH.
  - intros j R Hj. specialize (HB (S j) R Hj). by rewrite <- plus_n_Sm in HB.
  - by rewrite fmap_app, foldl_app in HQ.
Qed.

Lemma it_spec {E} (g : bytes * Z -> E -> E) B x h :
  oh_holds char_signed B h ->
  wp (OSHash_It (on_pair g) x)
    (fun y h' => h' = h /\ y = foldl (fun x p => g p x) x (e_pair <$> concat B)) h.
Proof.
  intros H. apply wp_bind, wp_gets. pose proof (last_row_empty _ _ _ H) as HB.
  pose proof (oh_bound _ _ _ H). pose proof (oh_length _ _ _ H).
  assert (Z.to_nat (oh_rows h) = length (take (Z.to_nat (oh_rows h)) B)) as Hlen
    by (rewrite length_take; lia).
  rewrite Hlen. apply iterate_rows_spec.
  - intros j L Hj. pose proof (lookup_lt_Some _ _ _ Hj) as Hjl. rewrite <- Hlen in Hjl.
    rewrite lookup_take, decide_True in Hj by lia.
    destruct (oh_row _ _ _ H _ _ Hj) as [Hc Hk _]. split_and!; [|done|by eapply chain_nodup].
    by rewrite (oh_heads _ _ _ H), list_lookup_fmap, Nat.add_0_l, Hj.
  - split; [done|]. rewrite HB at 2. rewrite concat_app. cbn. by rewrite app_nil_r.
Qed.

(** ** [OSHash_Clean] *)

Lemma pass_data_spec d h (Q : unit -> OSHash -> Prop) :
  Q tt (h <| oh_freed := oh_freed h ++ releases true [d] |>) ->
  wp (if negb (d =? 0) then pass_data d else mret tt) Q h.
Proof.
  intros HQ. unfold releases in HQ. rewrite filter_cons, filter_nil in HQ.
  destruct (Z.eqb_spec d 0) as [->|Hd]; cbn [negb].
  - rewrite decide_False, app_nil_r in HQ by (by intros []). apply wp_ret. by destruct h.
  - apply wp_modify. by rewrite decide_True in HQ by done.
Qed.

(** Every datum goes to the cleaner, whether there is a free function or not. *)
Lemma clean_spec B s h :
  implements char_signed B s h -> wp OSHash_Clean (fun _ => all_released true s) h.
Proof.
  intros Hi. pose proof (im_holds _ _ _ _ Hi) as H. pose proof (concat_addrs _ _ _ H) as Hnd.
  apply wp_bind. eapply begin_spec; [exact H|]. intros cur i Hpos. apply wp_bind, wp_gets, wp_bind.
  apply (wp_loop_nat (fun n '(cur, i) h' => exists L R, concat B = L ++ R /\ n = length R /\
    h' = after_free true L h /\ position h' cur i R)) with (n := length (concat B)).
  - exists [], (concat B). by rewrite after_free_nil.
  - pose proof (hash_holds_size _ _ H). lia.
  - intros n [cur' i'] h' (L & R & E & -> & -> & Hp).
    destruct R as [|e R]; pose proof (position_cur _ _ _ _ Hp) as Ec;
      cbn [head_of head fmap option_fmap option_map] in Ec; subst cur'.
    + apply wp_ret, wp_modify. rewrite app_nil_r in E. rewrite <- E.
      destruct (freed_all _ true _ _ _ Hi) as (Fn & Fs & Ff).
      split_and!; [exact Fn|exact Fs| |exact Ff].
      unfold after_free. oh_simpl. by rewrite (im_blocks _ _ _ _ Hi).
    + destruct (position_at _ _ _ _ _ Hp) as (_ & nxt & prev & Hn).
      apply wp_bind. eapply next_spec; [exact Hp|]. intros cur' j' Hp'.
      apply wp_bind. eapply wp_hash_node_at; [exact Hn|]. cbn [hn_key hn_data].
      apply wp_bind, wp_modify, wp_bind, pass_data_spec, wp_bind, wp_hash_node_free; [by eexists|].
      apply wp_ret. exists (length R). split; [cbn; lia|]. exists (L ++ [e]), R.
      rewrite <- app_assoc. split_and!; [done|done|by rewrite after_free_app|].
      eapply position_congr; [| | |exact Hp']; [done|done|]. intros p HpR. oh_simpl.
      apply lookup_delete_ne. intros <-. rewrite E, addrs_app in Hnd.
      by apply NoDup_app in Hnd as (_ & _ & [? _]%NoDup_cons).
Qed.
End walks.

(** * [OSHash_Duplicate] *)

Section duplicate.
Variable char_signed : bool.

(** What copying an entry leaves as it was. *)
Record copy_config h h' : Prop := {
  sc_rows : oh_rows h' = oh_rows h;
  sc_seed : oh_initial_seed h' = oh_initial_seed h;
  sc_constant : oh_constant h' = oh_constant h;
  sc_elements : oh_elements h' = oh_elements h;
  sc_free : oh_free_data h' = oh_free_data h;
  sc_freed : oh_freed h' = oh_freed h;
  sc_blocks : oh_blocks h' = oh_blocks h;
  sc_alloc : answer (oh_alloc h') = answer (oh_alloc h);
}.

Lemma copy_config_refl h : copy_config h h.
Proof. done. Qed.

Lemma copy_config_trans h1 h2 h3 : copy_config h1 h2 -> copy_config h2 h3 -> copy_config h1 h3.
Proof. intros [] []. constructor; congruence. Qed.

Lemma copy_config_slot h h' : copy_config h h' -> slot char_signed h' = slot char_signed h.
Proof. intros []. unfold slot. by rewrite sc_rows0, sc_seed0, sc_constant0. Qed.

(** Where the next copy of a row goes. *)
Definition end_of (i : nat) L : next_addr :=
  match last L with Some e => NextAddr (e_addr e) | None => RowAddr i end.

(** A node is allocated, and linked at the end of row [i]. *)
Lemma copy_entry_spec {A} i L key d B h (f : nat -> HT A) (Q : A -> OSHash -> Prop) :
  oh_holds char_signed B h -> B !! i = Some L -> slot char_signed h key = i -> key ∉ keys L ->
  next (oh_alloc h) = true ->
  (forall p h', copy_config h h' -> oh_holds char_signed (<[i := L ++ [Entry p key d]]> B) h' -> wp (f p) Q h') ->
  wp (copied ← allocated;
      new ← hash_node_new (if copied : bool then Some key else None) d;
      _ ← (if copied : bool then add_strings 1 else mret tt);
      _ ← write_addr (end_of i L) new; f new) Q h.
Proof.
  intros H Hi Hslot Hkey Hal HQ. destruct (oh_row _ _ _ H _ _ Hi) as [Hc Hk HS].
  assert (Hfresh : oh_nodes h !! oh_fresh h = None).
  { destruct (oh_nodes h !! oh_fresh h) eqn:E; [|done].
    assert (oh_fresh h < oh_fresh h)%nat; [by eapply oh_below|lia]. }
  assert (Hnew : oh_fresh h ∉ addrs L).
  { intros Hp. destruct (chain_addrs _ _ _ Hc Hp) as [n E]. congruence. }
  assert (Hhead : oh_table h !! i = Some (Some (head_of L)))
    by (by rewrite (oh_heads _ _ _ H), list_lookup_fmap, Hi).
  set (e' := Entry (oh_fresh h) key d).
  assert (Hend : forall h', copy_config h h' ->
    oh_table h' = <[i := Some (head_of (L ++ [e']))]> (oh_table h) ->
    chain (oh_nodes h') (L ++ [e']) ->
    (forall p, p ∉ addrs (L ++ [e']) -> oh_nodes h' !! p = oh_nodes h !! p) ->
    (forall p, is_Some (oh_nodes h' !! p) -> p <> oh_fresh h -> is_Some (oh_nodes h !! p)) ->
    oh_fresh h' = S (oh_fresh h) -> oh_strings h' = oh_strings h + 1 -> wp (f (oh_fresh h)) Q h').
  { intros h' Hsc Et Hc' Hout Hall Ef Estr. apply HQ; [done|].
    eapply holds_update; [exact H|exact Hi|apply Hsc|by apply copy_config_slot|done| | | | |].
    - constructor; [done| |].
      + rewrite keys_app. apply NoDup_app. split_and!; [done| |by apply NoDup_singleton].
        intros k Hin. cbn. rewrite list_elem_of_singleton. by intros ->.
      + intros e. rewrite elem_of_app, list_elem_of_singleton. intros [? | ->]; [by apply HS|done].
    - intros p. rewrite addrs_app, elem_of_app. cbn. rewrite list_elem_of_singleton.
      intros [? | ->]; [by left|by right].
    - intros p Hp. right. split; [|by apply Hout]. rewrite addrs_app in Hp. set_solver.
    - intros p Hp. rewrite Ef. destruct (decide (p = oh_fresh h)) as [->|Hne]; [lia|].
      specialize (Hall p Hp Hne). apply (oh_below _ _ _ H) in Hall. lia.
    - rewrite Estr. zlia. }
  apply wp_bind, wp_allocated. rewrite Hal. apply wp_bind, wp_bind, wp_gets, wp_bind, wp_modify, wp_ret.
  apply wp_bind, wp_modify, wp_bind. unfold end_of.
  destruct L as [|el L _] using rev_ind; [|rewrite last_snoc]; cbn [last write_addr].
  - apply wp_row_set; [oh_simpl; rewrite Nat2Z.id, Hhead; by eexists|]. apply Hend;
      oh_simpl; try done.
    + by rewrite Nat2Z.id.
    + split; [|done]. exists None. by rewrite lookup_insert_eq.
    + intros p Hp. apply lookup_insert_ne. intros <-. apply Hp. by left.
    + intros p Hp Hne. by rewrite lookup_insert_ne in Hp.
  - assert (Hel : oh_fresh h <> e_addr el).
    { intros E. apply Hnew. rewrite addrs_app, E. set_solver. }
    apply wp_hash_node_set.
    { oh_simpl. rewrite lookup_insert_ne by done. eapply chain_addrs; [exact Hc|].
      rewrite addrs_app. set_solver. }
    apply Hend; oh_simpl; try done.
    + rewrite list_insert_id; [done|]. rewrite Hhead, <- app_assoc. by erewrite head_of_app.
    + rewrite <- app_assoc. eapply (chain_splice _ _ _ [] [e']).
      * by eapply chain_nodup.
      * by apply chain_insert.
      * split; [|done]. exists None. by rewrite lookup_insert_eq.
      * intros ?%list_elem_of_singleton. done.
    + intros p Hp. rewrite !addrs_app in Hp. rewrite lookup_alter_ne, lookup_insert_ne; [done| |];
        intros <-; apply Hp; set_solver.
    + intros p Hp Hne. rewrite lookup_alter_is_Some in Hp. by rewrite lookup_insert_ne in Hp.
Qed.
(** The entries of a row are copied in their order. *)
Lemma copy_chain_spec fuel hash i L L0 B h (Q : unit -> OSHash -> Prop) :
  chain (oh_nodes hash) L -> (length L < fuel)%nat ->
  oh_holds char_signed B h -> B !! i = Some L0 -> NoDup (keys L0 ++ keys L) ->
  (forall e, e ∈ L -> slot char_signed h (e_key e) = i) ->
  (forall n, answer (oh_alloc h) n = true) ->
  (forall L' h', e_pair <$> L' = (e_pair <$> L0) ++ (e_pair <$> L) -> copy_config h h' ->
     oh_holds char_signed (<[i := L']> B) h' -> Q tt h') ->
  wp (copy_chain fuel hash (head_of L) (end_of i L0)) Q h.
Proof.
  revert L L0 B h. induction fuel as [|fuel IH]; intros L L0 B h Hc Hf H Hi Hk HS Hal HQ; [lia|].
  destruct L as [|e L]; cbn [copy_chain head_of head fmap option_fmap option_map].
  { apply wp_ret. apply (HQ L0); [by rewrite app_nil_r|apply copy_config_refl|].
    by rewrite list_insert_id. }
  destruct Hc as [[prev Hp] Hc]. apply wp_bind. eapply wp_lift; [exact Hp|]. apply wp_bind.
  eapply wp_lift; [reflexivity|]. cbn [hn_data hn_next].
  assert (Hil : (i < length B)%nat) by by eapply lookup_lt_Some.
  apply (copy_entry_spec i L0 (e_key e) (e_data e) B); [done|done| | |apply Hal|].
  - apply HS. by left.
  - intros Hin. apply NoDup_app in Hk as (_ & Hk & _). apply (Hk _ Hin). by left.
  - intros p h' Hsc H'. set (e' := Entry p (e_key e) (e_data e)) in *.
    replace (NextAddr p) with (end_of i (L0 ++ [e'])) by (unfold end_of; by rewrite last_snoc).
    eapply IH; [exact Hc|cbn in Hf; lia|exact H'|by apply list_lookup_insert_eq| | | |].
    + rewrite keys_app, <- app_assoc. exact Hk.
    + intros e1 He1. rewrite (copy_config_slot _ _ Hsc). apply HS. by right.
    + by rewrite (sc_alloc _ _ Hsc).
    + intros L' h2 EL Hsc2 H2. rewrite list_insert_insert_eq in H2.
      apply (HQ L'); [|by eapply copy_config_trans|done].
      by rewrite EL, fmap_app, <- app_assoc.
Qed.

(** Rows [i] on are copied, each to the row of its number. *)
Lemma copy_rows_spec hash Bs i B h (Q : unit -> OSHash -> Prop) :
  (forall j L, Bs !! j = Some L -> oh_table hash !! (i + j)%nat = Some (Some (head_of L)) /\
     chain (oh_nodes hash) L /\ NoDup (keys L) /\
     forall e, e ∈ L -> slot char_signed h (e_key e) = (i + j)%nat) ->
  oh_holds char_signed B h -> drop i B = replicate (length Bs) [] ->
  (forall n, answer (oh_alloc h) n = true) ->
  (forall Bs' h', map (map e_pair) Bs' = map (map e_pair) Bs -> copy_config h h' ->
     oh_holds char_signed (take i B ++ Bs') h' -> Q tt h') ->
  wp (copy_rows hash i (length Bs)) Q h.
Proof.
  revert i B h. induction Bs as [|L Bs IH]; intros i B h HB H Hdrop Hal HQ.
  { apply wp_ret. apply (HQ []); [done|apply copy_config_refl|].
    cbn in Hdrop. rewrite <- Hdrop. by rewrite take_drop. }
  cbn [length copy_rows replicate] in *.
  destruct (HB 0%nat L eq_refl) as (Ht & Hc & Hk & HS). rewrite Nat.add_0_r in *.
  assert (Hi : B !! i = Some []) by (by rewrite <- (Nat.add_0_r i), <- lookup_drop, Hdrop).
  assert (Hil : (i < length B)%nat) by by eapply lookup_lt_Some.
  apply wp_bind. eapply wp_lift; [exact Ht|]. apply wp_bind. eapply wp_lift; [reflexivity|].
  apply wp_bind. change (RowAddr i) with (end_of i []).
  eapply copy_chain_spec; [exact Hc| |exact H|exact Hi|exact Hk|exact HS|exact Hal|].
  { pose proof (chain_size _ _ Hc (chain_nodup _ _ Hc Hk)). lia. }
  intros L' h' EL Hsc H'. eapply IH; [|exact H'| |by rewrite (sc_alloc _ _ Hsc)|].
  - intros j R Hj. rewrite (copy_config_slot _ _ Hsc). specialize (HB (S j) R Hj).
    by rewrite <- plus_n_Sm in HB.
  - rewrite drop_insert_lt by lia. rewrite (drop_S _ [] i) in Hdrop by done. by injection Hdrop.
  - intros Bs' h2 EB Hsc2 H2. apply (HQ (L' :: Bs')).
    + cbn [map]. rewrite EB. f_equal. exact EL.
    + by eapply copy_config_trans.
    + rewrite (take_S_r _ _ L'), take_insert_ge, <- app_assoc in H2; [done|lia|].
      by apply list_lookup_insert_eq.
Qed.
Lemma assoc_pairs key L L' : map e_pair L' = map e_pair L -> assoc key L' = assoc key L.
Proof.
  revert L'. induction L as [|e L IH]; intros [|e' L'] E; [done|done|done|].
  cbn in E. injection E as Ek Ed EL. cbn. rewrite Ek, Ed. by rewrite (IH _ EL).
Qed.

Lemma rows_pairs key i B B' : map (map e_pair) B' = map (map e_pair) B ->
  assoc key (B' !!! i) = assoc key (B !!! i).
Proof.
  intros E. rewrite !list_lookup_total_alt.
  assert (Ei : map e_pair <$> B' !! i = map e_pair <$> B !! i)
    by (rewrite <- !list_lookup_fmap; exact (f_equal (fun l => l !! i) E)).
  destruct (B !! i) as [L|], (B' !! i) as [L'|]; try done.
  injection Ei as Ei. by apply assoc_pairs.
Qed.

(** A copy has the same entries, and counts none of them. *)
Definition copy_of (s : oh_spec) (alloc : oracle bool) : oh_spec :=
  Spec (sp_map s) (- Z.of_nat (size (sp_map s))) (sp_rows s) (sp_free s) alloc [].

Lemma duplicate_spec B s h alloc :
  implements char_signed B s h -> (forall n, answer alloc n = true) ->
  exists B' h', OSHash_Duplicate h alloc = Some h' /\
    implements char_signed B' (copy_of s (oh_alloc h')) h' /\
    map (map e_pair) B' = map (map e_pair) B.
Proof.
  intros [H Hm He Hr Hfree Ha Hf Hbl] Hal.
  set (h0 := Hash (oh_rows h) (oh_initial_seed h) (oh_constant h) 0 (oh_free_data h)
    (replicate (Z.to_nat (oh_rows h + 1)) (Some None)) ∅ 0 0 2 [] alloc).
  destruct (empty_holds char_signed h0 (Z.to_nat (oh_rows h + 1))) as [H0 _]; [apply H|done|done|done|done|].
  assert (W : wp (copy_rows h 0 (length B)) (fun _ h' => exists B',
    implements char_signed B' (copy_of s (oh_alloc h')) h' /\ map (map e_pair) B' = map (map e_pair) B) h0).
  { eapply copy_rows_spec; [|exact H0| |exact Hal|].
    - intros j L Hj. destruct (oh_row _ _ _ H _ _ Hj) as [Hc Hk HS]. split_and!; try done.
      by rewrite (oh_heads _ _ _ H), list_lookup_fmap, Nat.add_0_l, Hj.
    - by rewrite drop_0, (oh_length _ _ _ H).
    - intros B' h' EB Hsc H'. cbn [take app] in H'. exists B'. split; [|done].
      constructor; unfold copy_of; cbn [sp_map sp_dropped sp_rows sp_free sp_alloc sp_freed].
      + done.
      + intros key. rewrite Hm, (copy_config_slot _ _ Hsc). symmetry. by apply rows_pairs.
      + rewrite (sc_elements _ _ Hsc), Z.add_opp_diag_r. done.
      + by rewrite (sc_rows _ _ Hsc).
      + by rewrite (sc_free _ _ Hsc).
      + done.
      + by rewrite (sc_freed _ _ Hsc).
      + by rewrite (sc_blocks _ _ Hsc). }
  apply wp_run in W as ([] & h' & Eh & B' & Hi' & EB). exists B', h'.
  split; [|done]. rewrite (oh_length _ _ _ H) in Eh. unfold OSHash_Duplicate. fold h0. by rewrite Eh.
Qed.
End duplicate.

(** * The theorems *)

(** C24: in every state of a table that implements a map, the loop over [OSHash_Begin] and
    [OSHash_Next], the calls of [OSHash_It] and the calls of the cleaner in
    [OSHash_Clean] meet every entry of the map exactly once, in the same order the first
    two; and [OSHash_Clean] frees everything and passes on all the data. *)
Theorem oshash_walks_once (char_signed : bool) B (s : oh_spec) h :
  implements char_signed B s h ->
  exists l, l ≡ₚ map_to_list (sp_map s) /\ walk h = Some (l, h) /\
    (forall E (g : bytes * Z -> E -> E) x mode, 0 <= mode <= 2 ->
       OSHash_It_ex (on_pair g) mode x h = Some (foldl (fun x p => g p x) x l, h)) /\
    exists h', OSHash_Clean h = Some (tt, h') /\ all_released true s h'.
Proof.
  intros Hi. pose proof (im_holds _ _ _ _ Hi) as H. exists (e_pair <$> concat B). split_and!.
  - symmetry. eapply contents; [exact H|apply Hi].
  - pose proof (walk_spec _ _ _ H) as W. by apply wp_run in W as (l & h' & E & -> & ->).
  - intros E g x mode Hmode. pose proof (it_spec _ g _ x _ H) as W.
    unfold OSHash_It_ex. assert (mode = 0 \/ mode = 1 \/ mode = 2) as Hcases by lia.
    apply wp_run in W as (y & h' & Ey & -> & ->). destruct Hcases as [->|[->| ->]]; exact Ey.
  - pose proof (clean_spec _ _ _ _ Hi) as W. apply wp_run in W as ([] & h' & E & Hall). by exists h'.
Qed.

(** C25: a duplicate of a table implements the same map and is walked in the same order, as
    long as memory does not run out; its count of elements is 0 whatever it holds. *)
Theorem oshash_duplicate_same_map (char_signed : bool) B (s : oh_spec) h (alloc : oracle bool) :
  implements char_signed B s h -> (forall n, answer alloc n = true) ->
  exists B' h' l, OSHash_Duplicate_ex h alloc = Some h' /\
    implements char_signed B' (copy_of s (oh_alloc h')) h' /\
    walk h = Some (l, h) /\ walk h' = Some (l, h') /\ OSHash_Get_Elem_ex h' = Some (0, h').
Proof.
  intros Hi Hal. destruct (duplicate_spec _ _ _ _ _ Hi Hal) as (B' & h' & E & Hi' & EB).
  exists B', h', (e_pair <$> concat B). split_and!; [done|done| | |].
  - pose proof (walk_spec _ _ _ (im_holds _ _ _ _ Hi)) as W. by apply wp_run in W as (l & h1 & W & -> & ->).
  - pose proof (walk_spec _ _ _ (im_holds _ _ _ _ Hi')) as W. apply wp_run in W as (l & h1 & W & -> & ->).
    rewrite W. do 2 f_equal. change (map e_pair (concat B') = map e_pair (concat B)).
    by rewrite !concat_map, EB.
  - pose proof (im_elements _ _ _ _ Hi') as Ee. cbn [copy_of sp_map sp_dropped] in Ee.
    rewrite Z.add_opp_diag_r in Ee. unfold OSHash_Get_Elem_ex, gets. by rewrite Ee.
Qed.

(** * Concrete instances *)

(** A table with three entries, as a state of the refinement. *)
Lemma sample_table :
  exists B s h, implements true B s h /\ size (sp_map s) = 3%nat.
Proof.
  destruct (create_spec true no_failures 12 345) as (h0 & E0 & B0 & Hi0); [done|done|].
  pose proof (hash_run_spec true [OpAdd (str "a") 1; OpAdd (str "b") 2; OpAdd (str "F") 3] B0 _
    ((new_table no_failures) <| sp_map := {[str "a" := 1; str "b" := 2; str "F" := 3]} |>
       <| sp_alloc := Oracle (fun _ => true) 8 |>) h0 [2; 2; 2] Hi0) as W.
  apply wp_run in W as (answers & h & _ & _ & B & Hi).
  - eexists B, _, h. split; [exact Hi|]. by vm_compute.
  - repeat constructor.
  - by vm_compute.
Qed.

Example oshash_walks_once_witness :
  exists s h l, length l = 3%nat /\ l ≡ₚ map_to_list (sp_map s) /\ walk h = Some (l, h) /\
    exists h', OSHash_Clean h = Some (tt, h') /\ all_released true s h'.
Proof.
  destruct sample_table as (B & s & h & Hi & Hsize).
  destruct (oshash_walks_once true B s h Hi) as (l & Hl & Hw & _ & Hc).
  exists s, h, l. split; [|done]. by rewrite Hl, length_map_to_list.
Defined.

Example oshash_duplicate_same_map_witness :
  exists s h B' h' l, size (sp_map s) = 3%nat /\ OSHash_Duplicate_ex h no_failures = Some h' /\
    implements true B' (copy_of s (oh_alloc h')) h' /\
    walk h = Some (l, h) /\ walk h' = Some (l, h') /\ OSHash_Get_Elem_ex h' = Some (0, h').
Proof.
  destruct sample_table as (B & s & h & Hi & Hsize).
  destruct (oshash_duplicate_same_map true B s h no_failures Hi) as (B' & h' & l & H); [done|].
  by exists s, h, B', h', l.
Defined.

(** A copy of a key that fails is not noticed: the duplicate has a node without a key,
    which [OSHash_Get] skips and every other operation on its row dereferences. *)
Theorem duplicate_without_key :
  exists h0 h h', OSHash_Create no_failures 1 1 = Some (Some h0) /\
    OSHash_Add true (str "a") 1 h0 = Some (2, h) /\ OSHash_Duplicate h (failing 0) = Some h' /\
    OSHash_Get true (str "a") h' = Some (0, h') /\ OSHash_Update true (str "a") 2 h' = None /\
    OSHash_Delete true (str "a") h' = None.
Proof. do 3 eexists. repeat (split; [vm_compute; reflexivity|]). vm_compute. reflexivity. Qed.
