(* ===== verification/OsList.v ===== *)
(** The agent's lists, agents/shared/list_op.c: doubly linked nodes with a cursor
    ([cur_node]) and an optional bound on their number.  A pointer to a node is its
    address in the heap of the list's nodes; a pointer to data is a number, 0 being
    null.  A locked section is one step.  The cursor is a plain pointer: nothing keeps
    it from pointing to a node that is freed. *)
From stdpp Require Import gmap.
From S2P Require Import Prelude LinkedQueue.
#[local] Open Scope Z_scope.

(** * State *)

Record OSListNode := OsListNode {
  on_next : option nat;
  on_prev : option nat;
  on_data : Z;
}.
#[export] Instance eta_os_list_node : Eta OSListNode := fun n =>
  OsListNode (on_next n) (on_prev n) (on_data n).

(** [ol_blocks] counts the list's own block and [ol_nodes] are the allocated nodes; [ol_freed] is the data given to
    [free_data_function], which is set if [ol_free_data]; [ol_alloc] answers whether an
    allocation succeeds. *)
Record OSList := OsList {
  ol_first : option nat;
  ol_last : option nat;
  ol_cur : option nat;
  ol_currently_size : Z;
  ol_max_size : Z;
  ol_count : Z;
  ol_pending_remove : Z;
  ol_free_data : bool;
  ol_blocks : Z;
  ol_nodes : gmap nat OSListNode;
  ol_fresh : nat;
  ol_freed : list Z;
  ol_alloc : oracle bool;
}.
#[export] Instance eta_os_list : Eta OSList := fun l =>
  OsList (ol_first l) (ol_last l) (ol_cur l) (ol_currently_size l) (ol_max_size l)
    (ol_count l) (ol_pending_remove l) (ol_free_data l) (ol_blocks l) (ol_nodes l) (ol_fresh l)
    (ol_freed l) (ol_alloc l).

Ltac ol_simpl :=
  cbn [update eta_os_list eta_os_list_node ol_first ol_last ol_cur ol_currently_size
       ol_max_size ol_count ol_pending_remove ol_free_data ol_blocks ol_nodes ol_fresh ol_freed
       ol_alloc on_next on_prev on_data].

Abbreviation LT := (ST OSList).

(** * Memory *)

Definition cell_at (p : nat) : LT OSListNode :=
  n ← gets (fun l => ol_nodes l !! p); lift n.
Definition cell_set (p : nat) (f : OSListNode -> OSListNode) : LT unit :=
  _ ← cell_at p; modify (fun l => l <| ol_nodes := alter f p (ol_nodes l) |>).
Definition cell_free (p : nat) : LT unit :=
  _ ← cell_at p; modify (fun l => l <| ol_nodes := delete p (ol_nodes l) |>).

(** [calloc] of a node: null when it fails. *)
Definition cell_new : LT (option nat) :=
  ok ← gets (fun l => next (ol_alloc l));
  _ ← modify (fun l => l <| ol_alloc := advance (ol_alloc l) |>);
  if negb ok then mret None else
  p ← gets ol_fresh;
  _ ← modify (fun l => l <| ol_nodes := <[p := OsListNode None None 0]> (ol_nodes l) |>
                         <| ol_fresh := S p |>);
  mret (Some p).

Definition cell_next (p : nat) (q : option nat) : LT unit := cell_set p (fun n => n <| on_next := q |>).
Definition cell_prev (p : nat) (q : option nat) : LT unit := cell_set p (fun n => n <| on_prev := q |>).
Definition cell_data (p : nat) (d : Z) : LT unit := cell_set p (fun n => n <| on_data := d |>).
Definition list_first (p : option nat) : LT unit := modify (fun l => l <| ol_first := p |>).
Definition list_last (p : option nat) : LT unit := modify (fun l => l <| ol_last := p |>).
Definition list_cur (p : option nat) : LT unit := modify (fun l => l <| ol_cur := p |>).

(** [if (list->free_data_function) list->free_data_function(data)] *)
Definition release_data (data : Z) : LT unit :=
  set ← gets ol_free_data;
  if set : bool then modify (fun l => l <| ol_freed := ol_freed l ++ [data] |>) else mret tt.

(** [currently_size++] and [currently_size--] of an [int]; overflow is undefined. *)
Definition bump_size (d : Z) : LT unit :=
  n ← gets ol_currently_size;
  if (- 2 ^ 31 <=? n + d) && (n + d <? 2 ^ 31)
  then modify (fun l => l <| ol_currently_size := n + d |>) else ub.

(** A walk meets no more nodes than are allocated. *)
Definition cell_bound : LT nat := gets (fun l => S (size (ol_nodes l))).

(** * Creating and configuring *)

(** [None] is a null result. *)
Definition OSList_Create (alloc : oracle bool) : option OSList :=
  if negb (next alloc) then None
  else Some (OsList None None None 0 0 0 0 false 1 ∅ 0 [] (advance alloc)).

Definition OSList_SetMaxSize (max_size : Z) : LT Z :=
  if max_size <=? 1 then mret 0 else
  _ ← modify (fun l => l <| ol_max_size := max_size |>); mret 1.

Definition OSList_SetFreeDataPointer (set : bool) : LT Z :=
  _ ← modify (fun l => l <| ol_free_data := set |>); mret 1.

(** * The cursor *)

Definition OSList_GetFirstNode : LT (option nat) :=
  first ← gets ol_first; _ ← list_cur first; mret first.
Definition OSList_GetLastNode : LT (option nat) :=
  last ← gets ol_last; _ ← list_cur last; mret last.
Definition OSList_GetLastNode_group : LT (option nat) :=
  last ← gets ol_last; _ ← list_cur last; mret last.

Definition OSList_GetNextNode : LT (option nat) :=
  cur ← gets ol_cur;
  match cur with
  | None => mret None
  | Some p => n ← cell_at p; _ ← list_cur (on_next n); mret (on_next n)
  end.
Definition OSList_GetPrevNode : LT (option nat) :=
  cur ← gets ol_cur;
  match cur with
  | None => mret None
  | Some p => n ← cell_at p; _ ← list_cur (on_prev n); mret (on_prev n)
  end.
Definition OSList_GetCurrentlyNode : LT (option nat) := gets ol_cur.

(** * Deleting *)

Definition OSList_DeleteOldestNode : LT unit :=
  first ← gets ol_first;
  match first with
  | None => mret tt
  | Some p =>
      n ← cell_at p;
      _ ← match on_next n with
          | Some next => cell_prev next None
          | None => list_last None
          end;
      _ ← cell_free p;
      list_first (on_next n)
  end.

(** The body that [OSList_DeleteThisNode] and [OSList_DeleteCurrentlyNode] share. *)
Definition delete_node (p : nat) : LT unit :=
  n ← cell_at p;
  _ ← match on_prev n, on_next n with
      | Some prev, Some next => _ ← cell_next prev (Some next); cell_prev next (Some prev)
      | Some prev, None => _ ← cell_next prev None; list_last (Some prev)
      | None, Some next => _ ← cell_prev next None; list_first (Some next)
      | None, None => _ ← list_last None; list_first None
      end;
  _ ← cell_free p;
  _ ← list_cur (on_next n);
  bump_size (-1).

Definition OSList_DeleteThisNode (thisnode : option nat) : LT unit :=
  match thisnode with None => mret tt | Some p => delete_node p end.

Definition OSList_DeleteCurrentlyNode : LT unit :=
  cur ← gets ol_cur;
  match cur with None => mret tt | Some p => delete_node p end.

(** * Adding *)

(** The oldest node goes when the list is over its bound. *)
Definition evict : LT unit :=
  max_size ← gets ol_max_size;
  if max_size =? 0 then mret tt else
  currently_size ← gets ol_currently_size;
  if negb (max_size <? currently_size) then mret tt else
  first ← gets ol_first;
  first ← lift first;
  n ← cell_at first;
  match on_next n with
  | None => mret tt
  | Some newnode =>
      _ ← cell_prev newnode None;
      n ← cell_at first;
      _ ← release_data (on_data n);
      _ ← cell_free first;
      _ ← list_first (Some newnode);
      bump_size (-1)
  end.

Definition OSList_AddData (data : Z) : LT (option nat) :=
  newnode ← cell_new;
  match newnode with
  | None => mret None
  | Some newnode =>
      last ← gets ol_last;
      _ ← cell_prev newnode last;
      _ ← cell_next newnode None;
      _ ← cell_data newnode data;
      first ← gets ol_first;
      _ ← match first with None => list_first (Some newnode) | Some _ => mret tt end;
      _ ← match last with Some last => cell_next last (Some newnode) | None => mret tt end;
      _ ← list_last (Some newnode);
      _ ← bump_size 1;
      _ ← evict;
      gets ol_last
  end.

Definition _OSList_InsertData (node : option nat) (data : Z) : LT Z :=
  newnode ← cell_new;
  match newnode with
  | None => mret 1
  | Some newnode =>
      _ ← cell_data newnode data;
      first ← gets ol_first;
      _ ← match first, node with
          | None, _ =>
              _ ← list_first (Some newnode);
              _ ← list_last (Some newnode);
              _ ← cell_prev newnode None;
              cell_next newnode None
          | Some _, None =>
              last ← gets ol_last;
              _ ← cell_prev newnode last;
              last ← lift last;
              _ ← cell_next last (Some newnode);
              _ ← cell_next newnode None;
              list_last (Some newnode)
          | Some _, Some p =>
              n ← cell_at p;
              _ ← match on_prev n with
                  | None => _ ← cell_prev newnode None; list_first (Some newnode)
                  | Some prev => _ ← cell_next prev (Some newnode); cell_prev newnode (Some prev)
                  end;
              _ ← cell_next newnode (Some p);
              cell_prev p (Some newnode)
          end;
      _ ← bump_size 1;
      mret 0
  end.

Definition OSList_InsertData (node : option nat) (data : Z) : LT Z := _OSList_InsertData node data.

Definition OSList_PushData (data : Z) : LT Z :=
  first ← gets ol_first; _OSList_InsertData first data.

(** * Reading *)

Definition OSList_GetNext (node : option nat) : LT (option nat) :=
  match node with None => mret None | Some p => n ← cell_at p; mret (on_next n) end.

(** [count] counts from 0 on; the list is shorter than an [int] can count. *)
Definition OSList_GetDataFromIndex (index : Z) : LT Z :=
  current ← gets ol_first;
  fuel ← cell_bound;
  loop fuel (fun '(count, current) =>
    match current with
    | None => mret (inr 0)
    | Some p =>
        n ← cell_at p;
        if count =? index then mret (inr (on_data n)) else mret (inl (count + 1, on_next n))
    end) (0, current).

(** * Cleaning *)

(** The loop over the nodes; [with_data] is the call of the free function. *)
Definition clean_nodes (with_data : bool) : LT unit :=
  fuel ← cell_bound;
  loop fuel (fun _ =>
    first ← gets ol_first;
    match first with
    | None => mret (inr tt)
    | Some aux_node =>
        n ← cell_at aux_node;
        _ ← list_first (on_next n);
        _ ← (if with_data then release_data (on_data n) else mret tt);
        _ ← cell_free aux_node;
        mret (inl tt)
    end) tt.

Definition reset_list : LT unit :=
  modify (fun l => l <| ol_last := None |> <| ol_cur := None |> <| ol_first := None |>
                     <| ol_currently_size := 0 |>).

Definition OSList_CleanNodes : LT unit := _ ← clean_nodes true; reset_list.
Definition OSList_CleanOnlyNodes : LT unit := _ ← clean_nodes false; reset_list.

Definition OSList_Destroy : LT unit :=
  _ ← OSList_CleanNodes; modify (fun l => l <| ol_blocks := ol_blocks l - 1 |>).

(** * The list as a sequence

    [ls_items] are the nodes in order, with their data.  The operations that take a node,
    and the cursor, need it to be in the list. *)

Record ls_spec := LsSpec {
  ls_items : list (nat * Z);
  ls_cur : option nat;
  ls_size : Z;
  ls_max : Z;
  ls_free : bool;
  ls_fresh : nat;
  ls_freed : list Z;
  ls_alloc : oracle bool;
}.
#[export] Instance eta_ls_spec : Eta ls_spec := fun s =>
  LsSpec (ls_items s) (ls_cur s) (ls_size s) (ls_max s) (ls_free s) (ls_fresh s)
    (ls_freed s) (ls_alloc s).

Ltac ls_simpl :=
  cbn [update eta_ls_spec ls_items ls_cur ls_size ls_max ls_free ls_fresh ls_freed ls_alloc].

Inductive ol_op :=
| OpSetMaxSize (max_size : Z)
| OpSetFree (set : bool)
| OpFirst | OpLast | OpNext | OpPrev | OpCurrently
| OpDeleteOldest
| OpDeleteThis (node : option nat)
| OpDeleteCurrently
| OpAdd (data : Z)
| OpInsert (node : option nat) (data : Z)
| OpPush (data : Z)
| OpGetNext (node : option nat)
| OpIndex (index : Z)
| OpClean
| OpCleanOnly.

Inductive ol_answer := Nothing | ANode (p : option nat) | ANumber (n : Z).

(** The nodes before and after a node. *)
Fixpoint node_split (p : nat) (L : list (nat * Z)) : option (list (nat * Z) * Z * list (nat * Z)) :=
  match L with
  | [] => None
  | (q, d) :: L =>
      if decide (q = p) then Some ([], d, L) else
      '(A, d', B) ← node_split p L; Some ((q, d) :: A, d', B)
  end.

Definition spec_size (d : Z) (s : ls_spec) : option ls_spec :=
  if (- 2 ^ 31 <=? ls_size s + d) && (ls_size s + d <? 2 ^ 31)
  then Some (s <| ls_size := ls_size s + d |>) else None.

Definition spec_release (data : list Z) (s : ls_spec) : ls_spec :=
  if ls_free s then s <| ls_freed := ls_freed s ++ data |> else s.

Definition spec_delete (p : nat) (s : ls_spec) : option ls_spec :=
  '(A, _, B) ← node_split p (ls_items s);
  spec_size (-1) (s <| ls_items := A ++ B |> <| ls_cur := first_or B None |>).

(** The oldest item goes when the size is over the bound and it is not the last. *)
Definition spec_evict (s : ls_spec) : option ls_spec :=
  if (ls_max s =? 0) || negb (ls_max s <? ls_size s) then Some s else
  match ls_items s with
  | (_, d) :: q :: items => spec_size (-1) (spec_release [d] (s <| ls_items := q :: items |>))
  | _ => Some s
  end.

(** [insert] says where a new node goes. *)
Definition spec_new {A} (s : ls_spec) (failed : A)
    (insert : nat -> ls_spec -> option (A * ls_spec)) : option (A * ls_spec) :=
  let s' := s <| ls_alloc := advance (ls_alloc s) |> in
  if next (ls_alloc s) then insert (ls_fresh s) (s' <| ls_fresh := S (ls_fresh s) |>)
  else Some (failed, s').

Definition insert_items (node : option nat) (p : nat) (data : Z) (items : list (nat * Z)) :
    option (list (nat * Z)) :=
  match items, node with
  | [], _ => Some [(p, data)]
  | items, None => Some (items ++ [(p, data)])
  | items, Some q => '(A, d, B) ← node_split q items; Some (A ++ (p, data) :: (q, d) :: B)
  end.

Definition spec_insert (node : option nat) (data : Z) (s : ls_spec) : option (ol_answer * ls_spec) :=
  spec_new s (ANumber 1) (fun p s =>
    items ← insert_items node p data (ls_items s);
    s ← spec_size 1 (s <| ls_items := items |>);
    Some (ANumber 0, s)).

Definition spec_move (p : option nat) (s : ls_spec) : option (ol_answer * ls_spec) :=
  Some (ANode p, s <| ls_cur := p |>).

Definition spec_empty (s : ls_spec) : ls_spec :=
  s <| ls_items := [] |> <| ls_cur := None |> <| ls_size := 0 |>.

(** [None]: a node that is not in the list, or an [int] that overflows. *)
Definition spec_op (o : ol_op) (s : ls_spec) : option (ol_answer * ls_spec) :=
  let items := ls_items s in
  match o with
  | OpSetMaxSize n => Some (if n <=? 1 then (ANumber 0, s) else (ANumber 1, s <| ls_max := n |>))
  | OpSetFree set => Some (ANumber 1, s <| ls_free := set |>)
  | OpFirst => spec_move (first_or items None) s
  | OpLast => spec_move (last_or items None) s
  | OpNext =>
      match ls_cur s with
      | None => Some (ANode None, s)
      | Some p => '(_, _, B) ← node_split p items; spec_move (first_or B None) s
      end
  | OpPrev =>
      match ls_cur s with
      | None => Some (ANode None, s)
      | Some p => '(A, _, _) ← node_split p items; spec_move (last_or A None) s
      end
  | OpCurrently => Some (ANode (ls_cur s), s)
  | OpDeleteOldest => Some (Nothing, s <| ls_items := tail items |>)
  | OpDeleteThis None => Some (Nothing, s)
  | OpDeleteThis (Some p) => s ← spec_delete p s; Some (Nothing, s)
  | OpDeleteCurrently =>
      match ls_cur s with
      | None => Some (Nothing, s)
      | Some p => s ← spec_delete p s; Some (Nothing, s)
      end
  | OpAdd data =>
      spec_new s (ANode None) (fun p s =>
        s ← spec_size 1 (s <| ls_items := ls_items s ++ [(p, data)] |>);
        s ← spec_evict s;
        Some (ANode (Some p), s))
  | OpInsert node data => spec_insert node data s
  | OpPush data => spec_insert (first_or items None) data s
  | OpGetNext None => Some (ANode None, s)
  | OpGetNext (Some p) => '(_, _, B) ← node_split p items; Some (ANode (first_or B None), s)
  | OpIndex index => Some (ANumber (if index <? 0 then 0 else default 0 (items.*2 !! Z.to_nat index)), s)
  | OpClean => Some (Nothing, spec_empty (spec_release items.*2 s))
  | OpCleanOnly => Some (Nothing, spec_empty s)
  end.

Fixpoint spec_run (ops : list ol_op) (s : ls_spec) : option (list ol_answer * ls_spec) :=
  match ops with
  | [] => Some ([], s)
  | o :: ops =>
      '(a, s) ← spec_op o s;
      '(answers, s) ← spec_run ops s;
      Some (a :: answers, s)
  end.

Definition ol_run_op (o : ol_op) : LT ol_answer :=
  match o with
  | OpSetMaxSize n => r ← OSList_SetMaxSize n; mret (ANumber r)
  | OpSetFree set => r ← OSList_SetFreeDataPointer set; mret (ANumber r)
  | OpFirst => p ← OSList_GetFirstNode; mret (ANode p)
  | OpLast => p ← OSList_GetLastNode; mret (ANode p)
  | OpNext => p ← OSList_GetNextNode; mret (ANode p)
  | OpPrev => p ← OSList_GetPrevNode; mret (ANode p)
  | OpCurrently => p ← OSList_GetCurrentlyNode; mret (ANode p)
  | OpDeleteOldest => _ ← OSList_DeleteOldestNode; mret Nothing
  | OpDeleteThis node => _ ← OSList_DeleteThisNode node; mret Nothing
  | OpDeleteCurrently => _ ← OSList_DeleteCurrentlyNode; mret Nothing
  | OpAdd data => p ← OSList_AddData data; mret (ANode p)
  | OpInsert node data => r ← OSList_InsertData node data; mret (ANumber r)
  | OpPush data => r ← OSList_PushData data; mret (ANumber r)
  | OpGetNext node => p ← OSList_GetNext node; mret (ANode p)
  | OpIndex index => d ← OSList_GetDataFromIndex index; mret (ANumber d)
  | OpClean => _ ← OSList_CleanNodes; mret Nothing
  | OpCleanOnly => _ ← OSList_CleanOnlyNodes; mret Nothing
  end.

Fixpoint ol_run (ops : list ol_op) : LT (list ol_answer) :=
  match ops with
  | [] => mret []
  | o :: ops => a ← ol_run_op o; answers ← ol_run ops; mret (a :: answers)
  end.

(** * Cells and segments

    The nodes are those of [LinkedQueue] with the fields in another order, and its
    segments describe them. *)

Implicit Types (L A B : list (nat * Z)) (l : OSList) (s : ls_spec) (h : gmap nat OSListNode).

Definition to_cell (n : OSListNode) : linked_queue_node_t :=
  LinkedNode (on_data n) (on_next n) (on_prev n).
Definition cells h : gmap nat linked_queue_node_t := to_cell <$> h.

Lemma cells_lookup h p n : cells h !! p = Some n ->
  h !! p = Some (OsListNode (ln_next n) (ln_prev n) (ln_data n)).
Proof. unfold cells. rewrite lookup_fmap. by intros ([] & -> & ->)%fmap_Some. Qed.

Lemma cells_alter f g p h : (forall n, to_cell (f n) = g (to_cell n)) ->
  cells (alter f p h) = alter g p (cells h).
Proof.
  intros E. apply map_eq. intros q. unfold cells. rewrite lookup_fmap.
  destruct (decide (p = q)) as [->|Hne].
  - rewrite !lookup_alter_eq, lookup_fmap. destruct (h !! q); [|done]. cbn. by rewrite E.
  - by rewrite !lookup_alter_ne, lookup_fmap by done.
Qed.

Lemma cells_insert p n h : cells (<[p := n]> h) = <[p := to_cell n]> (cells h).
Proof. apply fmap_insert. Qed.

Lemma cells_delete p h : cells (delete p h) = delete p (cells h).
Proof. apply fmap_delete. Qed.

Lemma cells_next p q h : cells (alter (fun n => OsListNode q (on_prev n) (on_data n)) p h)
  = alter (fun n => n <| ln_next := q |>) p (cells h).
Proof. by apply cells_alter. Qed.

Lemma cells_prev p q h : cells (alter (fun n => OsListNode (on_next n) q (on_data n)) p h)
  = alter (fun n => n <| ln_prev := q |>) p (cells h).
Proof. by apply cells_alter. Qed.

(** The nodes of the list are [L], and no others. *)
Record ol_holds L l : Prop := {
  olh_seg : seg (cells (ol_nodes l)) None L None;
  olh_first : ol_first l = first_or L None;
  olh_last : ol_last l = last_or L None;
  olh_nodup : NoDup L.*1;
  olh_only : forall p, p ∉ L.*1 -> ol_nodes l !! p = None;
  olh_below : forall p, p ∈ L.*1 -> (p < ol_fresh l)%nat;
}.

Record ol_implements s l : Prop := {
  oli_holds : ol_holds (ls_items s) l;
  oli_cur : ol_cur l = ls_cur s;
  oli_size : ol_currently_size l = ls_size s;
  oli_max : ol_max_size l = ls_max s;
  oli_free : ol_free_data l = ls_free s;
  oli_fresh : ol_fresh l = ls_fresh s;
  oli_freed : ol_freed l = ls_freed s;
  oli_alloc : ol_alloc l = ls_alloc s;
  oli_blocks : ol_blocks l = 1;
}.

Lemma seg_cell h prev A p d B next :
  seg (cells h) prev (A ++ (p, d) :: B) next ->
  h !! p = Some (OsListNode (first_or B next) (last_or A prev) d).
Proof. intros H. by apply seg_lookup, cells_lookup in H. Qed.

Lemma node_split_Some p L A d B : node_split p L = Some (A, d, B) -> L = A ++ (p, d) :: B.
Proof.
  revert A. induction L as [|[q dq] L IH]; intros A E; [done|]. cbn in E.
  destruct (decide (q = p)) as [->|]; [by injection E as <- <- <-|].
  destruct (node_split p L) as [[[A' d'] B']|]; [|done]. cbn in E. injection E as <- <- <-.
  cbn. by rewrite (IH A').
Qed.

(** ** The steps *)

Lemma wp_cell_at p n l (Q : OSListNode -> OSList -> Prop) :
  ol_nodes l !! p = Some n -> Q n l -> wp (cell_at p) Q l.
Proof. intros H HQ. apply wp_bind, wp_gets. by eapply wp_lift. Qed.

Lemma wp_cell_set p f l (Q : unit -> OSList -> Prop) :
  is_Some (ol_nodes l !! p) ->
  Q tt (l <| ol_nodes := alter f p (ol_nodes l) |>) -> wp (cell_set p f) Q l.
Proof. intros [n H] HQ. apply wp_bind. eapply wp_cell_at; [done|]. by apply wp_modify. Qed.

Lemma wp_cell_free p l (Q : unit -> OSList -> Prop) :
  is_Some (ol_nodes l !! p) ->
  Q tt (l <| ol_nodes := delete p (ol_nodes l) |>) -> wp (cell_free p) Q l.
Proof. intros [n H] HQ. apply wp_bind. eapply wp_cell_at; [done|]. by apply wp_modify. Qed.

Lemma bump_size_spec d s s' l (Q : unit -> OSList -> Prop) :
  ol_currently_size l = ls_size s -> spec_size d s = Some s' ->
  (s' = s <| ls_size := ls_size s + d |> -> Q tt (l <| ol_currently_size := ls_size s + d |>)) ->
  wp (bump_size d) Q l.
Proof.
  intros E Hs HQ. apply wp_bind, wp_gets. rewrite E. unfold spec_size in Hs.
  destruct (_ && _); [|done]. apply wp_modify, HQ. by injection Hs.
Qed.

Lemma release_data_spec d s l (Q : unit -> OSList -> Prop) :
  ol_free_data l = ls_free s -> ol_freed l = ls_freed s ->
  Q tt (l <| ol_freed := ls_freed (spec_release [d] s) |>) -> wp (release_data d) Q l.
Proof.
  intros Ef Ed HQ. apply wp_bind, wp_gets. rewrite Ef. unfold spec_release in HQ.
  destruct (ls_free s); [by apply wp_modify; rewrite Ed|]. apply wp_ret.
  rewrite <- Ed in HQ. by destruct l.
Qed.

(** ** Unlinking and linking a node *)

Lemma cells_None h p : cells h !! p = None <-> h !! p = None.
Proof. unfold cells. by rewrite lookup_fmap, fmap_None. Qed.

Lemma elem_middle A p d B q : q ∈ (A ++ (p, d) :: B).*1 <-> q = p \/ q ∈ (A ++ B).*1.
Proof. rewrite !fmap_app, !elem_of_app. cbn. rewrite elem_of_cons. tauto. Qed.

Lemma nodup_middle A p d B :
  NoDup (A ++ (p, d) :: B).*1 <-> p ∉ (A ++ B).*1 /\ NoDup (A ++ B).*1.
Proof. rewrite <- Permutation_middle. apply NoDup_cons. Qed.

Lemma holds_unlink A p d B l l' :
  ol_holds (A ++ (p, d) :: B) l ->
  cells (ol_nodes l') = delete p (join_prev A B (join_next A B (cells (ol_nodes l)))) ->
  ol_first l' = first_or (A ++ B) None -> ol_last l' = last_or (A ++ B) None ->
  ol_fresh l' = ol_fresh l -> ol_holds (A ++ B) l'.
Proof.
  intros [Hs Hf Hl Hn Ho Hb] En Ef El Efr. pose proof Hn as [Hp Hnd]%nodup_middle.
  constructor; [|done|done|done| |].
  - rewrite En. apply seg_delete; [done|]. by eapply seg_join.
  - intros q Hq. apply cells_None. rewrite En. destruct (decide (q = p)) as [->|Hne].
    { apply lookup_delete_eq. }
    rewrite lookup_delete_ne by done. rewrite fmap_app, not_elem_of_app in Hq. destruct Hq.
    rewrite join_prev_other, join_next_other by done. apply cells_None, Ho.
    rewrite elem_middle, fmap_app. set_solver.
  - intros q Hq. rewrite Efr. apply Hb, elem_middle. by right.
Qed.

Lemma holds_link A p d B l l' :
  ol_holds (A ++ B) l -> p ∉ (A ++ B).*1 ->
  cells (ol_nodes l') !! p = Some (LinkedNode d (first_or B None) (last_or A None)) ->
  (forall q, q <> p -> cells (ol_nodes l') !! q
     = join_prev [(p, d)] B (join_next A [(p, d)] (cells (ol_nodes l))) !! q) ->
  ol_first l' = first_or (A ++ (p, d) :: B) None -> ol_last l' = last_or (A ++ (p, d) :: B) None ->
  (forall q, q ∈ (A ++ (p, d) :: B).*1 -> (q < ol_fresh l')%nat) ->
  ol_holds (A ++ (p, d) :: B) l'.
Proof.
  intros [Hs Hf Hl Hn Ho Hb] Hp Ep Eq Ef El Hfr.
  assert (Hsep : forall q, q ∈ A.*1 -> q ∉ B.*1).
  { intros q HA HB. rewrite fmap_app in Hn. apply NoDup_app in Hn as (_ & Hd & _). by apply (Hd q). }
  rewrite fmap_app, not_elem_of_app in Hp. destruct Hp as [HpA HpB].
  apply seg_app in Hs as [HsA HsB]. rewrite fmap_app in Hn. apply NoDup_app in Hn as (HnA & Hd & HnB).
  constructor; [|done|done| | |done].
  - apply seg_app. split; [|split].
    + apply (seg_congr (join_next A [(p, d)] (cells (ol_nodes l)))).
      { intros q Hq. rewrite Eq by (by intros ->). apply join_prev_other. by apply Hsep. }
      unfold join_next. destruct A as [|[a da] A _] using rev_ind; [done|].
      rewrite last_snoc. by eapply seg_set_next.
    + exact Ep.
    + apply (seg_congr (join_prev [(p, d)] B (cells (ol_nodes l)))).
      { intros q Hq. rewrite Eq by (by intros ->).
        assert (Ej : join_next A [(p, d)] (cells (ol_nodes l)) !! q = cells (ol_nodes l) !! q).
        { apply join_next_other. intros HqA. by apply (Hsep q). }
        unfold join_prev. destruct B as [|[b db] B]; [done|]. destruct (decide (b = q)) as [->|Hne].
        - by rewrite !lookup_alter_eq, Ej.
        - by rewrite !lookup_alter_ne. }
      unfold join_prev. destruct B as [|[b db] B]; [done|]. by eapply seg_set_prev.
  - apply nodup_middle. rewrite fmap_app, not_elem_of_app, NoDup_app. tauto.
  - intros q Hq. rewrite elem_middle in Hq. apply cells_None. rewrite Eq by tauto.
    assert (q ∉ A.*1 /\ q ∉ B.*1) as [HqA HqB] by (rewrite fmap_app, elem_of_app in Hq; tauto).
    rewrite join_prev_other, join_next_other by done. apply cells_None, Ho.
    rewrite fmap_app, elem_of_app. tauto.
Qed.

(** ** Deleting *)

Lemma is_Some_alter_cell (f : OSListNode -> OSListNode) p q h :
  is_Some (h !! q) -> is_Some (alter f p h !! q).
Proof. by rewrite lookup_alter_is_Some. Qed.

Lemma head_allocated p d A B l : ol_holds (A ++ (p, d) :: B) l -> is_Some (ol_nodes l !! p).
Proof. intros H. rewrite (seg_cell _ _ _ _ _ _ _ (olh_seg _ _ H)). by eexists. Qed.

(** The nodes of the list, and what depends on them, are replaced. *)
Lemma items_implements items cur size freed s l l' :
  ol_implements s l -> ol_holds items l' ->
  ol_cur l' = cur -> ol_currently_size l' = size -> ol_freed l' = freed ->
  ol_max_size l' = ol_max_size l -> ol_free_data l' = ol_free_data l ->
  ol_fresh l' = ol_fresh l -> ol_alloc l' = ol_alloc l -> ol_blocks l' = ol_blocks l ->
  ol_implements (LsSpec items cur size (ls_max s) (ls_free s) (ls_fresh s) freed (ls_alloc s)) l'.
Proof.
  intros [_ Hc Hsz Hm Hfr Hfs Hfd Hal Hbl] H Ec Es Ef Em Efd Efr Eal Ebl.
  constructor; cbn [ls_items ls_cur ls_size ls_max ls_free ls_fresh ls_freed ls_alloc];
    [exact H|exact Ec|exact Es|congruence..].
Qed.

(** The end of a deletion, when the node is unlinked. *)
Lemma list_unlinked_spec A p d B s s' l nodes first last (Q : unit -> OSList -> Prop) :
  ol_implements s l -> ol_holds (A ++ (p, d) :: B) l ->
  spec_size (-1) (s <| ls_items := A ++ B |> <| ls_cur := first_or B None |>) = Some s' ->
  (forall l', ol_implements s' l' -> Q tt l') ->
  cells nodes = join_prev A B (join_next A B (cells (ol_nodes l))) ->
  first = first_or (A ++ B) None -> last = last_or (A ++ B) None -> is_Some (nodes !! p) ->
  wp (_ ← cell_free p; _ ← list_cur (first_or B None); bump_size (-1)) Q
    (l <| ol_nodes := nodes |> <| ol_first := first |> <| ol_last := last |>).
Proof.
  intros Hi H Hs HQ En Ef El Hp. apply wp_bind, wp_cell_free; [exact Hp|]. apply wp_bind, wp_modify.
  eapply bump_size_spec; [|exact Hs|]; [apply (oli_size _ _ Hi)|].
  intros Es. apply HQ. rewrite Es. ls_simpl. ol_simpl.
  eapply items_implements; [exact Hi| |reflexivity|reflexivity|apply (oli_freed _ _ Hi)|reflexivity..].
  eapply holds_unlink; [exact H| |exact Ef|exact El|reflexivity]. ol_simpl. by rewrite cells_delete, En.
Qed.

Lemma list_delete_spec p s s' l (Q : unit -> OSList -> Prop) :
  ol_implements s l -> spec_delete p s = Some s' ->
  (forall l', ol_implements s' l' -> Q tt l') -> wp (delete_node p) Q l.
Proof.
  intros Hi Hs HQ. unfold spec_delete in Hs.
  destruct (node_split p (ls_items s)) as [[[A d] B]|] eqn:E; [|done]. apply node_split_Some in E.
  cbn [mbind option_bind] in Hs. pose proof (oli_holds _ _ Hi) as H. rewrite E in H.
  pose proof (seg_cell _ _ _ _ _ _ _ (olh_seg _ _ H)) as Hp.
  apply wp_bind. eapply wp_cell_at; [exact Hp|]. cbn [on_next on_prev]. apply wp_bind.
  destruct A as [|[a da] A _] using rev_ind; [|rewrite last_or_snoc];
    (destruct B as [|[b db] B]; cbn [first_or last_or last]).
  - apply wp_bind, wp_modify, wp_modify. ol_simpl. match goal with |- wp _ _ ?l1 => apply (list_unlinked_spec [] p d [] s s' l
      (ol_nodes l1) (ol_first l1) (ol_last l1) Q Hi H Hs HQ) end; ol_simpl; try done.
  - assert (Hb : is_Some (ol_nodes l !! b)) by (by eapply (head_allocated b db [(p, d)] B)).
    apply wp_bind, wp_cell_set; [done|]. apply wp_modify. ol_simpl. match goal with |- wp _ _ ?l1 => apply (list_unlinked_spec [] p d ((b, db) :: B) s s' l
      (ol_nodes l1) (ol_first l1) (ol_last l1) Q Hi H Hs HQ) end; ol_simpl; try done.
    + by rewrite cells_prev.
    + rewrite (olh_last _ _ H). cbn [app]. by rewrite !last_or_cons.
    + apply is_Some_alter_cell. by rewrite Hp.
  - assert (Ha : is_Some (ol_nodes l !! a)).
    { rewrite <- app_assoc in H. by eapply (head_allocated a da A [(p, d)]). }
    apply wp_bind, wp_cell_set; [done|]. apply wp_modify. ol_simpl. match goal with |- wp _ _ ?l1 => apply (list_unlinked_spec (A ++ [(a, da)]) p d [] s s' l
      (ol_nodes l1) (ol_first l1) (ol_last l1) Q Hi H Hs HQ) end; ol_simpl; try done.
    + rewrite cells_next. unfold join_next. by rewrite last_snoc.
    + rewrite (olh_first _ _ H), app_nil_r, <- app_assoc. by destruct A as [|[]].
    + by rewrite app_nil_r, last_or_snoc.
    + apply is_Some_alter_cell. by rewrite Hp.
  - assert (Ha : is_Some (ol_nodes l !! a)).
    { rewrite <- app_assoc in H. by eapply (head_allocated a da A). }
    assert (Hb : is_Some (ol_nodes l !! b)).
    { rewrite (cons_middle (p, d)), (app_assoc _ [(p, d)]) in H. by eapply (head_allocated b db). }
    apply wp_bind, wp_cell_set; [done|]. apply wp_cell_set; [by apply is_Some_alter_cell|].
    ol_simpl. match goal with |- wp _ _ ?l1 => apply (list_unlinked_spec (A ++ [(a, da)]) p d ((b, db) :: B) s s' l
      (ol_nodes l1) (ol_first l1) (ol_last l1) Q Hi H Hs HQ) end; ol_simpl; try done.
    + rewrite cells_prev, cells_next. unfold join_next, join_prev. by rewrite last_snoc, last_or_snoc.
    + rewrite (olh_first _ _ H), <- !app_assoc. by destruct A as [|[]].
    + rewrite (olh_last _ _ H), !last_or_app. by rewrite !last_or_cons.
    + do 2 apply is_Some_alter_cell. by rewrite Hp.
Qed.

(** The first node goes. *)
Lemma holds_tail p d B l l' :
  ol_holds ((p, d) :: B) l ->
  ol_nodes l' = delete p (match B with
    | (b, _) :: _ => alter (fun n => OsListNode (on_next n) None (on_data n)) b (ol_nodes l)
    | [] => ol_nodes l end) ->
  ol_first l' = first_or B None -> ol_last l' = last_or B None -> ol_fresh l' = ol_fresh l ->
  ol_holds B l'.
Proof.
  intros H En Ef El Efr. eapply (holds_unlink [] p d B); [exact H| |done|done|done].
  rewrite En, cells_delete. unfold join_prev. destruct B as [|[b db] B]; [done|]. by rewrite cells_prev.
Qed.

Lemma delete_oldest_spec s l (Q : unit -> OSList -> Prop) :
  ol_implements s l ->
  (forall l', ol_implements (s <| ls_items := tail (ls_items s) |>) l' -> Q tt l') ->
  wp OSList_DeleteOldestNode Q l.
Proof.
  intros Hi HQ. pose proof (oli_holds _ _ Hi) as H. apply wp_bind, wp_gets.
  destruct Hi as [_ Hc Hsz Hm Hfr Hfs Hfd Hal Hbl].
  rewrite (olh_first _ _ H). destruct (ls_items s) as [|[p d] B] eqn:E; cbn [first_or tail] in *.
  { apply wp_ret, HQ. by constructor. }
  pose proof (seg_cell _ _ [] _ _ _ _ (olh_seg _ _ H)) as Hp.
  apply wp_bind. eapply wp_cell_at; [exact Hp|]. cbn [on_next]. apply wp_bind.
  destruct B as [|[b db] B]; cbn [first_or].
  - apply wp_modify, wp_bind, wp_cell_free; [ol_simpl; rewrite Hp; by eexists|]. apply wp_modify, HQ.
    constructor; ol_simpl; ls_simpl; try done. eapply holds_tail; [exact H|done..].
  - assert (Hb : is_Some (ol_nodes l !! b)) by (by eapply (head_allocated b db [(p, d)] B)).
    apply wp_cell_set; [done|]. apply wp_bind, wp_cell_free; [apply is_Some_alter_cell; rewrite Hp; by eexists|].
    apply wp_modify, HQ. constructor; ol_simpl; ls_simpl; try done.
    eapply holds_tail; [exact H|done|done| |done]. ol_simpl. rewrite (olh_last _ _ H).
    by rewrite !last_or_cons.
Qed.

(** ** Adding *)

Lemma cell_new_spec l (Q : option nat -> OSList -> Prop) :
  (if next (ol_alloc l)
   then Q (Some (ol_fresh l)) (l <| ol_alloc := advance (ol_alloc l) |>
     <| ol_nodes := <[ol_fresh l := OsListNode None None 0]> (ol_nodes l) |>
     <| ol_fresh := S (ol_fresh l) |>)
   else Q None (l <| ol_alloc := advance (ol_alloc l) |>)) ->
  wp cell_new Q l.
Proof.
  intros HQ. apply wp_bind, wp_gets, wp_bind, wp_modify.
  destruct (next (ol_alloc l)); cbn [negb]; [|by apply wp_ret].
  apply wp_bind, wp_gets, wp_bind, wp_modify, wp_ret. exact HQ.
Qed.

Lemma evict_spec s s' l (Q : unit -> OSList -> Prop) :
  ol_implements s l -> ls_items s <> [] -> spec_evict s = Some s' ->
  (forall l', ol_implements s' l' -> Q tt l') -> wp evict Q l.
Proof.
  intros Hi Hne Hs HQ. pose proof (oli_holds _ _ Hi) as H. unfold spec_evict in Hs.
  apply wp_bind, wp_gets. rewrite (oli_max _ _ Hi).
  destruct (ls_max s =? 0); cbn [orb] in Hs.
  { apply wp_ret, HQ. by injection Hs as <-. }
  apply wp_bind, wp_gets. rewrite (oli_size _ _ Hi).
  destruct (ls_max s <? ls_size s); cbn [negb] in *.
  2: { apply wp_ret, HQ. by injection Hs as <-. }
  apply wp_bind, wp_gets. rewrite (olh_first _ _ H).
  destruct (ls_items s) as [|[p d] B] eqn:E; [done|]. cbn [first_or].
  apply wp_bind. eapply wp_lift; [reflexivity|].
  pose proof (seg_cell _ _ [] _ _ _ _ (olh_seg _ _ H)) as Hp.
  apply wp_bind. eapply wp_cell_at; [exact Hp|]. cbn [on_next].
  destruct B as [|[b db] B]; cbn [first_or].
  { apply wp_ret, HQ. by injection Hs as <-. }
  assert (Hpb : b <> p).
  { pose proof (olh_nodup _ _ H) as [Hn _]%NoDup_cons. intros ->. apply Hn. by left. }
  assert (Hb : is_Some (ol_nodes l !! b)) by (by eapply (head_allocated b db [(p, d)] B)).
  apply wp_bind, wp_cell_set; [done|]. apply wp_bind. eapply wp_cell_at.
  { ol_simpl. rewrite lookup_alter_ne by done. exact Hp. }
  cbn [on_data tail] in *. apply wp_bind.
  eapply (release_data_spec d (s <| ls_items := (b, db) :: B |>)); [apply Hi|apply Hi|].
  apply wp_bind, wp_cell_free; [ol_simpl; apply is_Some_alter_cell; rewrite Hp; by eexists|].
  apply wp_bind, wp_modify.
  eapply bump_size_spec; [|exact Hs|].
  { ol_simpl. rewrite (oli_size _ _ Hi). unfold spec_release. ls_simpl. by destruct (ls_free s). }
  intros Es. apply HQ. rewrite Es. unfold spec_release. ls_simpl. ol_simpl.
  assert (Hlast : ol_last l = last_or ((b, db) :: B) None) by (rewrite (olh_last _ _ H); by rewrite !last_or_cons).
  destruct (ls_free s) eqn:Eset; ls_simpl; rewrite <- Eset;
    (eapply items_implements; [exact Hi| |exact (oli_cur _ _ Hi)|reflexivity|reflexivity|reflexivity..];
     eapply holds_tail; [exact H|reflexivity|reflexivity|exact Hlast|reflexivity]).
Qed.

Lemma fresh_new s l : ol_implements s l -> ls_fresh s ∉ (ls_items s).*1.
Proof.
  intros Hi Hp. rewrite <- (oli_fresh _ _ Hi) in Hp.
  pose proof (olh_below _ _ (oli_holds _ _ Hi) _ Hp). lia.
Qed.

(** A state in which the new node [p] is linked between [A] and [B]. *)
Lemma linked_holds A B d s l l' :
  ol_implements s l -> ls_items s = A ++ B ->
  ol_nodes l' !! ls_fresh s = Some (OsListNode (first_or B None) (last_or A None) d) ->
  (forall q, q <> ls_fresh s -> cells (ol_nodes l') !! q
     = join_prev [(ls_fresh s, d)] B (join_next A [(ls_fresh s, d)] (cells (ol_nodes l))) !! q) ->
  ol_first l' = first_or (A ++ (ls_fresh s, d) :: B) None ->
  ol_last l' = last_or (A ++ (ls_fresh s, d) :: B) None ->
  ol_fresh l' = S (ls_fresh s) ->
  ol_holds (A ++ (ls_fresh s, d) :: B) l'.
Proof.
  intros Hi E Ep Eq Ef El Efr. pose proof (fresh_new _ _ Hi) as Hn. pose proof (oli_holds _ _ Hi) as H.
  rewrite E in Hn, H. eapply holds_link; [exact H|exact Hn| |exact Eq|done|done|].
  - unfold cells. by rewrite lookup_fmap, Ep.
  - intros q Hq. rewrite Efr. apply elem_middle in Hq as [->|Hq]; [lia|].
    apply (olh_below _ _ H) in Hq. rewrite (oli_fresh _ _ Hi) in Hq. lia.
Qed.

Lemma holds_same L l l' :
  ol_holds L l -> ol_nodes l' = ol_nodes l -> ol_first l' = ol_first l -> ol_last l' = ol_last l ->
  ol_fresh l' = ol_fresh l -> ol_holds L l'.
Proof. intros [] En Ef El Efr. constructor; rewrite ?En, ?Ef, ?El, ?Efr; done. Qed.

Lemma last_or_elem L p : last_or L None = Some p -> p ∈ L.*1.
Proof.
  unfold last_or. destruct (last L) as [[q d]|] eqn:E; [|done]. intros [= <-].
  apply last_Some_elem_of in E. by apply (list_elem_of_fmap_2 fst _ _ E).
Qed.

Lemma spec_evict_last s s' :
  spec_evict s = Some s' -> last_or (ls_items s') None = last_or (ls_items s) None.
Proof.
  unfold spec_evict. destruct (_ || _); [by intros [= <-]|].
  destruct (ls_items s) as [|[p d] [|q L]] eqn:E; [by intros [= <-]; rewrite E..|].
  unfold spec_size, spec_release. destruct (_ && _); [|done]. intros [= <-].
  destruct (ls_free _); ls_simpl; destruct q; by rewrite !last_or_cons.
Qed.

(** A state in which the new node comes last. *)
Lemma appended_holds data s l l' :
  ol_implements s l ->
  ol_nodes l' !! ls_fresh s = Some (OsListNode None (ol_last l) data) ->
  (forall q, q <> ls_fresh s -> ol_nodes l' !! q = match ol_last l with
     | Some k => alter (fun n => OsListNode (Some (ls_fresh s)) (on_prev n) (on_data n)) k (ol_nodes l)
     | None => ol_nodes l end !! q) ->
  ol_first l' = first_or (ls_items s ++ [(ls_fresh s, data)]) None ->
  ol_last l' = Some (ls_fresh s) -> ol_fresh l' = S (ls_fresh s) ->
  ol_holds (ls_items s ++ [(ls_fresh s, data)]) l'.
Proof.
  intros Hi Ep Eq Ef El Efr. pose proof (olh_last _ _ (oli_holds _ _ Hi)) as Hl.
  eapply linked_holds; [exact Hi|by rewrite app_nil_r|by rewrite Ep, Hl| |exact Ef| |exact Efr].
  - intros q Hq. cbn [join_prev]. unfold join_next, cells at 1. rewrite lookup_fmap, Eq by done.
    rewrite Hl. unfold last_or. rewrite <- lookup_fmap.
    destruct (last (ls_items s)) as [[k dk]|]; [by rewrite <- cells_next|done].
  - by rewrite last_or_snoc.
Qed.

(** The last node is allocated, and it is not the new one. *)
Lemma last_allocated s l q :
  ol_implements s l -> ol_last l = Some q -> is_Some (ol_nodes l !! q) /\ q <> ls_fresh s.
Proof.
  intros Hi Hl. pose proof (oli_holds _ _ Hi) as H. rewrite (olh_last _ _ H) in Hl.
  apply last_or_elem in Hl. split; [|intros ->; by eapply fresh_new].
  apply list_elem_of_fmap in Hl as ([k dk] & -> & (A & B & EB)%list_elem_of_split).
  rewrite EB in H. eapply head_allocated. exact H.
Qed.

(** The list has both ends, or none. *)
Lemma ends s l :
  ol_implements s l ->
  match ol_first l, ol_last l with
  | None, None => ls_items s = []
  | Some f, Some _ => forall R, first_or (ls_items s ++ R) None = Some f
  | _, _ => False
  end.
Proof.
  intros Hi. rewrite (olh_first _ _ (oli_holds _ _ Hi)), (olh_last _ _ (oli_holds _ _ Hi)).
  destruct (ls_items s) as [|[p d] L]; [done|]. cbn [first_or].
  destruct L as [|[q dq] L _] using rev_ind; [done|]. by rewrite app_comm_cons, last_or_snoc.
Qed.

Lemma alloc_failed s l :
  ol_implements s l ->
  ol_implements (s <| ls_alloc := advance (ls_alloc s) |>) (l <| ol_alloc := advance (ls_alloc s) |>).
Proof.
  intros [[] Hc Hsz Hm Hfr Hfs Hfd Hal Hbl]. by constructor.
Qed.

(** The new node is linked; it is counted, and the oldest may go. *)
Lemma count_evict_spec data s s1 s2 l l1 (Q : option nat -> OSList -> Prop) :
  let p := ls_fresh s in
  ol_implements s l ->
  l1 = l <| ol_alloc := advance (ls_alloc s) |> <| ol_fresh := S p |>
         <| ol_nodes := ol_nodes l1 |> <| ol_first := ol_first l1 |> <| ol_last := ol_last l1 |> ->
  ol_holds (ls_items s ++ [(p, data)]) l1 ->
  spec_size 1 (s <| ls_alloc := advance (ls_alloc s) |> <| ls_fresh := S p |>
    <| ls_items := ls_items s ++ [(p, data)] |>) = Some s1 ->
  spec_evict s1 = Some s2 -> (forall l', ol_implements s2 l' -> Q (Some p) l') ->
  wp (_ ← bump_size 1; _ ← evict; gets ol_last) Q l1.
Proof.
  intros p Hi El H1 E1 E2 HQ. apply wp_bind. eapply bump_size_spec; [|exact E1|].
  { rewrite El. apply Hi. }
  intros Es1. apply wp_bind. eapply (evict_spec s1 s2); [| |exact E2|].
  - rewrite Es1, El. destruct Hi as [_ Hc Hsz Hm Hfr Hfs Hfd Hal Hbl].
    constructor; ol_simpl; ls_simpl; try done.
    eapply holds_same; [exact H1|done|done|done|]. ol_simpl. by rewrite El.
  - rewrite Es1. ls_simpl. by destruct (ls_items s).
  - intros l2 H2. apply wp_gets. rewrite (olh_last _ _ (oli_holds _ _ H2)).
    rewrite (spec_evict_last _ _ E2), Es1. ls_simpl. rewrite last_or_snoc. by apply HQ.
Qed.

Lemma add_data_spec data s a s' l (Q : option nat -> OSList -> Prop) :
  ol_implements s l -> spec_op (OpAdd data) s = Some (a, s') ->
  (forall p l', a = ANode p -> ol_implements s' l' -> Q p l') -> wp (OSList_AddData data) Q l.
Proof.
  intros Hi Hs HQ. cbn [spec_op] in Hs. unfold spec_new in Hs. apply wp_bind, cell_new_spec.
  rewrite (oli_alloc _ _ Hi), (oli_fresh _ _ Hi).
  destruct (next (ls_alloc s)).
  2: { apply wp_ret. injection Hs as <- <-. apply HQ; [done|]. by apply alloc_failed. }
  ls_simpl. destruct (spec_size 1 _) as [s1|] eqn:E1 in Hs; [|done]. cbn [mbind option_bind] in Hs.
  destruct (spec_evict s1) as [s2|] eqn:E2; [|done]. injection Hs as <- <-.
  apply wp_bind, wp_gets. ol_simpl.
  do 3 (apply wp_bind, wp_cell_set; [ol_simpl; rewrite ?lookup_alter_is_Some, lookup_insert_eq; by eexists|]).
  apply wp_bind, wp_gets. ol_simpl. apply wp_bind.
  pose proof (ends _ _ Hi) as Hends.
  destruct (ol_first l) as [f|], (ol_last l) as [k|] eqn:Ek; [|done|done|]; cbv iota.
  - destruct (last_allocated _ _ _ Hi Ek) as [Hk Hne].
    apply wp_ret, wp_bind, wp_cell_set; [ol_simpl; rewrite !lookup_alter_ne, lookup_insert_ne by done; done|].
    apply wp_bind, wp_modify. ol_simpl.
    eapply count_evict_spec; [exact Hi|done| |exact E1|exact E2|by intros l' H'; apply HQ].
    eapply appended_holds; [exact Hi| | |by rewrite Hends|done|done]; ol_simpl; rewrite Ek.
    + rewrite lookup_alter_ne, !lookup_alter_eq, lookup_insert_eq by done. done.
    + intros q Hq. destruct (decide (k = q)) as [->|Hkq].
      * by rewrite lookup_alter_eq, !lookup_alter_ne, lookup_insert_ne, lookup_alter_eq by done.
      * by rewrite !lookup_alter_ne, lookup_insert_ne by done.
  - apply wp_modify, wp_bind, wp_ret, wp_bind, wp_modify. ol_simpl.
    eapply count_evict_spec; [exact Hi|done| |exact E1|exact E2|by intros l' H'; apply HQ].
    eapply appended_holds; [exact Hi| | |by rewrite Hends|done|done]; ol_simpl; rewrite Ek.
    + by rewrite !lookup_alter_eq, lookup_insert_eq.
    + intros q Hq. by rewrite !lookup_alter_ne, lookup_insert_ne by done.
Qed.

(** The new node is linked and counted. *)
Lemma count_spec items s s1 l l1 (Q : Z -> OSList -> Prop) :
  ol_implements s l ->
  l1 = l <| ol_alloc := advance (ls_alloc s) |> <| ol_fresh := S (ls_fresh s) |>
         <| ol_nodes := ol_nodes l1 |> <| ol_first := ol_first l1 |> <| ol_last := ol_last l1 |> ->
  ol_holds items l1 ->
  spec_size 1 (s <| ls_alloc := advance (ls_alloc s) |> <| ls_fresh := S (ls_fresh s) |>
    <| ls_items := items |>) = Some s1 ->
  (forall l', ol_implements s1 l' -> Q 0 l') ->
  wp (_ ← bump_size 1; mret 0) Q l1.
Proof.
  intros Hi El H1 E1 HQ. apply wp_bind. eapply bump_size_spec; [|exact E1|].
  { rewrite El. apply Hi. }
  intros ->. apply wp_ret, HQ. rewrite El. destruct Hi as [_ Hc Hsz Hm Hfr Hfs Hfd Hal Hbl].
  constructor; ol_simpl; ls_simpl; try done.
  eapply holds_same; [exact H1|done|done|done|]. ol_simpl. by rewrite El.
Qed.

(** The new node comes before the node [q]. *)
Lemma link_before_spec A q dq B data s s1 l nodes (Q : Z -> OSList -> Prop) :
  let p := ls_fresh s in
  ol_implements s l -> ls_items s = A ++ (q, dq) :: B ->
  nodes !! p = Some (OsListNode None None data) ->
  (forall k, k <> p -> nodes !! k = ol_nodes l !! k) ->
  spec_size 1 (s <| ls_alloc := advance (ls_alloc s) |> <| ls_fresh := S p |>
    <| ls_items := A ++ (p, data) :: (q, dq) :: B |>) = Some s1 ->
  (forall l', ol_implements s1 l' -> Q 0 l') ->
  wp (_ ← (n ← cell_at q;
           _ ← match on_prev n with
               | None => _ ← cell_prev p None; list_first (Some p)
               | Some prev => _ ← cell_next prev (Some p); cell_prev p (Some prev)
               end;
           _ ← cell_next p (Some q);
           cell_prev q (Some p));
      _ ← bump_size 1; mret 0) Q
    (l <| ol_alloc := advance (ls_alloc s) |> <| ol_nodes := nodes |> <| ol_fresh := S p |>).
Proof.
  intros p Hi E Hp Ho E1 HQ. pose proof (oli_holds _ _ Hi) as H. rewrite E in H.
  pose proof (fresh_new _ _ Hi) as Hn. rewrite E in Hn. fold p in Hn.
  pose proof (seg_cell _ _ _ _ _ _ _ (olh_seg _ _ H)) as Hq.
  pose proof (olh_first _ _ H) as Hf. pose proof (olh_last _ _ H) as Hl.
  assert (Hqp : q <> p) by (intros ->; apply Hn, elem_middle; by left).
  assert (Hlast : ol_last l = last_or (A ++ (p, data) :: (q, dq) :: B) None)
    by (rewrite Hl, !last_or_app; by rewrite !last_or_cons).
  apply wp_bind, wp_bind. eapply wp_cell_at; [ol_simpl; rewrite Ho by done; exact Hq|]. cbn [on_prev].
  apply wp_bind. destruct A as [|[a da] A _] using rev_ind; [cbn [last_or last app] in *|rewrite last_or_snoc].
  - apply wp_bind, wp_cell_set; [ol_simpl; rewrite Hp; by eexists|]. apply wp_modify.
    apply wp_bind, wp_cell_set; [ol_simpl; rewrite lookup_alter_is_Some, Hp; by eexists|].
    apply wp_cell_set; [ol_simpl; rewrite !lookup_alter_is_Some, Ho, Hq by done; by eexists|].
    ol_simpl. eapply count_spec; [exact Hi|done| |exact E1|exact HQ].
    apply (linked_holds [] ((q, dq) :: B) data s l); ol_simpl; try done; fold p.
    + by rewrite lookup_alter_ne, !lookup_alter_eq, Hp.
    + intros k Hk. cbn [join_next last join_prev first_or].
      destruct (decide (q = k)) as [->|Hqk].
      * rewrite lookup_alter_eq. unfold cells. rewrite !lookup_fmap, lookup_alter_eq, !lookup_alter_ne, Ho by done.
        by destruct (ol_nodes l !! k).
      * rewrite lookup_alter_ne by done. unfold cells. by rewrite !lookup_fmap, !lookup_alter_ne, Ho by done.
  - assert (Hap : a <> p).
    { intros ->. apply Hn. rewrite fmap_app, elem_of_app, fmap_app, elem_of_app. left. right. by left. }
    assert (Haq : a <> q).
    { intros ->. pose proof (olh_nodup _ _ H) as [Hd _]%nodup_middle. apply Hd.
      rewrite fmap_app, elem_of_app, fmap_app, elem_of_app. left. right. by left. }
    assert (Ha : is_Some (ol_nodes l !! a)).
    { rewrite <- app_assoc in H. by eapply (head_allocated a da A). }
    apply wp_bind, wp_cell_set; [ol_simpl; by rewrite Ho|].
    apply wp_cell_set; [ol_simpl; rewrite lookup_alter_is_Some, Hp; by eexists|].
    apply wp_bind, wp_cell_set; [ol_simpl; rewrite !lookup_alter_is_Some, Hp; by eexists|].
    apply wp_cell_set; [ol_simpl; rewrite !lookup_alter_is_Some, Ho, Hq by done; by eexists|].
    ol_simpl. eapply count_spec; [exact Hi|done| |exact E1|exact HQ].
    apply (linked_holds (A ++ [(a, da)]) ((q, dq) :: B) data s l); ol_simpl; try done; fold p.
    + rewrite lookup_alter_ne, !lookup_alter_eq, lookup_alter_ne, Hp by done. by rewrite last_or_snoc.
    + intros k Hk. unfold join_next. rewrite last_snoc. cbn [join_prev first_or].
      destruct (decide (q = k)) as [->|Hqk]; [|rewrite lookup_alter_ne by done; destruct (decide (a = k)) as [->|Hak]].
      * rewrite lookup_alter_eq, lookup_alter_ne by done. unfold cells.
        rewrite !lookup_fmap, lookup_alter_eq, !lookup_alter_ne, Ho by done. by destruct (ol_nodes l !! k).
      * rewrite lookup_alter_eq. unfold cells.
        rewrite !lookup_fmap, !lookup_alter_ne, lookup_alter_eq, Ho by done. by destruct (ol_nodes l !! k).
      * rewrite lookup_alter_ne by done. unfold cells. by rewrite !lookup_fmap, !lookup_alter_ne, Ho by done.
    + rewrite Hf, <- !app_assoc. by destruct A as [|[]].
Qed.

Lemma list_insert_spec node data s a s' l (Q : Z -> OSList -> Prop) :
  ol_implements s l -> spec_insert node data s = Some (a, s') ->
  (forall r l', a = ANumber r -> ol_implements s' l' -> Q r l') ->
  wp (_OSList_InsertData node data) Q l.
Proof.
  intros Hi Hs HQ. unfold spec_insert, spec_new in Hs. apply wp_bind, cell_new_spec.
  rewrite (oli_alloc _ _ Hi), (oli_fresh _ _ Hi).
  destruct (next (ls_alloc s)).
  2: { apply wp_ret. injection Hs as <- <-. apply HQ; [done|]. by apply alloc_failed. }
  change (ls_items (s <| ls_alloc := advance (ls_alloc s) |> <| ls_fresh := S (ls_fresh s) |>))
    with (ls_items s) in Hs.
  destruct (insert_items _ _ _ _) as [items|] eqn:Eitems; [|done]. cbn [mbind option_bind] in Hs.
  destruct (spec_size 1 _) as [s1|] eqn:E1; [|done]. injection Hs as <- <-.
  assert (HQ0 : forall l', ol_implements s1 l' -> Q 0 l') by (intros l' H'; by apply HQ).
  apply wp_bind, wp_cell_set; [ol_simpl; rewrite lookup_insert_eq; by eexists|].
  apply wp_bind, wp_gets. ol_simpl.
  pose proof (ends _ _ Hi) as Hends.
  destruct (ol_first l) as [f|] eqn:Ef, (ol_last l) as [k|] eqn:Ek; [|done|done|]; cbv iota.
  - destruct node as [q|].
    + assert (exists A dq B, ls_items s = A ++ (q, dq) :: B /\
        items = A ++ (ls_fresh s, data) :: (q, dq) :: B) as (A & dq & B & E & ->).
      { unfold insert_items in Eitems. destruct (ls_items s) as [|e0 L] eqn:E0; [by specialize (Hends [])|].
        destruct (node_split q (e0 :: L)) as [[[A dq] B]|] eqn:Es; [|done]. injection Eitems as <-.
        exists A, dq, B. split; [by apply node_split_Some|done]. }
      rewrite <- Ef, <- Ek. match goal with |- wp _ _ ?l0 =>
        apply (link_before_spec A q dq B data s s1 l (ol_nodes l0) Q) end;
        [exact Hi|exact E| | |exact E1|exact HQ0]; ol_simpl.
      * by rewrite lookup_alter_eq, lookup_insert_eq.
      * intros k' Hk. by rewrite lookup_alter_ne, lookup_insert_ne by done.
    + assert (items = ls_items s ++ [(ls_fresh s, data)]) as ->.
      { unfold insert_items in Eitems. destruct (ls_items s); [by specialize (Hends [])|].
        by injection Eitems as <-. }
      destruct (last_allocated _ _ _ Hi Ek) as [Hk Hne].
      apply wp_bind, wp_bind, wp_gets. ol_simpl.
      apply wp_bind, wp_cell_set; [ol_simpl; rewrite lookup_alter_is_Some, lookup_insert_eq; by eexists|].
      apply wp_bind. eapply wp_lift; [reflexivity|].
      apply wp_bind, wp_cell_set; [ol_simpl; rewrite !lookup_alter_ne, lookup_insert_ne by done; done|].
      apply wp_bind, wp_cell_set; [ol_simpl; rewrite !lookup_alter_is_Some, lookup_insert_eq; by eexists|].
      apply wp_modify. ol_simpl. eapply count_spec; [exact Hi|done| |exact E1|exact HQ0].
      eapply appended_holds; [exact Hi| | |by rewrite Hends|done|done]; ol_simpl; rewrite Ek.
      * rewrite lookup_alter_eq, lookup_alter_ne, !lookup_alter_eq, lookup_insert_eq by done. done.
      * intros q Hq. rewrite lookup_alter_ne by done. destruct (decide (k = q)) as [->|Hkq].
        -- by rewrite lookup_alter_eq, !lookup_alter_ne, lookup_insert_ne, lookup_alter_eq by done.
        -- by rewrite !lookup_alter_ne, lookup_insert_ne by done.
  - assert (items = ls_items s ++ [(ls_fresh s, data)]) as ->.
    { unfold insert_items in Eitems. rewrite Hends in *. by injection Eitems as <-. }
    apply wp_bind, wp_bind, wp_modify, wp_bind, wp_modify.
    apply wp_bind, wp_cell_set; [ol_simpl; rewrite lookup_alter_is_Some, lookup_insert_eq; by eexists|].
    apply wp_cell_set; [ol_simpl; rewrite !lookup_alter_is_Some, lookup_insert_eq; by eexists|].
    ol_simpl. eapply count_spec; [exact Hi|done| |exact E1|exact HQ0].
    eapply appended_holds; [exact Hi| | |by rewrite Hends|done|done]; ol_simpl; rewrite Ek.
    + by rewrite !lookup_alter_eq, lookup_insert_eq.
    + intros q Hq. by rewrite !lookup_alter_ne, lookup_insert_ne by done.
Qed.

(** ** Reading and cleaning *)

Lemma ol_size L l : ol_holds L l -> size (ol_nodes l) = length L.
Proof.
  intros H. rewrite <- (length_fmap fst), <- (size_list_to_set (C := gset nat)) by apply H.
  rewrite <- size_dom. f_equal. apply set_eq. intros p. rewrite elem_of_dom, elem_of_list_to_set. split.
  - intros Hp. destruct (decide (p ∈ L.*1)) as [|Hn]; [done|]. rewrite (olh_only _ _ H _ Hn) in Hp.
    by destruct Hp.
  - intros ([q d] & -> & (A & B & ->)%list_elem_of_split)%list_elem_of_fmap. by eapply head_allocated.
Qed.

Lemma index_spec index s l (Q : Z -> OSList -> Prop) :
  ol_implements s l -> Q (if index <? 0 then 0 else default 0 ((ls_items s).*2 !! Z.to_nat index)) l ->
  wp (OSList_GetDataFromIndex index) Q l.
Proof.
  intros Hi HQ. pose proof (oli_holds _ _ Hi) as H. apply wp_bind, wp_gets. apply wp_bind, wp_gets.
  apply (wp_loop_nat (fun n '(count, cur) l' => l' = l /\ exists A B, ls_items s = A ++ B /\
    n = length B /\ count = zlen A /\ cur = first_or B None /\ (0 <= index -> zlen A <= index)))
    with (n := length (ls_items s)).
  - split; [done|]. exists [], (ls_items s). split_and!; try done. by rewrite (olh_first _ _ H).
  - rewrite (ol_size _ _ H). lia.
  - intros n [count cur] l' (-> & A & B & E & -> & -> & -> & Hle). rewrite E in HQ, H.
    destruct B as [|[p d] B]; cbn [first_or].
    + apply wp_ret. rewrite app_nil_r in HQ. destruct (Z.ltb_spec index 0); [done|].
      rewrite lookup_ge_None_2 in HQ; [done|]. rewrite length_fmap. unfold zlen in Hle. lia.
    + apply wp_bind. eapply wp_cell_at; [exact (seg_cell _ _ _ _ _ _ _ (olh_seg _ _ H))|].
      cbn [on_data on_next]. destruct (Z.eqb_spec (zlen A) index) as [Ei|Hne].
      * apply wp_ret. rewrite <- Ei in HQ. rewrite (proj2 (Z.ltb_ge _ _)) in HQ by zlia.
        rewrite to_nat_zlen, fmap_app, fmap_cons, list_lookup_middle in HQ by (by rewrite length_fmap).
        exact HQ.
      * apply wp_ret. exists (length B). split; [cbn; lia|]. split; [done|].
        exists (A ++ [(p, d)]), B. rewrite <- app_assoc. split_and!; [done|done|zlia|done|zlia].
Qed.

Lemma release_app data data' s :
  ls_freed (spec_release (data ++ data') s) = ls_freed (spec_release data' (spec_release data s)).
Proof. unfold spec_release. destruct (ls_free s) eqn:E; ls_simpl; rewrite ?E; ls_simpl; [apply app_assoc|done]. Qed.

Lemma release_free data s : ls_free (spec_release data s) = ls_free s.
Proof. unfold spec_release. by destruct (ls_free s) eqn:E. Qed.

Lemma release_nil s : ls_freed (spec_release [] s) = ls_freed s.
Proof. unfold spec_release. destruct (ls_free s); [ls_simpl; apply app_nil_r|done]. Qed.

Lemma holds_nil l : ol_nodes l = ∅ -> ol_first l = None -> ol_last l = None -> ol_holds [] l.
Proof.
  intros En Ef El. constructor; rewrite ?En; try done; [constructor|].
  by intros p ?%elem_of_nil.
Qed.

(** A list whose nodes are freed from the front; [B] are left. *)
Definition cleaned s l (data : list Z) B l' : Prop :=
  l' = l <| ol_nodes := ol_nodes l' |> <| ol_first := first_or B None |>
         <| ol_freed := ls_freed (spec_release data s) |> /\
  (exists prev, seg (cells (ol_nodes l')) prev B None) /\ NoDup B.*1 /\
  (forall p, p ∉ B.*1 -> ol_nodes l' !! p = None).

Lemma clean_nodes_spec (with_data : bool) s l (Q : unit -> OSList -> Prop) :
  ol_implements s l ->
  (forall l', ol_implements (spec_empty (if with_data then spec_release (ls_items s).*2 s else s)) l' -> Q tt l') ->
  wp (_ ← clean_nodes with_data; reset_list) Q l.
Proof.
  intros Hi HQ. pose proof (oli_holds _ _ Hi) as H. apply wp_bind, wp_bind, wp_gets.
  apply (wp_loop_nat (fun n _ l' => exists A B, ls_items s = A ++ B /\ n = length B /\
    cleaned s l (if with_data then A.*2 else []) B l')) with (n := length (ls_items s)).
  - exists [], (ls_items s). split_and!; [done|done|].
    assert (E : ls_freed (spec_release (if with_data then [] else []) s) = ol_freed l).
    { rewrite (oli_freed _ _ Hi). destruct with_data; apply release_nil. }
    split_and!; [|exists None; apply H|apply H|apply H].
    cbn [fmap list_fmap]. rewrite E, <- (olh_first _ _ H). by destruct l.
  - rewrite (ol_size _ _ H). lia.
  - intros n _ l' (A & B & E & -> & El & [prev Hs] & Hn & Ho).
    assert (Efirst : ol_first l' = first_or B None) by (rewrite El; done).
    apply wp_bind, wp_gets. rewrite Efirst. destruct B as [|[p d] B]; cbn [first_or].
    + apply wp_ret, wp_modify, HQ. rewrite app_nil_r in E. rewrite E.
      assert (Hempty : ol_nodes l' = ∅).
      { apply map_empty. intros p. apply Ho. by intros ?%elem_of_nil. }
      rewrite El. ol_simpl. destruct Hi as [_ Hc Hsz Hm Hfr Hfs Hfd Hal Hbl].
      unfold spec_empty, spec_release. destruct with_data; [destruct (ls_free s) eqn:Efree|];
        constructor; ol_simpl; ls_simpl; try done; try congruence;
        first [by apply holds_nil|apply release_nil].
    + destruct Hs as [Hp Hs]. apply cells_lookup in Hp. cbn [ln_next ln_prev ln_data] in Hp.
      change (NoDup (p :: B.*1)) in Hn. apply NoDup_cons in Hn as [Hpn Hn].
      apply wp_bind. eapply wp_cell_at; [exact Hp|]. cbn [on_next on_data].
      assert (Hend : forall l2, l2 = l' <| ol_first := first_or B None |>
          <| ol_freed := ls_freed (spec_release (if with_data then A.*2 ++ [d] else []) s) |> ->
        wp (_ ← cell_free p; mret (inl ())) (fun (r : unit + unit) l3 => match r with
          | inl a' => exists m, (m < length ((p, d) :: B))%nat /\ exists A B, ls_items s = A ++ B /\
              m = length B /\ cleaned s l (if with_data then A.*2 else []) B l3
          | inr b => wp reset_list Q l3 end) l2).
      { intros l2 ->. apply wp_bind, wp_cell_free; [ol_simpl; rewrite Hp; by eexists|]. apply wp_ret.
        exists (length B). split; [cbn; lia|]. exists (A ++ [(p, d)]), B. rewrite <- app_assoc.
        split_and!; [done|done|]. split_and!; ol_simpl.
        - rewrite El, fmap_app. by destruct with_data.
        - exists (Some p). rewrite cells_delete. by apply seg_delete.
        - done.
        - intros q Hq. destruct (decide (q = p)) as [->|Hne]; [apply lookup_delete_eq|].
          rewrite lookup_delete_ne by done. apply Ho. cbn. by apply not_elem_of_cons. }
      apply wp_bind, wp_modify, wp_bind.
      assert (Efreed : ol_freed l' = ls_freed (spec_release (if with_data then A.*2 else []) s))
        by (rewrite El; done).
      destruct with_data.
      * eapply (release_data_spec d (spec_release A.*2 s)); [|exact Efreed|].
        { rewrite release_free, El. apply Hi. }
        apply Hend. rewrite <- release_app. by ol_simpl.
      * apply wp_ret, Hend. rewrite <- Efreed. by destruct l'.
Qed.

(** * The refinement *)

Lemma node_split_cell p s l A d B :
  ol_implements s l -> node_split p (ls_items s) = Some (A, d, B) ->
  ol_nodes l !! p = Some (OsListNode (first_or B None) (last_or A None) d).
Proof.
  intros Hi E%node_split_Some. pose proof (olh_seg _ _ (oli_holds _ _ Hi)) as H. rewrite E in H.
  by eapply seg_cell.
Qed.

Lemma move_implements p s l :
  ol_implements s l -> ol_implements (s <| ls_cur := p |>) (l <| ol_cur := p |>).
Proof. intros [[] Hc Hsz Hm Hfr Hfs Hfd Hal Hbl]. by constructor. Qed.

Lemma ol_run_op_spec o s a s' l :
  ol_implements s l -> spec_op o s = Some (a, s') ->
  wp (ol_run_op o) (fun a' l' => a' = a /\ ol_implements s' l') l.
Proof.
  intros Hi Hs. pose proof (oli_holds _ _ Hi) as H.
  destruct o as [n|set| | | | | | |[p|]| |d|node d|d|[p|]|index| |]; cbn [ol_run_op spec_op] in *.
  - apply wp_bind. unfold OSList_SetMaxSize. destruct (n <=? 1); injection Hs as <- <-.
    + by apply wp_ret, wp_ret.
    + apply wp_bind, wp_modify, wp_ret, wp_ret. split; [done|].
      destruct Hi as [[] Hc Hsz Hm Hfr Hfs Hfd Hal Hbl]. by constructor.
  - injection Hs as <- <-. apply wp_bind, wp_bind, wp_modify, wp_ret, wp_ret. split; [done|].
    destruct Hi as [[] Hc Hsz Hm Hfr Hfs Hfd Hal Hbl]. by constructor.
  - injection Hs as <- <-. apply wp_bind, wp_bind, wp_gets, wp_bind, wp_modify, wp_ret, wp_ret.
    rewrite (olh_first _ _ H). split; [done|]. by apply move_implements.
  - injection Hs as <- <-. apply wp_bind, wp_bind, wp_gets, wp_bind, wp_modify, wp_ret, wp_ret.
    rewrite (olh_last _ _ H). split; [done|]. by apply move_implements.
  - apply wp_bind, wp_bind, wp_gets. rewrite (oli_cur _ _ Hi).
    destruct (ls_cur s) as [p|]; [|injection Hs as <- <-; by apply wp_ret, wp_ret].
    destruct (node_split p (ls_items s)) as [[[A d] B]|] eqn:E; [|done]. injection Hs as <- <-.
    apply wp_bind. eapply wp_cell_at; [by eapply node_split_cell|].
    apply wp_bind, wp_modify, wp_ret, wp_ret. split; [done|]. by apply move_implements.
  - apply wp_bind, wp_bind, wp_gets. rewrite (oli_cur _ _ Hi).
    destruct (ls_cur s) as [p|]; [|injection Hs as <- <-; by apply wp_ret, wp_ret].
    destruct (node_split p (ls_items s)) as [[[A d] B]|] eqn:E; [|done]. injection Hs as <- <-.
    apply wp_bind. eapply wp_cell_at; [by eapply node_split_cell|].
    apply wp_bind, wp_modify, wp_ret, wp_ret. split; [done|]. by apply move_implements.
  - injection Hs as <- <-. apply wp_bind, wp_gets, wp_ret. by rewrite (oli_cur _ _ Hi).
  - injection Hs as <- <-. apply wp_bind. eapply delete_oldest_spec; [exact Hi|].
    intros l' H'. by apply wp_ret.
  - destruct (spec_delete p s) as [s1|] eqn:E; [|done]. injection Hs as <- <-.
    apply wp_bind. eapply list_delete_spec; [exact Hi|exact E|]. intros l' H'. by apply wp_ret.
  - injection Hs as <- <-. by apply wp_bind, wp_ret, wp_ret.
  - apply wp_bind, wp_bind, wp_gets. rewrite (oli_cur _ _ Hi).
    destruct (ls_cur s) as [p|]; [|injection Hs as <- <-; by apply wp_ret, wp_ret].
    destruct (spec_delete p s) as [s1|] eqn:E; [|done]. injection Hs as <- <-.
    eapply list_delete_spec; [exact Hi|exact E|]. intros l' H'. by apply wp_ret.
  - apply wp_bind. eapply add_data_spec; [exact Hi|exact Hs|]. intros p l' -> H'. by apply wp_ret.
  - apply wp_bind. eapply list_insert_spec; [exact Hi|exact Hs|]. intros r l' -> H'. by apply wp_ret.
  - apply wp_bind, wp_bind, wp_gets. rewrite (olh_first _ _ H).
    eapply list_insert_spec; [exact Hi|exact Hs|]. intros r l' -> H'. by apply wp_ret.
  - destruct (node_split p (ls_items s)) as [[[A d] B]|] eqn:E; [|done]. injection Hs as <- <-.
    apply wp_bind, wp_bind. eapply wp_cell_at; [by eapply node_split_cell|]. by apply wp_ret, wp_ret.
  - injection Hs as <- <-. by apply wp_bind, wp_ret, wp_ret.
  - injection Hs as <- <-. apply wp_bind. eapply index_spec; [exact Hi|]. by apply wp_ret.
  - injection Hs as <- <-. apply wp_bind. eapply (clean_nodes_spec true); [exact Hi|].
    intros l' H'. by apply wp_ret.
  - injection Hs as <- <-. apply wp_bind. eapply (clean_nodes_spec false); [exact Hi|].
    intros l' H'. by apply wp_ret.
Qed.

Lemma ol_run_spec ops s answers s' l :
  ol_implements s l -> spec_run ops s = Some (answers, s') ->
  wp (ol_run ops) (fun answers' l' => answers' = answers /\ ol_implements s' l') l.
Proof.
  revert s l answers. induction ops as [|o ops IH]; intros s l answers Hi Hrun.
  { injection Hrun as <- <-. by apply wp_ret. }
  cbn [spec_run] in Hrun. destruct (spec_op o s) as [[a s1]|] eqn:E1; [|done]. cbn in Hrun.
  destruct (spec_run ops s1) as [[answers1 s2]|] eqn:E2; [|done]. cbn in Hrun.
  injection Hrun as <- <-.
  apply wp_bind. eapply wp_mono; [by eapply ol_run_op_spec|]. intros a' l1 [-> Hi1].
  apply wp_bind. eapply wp_mono; [by eapply IH|]. intros answers' l2 [-> Hi2].
  by apply wp_ret.
Qed.

Definition new_list (alloc : oracle bool) : ls_spec :=
  LsSpec [] None 0 0 false 0 [] (advance alloc).

Lemma create_implements alloc l :
  OSList_Create alloc = Some l -> ol_implements (new_list alloc) l.
Proof.
  unfold OSList_Create. destruct (negb _); [done|]. intros [= <-]. constructor; try done.
  by apply holds_nil.
Qed.

(** C27: a list is a sequence of nodes with a cursor: whatever operations are applied to a
    new list, each answers what it answers on a sequence, allocation failures and the
    bound on the size included, as long as every node an operation is given, or the
    cursor points to, is still in the list.  Afterwards the allocated nodes are those of
    the sequence, and destroying the list frees them and gives their data to the free
    function once and in order. *)
Theorem oslist_is_sequence (ops : list ol_op) (alloc : oracle bool) (l0 : OSList)
    (answers : list ol_answer) (s : ls_spec) :
  OSList_Create alloc = Some l0 -> spec_run ops (new_list alloc) = Some (answers, s) ->
  exists l l', ol_run ops l0 = Some (answers, l) /\ size (ol_nodes l) = length (ls_items s) /\
    OSList_Destroy l = Some (tt, l') /\ ol_nodes l' = ∅ /\ ol_blocks l' = 0 /\
    ol_freed l' = ls_freed (spec_release (ls_items s).*2 s).
Proof.
  intros Hc Hrun. pose proof (ol_run_spec _ _ _ _ _ (create_implements _ _ Hc) Hrun) as W.
  apply wp_run in W as (? & l & El & -> & Hi).
  assert (W : wp OSList_Destroy (fun _ l' => ol_nodes l' = ∅ /\ ol_blocks l' = 0 /\
    ol_freed l' = ls_freed (spec_release (ls_items s).*2 s)) l).
  { apply wp_bind. eapply (clean_nodes_spec true); [exact Hi|]. intros l1 H1. apply wp_modify.
    ol_simpl. split_and!; [|by rewrite (oli_blocks _ _ H1)|].
    - apply map_empty. intros p. apply (olh_only _ _ (oli_holds _ _ H1)). by intros ?%elem_of_nil.
    - by rewrite (oli_freed _ _ H1). }
  apply wp_run in W as ([] & l' & El' & Hn & Hb & Hf). exists l, l'. split_and!; try done.
  by apply ol_size, oli_holds.
Qed.

(** * A bounded list *)

(** A list to which data was added: it keeps the latest, and nothing was miscounted. *)
Record bounded (n : Z) (ds : list Z) s : Prop := {
  bd_max : ls_max s = n;
  bd_free : ls_free s = true;
  bd_size : ls_size s = zlen (ls_items s);
  bd_items : (ls_items s).*2 = drop (length ds - Z.to_nat n) ds;
  bd_freed : ls_freed s = take (length ds - Z.to_nat n) ds;
  bd_alloc : forall k, answer (ls_alloc s) k = true;
}.

Lemma bounded_add n ds d s :
  1 < n < 2 ^ 31 - 1 -> bounded n ds s ->
  exists p s', spec_op (OpAdd d) s = Some (ANode (Some p), s') /\ bounded n (ds ++ [d]) s'.
Proof.
  intros Hn [Hm Hf Hs Hi Hd Ha].
  assert (Hlen : length (ls_items s) = (length ds - (length ds - Z.to_nat n))%nat)
    by (rewrite <- (length_fmap snd), Hi, length_drop; done).
  cbn [spec_op]. unfold spec_new. assert (next (ls_alloc s) = true) as -> by apply Ha. ls_simpl.
  unfold spec_size at 1. ls_simpl. rewrite Hs.
  assert (Hz : zlen (ls_items s) = Z.min (zlen ds) n) by (unfold zlen in *; lia).
  rewrite !(proj2 (Z.leb_le _ _)), !(proj2 (Z.ltb_lt _ _)) by zlia. cbn [andb mbind option_bind].
  unfold spec_evict. ls_simpl. rewrite Hm, (proj2 (Z.eqb_neq _ _)) by lia. cbn [orb].
  destruct (Z.ltb_spec n (zlen (ls_items s) + 1)) as [Hgt|Hle]; cbn [negb].
  - destruct (ls_items s) as [|[q dq] [|q1 L]] eqn:E; [rewrite zlen_nil in *; lia|zlia|].
    assert (Hle : (Z.to_nat n <= length ds)%nat) by (unfold zlen in *; cbn in *; lia).
    cbn [app]. unfold spec_size, spec_release. ls_simpl. rewrite Hf. ls_simpl.
    rewrite (proj2 (Z.leb_le _ _)), (proj2 (Z.ltb_lt _ _)) by zlia.
    cbn [andb mbind option_bind]. do 2 eexists. split; [reflexivity|].
    set (k := (length ds - Z.to_nat n)%nat) in *.
    assert (Ek : (length (ds ++ [d]) - Z.to_nat n)%nat = S k) by (rewrite length_app; cbn; lia).
    assert (Edq : ds !! k = Some dq).
    { rewrite <- (Nat.add_0_r k), <- lookup_drop, <- Hi. done. }
    constructor; ls_simpl; try done; rewrite ?Ek.
    + cbn [app length]. zlia.
    + rewrite (drop_S _ dq) in Hi by done. rewrite drop_app_le by (apply lookup_lt_Some in Edq; lia).
      rewrite app_comm_cons, fmap_app. cbn [fmap list_fmap] in *. by injection Hi as ->.
    + rewrite Hd. rewrite take_app_le by (apply lookup_lt_Some in Edq; lia). by rewrite (take_S_r _ _ dq).
  - assert (Hlt : (length ds < Z.to_nat n)%nat) by (unfold zlen in *; lia).
    cbn [mbind option_bind]. do 2 eexists. split; [reflexivity|].
    assert ((length ds - Z.to_nat n)%nat = 0%nat) as E0 by lia. rewrite E0 in *.
    assert ((length (ds ++ [d]) - Z.to_nat n)%nat = 0%nat) as E1 by (rewrite length_app; cbn; lia).
    constructor; ls_simpl; rewrite ?E1; try done.
    + zlia.
    + by rewrite fmap_app, Hi.
Qed.

Lemma bounded_run n ds0 ds s :
  1 < n < 2 ^ 31 - 1 -> bounded n ds0 s ->
  exists answers s', spec_run (OpAdd <$> ds) s = Some (answers, s') /\ bounded n (ds0 ++ ds) s'.
Proof.
  intros Hn. revert ds0 s. induction ds as [|d ds IH]; intros ds0 s H.
  { exists [], s. by rewrite app_nil_r. }
  destruct (bounded_add n ds0 d s Hn H) as (p & s1 & E1 & H1).
  destruct (IH _ _ H1) as (answers & s2 & E2 & H2). exists (ANode (Some p) :: answers), s2.
  cbn [fmap list_fmap spec_run]. rewrite E1. cbn [mbind option_bind]. rewrite E2. by rewrite <- app_assoc in H2.
Qed.

(** C28: a list with a maximum size to which data is added keeps the latest elements, in
    their order, and gives every older one to the free function, in order, as long as
    memory does not run out. *)
Theorem oslist_keeps_latest (n : Z) (ds : list Z) (alloc : oracle bool) :
  1 < n < 2 ^ 31 - 1 -> (forall k, answer alloc k = true) ->
  exists l0 answers l, OSList_Create alloc = Some l0 /\
    ol_run (OpSetMaxSize n :: OpSetFree true :: (OpAdd <$> ds)) l0 = Some (answers, l) /\
    ol_freed l = take (length ds - Z.to_nat n) ds /\
    forall i : nat, OSList_GetDataFromIndex (Z.of_nat i) l
      = Some (default 0 (drop (length ds - Z.to_nat n) ds !! i), l).
Proof.
  intros Hn Ha. assert (Hc : exists l0, OSList_Create alloc = Some l0).
  { unfold OSList_Create. assert (next alloc = true) as -> by apply Ha. by eexists. }
  destruct Hc as [l0 Hc]. pose proof (create_implements _ _ Hc) as Hi0.
  assert (Hb : bounded n [] ((new_list alloc) <| ls_max := n |> <| ls_free := true |>)).
  { constructor; try done. }
  destruct (bounded_run n [] ds _ Hn Hb) as (answers & s & Erun & Hbs).
  assert (Hrun : spec_run (OpSetMaxSize n :: OpSetFree true :: (OpAdd <$> ds)) (new_list alloc)
    = Some (ANumber 1 :: ANumber 1 :: answers, s)).
  { cbn [spec_run spec_op]. rewrite (proj2 (Z.leb_gt _ _)) by lia. cbn [mbind option_bind].
    rewrite Erun. done. }
  pose proof (ol_run_spec _ _ _ _ _ Hi0 Hrun) as W. apply wp_run in W as (? & l & El & -> & Hi).
  exists l0, (ANumber 1 :: ANumber 1 :: answers), l. split_and!; [done|done| |].
  - by rewrite (oli_freed _ _ Hi), (bd_freed _ _ _ Hbs).
  - intros i. assert (W : wp (OSList_GetDataFromIndex (Z.of_nat i))
      (fun d l' => d = default 0 (drop (length ds - Z.to_nat n) ds !! i) /\ l' = l) l).
    { eapply index_spec; [exact Hi|]. rewrite (proj2 (Z.ltb_ge _ _)) by lia.
      by rewrite (bd_items _ _ _ Hbs), Nat2Z.id. }
    apply wp_run in W as (d & l' & -> & -> & ->). done.
Qed.

(** * Concrete instances *)

Definition always : oracle bool := Oracle (fun _ => true) 0.

Definition sample_ops : list ol_op :=
  [OpAdd 10; OpAdd 20; OpPush 5; OpFirst; OpNext; OpInsert (Some 1%nat) 15; OpDeleteCurrently;
   OpCurrently; OpPrev; OpIndex 1; OpDeleteThis (Some 3%nat); OpLast; OpGetNext (Some 2%nat);
   OpDeleteOldest; OpIndex 0; OpIndex 3].

Example oslist_is_sequence_witness :
  exists l0 answers s, OSList_Create always = Some l0 /\
    spec_run sample_ops (new_list always) = Some (answers, s) /\ ls_items s = [(1%nat, 20)] /\
    exists l l', ol_run sample_ops l0 = Some (answers, l) /\ size (ol_nodes l) = length (ls_items s) /\
    OSList_Destroy l = Some (tt, l') /\ ol_nodes l' = ∅ /\ ol_blocks l' = 0 /\
    ol_freed l' = ls_freed (spec_release (ls_items s).*2 s).
Proof.
  eexists _, _, _. split; [reflexivity|]. split; [vm_compute; reflexivity|].
  split; [reflexivity|]. apply (oslist_is_sequence sample_ops always); [reflexivity|]. vm_compute. reflexivity.
Defined.

Example oslist_keeps_latest_witness :
  exists l0 answers l, OSList_Create always = Some l0 /\
    ol_run (OpSetMaxSize 2 :: OpSetFree true :: (OpAdd <$> [1; 2; 3; 4])) l0 = Some (answers, l) /\
    ol_freed l = [1; 2] /\
    forall i : nat, OSList_GetDataFromIndex (Z.of_nat i) l = Some (default 0 ([3; 4] !! i), l).
Proof. apply (oslist_keeps_latest 2 [1; 2; 3; 4] always); [lia|done]. Defined.

(** * Where the list goes wrong *)

(** [OSList_DeleteOldestNode] does not count the node off: a list of at most two elements
    that had one deleted drops another when it has room. *)
Theorem delete_oldest_miscounts :
  exists l0 answers l, OSList_Create always = Some l0 /\
    ol_run [OpSetMaxSize 2; OpAdd 1; OpAdd 2; OpDeleteOldest; OpAdd 3; OpIndex 0; OpIndex 1] l0
      = Some (answers, l) /\
    drop 5 answers = [ANumber 3; ANumber 0] /\ size (ol_nodes l) = 1%nat /\ ol_currently_size l = 2.
Proof. do 3 eexists. repeat (split; [vm_compute; reflexivity|]). vm_compute. reflexivity. Qed.

(** The cursor is left at a node that [OSList_DeleteOldestNode], or the eviction of
    [OSList_AddData], frees: the next step of a walk reads freed memory. *)
Theorem cursor_left_dangling :
  exists l0, OSList_Create always = Some l0 /\
    ol_run [OpAdd 1; OpAdd 2; OpFirst; OpDeleteOldest; OpNext] l0 = None /\
    ol_run [OpSetMaxSize 2; OpAdd 1; OpAdd 2; OpFirst; OpAdd 3; OpNext] l0 = None.
Proof. eexists. repeat (split; [vm_compute; reflexivity|]). vm_compute. reflexivity. Qed.
