(* ===== verification/Request.v ===== *)
(** Remote requests to the agent, agents/client-agent/request.c and
    agents/shared/request_op.c: the thread that receives messages pushes requests, other
    threads dispatch them and answer.  A node of a request is reached from a table of
    counters ([req_table]), from a ring of waiting requests ([req_pool]) and from the
    thread that works on it; the table and the ring have a mutex each, and so has every
    node.  A thread is where it is between two locked sections; a section is one step,
    and one that needs a mutex that is held does not run.  The table is any map of
    counters to nodes: the hash table of [HashMap] is one.  What sockets and local
    components answer comes with a step. *)
From stdpp Require Import gmap.
From S2P Require Import Prelude Ring AgentBuffer.
From S2P Require Hash HashMap.
#[local] Open Scope Z_scope.

(** * The table of counters *)

(** A pointer to a node is a number, 0 being null. *)
Class Counters (T : Type) := {
  table_add : bytes -> Z -> ST T Z;
  table_get : bytes -> ST T Z;
  table_delete : bytes -> ST T Z;
  table_valid : gmap bytes Z -> T -> Prop;
}.

Class CountersLaws (T : Type) `{!Counters T} := {
  table_add_law key p m t : table_valid m t ->
    wp (table_add key p) (fun r t' => match m !! key with
      | Some _ => r = 1 /\ table_valid m t'
      | None => r = 0 /\ table_valid m t' \/ r = 2 /\ table_valid (<[key := p]> m) t' end) t;
  table_get_law key m t : table_valid m t ->
    wp (table_get key) (fun r t' => r = default 0 (m !! key) /\ table_valid m t') t;
  table_delete_law key m t : table_valid m t ->
    wp (table_delete key) (fun _ t' => table_valid (delete key m) t') t;
}.

(** * State *)

Definition REQ_RESPONSE_LENGTH : Z := 64.
Definition OS_MAXSTR : Z := 65536.

(** The strings are up to their terminator, and [rn_buffer] is the whole block. *)
Record req_node_t := ReqNode {
  rn_sock : Z;
  rn_counter : bytes;
  rn_target : bytes;
  rn_buffer : bytes;
  rn_length : Z;
}.
#[export] Instance eta_req_node : Eta req_node_t := fun n =>
  ReqNode (rn_sock n) (rn_counter n) (rn_target n) (rn_buffer n) (rn_length n).

Inductive req_effect :=
| Sent (message : bytes)
| Forwarded (sock : Z) (message : bytes)
| Closed (sock : Z).

(** [rq_held] are the mutexes of nodes that are held, [rq_table_locked] is that of the
    table; the one of the pool is held inside a step only. *)
Record req_state (T : Type) := ReqState {
  rq_table : T;
  rq_table_locked : bool;
  rq_pool : list Z;
  rq_pool_i : Z;
  rq_pool_j : Z;
  rq_nodes : gmap Z req_node_t;
  rq_fresh : Z;
  rq_held : gset Z;
  rq_trace : list req_effect;
}.
Arguments ReqState {T} _ _ _ _ _ _ _ _ _.
Arguments rq_table {T} _.
Arguments rq_table_locked {T} _.
Arguments rq_pool {T} _.
Arguments rq_pool_i {T} _.
Arguments rq_pool_j {T} _.
Arguments rq_nodes {T} _.
Arguments rq_fresh {T} _.
Arguments rq_held {T} _.
Arguments rq_trace {T} _.
#[export] Instance eta_req_state T : Eta (req_state T) := fun s =>
  ReqState (rq_table s) (rq_table_locked s) (rq_pool s) (rq_pool_i s) (rq_pool_j s)
    (rq_nodes s) (rq_fresh s) (rq_held s) (rq_trace s).

Ltac rq_simpl :=
  cbn [update eta_req_state eta_req_node rq_table rq_table_locked rq_pool rq_pool_i rq_pool_j
       rq_nodes rq_fresh rq_held rq_trace rn_sock rn_counter rn_target rn_buffer rn_length].

(** Where a call of [req_push] is. *)
Inductive pusher :=
| PStart (mem : bytes) (length : Z)
| PUpdate (node : Z) (target : bytes) (length : Z)   (** holds the table, wants the node *)
| PAdd (node : Z) (counter : bytes)                  (** has created the node *)
| PPool (node : Z) (counter : bytes)                 (** has added it to the table *)
| PDelete (node : Z) (counter : bytes)               (** has found the pool full *)
| PReject (node : Z) (counter : bytes)               (** has taken it off the table *)
| PReturned (result : Z).

(** Where a thread of [req_receiver] is. *)
Inductive receiver :=
| RWait
| RTaken (node : Z)
| RLocked (node : Z)                                 (** holds the node *)
| RSend (node : Z) (buffer : bytes) (attempts : Z)   (** holds the node *)
| RAckWait (node : Z) (buffer : bytes) (attempts : Z)
| RFinish (node : Z)
| RFree (node : Z).

(** What [OS_SendSecureTCP] and [OS_RecvSecureTCP] make of a request to the socket of
    another component. *)
Inductive socket_reply :=
| SendFails
| RecvFails
| RecvEmpty
| RecvTooLong
| RecvReply (reply : bytes).

(** What a step of a receiver is answered: by [agcom_getconfig] or
    [w_agentd_state_get], by the socket, and whether a message is sent or a wait ends by
    a signal. *)
Record answers := Answers {
  an_agent : bytes;
  an_socket : socket_reply;
  an_ok : bool;
}.

(** * Strings *)

(** [strchr(s, c)]: the string before the first [c] and the memory after it. *)
Fixpoint split_string (c : Z) (m : bytes) : option (option (bytes * bytes)) :=
  match m with
  | [] => None
  | b :: m =>
      if b =? c then Some (Some ([], m)) else
      if b =? 0 then Some None else
      r ← split_string c m;
      Some match r with Some (before, after) => Some (b :: before, after) | None => None end
  end.

(** [agcom_dispatch], with what the component that it calls answers: the output, and
    the command, which has been cut at its first space in place. *)
Definition agcom_dispatch (command answer : bytes) : option (bytes * bytes) :=
  cut ← split_string 32 command;
  let '(rcv_comm, rcv_args, command) :=
    match cut with
    | Some (before, after) => (before, Some after, before ++ 0 :: after)
    | None => (cstr command, None, command)
    end in
  Some (if streq rcv_comm (str "getconfig") then
          match rcv_args with
          | None => str "err AGCOM getconfig needs arguments"
          | Some _ => answer
          end
        else if streq rcv_comm (str "getstate") then answer
        else str "err Unrecognized command", command).

Definition IS_ACK (x : bytes) : option bool :=
  x0 ← load1 x 0; if negb (x0 =? 97) then Some false else
  x1 ← load1 x 1; if negb (x1 =? 99) then Some false else
  x2 ← load1 x 2; if negb (x2 =? 107) then Some false else
  x3 ← load1 x 3; Some (x3 =? 0).

(** [snprintf(response, REQ_RESPONSE_LENGTH, "#!-req %s...", counter)]. *)
Definition response_text (counter rest : bytes) : bytes := str "#!-req " ++ counter ++ rest.
Definition response (counter rest : bytes) : bytes :=
  take (Z.to_nat (REQ_RESPONSE_LENGTH - 1)) (response_text counter rest).

(** The answer of [length] bytes in [buffer] after the header: [rlen], what [snprintf]
    returns, bytes are copied from [response]. *)
Definition build_response (counter reply : bytes) : option bytes :=
  let rlen := zlen (response_text counter (str " ")) in
  header ← load (response counter (str " ") ++ [0]) 0 rlen;
  Some (header ++ reply).

Section requests.
Context {T : Type} `{!Counters T}.
(** The size of the pool, the attempts to send an answer, and the protocol. *)
Context (request_pool max_attempts : Z) (udp : bool).

Abbreviation M := (ST (req_state T)).

(** * Memory, mutexes and the table *)

Definition req_node_at (p : Z) : M req_node_t := n ← gets (fun s => rq_nodes s !! p); lift n.
Definition emit_request (e : req_effect) : M unit :=
  modify (fun s => s <| rq_trace := rq_trace s ++ [e] |>).
Definition hold (p : Z) : M unit :=
  _ ← req_node_at p; modify (fun s => s <| rq_held := {[p]} ∪ rq_held s |>).
Definition release (p : Z) : M unit :=
  _ ← req_node_at p; modify (fun s => s <| rq_held := rq_held s ∖ {[p]} |>).
Definition held (p : Z) : M bool := _ ← req_node_at p; gets (fun s => bool_decide (p ∈ rq_held s)).

(** A call of the table. *)
Definition on_table {A} (call : ST T A) : M A := fun s =>
  match call (rq_table s) with
  | Some (a, t) => Some (a, s <| rq_table := t |>)
  | None => None
  end.

(** * Nodes *)

(** [memcpy] of [length] bytes, and a terminator. *)
Definition copy_block (src : bytes) (length : Z) : option bytes :=
  l ← load src 0 length; Some (l ++ [0]).

Definition req_create (sock : Z) (counter target buffer : bytes) (length : Z) : M Z :=
  block ← lift (copy_block buffer length);
  p ← gets rq_fresh;
  _ ← modify (fun s => s <| rq_nodes := <[p := ReqNode sock counter target block length]> (rq_nodes s) |>
                         <| rq_fresh := p + 1 |>);
  mret p.

(** The caller has seen that the mutex is free. *)
Definition req_update (p : Z) (buffer : bytes) (length : Z) : M unit :=
  _ ← req_node_at p;
  block ← lift (copy_block buffer length);
  modify (fun s => s <| rq_nodes := alter (fun n => n <| rn_buffer := block |> <| rn_length := length |>) p
                                       (rq_nodes s) |>).

(** A mutex must not be destroyed while it is held. *)
Definition req_free (p : Z) : M unit :=
  n ← req_node_at p;
  busy ← held p;
  if busy : bool then ub else
  _ ← (if 0 <=? rn_sock n then emit_request (Closed (rn_sock n)) else mret tt);
  modify (fun s => s <| rq_nodes := delete p (rq_nodes s) |>).

(** * [req_push] *)

(** Up to the creation of the node, or the update of an acknowledged one; [None] waits
    for a mutex. [connect] is a socket, or an error. *)
Definition push_start (mem : bytes) (length : Z) (connect : bytes + Z) : M (option pusher) :=
  cut ← lift (split_string 32 mem);
  match cut with
  | None => mret (Some (PReturned (-1)))
  | Some (counter, target_mem) =>
      ack ← lift (IS_ACK target_mem);
      if ack : bool then
        busy ← gets rq_table_locked;
        if busy : bool then mret None else
        node ← on_table (table_get counter);
        if node =? 0 then mret (Some (PReturned 0)) else
        _ ← modify (fun s => s <| rq_table_locked := true |>);
        mret (Some (PUpdate node target_mem length))
      else
        cut ← lift (split_string 32 target_mem);
        match cut with
        | None => mret (Some (PReturned (-1)))
        | Some (target, payload) =>
            let length := u64 (length - (zlen counter + 1 + zlen target + 1)) in
            match (if streq target (str "agent") then inr (-1) else connect) with
            | inl error =>
                _ ← emit_request (Sent (response counter (str " err " ++ error)));
                mret (Some (PReturned (-1)))
            | inr sock =>
                _ ← (if udp then emit_request (Sent (response counter (str " ack"))) else mret tt);
                node ← req_create sock counter target payload length;
                mret (Some (PAdd node counter))
            end
        end
  end.

(** The acknowledgement, with the table's mutex held. *)
Definition push_update (node : Z) (target : bytes) (length : Z) : M (option pusher) :=
  busy ← held node;
  if busy : bool then mret None else
  _ ← req_update node target length;
  _ ← modify (fun s => s <| rq_table_locked := false |>);
  mret (Some (PReturned 0)).

Definition push_add (node : Z) (counter : bytes) : M (option pusher) :=
  busy ← gets rq_table_locked;
  if busy : bool then mret None else
  error ← on_table (table_add counter node);
  if error =? 0 then
    _ ← emit_request (Sent (response counter (str " err Internal error")));
    _ ← req_free node;
    mret (Some (PReturned (-1)))
  else if error =? 1 then _ ← req_free node; mret (Some (PReturned 0))
  else mret (Some (PPool node counter)).

Definition push_pool (node : Z) (counter : bytes) : M (option pusher) :=
  s ← gets (fun s => s);
  if full (rq_pool_i s) (rq_pool_j s) request_pool then mret (Some (PDelete node counter)) else
  pool ← lift (set_slot (rq_pool s) (rq_pool_i s) node);
  _ ← modify (fun s => s <| rq_pool := pool |> <| rq_pool_i := forward (rq_pool_i s) request_pool |>);
  mret (Some (PReturned 0)).

Definition push_delete (node : Z) (counter : bytes) : M (option pusher) :=
  busy ← gets rq_table_locked;
  if busy : bool then mret None else
  _ ← on_table (table_delete counter);
  mret (Some (PReject node counter)).

Definition push_reject (node : Z) (counter : bytes) : M (option pusher) :=
  _ ← emit_request (Sent (response counter (str " err Too many requests")));
  _ ← req_free node;
  mret (Some (PReturned (-1))).

Definition push_step (connect : bytes + Z) (pc : pusher) : M (option pusher) :=
  match pc with
  | PStart mem length => push_start mem length connect
  | PUpdate node target length => push_update node target length
  | PAdd node counter => push_add node counter
  | PPool node counter => push_pool node counter
  | PDelete node counter => push_delete node counter
  | PReject node counter => push_reject node counter
  | PReturned _ => mret None
  end.

(** * [req_receiver] *)

Definition take_request : M (option receiver) :=
  s ← gets (fun s => s);
  if empty (rq_pool_i s) (rq_pool_j s) then mret None else
  node ← lift (slot (rq_pool s) (rq_pool_j s));
  _ ← modify (fun s => s <| rq_pool_j := forward (rq_pool_j s) request_pool |>);
  mret (Some (RTaken node)).

Definition lock_request (node : Z) : M (option receiver) :=
  busy ← held node;
  if busy : bool then mret None else _ ← hold node; mret (Some (RLocked node)).

(** The request is answered locally; the block of the answer ends where [OS_MAXSTR] does,
    and an empty answer of the agent is overwritten in a block of one byte. *)
Definition answer_locally (node : Z) (n : req_node_t) (an : answers) : M bytes :=
  if bool_decide (take 5 (rn_target n) = str "agent") then
    '(output, command) ← lift (agcom_dispatch (rn_buffer n) (an_agent an));
    _ ← modify (fun s => s <| rq_nodes := alter (fun n => n <| rn_buffer := command |>) node (rq_nodes s) |>);
    match output with [] => ub | l => mret l end
  else
    message ← lift (load (rn_buffer n) 0 (rn_length n));
    _ ← emit_request (Forwarded (rn_sock n) message);
    match an_socket an with
    | SendFails => mret (str "err Send data")
    | RecvFails => mret (str "err Receive data")
    | RecvEmpty => mret (str "err Empty response")
    | RecvTooLong => mret (str "err Maximum buffer length reached")
    | RecvReply l =>
        if zlen l <? OS_MAXSTR
        then mret (if zlen l <=? 0 then str "err Disconnected" else l) else ub
    end.

Definition dispatch_request (node : Z) (an : answers) : M (option receiver) :=
  n ← req_node_at node;
  l ← answer_locally node n an;
  buffer ← lift (build_response (rn_counter n) l);
  mret (Some (RSend node buffer 0)).

(** A round of the loop of attempts, up to the wait for an acknowledgement. *)
Definition send_answer (node : Z) (buffer : bytes) (attempts : Z) (sent : bool) : M (option receiver) :=
  if attempts <? max_attempts then
    _ ← emit_request (Sent buffer);
    _ ← release node;
    if sent && udp then mret (Some (RAckWait node buffer attempts))
    else mret (Some (RFinish node))
  else _ ← release node; mret (Some (RFinish node)).

(** The wait is over, by a signal or by the timeout. *)
Definition await_ack (node : Z) (buffer : bytes) (attempts : Z) (signalled : bool) : M (option receiver) :=
  busy ← held node;
  if busy : bool then mret None else
  n ← req_node_at node;
  acked ← (if signalled then lift (IS_ACK (rn_buffer n)) else mret false);
  if acked : bool then mret (Some (RFinish node)) else
  _ ← hold node;
  mret (Some (RSend node buffer (attempts + 1))).

Definition finish_request (node : Z) : M (option receiver) :=
  busy ← gets rq_table_locked;
  if busy : bool then mret None else
  n ← req_node_at node;
  _ ← on_table (table_delete (rn_counter n));
  mret (Some (RFree node)).

Definition receive_step (an : answers) (pc : receiver) : M (option receiver) :=
  match pc with
  | RWait => take_request
  | RTaken node => lock_request node
  | RLocked node => dispatch_request node an
  | RSend node buffer attempts => send_answer node buffer attempts (an_ok an)
  | RAckWait node buffer attempts => await_ack node buffer attempts (an_ok an)
  | RFinish node => finish_request node
  | RFree node => _ ← req_free node; mret (Some RWait)
  end.

(** * The threads together *)

Record requests := Requests {
  sys_state : req_state T;
  sys_pushers : list pusher;
  sys_receivers : list receiver;
}.

(** A message arrives, or a thread goes on. *)
Inductive req_event :=
| Arrives (mem : bytes) (length : Z)
| Pushes (i : nat) (connect : bytes + Z)
| Receives (i : nat) (an : answers).

(** The outer [None] is undefined behaviour; in the inner one the thread is blocked,
    has returned or does not exist. *)
Definition requests_step (e : req_event) (S : requests) : option (option requests) :=
  match e with
  | Arrives mem length =>
      Some (Some (Requests (sys_state S) (sys_pushers S ++ [PStart mem length]) (sys_receivers S)))
  | Pushes i connect =>
      match sys_pushers S !! i with
      | None => Some None
      | Some pc => '(pc', s) ← push_step connect pc (sys_state S);
          Some (pc' ← pc'; Some (Requests s (<[i := pc']> (sys_pushers S)) (sys_receivers S)))
      end
  | Receives i an =>
      match sys_receivers S !! i with
      | None => Some None
      | Some pc => '(pc', s) ← receive_step an pc (sys_state S);
          Some (pc' ← pc'; Some (Requests s (sys_pushers S) (<[i := pc']> (sys_receivers S))))
      end
  end.

(** Events in turn, and the number of steps that ran; a blocked thread does nothing. *)
Fixpoint requests_run (events : list req_event) (S : requests) : option (nat * requests) :=
  match events with
  | [] => Some (0%nat, S)
  | e :: events =>
      S' ← requests_step e S;
      match S' with
      | Some S' => '(n, S'') ← requests_run events S'; Some (Datatypes.S n, S'')
      | None => requests_run events S
      end
  end.

(** After [req_init], with [receivers] threads of [req_receiver]. *)
Definition requests_start (table : T) (receivers : nat) : requests :=
  Requests (ReqState table false (replicate (Z.to_nat request_pool) 0) 0 0 ∅ 1 ∅ [])
    [] (replicate receivers RWait).
End requests.
Arguments requests T : clear implicits.
Arguments Requests {T} _ _ _.
Arguments sys_state {T} _.
Arguments sys_pushers {T} _.
Arguments sys_receivers {T} _.

(** * Ownership

    A thread owns the nodes that its position names; the rest of a node's owners is
    the ring.  [Owns] says whether the node is in the table, whether its mutex is held,
    and the counter if the thread has it; [Updates] is the use of a node of the table by
    the thread that holds the table's mutex. *)

Inductive claim :=
| Owns (p : Z) (on_table locked : bool) (counter : option bytes)
| Updates (p : Z) (mem : bytes) (length : Z).

Definition owned (c : claim) : list Z := match c with Owns p _ _ _ => [p] | _ => [] end.
Definition listed (c : claim) : list Z := match c with Owns p true _ _ => [p] | _ => [] end.
Definition locked (c : claim) : list Z := match c with Owns p _ true _ => [p] | _ => [] end.
Definition updating (c : claim) : nat := match c with Updates _ _ _ => 1 | _ => 0 end%nat.

Definition pusher_claims (pc : pusher) : list claim :=
  match pc with
  | PStart _ _ | PReturned _ => []
  | PUpdate p mem length => [Updates p mem length]
  | PAdd p c | PReject p c => [Owns p false false (Some c)]
  | PPool p c | PDelete p c => [Owns p true false (Some c)]
  end.

Definition receiver_claims (pc : receiver) : list claim :=
  match pc with
  | RWait => []
  | RTaken p | RAckWait p _ _ | RFinish p => [Owns p true false None]
  | RLocked p | RSend p _ _ => [Owns p true true None]
  | RFree p => [Owns p false false None]
  end.

Definition claims {T} (S : requests T) : list claim :=
  flat_map pusher_claims (sys_pushers S) ++ flat_map receiver_claims (sys_receivers S).

(** A counter of at most 56 bytes: for a longer one, the answer's header is copied from
    outside [response]. *)
Definition counter_ok (counter : bytes) : Prop := 8 + zlen counter <= REQ_RESPONSE_LENGTH.

Definition node_ok (n : req_node_t) : Prop :=
  counter_ok (rn_counter n) /\ 0 <= rn_length n /\ exists l, rn_buffer n = l ++ [0] /\ zlen l = rn_length n.

Definition counter_of {T} (s : req_state T) (p : Z) : option bytes := rn_counter <$> rq_nodes s !! p.

(** What holds between the steps: [queue] are the nodes in the ring, [m] the table. *)
Record req_inv {T} `{!Counters T} (request_pool : Z) (queue : list Z) (m : gmap bytes Z)
    (s : req_state T) (cs : list claim) : Prop := ReqInv {
  ri_table : table_valid m (rq_table s);
  ri_ring : ring request_pool (rq_pool_j s) (rq_pool s) queue;
  ri_end : rq_pool_i s = ring_end request_pool (rq_pool_j s) (zlen queue);
  ri_map : forall c p, m !! c = Some p <->
    p ∈ queue ++ flat_map listed cs /\ counter_of s p = Some c;
  ri_nodup : NoDup (queue ++ flat_map owned cs);
  ri_nodes : forall p, is_Some (rq_nodes s !! p) <-> p ∈ queue ++ flat_map owned cs;
  ri_node : forall p n, rq_nodes s !! p = Some n -> 0 < p < rq_fresh s /\ node_ok n;
  ri_fresh : 0 < rq_fresh s;
  ri_held : forall p, p ∈ rq_held s <-> p ∈ flat_map locked cs;
  ri_lock : list_sum (updating <$> cs) = if rq_table_locked s then 1%nat else 0%nat;
  ri_counter : forall p b b' c, Owns p b b' (Some c) ∈ cs -> counter_of s p = Some c;
  ri_updates : forall p mem length, Updates p mem length ∈ cs ->
    p ∈ queue ++ flat_map listed cs /\ 0 <= length <= zlen mem;
}.

(** * Ghost steps: how ownership moves *)

Ltac claim_simpl := cbn [flat_map owned listed locked fmap list_fmap updating list_sum app fold_right] in *.

Section ghost.
Context {T : Type} `{!Counters T} (request_pool : Z).
Implicit Types (s : req_state T) (cs : list claim) (queue : list Z) (m : gmap bytes Z).

Abbreviation inv := (req_inv request_pool).

Lemma listed_owned p cs : p ∈ flat_map listed cs -> p ∈ flat_map owned cs.
Proof.
  rewrite !list_elem_of_In, !in_flat_map. intros ([q [] ? ?|] & Hc & Hp); [|done..].
  by eexists.
Qed.

Lemma locked_owned p cs : p ∈ flat_map locked cs -> p ∈ flat_map owned cs.
Proof.
  rewrite !list_elem_of_In, !in_flat_map. intros ([q ? [] ?|] & Hc & Hp); [|done..].
  by eexists.
Qed.

Lemma inv_perm queue m s cs cs' : cs ≡ₚ cs' -> inv queue m s cs -> inv queue m s cs'.
Proof.
  intros Hp []. pose proof (Permutation_flat_map listed Hp) as El.
  pose proof (Permutation_flat_map owned Hp) as Eo. pose proof (Permutation_flat_map locked Hp) as Ek.
  split; try done.
  - intros. rewrite <- El. apply ri_map0.
  - by rewrite <- Eo.
  - intros. rewrite <- Eo. apply ri_nodes0.
  - intros. rewrite <- Ek. apply ri_held0.
  - rewrite <- ri_lock0. symmetry. apply Permutation_list_sum. by rewrite Hp.
  - intros ????. rewrite <- Hp. apply ri_counter0.
  - intros ???. rewrite <- Hp. apply ri_updates0.
Qed.

(** The table's mutex is held exactly by a thread that updates. *)
Lemma unlocked_updates queue m s cs p mem l :
  inv queue m s cs -> rq_table_locked s = false -> Updates p mem l ∉ cs.
Proof.
  intros [] E Hin. rewrite E in ri_lock0. apply list_elem_of_split in Hin as (l1 & l2 & ->).
  rewrite fmap_app, list_sum_app in ri_lock0. cbn in ri_lock0. lia.
Qed.

(** A message that is sent changes no ownership. *)
Lemma inv_trace queue m s cs trace : inv queue m s cs -> inv queue m (s <| rq_trace := trace |>) cs.
Proof. intros []. by split. Qed.

Lemma inv_create queue m s cs n :
  inv queue m s cs -> node_ok n ->
  inv queue m (s <| rq_nodes := <[rq_fresh s := n]> (rq_nodes s) |> <| rq_fresh := rq_fresh s + 1 |>)
    (Owns (rq_fresh s) false false (Some (rn_counter n)) :: cs).
Proof.
  intros [] Hn.
  assert (Hnew : rq_nodes s !! rq_fresh s = None).
  { destruct (rq_nodes s !! rq_fresh s) eqn:E; [|done]. apply ri_node0 in E. lia. }
  assert (Hold : forall p, p ∈ queue ++ flat_map owned cs -> p <> rq_fresh s).
  { intros p [n' Hp]%ri_nodes0 ->. congruence. }
  assert (Hc : forall p, p <> rq_fresh s ->
    rn_counter <$> <[rq_fresh s := n]> (rq_nodes s) !! p = rn_counter <$> rq_nodes s !! p).
  { intros p Hp. by rewrite lookup_insert_ne. }
  unfold counter_of in *. split; unfold counter_of; rq_simpl; try done; claim_simpl.
  - intros c p. rewrite ri_map0. split; intros [Hp Hcp]; split; [done| |done|].
    + rewrite Hc; [done|]. intros ->. by rewrite Hnew in Hcp.
    + rewrite Hc in Hcp; [done|]. intros ->.
      apply (Hold (rq_fresh s)); [|done]. rewrite elem_of_app in *. destruct Hp as [?|?%listed_owned]; auto.
  - rewrite <- Permutation_middle. constructor; [|done]. intros H%Hold. done.
  - intros p. destruct (decide (p = rq_fresh s)) as [->|Hne].
    + rewrite lookup_insert_eq. split; [intros _|by eexists]. set_solver.
    + rewrite lookup_insert_ne, ri_nodes0 by done. set_solver.
  - intros p n' Hp. destruct (decide (p = rq_fresh s)) as [->|Hne].
    + rewrite lookup_insert_eq in Hp. injection Hp as <-. split; [lia|done].
    + rewrite lookup_insert_ne in Hp by done. destruct (ri_node0 _ _ Hp). split; [lia|done].
  - lia.
  - intros p b b' c [[= -> -> -> ->]|Hin]%elem_of_cons; [by rewrite lookup_insert_eq|].
    pose proof (ri_counter0 _ _ _ _ Hin) as E. rewrite Hc; [done|]. intros ->. by rewrite Hnew in E.
  - intros p mem l [?|Hin]%elem_of_cons; [done|]. by apply ri_updates0.
Qed.

Lemma inv_free queue m s cs p o :
  inv queue m s (Owns p false false o :: cs) -> inv queue m (s <| rq_nodes := delete p (rq_nodes s) |>) cs.
Proof.
  intros []. unfold counter_of in *. claim_simpl.
  rewrite <- Permutation_middle in ri_nodup0. apply NoDup_cons in ri_nodup0 as [Hnot Hnd].
  assert (Hnl : p ∉ queue ++ flat_map listed cs).
  { rewrite elem_of_app in *. intros [?|?%listed_owned]; tauto. }
  assert (Hc : forall q, q <> p ->
    rn_counter <$> delete p (rq_nodes s) !! q = rn_counter <$> rq_nodes s !! q).
  { intros q Hq. by rewrite lookup_delete_ne. }
  split; unfold counter_of; rq_simpl; try done.
  - intros c q. rewrite ri_map0. split; intros [Hq E]; (split; [done|]); (rewrite Hc in * by (intros ->; done)); done.
  - intros q. destruct (decide (q = p)) as [->|Hne].
    + rewrite lookup_delete_eq. split; [intros [? ?]; done|done].
    + rewrite lookup_delete_ne, ri_nodes0 by done. set_solver.
  - intros q n Hq. apply lookup_delete_Some in Hq as [_ Hq]. by apply ri_node0.
  - intros q b b' c Hin. rewrite Hc; [apply (ri_counter0 _ b b'); set_solver|]. intros ->. apply Hnot.
    rewrite elem_of_app. right. rewrite list_elem_of_In, in_flat_map. eexists. rewrite <- !list_elem_of_In.
    split; [exact Hin|]. cbn. set_solver.
  - intros q mem l Hin. apply (ri_updates0 q mem). set_solver.
Qed.

(** The node of a claim at the head is no other's. *)
Lemma head_owner queue m s cs p b b' o :
  inv queue m s (Owns p b b' o :: cs) -> p ∉ queue ++ flat_map owned cs.
Proof.
  intros [_ _ _ _ Hnd _ _ _ _ _ _ _]. claim_simpl.
  rewrite <- Permutation_middle in Hnd. by apply NoDup_cons in Hnd as [? _].
Qed.

Lemma head_not_listed queue m s cs p b b' o :
  inv queue m s (Owns p b b' o :: cs) -> p ∉ queue ++ flat_map listed cs.
Proof. intros H%head_owner. rewrite elem_of_app in *. intros [?|?%listed_owned]; tauto. Qed.

(** The table takes the node. *)
Lemma inv_list queue m s cs p c t :
  inv queue m s (Owns p false false (Some c) :: cs) -> m !! c = None -> table_valid (<[c := p]> m) t ->
  inv queue (<[c := p]> m) (s <| rq_table := t |>) (Owns p true false (Some c) :: cs).
Proof.
  intros H Hm Ht. pose proof (head_not_listed _ _ _ _ _ _ _ _ H) as Hnl. destruct H.
  assert (Hpc : counter_of s p = Some c) by (apply (ri_counter0 p false false); set_solver).
  split; unfold counter_of in *; rq_simpl; try done; claim_simpl.
  - intros c' q. destruct (decide (c' = c)) as [->|Hne].
    + rewrite lookup_insert_eq. split; [intros [= <-]; split; [set_solver|done]|].
      intros [Hq Hqc]. destruct (decide (q = p)) as [->|Hqp]; [done|].
      assert (m !! c = Some q) as Hmq by (apply ri_map0; set_solver). congruence.
    + rewrite lookup_insert_ne, ri_map0 by done. split; intros [Hq Hqc]; (split; [|done]); [set_solver|].
      assert (q <> p) by congruence. set_solver.
  - intros q b b' c' Hin. apply elem_of_cons in Hin as [[= -> -> -> ->]|Hin]; [done|].
    apply (ri_counter0 q b b'). set_solver.
  - intros q mem l Hin. destruct (ri_updates0 q mem l) as [Hq ?]; [set_solver|]. split; [set_solver|done].
Qed.

(** The table gives the node up. *)
Lemma inv_unlist queue m s cs p c o t :
  inv queue m s (Owns p true false o :: cs) -> rq_table_locked s = false ->
  counter_of s p = Some c -> table_valid (delete c m) t ->
  inv queue (delete c m) (s <| rq_table := t |>) (Owns p false false o :: cs).
Proof.
  intros H Hlock Hpc Ht. pose proof (head_not_listed _ _ _ _ _ _ _ _ H) as Hnl.
  pose proof (fun p mem l => unlocked_updates _ _ _ _ p mem l H Hlock) as Hun. destruct H.
  split; unfold counter_of in *; rq_simpl; try done; claim_simpl.
  - intros c' q. destruct (decide (c' = c)) as [->|Hne].
    + rewrite lookup_delete_eq. split; [done|]. intros [Hq Hqc].
      assert (m !! c = Some q) as E1 by (apply ri_map0; set_solver).
      assert (m !! c = Some p) as E2 by (apply ri_map0; set_solver).
      congruence.
    + rewrite lookup_delete_ne, ri_map0 by done. split; intros [Hq Hqc]; (split; [|done]); [|set_solver].
      assert (q <> p) by congruence. set_solver.
  - intros q b b' c' Hin. apply elem_of_cons in Hin as [[= -> -> -> <-]|Hin]; [|apply (ri_counter0 q b b'); set_solver].
    apply (ri_counter0 p true false). set_solver.
  - intros q mem l Hin. destruct (Hun q mem l). set_solver.
Qed.

(** The ring takes the node, and gives the oldest one. *)
Lemma inv_push queue m s cs p o pool :
  inv queue m s (Owns p true false o :: cs) -> zlen queue < request_pool - 1 ->
  pool = <[Z.to_nat (rq_pool_i s) := p]> (rq_pool s) ->
  inv (queue ++ [p]) m (s <| rq_pool := pool |> <| rq_pool_i := forward (rq_pool_i s) request_pool |>) cs.
Proof.
  intros [] Hroom ->. claim_simpl.
  split; rq_simpl; try done; rewrite <- ?(assoc_L (++)); try done.
  - rewrite ri_end0. by apply ring_push.
  - pose proof (ring_end_bounds _ _ _ _ ri_ring0). rewrite ri_end0, forward_mod by done.
    pose proof (ring_start _ _ _ _ ri_ring0). rewrite ring_end_push by zlia. f_equal. zlia.
  - intros q b b' c Hin. apply (ri_counter0 q b b'). set_solver.
  - intros q mem l Hin. apply (ri_updates0 q mem). set_solver.
Qed.

Lemma inv_pop queue m s cs p :
  inv (p :: queue) m s cs ->
  inv queue m (s <| rq_pool_j := forward (rq_pool_j s) request_pool |>) (Owns p true false None :: cs).
Proof.
  intros []. pose proof (ring_start _ _ _ _ ri_ring0).
  split; rq_simpl; try done; rewrite ?forward_mod by done; claim_simpl.
  - by eapply ring_pop.
  - rewrite ri_end0. pose proof (ring_room _ _ _ _ ri_ring0). rewrite zlen_cons in *.
    unfold ring_end. rewrite wrap_mod by lia. pose proof (zlen_nonneg queue).
    unfold wrap. repeat case_match; lia.
  - intros c q. rewrite ri_map0. set_solver.
  - by rewrite <- Permutation_middle.
  - intros q. rewrite ri_nodes0. set_solver.
  - intros q b b' c Hin. apply (ri_counter0 q b b'). set_solver.
  - intros q mem l Hin. destruct (ri_updates0 q mem l); set_solver.
Qed.

(** A mutex of a node of the table is taken and given back. *)
Lemma inv_lock queue m s cs p o :
  inv queue m s (Owns p true false o :: cs) ->
  inv queue m (s <| rq_held := {[p]} ∪ rq_held s |>) (Owns p true true o :: cs).
Proof.
  intros []. split; rq_simpl; try done; claim_simpl; unfold counter_of; rq_simpl.
  - intros q. rewrite elem_of_union, elem_of_singleton, ri_held0. set_solver.
  - intros q b b' c Hin. apply elem_of_cons in Hin as [[= -> -> -> <-]|Hin].
    + apply (ri_counter0 p true false). set_solver.
    + apply (ri_counter0 q b b'). set_solver.
  - intros q mem l Hin. apply (ri_updates0 q mem). set_solver.
Qed.

Lemma inv_unlock queue m s cs p o :
  inv queue m s (Owns p true true o :: cs) ->
  inv queue m (s <| rq_held := rq_held s ∖ {[p]} |>) (Owns p true false o :: cs).
Proof.
  intros H. pose proof (head_owner _ _ _ _ _ _ _ _ H) as Hn.
  destruct H. split; rq_simpl; try done; claim_simpl; unfold counter_of; rq_simpl.
  - intros q. rewrite elem_of_difference, elem_of_singleton, ri_held0.
    pose proof (locked_owned q cs). set_solver.
  - intros q b b' c Hin. apply elem_of_cons in Hin as [[= -> -> -> <-]|Hin].
    + apply (ri_counter0 p true true). set_solver.
    + apply (ri_counter0 q b b'). set_solver.
  - intros q mem l Hin. apply (ri_updates0 q mem). set_solver.
Qed.

(** The table's mutex is taken to update a node of the table, and given back. *)
Lemma inv_begin queue m s cs p c mem l :
  inv queue m s cs -> rq_table_locked s = false -> m !! c = Some p -> 0 <= l <= zlen mem ->
  inv queue m (s <| rq_table_locked := true |>) (Updates p mem l :: cs).
Proof.
  intros [] Hlock [Hp _]%ri_map0 Hl. rewrite Hlock in ri_lock0.
  split; rq_simpl; try done; claim_simpl; unfold counter_of; rq_simpl.
  - unfold list_sum in *. lia.
  - intros q b b' c' Hin. apply (ri_counter0 q b b'). set_solver.
  - intros q mem' l' Hin. apply elem_of_cons in Hin as [[= -> -> ->]|Hin]; [done|].
    by apply ri_updates0.
Qed.

(** A node's buffer is written. *)
Lemma inv_alter f queue m s cs p :
  inv queue m s cs -> (forall n, rn_counter (f n) = rn_counter n) ->
  (forall n, rq_nodes s !! p = Some n -> node_ok n -> node_ok (f n)) ->
  inv queue m (s <| rq_nodes := alter f p (rq_nodes s) |>) cs.
Proof.
  intros [] Hcf Hok.
  assert (Hc : forall q, rn_counter <$> alter f p (rq_nodes s) !! q = rn_counter <$> rq_nodes s !! q).
  { intros q. rewrite lookup_alter. case_decide; [|done]. subst q.
    destruct (rq_nodes s !! p) as [n|]; [|done]. cbn. by rewrite Hcf. }
  unfold counter_of in *. split; unfold counter_of; rq_simpl; try done.
  - intros c q. rewrite Hc. apply ri_map0.
  - intros q. rewrite <- ri_nodes0, lookup_alter. case_decide as E; [|done]. subst q. apply fmap_is_Some.
  - intros q n Hq. rewrite lookup_alter in Hq. case_decide as E; [|by apply ri_node0].
    subst q. apply fmap_Some in Hq as (n0 & Hn0 & ->). destruct (ri_node0 _ _ Hn0) as [? Hn]. auto.
  - intros q b b' c Hin. rewrite Hc. apply (ri_counter0 q b b'). set_solver.
Qed.

Lemma inv_unlock_table queue m s cs p mem l :
  inv queue m s (Updates p mem l :: cs) -> inv queue m (s <| rq_table_locked := false |>) cs.
Proof.
  intros []. claim_simpl.
  assert (Ht : rq_table_locked s = true) by (destruct (rq_table_locked s); [done|lia]).
  rewrite Ht in ri_lock0. split; rq_simpl; try done.
  - unfold list_sum. lia.
  - intros q b b' c Hin. apply (ri_counter0 q b b'). set_solver.
  - intros q mem' l' Hin. apply (ri_updates0 q mem'). set_solver.
Qed.

Lemma inv_end queue m s cs p mem l block :
  inv queue m s (Updates p mem l :: cs) -> 0 <= l -> zlen block = l ->
  inv queue m
    (s <| rq_nodes := alter (fun n => n <| rn_buffer := block ++ [0] |> <| rn_length := l |>) p (rq_nodes s) |>
       <| rq_table_locked := false |>) cs.
Proof.
  intros Hi Hl Hb. eapply inv_unlock_table, inv_alter; [exact Hi|done|].
  intros n _ [Hc _]. split; [done|]. split; [done|]. by exists block.
Qed.

(** A thread may forget the counter. *)
Lemma inv_forget queue m s cs p b b' o :
  inv queue m s (Owns p b b' o :: cs) -> inv queue m s (Owns p b b' None :: cs).
Proof.
  intros []. split; try done; claim_simpl.
  - intros q c c' x Hin. apply (ri_counter0 q c c'). set_solver.
  - intros q mem l Hin. apply (ri_updates0 q mem). set_solver.
Qed.

(** ** What a claim gives *)

Lemma owned_node queue m s cs p b b' o :
  inv queue m s (Owns p b b' o :: cs) -> exists n, rq_nodes s !! p = Some n /\ 0 < p /\ node_ok n.
Proof.
  intros []. destruct (proj2 (ri_nodes0 p)) as [n Hn]; [claim_simpl; set_solver|].
  exists n. split; [done|]. apply ri_node0 in Hn as [? ?]. by split; [lia|].
Qed.

Lemma head_held queue m s cs p b b' o :
  inv queue m s (Owns p b b' o :: cs) -> bool_decide (p ∈ rq_held s) = b'.
Proof.
  intros H. pose proof (head_owner _ _ _ _ _ _ _ _ H) as Hn. destruct H. claim_simpl.
  pose proof (locked_owned p cs).
  destruct b'; [apply bool_decide_eq_true|apply bool_decide_eq_false]; rewrite ri_held0; set_solver.
Qed.

Lemma full_queue queue m s cs :
  inv queue m s cs -> full (rq_pool_i s) (rq_pool_j s) request_pool = (zlen queue =? request_pool - 1).
Proof.
  intros []. pose proof (ring_end_bounds _ _ _ _ ri_ring0) as Hb. pose proof (ring_full _ _ _ _ ri_ring0) as Hf.
  unfold full. rewrite ri_end0, Z.rem_mod_nonneg by lia.
  destruct (Z.eqb_spec (zlen queue) (request_pool - 1)); [apply Z.eqb_eq|apply Z.eqb_neq]; intuition lia.
Qed.

Lemma empty_queue queue m s cs :
  inv queue m s cs -> empty (rq_pool_i s) (rq_pool_j s) = bool_decide (queue = []).
Proof.
  intros []. unfold empty. rewrite ri_end0. pose proof (ring_empty _ _ _ _ ri_ring0) as He.
  case_bool_decide; [apply Z.eqb_eq|apply Z.eqb_neq]; tauto.
Qed.
End ghost.

(** * Strings and answers *)

Lemma split_string_spec c m k :
  c <> 0 -> m !! k = Some 0 ->
  exists r, split_string c m = Some r /\
    match r with
    | Some (before, after) => m = before ++ c :: after /\ (length before < k)%nat /\
        after !! (k - length before - 1)%nat = Some 0
    | None => True
    end.
Proof.
  intros Hc. revert k. induction m as [|b m IH]; intros k Hk; [done|]. cbn [split_string].
  destruct (Z.eqb_spec b c) as [->|Hbc].
  { eexists. split; [reflexivity|]. destruct k as [|k]; [cbn in Hk; congruence|].
    split_and!; [done|cbn; lia|]. cbn [length]. by rewrite Nat.sub_0_r, Nat.sub_1_r. }
  destruct (Z.eqb_spec b 0) as [->|Hb0]; [by eexists|].
  destruct k as [|k]; [cbn in Hk; congruence|].
  destruct (IH k Hk) as ([[before after]|] & -> & H); [|by eexists].
  destruct H as (-> & Hlt & Ha). eexists. split; [reflexivity|]. split_and!; [done|cbn; lia|done].
Qed.

Lemma is_ack_total m k : m !! k = Some 0 -> is_Some (IS_ACK m).
Proof.
  intros Hk. unfold IS_ACK.
  destruct m as [|x0 m]; [done|]. change (load1 (x0 :: m) 0) with (Some x0).
  change (load1 (x0 :: m) 1) with (m !! 0%nat). change (load1 (x0 :: m) 2) with (m !! 1%nat).
  change (load1 (x0 :: m) 3) with (m !! 2%nat). cbn [mbind option_bind].
  destruct (Z.eqb_spec x0 97) as [->|]; [|by eexists]. destruct k as [|k]; [done|]. cbn in Hk.
  destruct m as [|x1 m]; [done|]. cbn. destruct (Z.eqb_spec x1 99) as [->|]; [|by eexists].
  destruct k as [|k]; [done|]. cbn in Hk. destruct m as [|x2 m]; [done|]. cbn.
  destruct (Z.eqb_spec x2 107) as [->|]; [|by eexists]. destruct k as [|k]; [done|]. cbn in Hk.
  destruct m as [|x3 m]; [done|]. by eexists.
Qed.

(** What the agent's own components answer is not empty, and what a socket answers
    leaves room for the terminator. *)
Definition answers_ok (an : answers) : Prop :=
  an_agent an <> [] /\ match an_socket an with RecvReply l => zlen l < OS_MAXSTR | _ => True end.

(** A message of [length] bytes with a terminator and 64 more bytes of its array after
    them: for an acknowledgement, [length] bytes are read after the counter, so as many
    bytes after the message as the counter and its separator have.  And a counter of at
    most 56 bytes. *)
Definition message_ok (mem : bytes) (length : Z) : Prop :=
  0 <= length <= OS_MAXSTR /\ mem !! Z.to_nat length = Some 0 /\ length + REQ_RESPONSE_LENGTH <= zlen mem /\
  forall counter rest, split_string 32 mem = Some (Some (counter, rest)) -> counter_ok counter.

Lemma build_response_some counter reply :
  counter_ok counter -> is_Some (build_response counter reply).
Proof.
  unfold counter_ok, build_response. intros H.
  assert (E : zlen (response_text counter (str " ")) = 8 + zlen counter).
  { unfold response_text. rewrite !zlen_app. change (zlen (str "#!-req ")) with 7.
    change (zlen (str " ")) with 1. lia. }
  rewrite load_some; [by eexists|done|zlia|].
  rewrite zlen_app. change (zlen [0]) with 1. unfold response. rewrite zlen_take_nat.
  unfold REQ_RESPONSE_LENGTH in *. zlia.
Qed.

(** [agcom_dispatch] cuts the command and keeps its size; it answers with something. *)
Lemma agcom_dispatch_spec l answer :
  answer <> [] -> exists output l', agcom_dispatch (l ++ [0]) answer = Some (output, l' ++ [0]) /\
    zlen l' = zlen l /\ output <> [].
Proof.
  intros Ha. unfold agcom_dispatch.
  destruct (split_string_spec 32 (l ++ [0]) (length l) ltac:(done)) as (cut & Ecut & Hcut).
  { by rewrite lookup_app_r, Nat.sub_diag by lia. }
  rewrite Ecut. cbn [mbind option_bind]. destruct cut as [[before after]|].
  - destruct Hcut as (E & _ & _). destruct after as [|x after _] using rev_ind.
    { by apply app_inj_tail in E as [_ [=]]. }
    rewrite app_comm_cons, app_assoc in E. apply app_inj_tail in E as [-> <-].
    eexists _, (before ++ 0 :: after). rewrite <- app_assoc, <- app_comm_cons. split_and!; [done| |].
    + by rewrite !zlen_app, !zlen_cons.
    + by destruct (streq _ _); [|destruct (streq _ _)].
  - eexists _, l. split_and!; [done..|]. by destruct (streq _ _); [|destruct (streq _ _)].
Qed.

(** * Each operation *)

Section rules.
Context {T : Type} `{!Counters T}.
Implicit Types (s : req_state T).

Lemma wp_req_node_at p n s (Q : req_node_t -> req_state T -> Prop) :
  rq_nodes s !! p = Some n -> Q n s -> wp (req_node_at p) Q s.
Proof. intros Hn HQ. apply wp_bind, wp_gets. by eapply wp_lift. Qed.

Lemma wp_emit_request e s (Q : unit -> req_state T -> Prop) :
  Q tt (s <| rq_trace := rq_trace s ++ [e] |>) -> wp (emit_request e) Q s.
Proof. done. Qed.

Lemma wp_hold p s (Q : unit -> req_state T -> Prop) :
  is_Some (rq_nodes s !! p) -> Q tt (s <| rq_held := {[p]} ∪ rq_held s |>) -> wp (hold p) Q s.
Proof. intros [n Hn] HQ. by eapply wp_bind, wp_req_node_at. Qed.

Lemma wp_release p s (Q : unit -> req_state T -> Prop) :
  is_Some (rq_nodes s !! p) -> Q tt (s <| rq_held := rq_held s ∖ {[p]} |>) -> wp (release p) Q s.
Proof. intros [n Hn] HQ. by eapply wp_bind, wp_req_node_at. Qed.

Lemma wp_held p s (Q : bool -> req_state T -> Prop) :
  is_Some (rq_nodes s !! p) -> Q (bool_decide (p ∈ rq_held s)) s -> wp (held p) Q s.
Proof. intros [n Hn] HQ. by eapply wp_bind, wp_req_node_at. Qed.

Lemma wp_on_table {A} (call : ST T A) s (Q : A -> req_state T -> Prop) :
  wp call (fun a t => Q a (s <| rq_table := t |>)) (rq_table s) -> wp (on_table call) Q s.
Proof. unfold wp, on_table. by destruct (call (rq_table s)) as [[]|]. Qed.

Lemma copy_block_some src length :
  0 <= length <= zlen src -> copy_block src length = Some (take (Z.to_nat length) src ++ [0]).
Proof. intros H. unfold copy_block. by rewrite load_some by lia. Qed.

Lemma wp_req_free queue m s cs p o request_pool (Q : unit -> req_state T -> Prop) :
  req_inv request_pool queue m s (Owns p false false o :: cs) ->
  (forall s', req_inv request_pool queue m s' cs -> rq_table_locked s' = rq_table_locked s -> Q tt s') ->
  wp (req_free p) Q s.
Proof.
  intros Hi HQ. destruct (owned_node _ _ _ _ _ _ _ _ _ Hi) as (n & Hn & _).
  apply wp_bind. eapply wp_req_node_at; [exact Hn|]. apply wp_bind, wp_held; [by eexists|].
  rewrite (head_held _ _ _ _ _ _ _ _ _ Hi). apply wp_bind. case_match.
  - apply wp_emit_request, wp_modify, HQ; [|done].
    apply (inv_free _ _ _ (s <| rq_trace := _ |>)) with (o := o). by apply inv_trace.
  - apply wp_ret, wp_modify, HQ; [|done]. by eapply inv_free.
Qed.

Lemma wp_req_create queue m s cs sock counter target buffer length request_pool (Q : Z -> req_state T -> Prop) :
  req_inv request_pool queue m s cs -> counter_ok counter -> 0 <= length <= zlen buffer ->
  (forall p s', req_inv request_pool queue m s' (Owns p false false (Some counter) :: cs) -> Q p s') ->
  wp (req_create sock counter target buffer length) Q s.
Proof.
  intros Hi Hc Hl HQ. unfold req_create. apply wp_bind. eapply wp_lift; [by apply copy_block_some|].
  apply wp_bind, wp_gets, wp_bind, wp_modify, wp_ret, HQ.
  apply (inv_create _ _ _ _ _ (ReqNode sock counter target _ length)); [done|].
  split; [done|]. split; [apply Hl|]. eexists. split; [reflexivity|]. by apply zlen_take.
Qed.
End rules.

(** * A step keeps the invariant, and every step brings the work nearer to its end *)

Section steps.
Context {T : Type} `{!Counters T, !CountersLaws T}.
Context (request_pool max_attempts : Z) (udp : bool).
Implicit Types (s : req_state T) (queue : list Z) (m : gmap bytes Z) (cs : list claim).

Abbreviation inv := (req_inv request_pool).

(** The steps that are left at most: a thread's, and those of a node in the ring. *)
Definition rounds_left (attempts : Z) : nat := 2 * Z.to_nat (max_attempts - attempts).
Definition receiver_weight (pc : receiver) : nat :=
  match pc with
  | RWait => 0
  | RFree _ => 1
  | RFinish _ => 2
  | RAckWait _ _ attempts => rounds_left (attempts + 1) + 4
  | RSend _ _ attempts => rounds_left attempts + 3
  | RLocked _ => rounds_left 0 + 4
  | RTaken _ => rounds_left 0 + 5
  end.
Definition pool_weight : nat := rounds_left 0 + 6.
Definition pusher_weight (pc : pusher) : nat :=
  match pc with
  | PReturned _ => 0
  | PUpdate _ _ _ | PReject _ _ => 1
  | PDelete _ _ => 2
  | PPool _ _ => pool_weight + 1
  | PAdd _ _ => pool_weight + 2
  | PStart _ _ => pool_weight + 3
  end.

Definition pusher_ok (pc : pusher) : Prop :=
  match pc with PStart mem length => message_ok mem length | _ => True end.

(** The cases in which a thread does not go on. *)
Definition pusher_blocked (s : req_state T) (pc : pusher) : Prop :=
  match pc with
  | PStart _ _ | PAdd _ _ | PDelete _ _ => rq_table_locked s = true
  | PUpdate p _ _ => p ∈ rq_held s
  | PReturned _ => True
  | PPool _ _ | PReject _ _ => False
  end.
Definition receiver_blocked (queue : list Z) (s : req_state T) (pc : receiver) : Prop :=
  match pc with
  | RWait => queue = []
  | RFinish _ => rq_table_locked s = true
  | _ => False
  end.

Definition goes_on {PC} (weight : PC -> nat) (to_claims : PC -> list claim) (ok : PC -> Prop)
    (blocked : Prop) queue (w : nat) cs (r : option PC) (s' : req_state T) : Prop :=
  match r with
  | None => blocked
  | Some pc => ok pc /\ exists queue' m', inv queue' m' s' (to_claims pc ++ cs) /\
      (weight pc + pool_weight * length queue' < w + pool_weight * length queue)%nat
  end.

Abbreviation pushes s queue pc cs :=
  (goes_on pusher_weight pusher_claims pusher_ok (pusher_blocked s pc) queue (pusher_weight pc) cs).
Abbreviation receives s queue pc cs :=
  (goes_on receiver_weight receiver_claims (fun _ => True) (receiver_blocked queue s pc) queue
     (receiver_weight pc) cs).

(** To reach a position with fewer steps left, the ring unchanged. *)
Lemma goes_to {PC} (weight : PC -> nat) to_claims (ok : PC -> Prop) blocked queue w cs pc m s' :
  inv queue m s' (to_claims pc ++ cs) -> ok pc -> (weight pc < w)%nat ->
  goes_on weight to_claims ok blocked queue w cs (Some pc) s'.
Proof. intros Hi Ho Hw. split; [done|]. exists queue, m. split; [done|lia]. Qed.

Lemma push_start_spec queue m s cs mem length connect :
  inv queue m s cs -> message_ok mem length ->
  wp (push_start udp mem length connect) (pushes s queue (PStart mem length) cs) s.
Proof.
  intros Hi (Hl & Hz & Hroom & Hc). unfold push_start.
  destruct (split_string_spec 32 mem _ ltac:(done) Hz) as (cut & Ecut & Hcut).
  apply wp_bind. eapply wp_lift; [exact Ecut|].
  destruct cut as [[counter rest]|]; [|apply wp_ret; eapply goes_to; [exact Hi|done|cbn; lia]].
  specialize (Hc _ _ Ecut). destruct Hcut as (-> & Hlt & Ha).
  assert (zlen counter < length) by (unfold zlen; lia). unfold counter_ok, REQ_RESPONSE_LENGTH in *.
  destruct (is_ack_total _ _ Ha) as [ack Eack]. apply wp_bind. eapply wp_lift; [exact Eack|].
  destruct ack.
  - apply wp_bind, wp_gets. destruct (rq_table_locked s) eqn:Hlock; [by apply wp_ret|].
    apply wp_bind, wp_on_table. eapply wp_mono; [apply (table_get_law counter m), Hi|].
    intros p t [-> Ht]. assert (Hi' : inv queue m (s <| rq_table := t |>) cs) by (destruct Hi; by split).
    destruct (m !! counter) as [p|] eqn:Em; cbn [from_option id].
    2: { apply wp_ret. eapply goes_to; [exact Hi'|done|cbn; lia]. }
    assert (0 < p) by (destruct Hi as [_ _ _ Hm _ _ Hn _ _ _ _ _]; apply Hm in Em as [_ E];
      apply fmap_Some in E as (n & Hp & _); by apply Hn in Hp as [[] _]).
    rewrite (proj2 (Z.eqb_neq p 0)) by lia. apply wp_bind, wp_modify, wp_ret.
    eapply goes_to; [|done|cbn; lia].
    eapply (inv_begin _ _ _ (s <| rq_table := t |>)); [exact Hi'|done|exact Em|]. zlia.
  - destruct (split_string_spec 32 rest _ ltac:(done) Ha) as (cut & Ecut2 & Hcut).
    apply wp_bind. eapply wp_lift; [exact Ecut2|].
    destruct cut as [[target payload]|]; [|apply wp_ret; eapply goes_to; [exact Hi|done|cbn; lia]].
    destruct Hcut as (-> & Hlt2 & _).
    assert (zlen target < length - zlen counter - 1) by (unfold zlen in *; lia).
    rewrite uwrap_small by (unfold fits, OS_MAXSTR in *; zlia).
    destruct (if streq target (str "agent") then inr (-1) else connect) as [error|sock];
      [apply wp_bind, wp_emit_request, wp_ret; eapply goes_to; [by apply inv_trace|done|cbn; lia]|].
    apply wp_bind.
    assert (Hcreate : forall s1, inv queue m s1 cs -> wp (node ← req_create sock counter target payload
      (length - (zlen counter + 1 + zlen target + 1)); mret (Some (PAdd node counter)))
      (pushes s queue (PStart (counter ++ 32 :: target ++ 32 :: payload) length) cs) s1).
    { intros s1 H1. apply wp_bind. eapply wp_req_create; [exact H1|exact Hc|zlia|].
      intros p s' H'. apply wp_ret. eapply goes_to; [exact H'|done|cbn; lia]. }
    destruct udp; [apply wp_emit_request|apply wp_ret]; apply Hcreate; [by apply inv_trace|done].
Qed.

Lemma push_update_spec queue m s cs p mem l :
  inv queue m s (Updates p mem l :: cs) ->
  wp (push_update p mem l) (pushes s queue (PUpdate p mem l) cs) s.
Proof.
  intros Hi. pose proof Hi as Hi'. destruct Hi' as [_ _ _ Hm _ Hn _ _ _ _ _ Hu].
  destruct (Hu p mem l) as [Hp Hl]; [set_solver|].
  assert (exists n, rq_nodes s !! p = Some n) as [n Hpn].
  { apply Hn. rewrite elem_of_app in *. destruct Hp as [?|?%listed_owned]; auto. }
  unfold push_update. apply wp_bind, wp_held; [by eexists|]. case_bool_decide as Hheld; [by apply wp_ret|].
  apply wp_bind. apply wp_bind. eapply wp_req_node_at; [exact Hpn|].
  apply wp_bind. eapply wp_lift; [by apply copy_block_some|].
  apply wp_modify, wp_bind, wp_modify, wp_ret. eapply goes_to; [|done|cbn; lia].
  eapply inv_end; [exact Hi|lia|]. by apply zlen_take.
Qed.

Lemma push_add_spec queue m s cs p c :
  inv queue m s (Owns p false false (Some c) :: cs) ->
  wp (push_add p c) (pushes s queue (PAdd p c) cs) s.
Proof.
  intros Hi. unfold push_add. apply wp_bind, wp_gets.
  destruct (rq_table_locked s) eqn:Hlock; [by apply wp_ret|].
  apply wp_bind, wp_on_table. eapply wp_mono; [apply (table_add_law c p m), Hi|].
  assert (Ht : forall t, table_valid m t ->
    inv queue m (s <| rq_table := t |>) (Owns p false false (Some c) :: cs)).
  { intros t Ht. destruct Hi; by split. }
  intros r t H. destruct (m !! c) as [q|] eqn:Em; [destruct H as [-> H]|destruct H as [[-> H]|[-> H]]];
    cbn [Z.eqb Pos.eqb].
  - apply wp_bind. eapply wp_req_free; [by apply Ht|]. intros s' H' _. apply wp_ret.
    eapply goes_to; [exact H'|done|cbn; lia].
  - apply wp_bind, wp_emit_request, wp_bind.
    eapply wp_req_free; [apply inv_trace; by apply Ht|]. intros s' H' _. apply wp_ret.
    eapply goes_to; [exact H'|done|cbn; lia].
  - apply wp_ret. eapply goes_to; [by apply inv_list|done|cbn; lia].
Qed.

Lemma push_pool_spec queue m s cs p c :
  inv queue m s (Owns p true false (Some c) :: cs) ->
  wp (push_pool request_pool p c) (pushes s queue (PPool p c) cs) s.
Proof.
  intros Hi. unfold push_pool. apply wp_bind, wp_gets. rewrite (full_queue _ _ _ _ _ Hi).
  destruct (Z.eqb_spec (zlen queue) (request_pool - 1)) as [Hfull|Hfull].
  { apply wp_ret. eapply goes_to; [exact Hi|done|cbn; lia]. }
  pose proof (ri_ring _ _ _ _ _ Hi) as Hr. pose proof (ri_end _ _ _ _ _ Hi) as He.
  pose proof (ring_end_bounds _ _ _ _ Hr). pose proof (ring_room _ _ _ _ Hr).
  apply wp_bind. eapply wp_lift; [apply set_slot_some; rewrite He, (ring_size _ _ _ _ Hr); lia|].
  apply wp_bind, wp_modify, wp_ret. split; [done|]. exists (queue ++ [p]), m. split.
  - eapply inv_push; [exact Hi|lia|done].
  - rewrite length_app. cbn [length pusher_weight]. lia.
Qed.

Lemma push_delete_spec queue m s cs p c :
  inv queue m s (Owns p true false (Some c) :: cs) ->
  wp (push_delete p c) (pushes s queue (PDelete p c) cs) s.
Proof.
  intros Hi. unfold push_delete. apply wp_bind, wp_gets.
  destruct (rq_table_locked s) eqn:Hlock; [by apply wp_ret|].
  apply wp_bind, wp_on_table. eapply wp_mono; [apply (table_delete_law c m), Hi|].
  intros r t Ht. apply wp_ret. eapply goes_to; [|done|cbn; lia].
  eapply inv_unlist; [exact Hi|done| |exact Ht]. eapply (ri_counter _ _ _ _ _ Hi), list_elem_of_here.
Qed.

Lemma push_step_spec queue m s cs connect pc :
  inv queue m s (pusher_claims pc ++ cs) -> pusher_ok pc ->
  wp (push_step request_pool udp connect pc) (pushes s queue pc cs) s.
Proof.
  intros Hi Ho. destruct pc as [mem l|p mem l|p c|p c|p c|p c|r]; cbn [push_step].
  - by eapply push_start_spec.
  - by eapply push_update_spec.
  - by eapply push_add_spec.
  - by eapply push_pool_spec.
  - by eapply push_delete_spec.
  - apply wp_bind, wp_emit_request, wp_bind. eapply wp_req_free; [eapply inv_trace, Hi|].
    intros s' H' _. apply wp_ret. eapply goes_to; [exact H'|done|cbn; lia].
  - by apply wp_ret.
Qed.

Lemma take_request_spec queue m s cs :
  inv queue m s cs -> wp (take_request request_pool) (receives s queue RWait cs) s.
Proof.
  intros Hi. unfold take_request. apply wp_bind, wp_gets. rewrite (empty_queue _ _ _ _ _ Hi).
  destruct queue as [|p queue]; [by apply wp_ret|]. cbv [bool_decide decide_rel list_eq_nil_dec].
  pose proof (ri_ring _ _ _ _ _ Hi) as Hr. apply wp_bind. eapply wp_lift; [by eapply ring_head|].
  apply wp_bind, wp_modify, wp_ret. split; [done|]. exists queue, m. split; [by apply inv_pop|].
  cbn [length receiver_weight]. unfold pool_weight. lia.
Qed.

(** The thread of a node finds it there, and its mutex free unless it holds it. *)
Lemma wp_own_held queue m s cs p b b' o (Q : bool -> req_state T -> Prop) :
  inv queue m s (Owns p b b' o :: cs) -> Q b' s -> wp (held p) Q s.
Proof.
  intros Hi HQ. destruct (owned_node _ _ _ _ _ _ _ _ _ Hi) as (n & Hn & _).
  apply wp_held; [by eexists|]. by rewrite (head_held _ _ _ _ _ _ _ _ _ Hi).
Qed.

Lemma wp_own_hold queue m s cs p o (Q : unit -> req_state T -> Prop) :
  inv queue m s (Owns p true false o :: cs) ->
  (forall s', inv queue m s' (Owns p true true o :: cs) -> Q tt s') -> wp (hold p) Q s.
Proof.
  intros Hi HQ. destruct (owned_node _ _ _ _ _ _ _ _ _ Hi) as (n & Hn & _).
  apply wp_hold; [by eexists|]. by apply HQ, inv_lock.
Qed.

Lemma wp_own_release queue m s cs p o (Q : unit -> req_state T -> Prop) :
  inv queue m s (Owns p true true o :: cs) ->
  (forall s', inv queue m s' (Owns p true false o :: cs) -> Q tt s') -> wp (release p) Q s.
Proof.
  intros Hi HQ. destruct (owned_node _ _ _ _ _ _ _ _ _ Hi) as (n & Hn & _).
  apply wp_release; [by eexists|]. by apply HQ, inv_unlock.
Qed.

Lemma answer_locally_spec queue m s cs p n an (Q : bytes -> req_state T -> Prop) :
  inv queue m s cs -> node_ok n -> answers_ok an ->
  (forall l s', inv queue m s' cs -> Q l s') -> rq_nodes s !! p = Some n ->
  wp (answer_locally p n an) Q s.
Proof.
  intros Hi (Hc & Hl & l & El & Hlen) [Ha Hs] HQ Hn. unfold answer_locally. case_bool_decide.
  { destruct (agcom_dispatch_spec l _ Ha) as (output & l' & E & El' & Ho).
    apply wp_bind. eapply wp_lift; [by rewrite El|]. apply wp_bind, wp_modify.
    destruct output as [|b output]; [done|]. apply wp_ret, HQ. apply inv_alter; [done|done|].
    rewrite Hn. intros ? [= <-] _. split; [done|]. split; [done|]. exists l'. split; [done|].
    rq_simpl. lia. }
  apply wp_bind. eapply wp_lift; [apply load_some; rewrite ?El; zlia|].
  apply wp_bind, wp_emit_request.
  destruct (an_socket an) as [| | | |reply]; try (apply wp_ret, HQ; by apply inv_trace).
  rewrite (proj2 (Z.ltb_lt _ _)) by done. apply wp_ret, HQ. by apply inv_trace.
Qed.

Lemma dispatch_spec queue m s cs p an :
  inv queue m s (Owns p true true None :: cs) -> answers_ok an ->
  wp (dispatch_request p an) (receives s queue (RLocked p) cs) s.
Proof.
  intros Hi Ha. destruct (owned_node _ _ _ _ _ _ _ _ _ Hi) as (n & Hn & _ & Hok).
  apply wp_bind. eapply wp_req_node_at; [exact Hn|]. apply wp_bind.
  eapply answer_locally_spec; [exact Hi|done|done| |done]. intros l s' H'.
  destruct (build_response_some (rn_counter n) l ltac:(apply Hok)) as [buffer E].
  apply wp_bind. eapply wp_lift; [exact E|]. apply wp_ret.
  eapply goes_to; [exact H'|done|cbn; lia].
Qed.

Lemma send_answer_spec queue m s cs p buffer attempts sent :
  inv queue m s (Owns p true true None :: cs) ->
  wp (send_answer max_attempts udp p buffer attempts sent) (receives s queue (RSend p buffer attempts) cs) s.
Proof.
  intros Hi. unfold send_answer. destruct (Z.ltb_spec attempts max_attempts).
  - apply wp_bind, wp_emit_request, wp_bind. eapply wp_own_release; [by apply inv_trace|].
    intros s' H'. destruct (sent && udp); apply wp_ret; (eapply goes_to; [exact H'|done|cbn; unfold rounds_left; lia]).
  - apply wp_bind. eapply wp_own_release; [exact Hi|]. intros s' H'. apply wp_ret.
    eapply goes_to; [exact H'|done|cbn; lia].
Qed.

Lemma await_ack_spec queue m s cs p buffer attempts signalled :
  inv queue m s (Owns p true false None :: cs) ->
  wp (await_ack p buffer attempts signalled) (receives s queue (RAckWait p buffer attempts) cs) s.
Proof.
  intros Hi. destruct (owned_node _ _ _ _ _ _ _ _ _ Hi) as (n & Hn & _ & _ & _ & l & El & _).
  apply wp_bind. eapply wp_own_held; [exact Hi|]. apply wp_bind. eapply wp_req_node_at; [exact Hn|].
  assert (exists acked, (if signalled then lift (IS_ACK (rn_buffer n)) else mret false : ST (req_state T) bool) s
    = Some (acked, s)) as [acked E].
  { destruct signalled; [|by exists false].
    destruct (is_ack_total (rn_buffer n) (length l)) as [a Ea].
    { rewrite El, lookup_app_r, Nat.sub_diag by lia. done. }
    exists a. unfold lift. by rewrite Ea. }
  apply wp_bind. unfold wp at 1. rewrite E. destruct acked.
  - apply wp_ret. eapply goes_to; [exact Hi|done|cbn; lia].
  - apply wp_bind. eapply wp_own_hold; [exact Hi|]. intros s' H'. apply wp_ret.
    eapply goes_to; [exact H'|done|cbn; lia].
Qed.

Lemma finish_spec queue m s cs p :
  inv queue m s (Owns p true false None :: cs) ->
  wp (finish_request p) (receives s queue (RFinish p) cs) s.
Proof.
  intros Hi. apply wp_bind, wp_gets. destruct (rq_table_locked s) eqn:Hlock; [by apply wp_ret|].
  destruct (owned_node _ _ _ _ _ _ _ _ _ Hi) as (n & Hn & _).
  apply wp_bind. eapply wp_req_node_at; [exact Hn|].
  apply wp_bind, wp_on_table. eapply wp_mono; [apply (table_delete_law (rn_counter n) m), Hi|].
  intros r t Ht. apply wp_ret. eapply goes_to; [|done|cbn; lia].
  eapply inv_unlist; [exact Hi|done| |exact Ht]. unfold counter_of. by rewrite Hn.
Qed.

Lemma receive_step_spec queue m s cs an pc :
  inv queue m s (receiver_claims pc ++ cs) -> answers_ok an ->
  wp (receive_step request_pool max_attempts udp an pc) (receives s queue pc cs) s.
Proof.
  intros Hi Ha. destruct pc as [|p|p|p b k|p b k|p|p]; cbn [receive_step].
  - by eapply take_request_spec.
  - apply wp_bind. eapply wp_own_held; [exact Hi|]. apply wp_bind. eapply wp_own_hold; [exact Hi|].
    intros s' H'. apply wp_ret. eapply goes_to; [exact H'|done|cbn; lia].
  - by eapply dispatch_spec.
  - by eapply send_answer_spec.
  - by eapply await_ack_spec.
  - by eapply finish_spec.
  - apply wp_bind. eapply wp_req_free; [exact Hi|]. intros s' H' _. apply wp_ret.
    eapply goes_to; [exact H'|done|cbn; lia].
Qed.
End steps.

(** * All the threads *)

Section threads.
Context {T : Type} `{!Counters T, !CountersLaws T}.
Context (request_pool max_attempts : Z) (udp : bool).
Implicit Types (S : requests T) (queue : list Z) (m : gmap bytes Z).

Definition event_ok (e : req_event) : Prop :=
  match e with Arrives mem length => message_ok mem length | Pushes _ _ => True | Receives _ an => answers_ok an end.

(** Not the arrival of another message. *)
Definition thread_event (e : req_event) : Prop := match e with Arrives _ _ => False | _ => True end.

Record sys_inv queue m S : Prop := SysInv {
  sy_inv : req_inv request_pool queue m (sys_state S) (claims S);
  sy_pushers : Forall pusher_ok (sys_pushers S);
}.

(** The steps that are left at most. *)
Definition steps_left queue S : nat :=
  list_sum (pusher_weight max_attempts <$> sys_pushers S) +
  list_sum (receiver_weight max_attempts <$> sys_receivers S) + pool_weight max_attempts * length queue.

Definition blocked_event queue S (e : req_event) : Prop :=
  match e with
  | Arrives _ _ => False
  | Pushes i _ => forall pc, sys_pushers S !! i = Some pc -> pusher_blocked (sys_state S) pc
  | Receives i _ => forall pc, sys_receivers S !! i = Some pc -> receiver_blocked queue (sys_state S) pc
  end.

Lemma insert_middle {A} (l1 l2 : list A) x y : <[length l1 := y]> (l1 ++ x :: l2) = l1 ++ y :: l2.
Proof. induction l1 as [|z l1 IH]; cbn; [done|by f_equal]. Qed.

Lemma list_sum_middle {A} (f : A -> nat) l1 l2 x :
  list_sum (f <$> l1 ++ x :: l2) = (f x + list_sum (f <$> l1 ++ l2))%nat.
Proof. rewrite !fmap_app, !list_sum_app. cbn. unfold list_sum. lia. Qed.

Lemma flat_map_middle {A B} (f : A -> list B) l1 l2 x :
  flat_map f (l1 ++ x :: l2) ≡ₚ f x ++ flat_map f (l1 ++ l2).
Proof. rewrite !flat_map_app. cbn. by rewrite Permutation_app_swap_app. Qed.

Lemma pushes_spec queue m S i connect :
  sys_inv queue m S ->
  exists r, requests_step request_pool max_attempts udp (Pushes i connect) S = Some r /\
    match r with
    | None => blocked_event queue S (Pushes i connect)
    | Some S' => exists queue' m', sys_inv queue' m' S' /\ (steps_left queue' S' < steps_left queue S)%nat
    end.
Proof.
  intros [Hi Ho]. cbn [requests_step]. destruct (sys_pushers S !! i) as [pc|] eqn:Epc.
  2: { eexists. split; [reflexivity|]. intros pc. congruence. }
  pose proof Epc as Hs. apply list_elem_of_split_length in Hs as (l1 & l2 & El & ->).
  assert (Hpc : pusher_ok pc) by (by eapply Forall_lookup_1).
  set (cs := flat_map pusher_claims (l1 ++ l2) ++ flat_map receiver_claims (sys_receivers S)).
  assert (Hcs : forall pc' (s' : req_state T), claims (Requests s' (l1 ++ pc' :: l2) (sys_receivers S)) ≡ₚ pusher_claims pc' ++ cs).
  { intros pc' s'. unfold claims, cs. cbn [sys_pushers sys_receivers].
    rewrite flat_map_middle. by rewrite (assoc_L (++)). }
  assert (Hi' : req_inv request_pool queue m (sys_state S) (pusher_claims pc ++ cs)).
  { eapply inv_perm; [|exact Hi]. rewrite <- (Hcs pc (sys_state S)), <- El. by destruct S. }
  pose proof (push_step_spec request_pool max_attempts udp _ _ _ _ connect _ Hi' Hpc) as W.
  apply wp_run in W as ([pc'|] & s' & -> & Hr); (eexists; split; [reflexivity|]).
  - destruct Hr as (Ho' & queue' & m' & Hinv & Hw). exists queue', m'. rewrite El, insert_middle. split.
    + split; [eapply inv_perm; [symmetry; apply Hcs|exact Hinv]|]. cbn [sys_pushers].
      rewrite El in Ho. apply Forall_app in Ho as [? [? ?]%Forall_cons].
      apply Forall_app. split; [done|]. by constructor.
    + unfold steps_left. cbn [sys_pushers sys_receivers]. rewrite El, !list_sum_middle. lia.
  - intros pc'. rewrite Epc. by intros [= <-].
Qed.

Lemma receives_spec queue m S i an :
  sys_inv queue m S -> answers_ok an ->
  exists r, requests_step request_pool max_attempts udp (Receives i an) S = Some r /\
    match r with
    | None => blocked_event queue S (Receives i an)
    | Some S' => exists queue' m', sys_inv queue' m' S' /\ (steps_left queue' S' < steps_left queue S)%nat
    end.
Proof.
  intros [Hi Ho] Ha. cbn [requests_step]. destruct (sys_receivers S !! i) as [pc|] eqn:Epc.
  2: { eexists. split; [reflexivity|]. intros pc. congruence. }
  pose proof Epc as Hs. apply list_elem_of_split_length in Hs as (l1 & l2 & El & ->).
  set (cs := flat_map receiver_claims (l1 ++ l2) ++ flat_map pusher_claims (sys_pushers S)).
  assert (Hcs : forall pc' (s' : req_state T), claims (Requests s' (sys_pushers S) (l1 ++ pc' :: l2)) ≡ₚ receiver_claims pc' ++ cs).
  { intros pc' s'. unfold claims, cs. cbn [sys_pushers sys_receivers].
    rewrite flat_map_middle, Permutation_app_comm. by rewrite (assoc_L (++)). }
  assert (Hi' : req_inv request_pool queue m (sys_state S) (receiver_claims pc ++ cs)).
  { eapply inv_perm; [|exact Hi]. rewrite <- (Hcs pc (sys_state S)), <- El. by destruct S. }
  pose proof (receive_step_spec request_pool max_attempts udp _ _ _ _ an _ Hi' Ha) as W.
  apply wp_run in W as ([pc'|] & s' & -> & Hr); (eexists; split; [reflexivity|]).
  - destruct Hr as (_ & queue' & m' & Hinv & Hw). exists queue', m'. rewrite El, insert_middle. split.
    + split; [eapply inv_perm; [symmetry; apply Hcs|exact Hinv]|done].
    + unfold steps_left. cbn [sys_pushers sys_receivers]. rewrite El, !list_sum_middle. lia.
  - intros pc'. rewrite Epc. by intros [= <-].
Qed.

Lemma requests_step_spec queue m S e :
  sys_inv queue m S -> event_ok e ->
  exists r, requests_step request_pool max_attempts udp e S = Some r /\
    match r with
    | None => blocked_event queue S e
    | Some S' => exists queue' m', sys_inv queue' m' S' /\
        (thread_event e -> (steps_left queue' S' < steps_left queue S)%nat) /\
        length (sys_receivers S') = length (sys_receivers S)
    end.
Proof.
  intros Hi He. destruct e as [mem l|i connect|i an]; cbn [thread_event event_ok] in *.
  - eexists. split; [reflexivity|]. exists queue, m. split; [|done]. destruct Hi as [Hi Ho]. split.
    + eapply inv_perm; [|exact Hi]. unfold claims. cbn [sys_pushers sys_receivers].
      by rewrite flat_map_app, app_nil_r.
    + apply Forall_app. split; [done|]. by constructor.
  - destruct (pushes_spec _ _ _ i connect Hi) as (r & Er & Hr). exists r. split; [done|].
    destruct r as [S'|]; [|done]. destruct Hr as (queue' & m' & ? & ?). exists queue', m'.
    split_and!; [done..|]. cbn in Er. destruct (_ !! i); [|done].
    destruct (push_step _ _ _ _ _) as [[[]]|]; [|done..]. by injection Er as <-.
  - destruct (receives_spec _ _ _ i an Hi He) as (r & Er & Hr). exists r. split; [done|].
    destruct r as [S'|]; [|done]. destruct Hr as (queue' & m' & ? & ?). exists queue', m'.
    split_and!; [done..|]. cbn in Er. destruct (_ !! i); [|done].
    destruct (receive_step _ _ _ _ _ _) as [[[]]|]; [|done..]. injection Er as <-.
    cbn [sys_receivers]. by rewrite length_insert.
Qed.

Lemma requests_run_spec events queue m S :
  sys_inv queue m S -> Forall event_ok events ->
  exists n S' queue' m', requests_run request_pool max_attempts udp events S = Some (n, S') /\
    sys_inv queue' m' S' /\ length (sys_receivers S') = length (sys_receivers S) /\
    (Forall thread_event events -> (n + steps_left queue' S' <= steps_left queue S)%nat).
Proof.
  intros Hi Hok. revert queue m S Hi. induction Hok as [|e events He _ IH]; intros queue m S Hi.
  { exists 0%nat, S, queue, m. by split_and!. }
  cbn [requests_run]. destruct (requests_step_spec _ _ _ _ Hi He) as ([S1|] & -> & H1); cbn [mbind option_bind].
  - destruct H1 as (queue1 & m1 & Hi1 & Hw & Hn).
    destruct (IH _ _ _ Hi1) as (n & S' & queue' & m' & -> & Hi' & Hn' & Hw').
    exists (Datatypes.S n), S', queue', m'. split_and!; [done|done|congruence|].
    intros [Ht Hts]%Forall_cons. specialize (Hw Ht). specialize (Hw' Hts). lia.
  - destruct (IH _ _ _ Hi) as (n & S' & queue' & m' & -> & Hi' & Hn' & Hw').
    exists n, S', queue', m'. split_and!; [done..|]. intros [_ Hts]%Forall_cons. auto.
Qed.

Lemma requests_start_inv table receivers :
  0 < request_pool -> table_valid ∅ table -> sys_inv [] ∅ (requests_start request_pool table receivers).
Proof.
  intros Hp Ht. assert (E : claims (requests_start request_pool table receivers) = []).
  { unfold claims, requests_start. cbn [sys_pushers sys_receivers flat_map app].
    by induction receivers. }
  split; [|constructor]. rewrite E. unfold requests_start. cbn [sys_state].
  split; unfold counter_of; rq_simpl; claim_simpl; try done.
  - split; [|lia|done|done]. rewrite zlen_replicate. lia.
  - unfold ring_end. rewrite wrap_lt; change (zlen (@nil Z)) with 0; lia.
  - intros c p. rewrite lookup_empty. set_solver.
  - constructor.
  - intros p. rewrite lookup_empty. split; [by intros []|set_solver].
  - set_solver.
  - set_solver.
  - set_solver.
Qed.

(** ** When no thread goes on *)

(** A thread of [req_push] that holds the table's mutex does go on, as the thread that
    holds its node does. *)
Lemma no_updater queue m S p mem l i :
  sys_inv queue m S -> sys_pushers S !! i = Some (PUpdate p mem l) -> p ∈ rq_held (sys_state S) ->
  exists j pc, sys_receivers S !! j = Some pc /\ match pc with RLocked _ | RSend _ _ _ => True | _ => False end.
Proof.
  intros [[] _] Hi Hp. apply ri_held0 in Hp. unfold claims in Hp.
  rewrite flat_map_app, elem_of_app, !list_elem_of_In, !in_flat_map in Hp.
  destruct Hp as [(c & (pc & _ & Hc)%in_flat_map & Hp)|(c & (pc & Hpc & Hc)%in_flat_map & Hp)].
  - destruct pc; cbn in Hc; try done; destruct Hc as [<-|[]]; done.
  - apply list_elem_of_In, list_elem_of_lookup in Hpc as [j Hj]. exists j, pc. split; [done|].
    destruct pc; cbn in Hc; try done; destruct Hc as [<-|[]]; done.
Qed.

Lemma unlocked_when_stuck queue m S :
  sys_inv queue m S ->
  (forall e, event_ok e -> thread_event e -> blocked_event queue S e) ->
  rq_table_locked (sys_state S) = false.
Proof.
  intros Hi Hstuck. destruct (rq_table_locked (sys_state S)) eqn:E; [|done]. exfalso.
  pose proof (ri_lock _ _ _ _ _ (sy_inv _ _ _ Hi)) as Hl. rewrite E in Hl.
  assert (exists p mem l, Updates p mem l ∈ claims S) as (p & mem & l & Hu).
  { clear -Hl. induction (claims S) as [|[p b b' o|p mem l] cs IH]; [done| |].
    - destruct (IH Hl) as (p' & mem & l & ?). exists p', mem, l. by right.
    - exists p, mem, l. by left. }
  unfold claims in Hu. rewrite elem_of_app, !list_elem_of_In, !in_flat_map in Hu.
  destruct Hu as [(pc & Hpc & Hc)|(pc & _ & Hc)].
  2: { destruct pc; cbn in Hc; try done; by destruct Hc as [|[]]. }
  destruct pc as [| p' mem' l' | | | | |]; cbn in Hc; try done; destruct Hc as [[=]|[]]; subst.
  apply list_elem_of_In, list_elem_of_lookup in Hpc as [i Hpc].
  destruct (no_updater _ _ _ _ _ _ _ Hi Hpc) as (j & pc & Hj & Hpc').
  { exact (Hstuck (Pushes i (inr 0)) I I _ Hpc). }
  assert (answers_ok (Answers [0] SendFails true)) as Ha by done.
  pose proof (Hstuck (Receives j _) Ha I _ Hj). by destruct pc.
Qed.

Lemma stuck_is_done queue m S :
  sys_inv queue m S -> sys_receivers S <> [] ->
  (forall e, event_ok e -> thread_event e -> blocked_event queue S e) ->
  Forall (fun pc => exists r, pc = PReturned r) (sys_pushers S) /\ Forall (eq RWait) (sys_receivers S) /\
  queue = [] /\ m = ∅ /\ rq_nodes (sys_state S) = ∅.
Proof.
  intros Hi Hr Hstuck. pose proof (unlocked_when_stuck _ _ _ Hi Hstuck) as Hun.
  assert (Hps : Forall (fun pc => exists r, pc = PReturned r) (sys_pushers S)).
  { apply Forall_lookup_2. intros i pc Hpc. pose proof (Hstuck (Pushes i (inr 0)) I I _ Hpc) as Hb.
    destruct pc as [| | | | | |r]; cbn in Hb; try (by exists r); try congruence; try done.
    destruct (no_updater _ _ _ _ _ _ _ Hi Hpc Hb) as (j & pc & Hj & Hpc').
    assert (answers_ok (Answers [0] SendFails true)) as Ha by done.
    pose proof (Hstuck (Receives j _) Ha I _ Hj). by destruct pc. }
  assert (Hrs : forall j pc, sys_receivers S !! j = Some pc -> pc = RWait /\ queue = []).
  { intros j pc Hj. assert (answers_ok (Answers [0] SendFails true)) as Ha by done.
    pose proof (Hstuck (Receives j _) Ha I _ Hj) as Hb. destruct pc; cbn in Hb; try done. congruence. }
  assert (Hq : queue = []) by (destruct (sys_receivers S) as [|pc l]; [done|]; by apply (Hrs 0%nat pc)).
  assert (Hrw : Forall (eq RWait) (sys_receivers S)) by (apply Forall_lookup_2; intros j pc Hj; by apply Hrs in Hj as [-> _]).
  assert (Hcl : claims S = []).
  { unfold claims. clear -Hps Hrw.
    assert (E : flat_map receiver_claims (sys_receivers S) = []) by (by induction Hrw as [|? ? <-]).
    rewrite E. by induction Hps as [|? ? [r ->]]. }
  destruct Hi as [[] _]. rewrite Hcl, Hq in *. split_and!; [done..| |].
  - apply map_eq. intros c. rewrite lookup_empty. destruct (m !! c) as [p|] eqn:E; [|done].
    apply ri_map0 in E as [E _]. cbn in E. set_solver.
  - apply map_eq. intros p. rewrite lookup_empty. destruct (rq_nodes (sys_state S) !! p) eqn:E; [|done].
    assert (p ∈ [] ++ flat_map owned []) by (apply ri_nodes0; by eexists). cbn in *. set_solver.
Qed.

(** ** The theorems *)

(** C20: however the threads that push requests and the threads that answer them
    interleave, none has undefined behaviour, within these bounds on what arrives: a
    counter has at most 56 bytes; a message is followed by at least 64 bytes of the array
    it is in, because every acknowledgement is read past its end (by as many bytes as its
    counter and separator have); the agent's components answer something, and a socket
    less than [OS_MAXSTR] bytes. What happens outside them is [long_counter_overreads],
    [ack_reads_past_message] and [full_answer_overflows]. Within them no node is used
    after it is freed, no mutex is destroyed while it is held, no read is outside an
    array. Every allocated node belongs to the ring or to exactly one thread, and the
    table maps counters to the nodes that have been added and not yet deleted, and to no
    other. *)
Theorem requests_run_safely table receivers events :
  0 < request_pool -> table_valid ∅ table -> Forall event_ok events ->
  exists n S queue m,
    requests_run request_pool max_attempts udp events (requests_start request_pool table receivers) = Some (n, S) /\
    ring request_pool (rq_pool_j (sys_state S)) (rq_pool (sys_state S)) queue /\
    NoDup (queue ++ flat_map owned (claims S)) /\
    (forall p, is_Some (rq_nodes (sys_state S) !! p) <-> p ∈ queue ++ flat_map owned (claims S)) /\
    table_valid m (rq_table (sys_state S)) /\
    (forall c p, m !! c = Some p <->
       p ∈ queue ++ flat_map listed (claims S) /\ counter_of (sys_state S) p = Some c).
Proof.
  intros Hp Ht Hok.
  destruct (requests_run_spec _ _ _ _ (requests_start_inv table receivers Hp Ht) Hok)
    as (n & S & queue & m & E & [[] _] & _).
  by exists n, S, queue, m.
Qed.

(** C21: after any run within the bounds of [requests_run_safely] (counters of at most 56
    bytes, messages with 64 bytes of their array after them, answers that are not empty
    and shorter than [OS_MAXSTR]), the requests in progress end: the number of steps that
    the threads can take without another message is bounded, whatever they are answered
    within the bounds, and when no thread goes on then every call of [req_push] has
    returned, every receiver waits for a request, and the table and the heap have no node
    left. *)
Theorem requests_all_end table receivers events n S :
  0 < request_pool -> table_valid ∅ table -> Forall event_ok events -> (0 < receivers)%nat ->
  requests_run request_pool max_attempts udp events (requests_start request_pool table receivers) = Some (n, S) ->
  (exists bound, forall events', Forall event_ok events' -> Forall thread_event events' ->
    exists n' S', requests_run request_pool max_attempts udp events' S = Some (n', S') /\ (n' <= bound)%nat) /\
  ((forall e, event_ok e -> thread_event e -> requests_step request_pool max_attempts udp e S = Some None) ->
    Forall (fun pc => exists r, pc = PReturned r) (sys_pushers S) /\ Forall (eq RWait) (sys_receivers S) /\
    rq_nodes (sys_state S) = ∅ /\ table_valid ∅ (rq_table (sys_state S))).
Proof.
  intros Hp Ht Hok Hr E.
  destruct (requests_run_spec _ _ _ _ (requests_start_inv table receivers Hp Ht) Hok)
    as (n1 & S1 & queue & m & E1 & Hi & Hn & _).
  assert (S1 = S) as -> by congruence. split.
  - exists (steps_left queue S). intros events' Hok' Hts.
    destruct (requests_run_spec _ _ _ _ Hi Hok') as (n' & S' & queue' & m' & E' & _ & _ & Hw).
    exists n', S'. split; [done|]. specialize (Hw Hts). lia.
  - intros Hstuck. destruct (stuck_is_done queue m S Hi) as (? & ? & _ & -> & ?).
    + intros E0. rewrite E0 in Hn. cbn in Hn. rewrite length_replicate in Hn. lia.
    + intros e He Hte. destruct (requests_step_spec _ _ _ e Hi He) as (r & Er & H).
      rewrite (Hstuck e He Hte) in Er. injection Er as <-. exact H.
    + split_and!; [done..|]. apply Hi.
Qed.
End threads.

(** * The hash table as the table of counters *)

Section oshash.
Variable char_signed : bool.

#[export] Instance oshash_counters : Counters Hash.OSHash := {
  table_add := Hash.OSHash_Add char_signed;
  table_get := Hash.OSHash_Get char_signed;
  table_delete := Hash.OSHash_Delete char_signed;
  table_valid m h := exists B s, HashMap.implements char_signed B s h /\ HashMap.sp_map s = m;
}.

#[export] Instance oshash_counters_laws : CountersLaws Hash.OSHash.
Proof.
  split.
  - intros key p m h (B & s & Hi & <-). eapply (HashMap.add_spec _ key p false); [exact Hi|].
    cbn [HashMap.spec_op]. destruct (HashMap.sp_map s !! key) eqn:E.
    { intros h' [B' H']. split; [done|]. by exists B', s. }
    unfold HashMap.spec_add. destruct (next _); cbn [negb].
    2: { intros h' [B' H']. left. split; [done|]. (eexists B', _; split; [exact H'|done]). }
    destruct (next _); cbn [negb]; intros h' [B' H']; [right|left]; (split; [done|]); (eexists B', _; split; [exact H'|done]).
  - intros key m h (B & s & Hi & <-). eapply HashMap.hash_get_spec; [exact Hi|].
    split; [done|]. by exists B, s.
  - intros key m h (B & s & Hi & <-). eapply (HashMap.delete_spec _ key); [exact Hi|].
    cbn [HashMap.spec_op]. intros h' [B' H']. (eexists B', _; split; [exact H'|done]).
Qed.
End oshash.

(** * A run, and what the arrays of fixed size do not hold *)

(** Memory of 200 bytes with a string, and the arrival of the string. *)
Definition in_memory (s : string) : bytes := str s ++ replicate (200 - String.length s) 0.
Definition message (s : string) : req_event := Arrives (in_memory s) (zlen (str s)).
Definition answered (reply : string) : answers := Answers (str reply) (RecvReply (str reply)) true.

(** A request to the agent itself, one with the same counter, one to a component, and an
    acknowledgement; two receivers. *)
Definition sample_events : list req_event :=
  [message "7 agent getconfig client"; Pushes 0 (inr 5); Pushes 0 (inr 5);
   message "7 agent getconfig client"; Pushes 1 (inr 5); Pushes 1 (inr 5);
   message "8 syscheck getstate"; Pushes 2 (inr 5); Pushes 2 (inr 5);
   Pushes 0 (inr 5); Pushes 2 (inr 5)] ++
  [Receives 0 (answered "ok"); Receives 1 (answered "ok"); Receives 1 (answered "idle");
   Receives 0 (answered "ok"); Receives 1 (answered "idle"); Receives 0 (answered "ok");
   Receives 0 (answered "ok"); Receives 1 (answered "ok");
   message "8 ack"; Pushes 3 (inr 5); Pushes 3 (inr 5);
   Receives 1 (answered "ok"); Receives 1 (answered "ok"); Receives 1 (answered "ok");
   Receives 0 (answered "ok"); Receives 0 (answered "ok"); Receives 0 (answered "ok")].

Lemma sample_ok : Forall event_ok sample_events.
Proof.
  repeat (apply Forall_cons; split);
    try match goal with
        | |- event_ok (message _) =>
            split; [split; by vm_compute|]; split; [by vm_compute|]; split; [by vm_compute|];
            intros c r E; vm_compute in E; injection E as <- _; by vm_compute
        | |- event_ok (Receives _ _) => by split
        | |- event_ok (Pushes _ _) => done
        end.
  by apply Forall_nil.
Qed.

Example sample_trace :
  match Hash.OSHash_Create HashMap.no_failures 12 345 with
  | Some (Some table) =>
      let '(n, sys) := default (0%nat, requests_start 4 table 0)
        (requests_run (Counters0 := oshash_counters true) 4 3 true sample_events (requests_start 4 table 2)) in
      n = 28%nat /\ sys_pushers sys = [PReturned 0; PReturned 0; PReturned 0; PReturned 0] /\
      rq_trace (sys_state sys) =
        [Sent (str "#!-req 7 ack"); Sent (str "#!-req 7 ack"); Sent (str "#!-req 8 ack");
         Forwarded 5 (str "getstate"); Sent (str "#!-req 7 ok"); Sent (str "#!-req 8 idle"); Closed 5;
         Sent (str "#!-req 7 ok")]
  | _ => False
  end.
Proof. vm_compute. by split_and!. Qed.

Lemma requests_run_safely_witness :
  exists table n S queue m, Hash.OSHash_Create HashMap.no_failures 12 345 = Some (Some table) /\
    requests_run (Counters0 := oshash_counters true) 4 3 true sample_events (requests_start 4 table 2) = Some (n, S) /\
    NoDup (queue ++ flat_map owned (claims S)) /\
    (forall p, is_Some (rq_nodes (sys_state S) !! p) <-> p ∈ queue ++ flat_map owned (claims S)) /\
    (exists B s, HashMap.implements true B s (rq_table (sys_state S)) /\ HashMap.sp_map s = m).
Proof.
  destruct (HashMap.create_spec true HashMap.no_failures 12 345) as (table & E & B & Hi); [done|done|].
  destruct (requests_run_safely (Counters0 := oshash_counters true) 4 3 true table 2 sample_events)
    as (n & S & queue & m & Er & _ & Hnd & Hd & Ht & _).
  - done.
  - exact (ex_intro _ B (ex_intro _ (HashMap.new_table HashMap.no_failures) (conj Hi eq_refl))).
  - apply sample_ok.
  - exists table, n, S, queue, m. exact (conj E (conj Er (conj Hnd (conj Hd Ht)))).
Defined.

Lemma requests_all_end_witness :
  exists table n S bound, Hash.OSHash_Create HashMap.no_failures 12 345 = Some (Some table) /\
    requests_run (Counters0 := oshash_counters true) 4 3 true sample_events (requests_start 4 table 2) = Some (n, S) /\
    (forall events', Forall event_ok events' -> Forall thread_event events' ->
      exists n' S', requests_run (Counters0 := oshash_counters true) 4 3 true events' S = Some (n', S') /\ (n' <= bound)%nat).
Proof.
  destruct (HashMap.create_spec true HashMap.no_failures 12 345) as (table & E & B & Hi); [done|done|].
  assert (Ht : table_valid (Counters := oshash_counters true) ∅ table)
    by exact (ex_intro _ B (ex_intro _ (HashMap.new_table HashMap.no_failures) (conj Hi eq_refl))).
  destruct (requests_run_spec (Counters0 := oshash_counters true) 4 3 true sample_events _ _ _
    (requests_start_inv (Counters0 := oshash_counters true) 4 table 2 ltac:(done) Ht) sample_ok)
    as (n & S & _ & _ & Er & _).
  destruct (requests_all_end (Counters0 := oshash_counters true) 4 3 true table 2 sample_events n S)
    as [[bound Hb] _]; [done|exact Ht|apply sample_ok|lia|exact Er|].
  exists table, n, S, bound. exact (conj E (conj Er Hb)).
Defined.

(** An acknowledgement is copied with the length of the whole message, from where the
    counter has been cut off: as many bytes after the message are read. *)
Theorem ack_reads_past_message :
  match Hash.OSHash_Create HashMap.no_failures 12 345 with
  | Some (Some table) =>
      requests_run (Counters0 := oshash_counters true) 4 3 true
        [message "1 agent x"; Pushes 0 (inr 0); Pushes 0 (inr 0); Arrives (str "1 ack" ++ [0]) 5;
         Pushes 1 (inr 0); Pushes 1 (inr 0)] (requests_start 4 table 1) = None
  | _ => False
  end.
Proof. by vm_compute. Qed.

(** A counter of more than 56 bytes: what is copied is the length that [snprintf] wanted,
    more than the array has. *)
Theorem long_counter_overreads counter reply : 56 < zlen counter -> build_response counter reply = None.
Proof.
  intros H. unfold build_response, load. destruct (_ && _) eqn:E; [exfalso|done].
  rewrite !andb_true_iff, !Z.leb_le in E. destruct E as [_ E].
  rewrite zlen_app in E. change (zlen [0]) with 1 in E. unfold response, response_text, REQ_RESPONSE_LENGTH in E.
  rewrite zlen_take_nat, !zlen_app in E. change (zlen (str "#!-req ")) with 7 in E.
  change (zlen (str " ")) with 1 in E. lia.
Qed.

(** An answer that fills its block has its terminator after it. *)
Theorem full_answer_overflows {T} p n reply an (s : req_state T) :
  take 5 (rn_target n) <> str "agent" -> an_socket an = RecvReply reply -> zlen reply = OS_MAXSTR ->
  answer_locally p n an s = None.
Proof.
  intros Ht Ha Hl. unfold answer_locally. rewrite bool_decide_eq_false_2 by done.
  unfold mbind, ST_bind, lift. destruct (load _ _ _) as [message0|]; [|done].
  unfold emit_request, modify. rewrite Ha, Hl. done.
Qed.

(** The smallest pool that is accepted holds no request. *)
Theorem pool_of_one_rejects {T} `{!Counters T} queue m s cs p c :
  req_inv 1 queue m s cs -> push_pool 1 p c s = Some (Some (PDelete p c), s).
Proof.
  intros H. unfold push_pool, mbind, ST_bind, gets. rewrite (full_queue _ _ _ _ _ H).
  pose proof (ring_room _ _ _ _ (ri_ring _ _ _ _ _ H)). pose proof (zlen_nonneg queue).
  by rewrite (proj2 (Z.eqb_eq _ _)) by lia.
Qed.
