(* ===== verification/AgentLink.v ===== *)
(** The agent's link to the gateway: agents/client-agent/start_agent.c (connecting
    and the WZCP handshake), sendmsg.c (sending an event), receiver.c (receiving a
    frame, and the heartbeats of the Windows agent), on the protocol of Wzcp.v. *)
From S2P Require Import Prelude Wzcp.
#[local] Open Scope Z_scope.

Definition OS_SIZE_1024 : Z := 1024.
Definition OS_SIZE_2048 : Z := 2048.
Definition OS_MAXSTR : Z := 65536.

(** * State *)

Record agent_server := Server {
  rip : bytes;
  protocol_udp : bool;
  retry_interval : Z;
}.

(** The globals of the agent: [agt], the first key of the key store, the version,
    the counters of state.c.  [agt->server] is an array that a server without an
    address ends, here the end of the list.  The name service and the connecting
    system calls are asked for answers. *)
Record agentd := Agentd {
  ad_process : process;
  ad_sock : Z;
  ad_rip_id : Z;
  ad_server : list agent_server;
  ad_key : option (bytes * option bytes);  (* keys.keyentries[0]: id, name *)
  ad_version : bytes;                  (* __ossec_version *)
  ad_available_server : Z;
  ad_last_connection_time : Z;
  ad_last_ack : Z;                     (* agent_state.last_ack *)
  ad_msg_sent : Z;                     (* agent_state.msg_sent *)
  ad_get_host : oracle (option bytes); (* OS_GetHost *)
  ad_connect : oracle Z;               (* OS_ConnectTCP, OS_ConnectUDP *)
}.
#[export] Instance eta_agentd : Eta agentd := fun a =>
  Agentd (ad_process a) (ad_sock a) (ad_rip_id a) (ad_server a) (ad_key a)
    (ad_version a) (ad_available_server a) (ad_last_connection_time a)
    (ad_last_ack a) (ad_msg_sent a) (ad_get_host a) (ad_connect a).

#[export] Instance agentd_has_world : HasWorld agentd.
Proof.
  refine {| world_of a := p_world (ad_process a);
    in_world f a := a <| ad_process := in_world f (ad_process a) |> |}; try done.
  by intros [[]].
Defined.

(** The protocol functions run on the process part of the state. *)
Definition in_process {A} (m : ST process A) : ST agentd A := fun a =>
  '(x, p) ← m (ad_process a); Some (x, a <| ad_process := p |>).

Definition agt_server (id : Z) : ST agentd agent_server :=
  s ← gets (fun a => if 0 <=? id then ad_server a !! Z.to_nat id else None); lift s.

Definition first_key : ST agentd (bytes * option bytes) :=
  key ← gets ad_key; lift key.

(** * Connecting (start_agent.c) *)

(** The text after the first ['/'], if there is one. *)
Fixpoint after_slash (s : bytes) : option bytes :=
  match s with
  | [] => None
  | c :: t => if c =? 47 then Some t else after_slash t
  end.

(** [ip_address]: [None] is a null pointer. *)
Definition resolve (rip : bytes) : ST agentd (option bytes) :=
  ip_address ← (match after_slash rip with
                | Some ip => ok ← alloc_succeeds; mret (if ok : bool then Some ip else None)
                | None => mret None
                end);
  match ip_address with
  | Some ip => mret (Some ip)
  | None =>
      r ← gets (fun a => next (ad_get_host a));
      _ ← modify (fun a => a <| ad_get_host := advance (ad_get_host a) |>);
      mret r
  end.

Definition connect_server (server_id : Z) : ST agentd bool :=
  sock ← gets ad_sock;
  _ ← (if sock >=? 0
       then _ ← emit (Release "socket"); modify (fun a => a <| ad_sock := -1 |>)
       else mret tt);
  server ← agt_server server_id;
  ip_address ← resolve (rip server);
  match ip_address with
  | None | Some [] =>
      _ ← lift (load1 (rip server) (zlen (rip server) - 1)); mret false
  | Some _ =>
      sock ← gets (fun a => next (ad_connect a));
      _ ← modify (fun a => a <| ad_connect := advance (ad_connect a) |>);
      if sock <? 0 then _ ← modify (fun a => a <| ad_sock := -1 |>); mret false else
      _ ← emit (Acquire "socket");
      now ← time_now;
      _ ← modify (fun a => a <| ad_sock := sock |> <| ad_rip_id := server_id |>
                            <| ad_last_connection_time := s32 now |>);
      mret true
  end.

Section operations.
(** The contents of an object of automatic storage before it is written, and the
    branches of the other protocol, which this library does not describe. *)
Context (stack : Z -> bytes) (header0 : xsiam_wzcp_header)
  (secure_send : bytes -> Z -> ST agentd Z) (secure_receive : ST agentd Z)
  (secure_start : ST agentd unit).

(** [available_server = (int) time(NULL)], reported as the time of the last ack. *)
Definition server_answered : ST agentd unit :=
  now ← time_now;
  modify (fun a => a <| ad_available_server := s32 now |> <| ad_last_ack := s32 now |>).

Definition hello_answered (sock : Z) : ST agentd bool :=
  '(rc, header, reply) ← in_process (xsiam_wzcp_recv_frame sock header0
                                       (stack OS_SIZE_1024) OS_SIZE_1024);
  if rc <? 0 then mret false else
  if negb (h_msg_type header =? XSIAM_WZCP_MSG_ACK) then mret false else
  '(rc, _) ← lift (xsiam_wzcp_parse_ack reply (h_body_len header));
  mret (negb (rc <? 0)).

Definition wzcp_handshake_to_gateway (server_id : Z) : ST agentd bool :=
  connected ← connect_server server_id;
  if negb connected then mret false else
  agent_id ← in_process xsiam_wzcp_agent_uuid;
  key ← first_key;
  let agent_name := match snd key with Some n => n | None => str "unknown" end in
  host_type ← in_process xsiam_wzcp_host_type;
  '(_, mac_addresses) ← in_process (xsiam_wzcp_collect_mac_addresses (replicate 512 0) 512);
  version ← gets ad_version;
  '(body_len, body) ← lift (xsiam_wzcp_build_hello_ex (stack OS_SIZE_2048) OS_SIZE_2048
     (Some agent_id) (Some agent_name) (Some version) (Some host_type)
     (Some (cstr mac_addresses)));
  if body_len <? 0 then mret false else
  sock ← gets ad_sock;
  seq ← in_process xsiam_wzcp_next_seq;
  rc ← in_process (xsiam_wzcp_send_frame sock XSIAM_WZCP_MSG_HELLO (u32 (atoi agent_id)) seq
                     body (u32 body_len));
  if rc <? 0 then mret false else
  ok ← hello_answered sock;
  if negb ok then mret false else
  _ ← server_answered; mret true.

(** One round of the loop of [start_agent]: [inl] goes on with the next server. *)
Definition start_round (current_server_id : Z) : ST agentd (Z + unit) :=
  ok ← wzcp_handshake_to_gateway current_server_id;
  if ok : bool then mret (inr tt) else
  next_rip ← gets (fun a => ad_server a !! Z.to_nat (current_server_id + 1));
  mret (inl (match next_rip with Some _ => current_server_id + 1 | None => 0 end)).

Definition start_agent (fuel : nat) : ST agentd unit :=
  enabled ← in_process xsiam_wzcp_enabled;
  if enabled : bool then rip_id ← gets ad_rip_id; loop fuel start_round rip_id
  else secure_start.

(** * Sending (sendmsg.c) *)

Definition send_msg (msg : bytes) (msg_length : Z) : ST agentd Z :=
  enabled ← in_process xsiam_wzcp_enabled;
  if negb enabled then secure_send msg msg_length else
  let plain_len := if msg_length <? 0 then zlen (cstr msg) else u64 msg_length in
  '(body_len, wzcp_body) ← in_process (xsiam_wzcp_build_event_batch
      (stack (OS_MAXSTR + 128)) (OS_MAXSTR + 128) XSIAM_WZCP_EVENT_LOG msg plain_len);
  if body_len <? 0 then mret (-1) else
  sock ← gets ad_sock;
  key ← first_key;
  seq ← in_process xsiam_wzcp_next_seq;
  retval ← in_process (xsiam_wzcp_send_frame sock XSIAM_WZCP_MSG_EVENT_BATCH (u32 (atoi (fst key)))
                         seq wzcp_body (u32 body_len));
  _ ← (if retval =? 0 then modify (fun a => a <| ad_msg_sent := u32 (ad_msg_sent a + 1) |>)
       else mret tt);
  mret retval.

(** * Receiving (receiver.c) *)

Definition answer_heartbeat (sock seq : Z) : ST agentd unit :=
  '(ack_len, ack) ← lift (xsiam_wzcp_build_ack (stack 8) 8 seq);
  if ack_len >? 0 then
    key ← first_key;
    s ← in_process xsiam_wzcp_next_seq;
    _ ← in_process (xsiam_wzcp_send_frame sock XSIAM_WZCP_MSG_ACK (u32 (atoi (fst key))) s ack
                      (u32 ack_len));
    mret tt
  else mret tt.

Definition receive_msg : ST agentd Z :=
  enabled ← in_process xsiam_wzcp_enabled;
  if negb enabled then secure_receive else
  sock ← gets ad_sock;
  '(rc, header, body) ← in_process (xsiam_wzcp_recv_frame sock header0
                                      (stack OS_SIZE_2048) OS_SIZE_2048);
  if rc <? 0 then mret (-1) else
  if h_msg_type header =? XSIAM_WZCP_MSG_ACK then
    '(rc, _) ← lift (xsiam_wzcp_parse_ack body (h_body_len header));
    _ ← (if rc =? 0 then server_answered else mret tt); mret 0
  else if h_msg_type header =? XSIAM_WZCP_MSG_HEARTBEAT then
    _ ← answer_heartbeat sock (h_seq header); mret 0
  else if (h_msg_type header =? XSIAM_WZCP_MSG_CONTROL) && (h_body_len header >? 0) then
    _ ← lift (store body (if h_body_len header <? OS_SIZE_2048 then h_body_len header
                          else OS_SIZE_2048 - 1) [0]);
    mret 0
  else mret 0.

(** The heartbeats the Windows agent sends: [next_heartbeat] and [last_sock] are
    the caller's variables. *)
Definition wzcp_next_heartbeat_interval : ST agentd Z :=
  r ← gets (fun a => next (p_rand (ad_process a)));
  _ ← modify (fun a => a <| ad_process := (ad_process a) <| p_rand :=
                            advance (p_rand (ad_process a)) |> |>);
  mret (30 + Z.rem r 91).

Definition wzcp_schedule_heartbeat : ST agentd Z :=
  now ← time_now; interval ← wzcp_next_heartbeat_interval; mret (now + interval).

Definition wzcp_send_heartbeat_if_due (next_heartbeat last_sock : Z) : ST agentd (Z * Z * Z) :=
  enabled ← in_process xsiam_wzcp_enabled;
  sock ← gets ad_sock;
  if negb enabled || (sock =? -1) then mret (0, 0, -1) else
  if negb (last_sock =? sock) || (next_heartbeat =? 0)
  then next ← wzcp_schedule_heartbeat; mret (0, next, sock) else
  now ← time_now;
  if now <? next_heartbeat then mret (0, next_heartbeat, last_sock) else
  key ← gets ad_key;
  let agent_id := match key with Some (id, _) => u32 (atoi id) | None => 0 end in
  seq ← in_process xsiam_wzcp_next_seq;
  rc ← in_process (xsiam_wzcp_send_frame sock XSIAM_WZCP_MSG_HEARTBEAT agent_id seq [] 0);
  if rc <? 0 then mret (-1, next_heartbeat, last_sock) else
  next ← wzcp_schedule_heartbeat; mret (0, next, last_sock).
End operations.

(** * Rules *)

Lemma wp_in_process {A} (m : ST process A) (Q : A -> agentd -> Prop) a :
  wp m (fun x p => Q x (a <| ad_process := p |>)) (ad_process a) -> wp (in_process m) Q a.
Proof. unfold wp, in_process. by destruct (m (ad_process a)) as [[x p]|]. Qed.

Definition wzcp_on (p : process) : Prop :=
  p_env p (str "XSIAM_GATEWAY_PROTOCOL") = Some (str "wzcp").

Lemma wp_enabled (Q : bool -> agentd -> Prop) a :
  wzcp_on (ad_process a) -> Q true a -> wp (in_process xsiam_wzcp_enabled) Q a.
Proof.
  intros Hon HQ. apply wp_in_process. unfold xsiam_wzcp_enabled.
  apply wp_bind, wp_gets, wp_ret. rewrite Hon. by destruct a.
Qed.

(** [next p p']: the world and the sequence numbers moved on, and the bytes [bs]
    went out on the socket. *)
Definition sends (sock : Z) (bs : bytes) (seq : Z) (p p' : process) : Prop :=
  steps (writes sock bs) (p <| p_seq := seq |>) p'.

Lemma quiet_sends p p' seq sock :
  steps quiet (p <| p_seq := seq |>) p' -> sends sock [] seq p p'.
Proof. intros (f & E & H). exists f. split; [done|by apply writes_nil]. Qed.

Lemma sends_trans sock bs1 bs2 n1 n2 p1 p2 p3 :
  sends sock bs1 n1 p1 p2 -> sends sock bs2 n2 p2 p3 -> sends sock (bs1 ++ bs2) n2 p1 p3.
Proof.
  intros (f & -> & Hf) (g & -> & Hg). exists (fun w => g (f w)).
  split; [done|]. by eapply writes_compose.
Qed.

Lemma sends_seq sock bs n p p' : sends sock bs n p p' -> p_seq p' = n.
Proof. by intros (f & -> & _). Qed.

Lemma sends_env sock bs n p p' : sends sock bs n p p' -> p_env p' = p_env p.
Proof. by intros (f & -> & _). Qed.

Lemma sends_sent sock bs n p p' :
  sends sock bs n p p' ->
  sent_to sock (w_trace (p_world p')) = sent_to sock (w_trace (p_world p)) ++ bs.
Proof. intros (f & -> & H). by apply writes_sent in H. Qed.

(** * The agent's description of itself *)

(** A C string of bytes. *)
Definition c_string (s : bytes) : Prop := bytes_ok s /\ no_nul s.

Lemma c_string_prefix s t : s `prefix_of` t -> c_string t -> c_string s.
Proof. intros [u ->] [Hb Hn]. apply Forall_app in Hb as [? _], Hn as [? _]. by split. Qed.

Lemma c_string_cstr s : bytes_ok s -> c_string (cstr s).
Proof. intros. split; [by apply cstr_ok|apply cstr_no_nul]. Qed.

Lemma c_string_zlen_prefix (s t : bytes) : s `prefix_of` t -> zlen s <= zlen t.
Proof. intros [u ->]. zlia. Qed.

Lemma cut_at_prefix c s : cut_at c s `prefix_of` s.
Proof.
  induction s as [|b s IH]; cbn; [done|]. destruct (b =? c); [apply prefix_nil|].
  by apply prefix_cons.
Qed.

Lemma fgets_line_prefix n s : fgets_line n s `prefix_of` take n s.
Proof.
  revert s. induction n as [|n IH]; intros [|b s]; cbn; try done.
  destruct (b =? 10); apply prefix_cons; [apply prefix_nil|done].
Qed.

Lemma cstr_prefix s : cstr s `prefix_of` s.
Proof.
  induction s as [|b s IH]; cbn; [done|]. destruct (b =? 0); [apply prefix_nil|].
  by apply prefix_cons.
Qed.

Lemma take_is_prefix n (s : bytes) : take n s `prefix_of` s.
Proof. exists (drop n s). by rewrite take_drop. Qed.

Lemma uuid_v4_clean u : is_uuid_v4 u = true -> c_string u /\ zlen u = 36 /\ u <> [].
Proof.
  unfold is_uuid_v4. rewrite andb_true_iff, Nat.eqb_eq, forallb_forall. intros [L H].
  assert (Forall (fun c => 45 <= c <= 102) u) as Hu.
  { apply Forall_lookup. intros i c Hc.
    assert (uuid_char_ok i c = true) as Ho.
    { apply (H (i, c)), list_elem_of_In, (list_elem_of_lookup_2 _ i).
      rewrite list_lookup_imap, Hc. done. }
    unfold uuid_char_ok, is_hex_digit in Ho. repeat case_match; lia. }
  split; [split|split].
  - eapply Forall_impl; [exact Hu|]. cbn. intros c Hc. unfold fits. lia.
  - eapply Forall_impl; [exact Hu|]. cbn. intros c Hc. lia.
  - unfold zlen. lia.
  - by intros ->.
Qed.

(** What the process finds is C strings, and the kernel's UUID file is not blank. *)
Record clean_process (p : process) : Prop := {
  cp_uuid : c_string (p_uuid p);
  cp_uuid_len : zlen (p_uuid p) < 64;
  cp_env : forall n v, p_env p n = Some v -> c_string v;
  cp_file : forall l, p_uuid_file p = Some l -> bytes_ok l;
  cp_kernel : forall l, p_kernel_uuid p = Some l -> bytes_ok l /\
    cut_at 10 (cstr (take 63 l)) <> [];
  cp_adapters : forall w, p_windows p = Some w ->
    Forall (fun a => bytes_ok (snd a) /\ length (snd a) = 8%nat) (win_adapters w);
}.

(** Nothing that matters to the link changes. *)
Definition unchanged (p p' : process) : Prop :=
  p_env p' = p_env p /\ p_seq p' = p_seq p /\ p_windows p' = p_windows p /\
  quiet (p_world p) (p_world p').

Lemma unchanged_refl p : unchanged p p.
Proof. by split_and!. Qed.

Lemma unchanged_trans p1 p2 p3 : unchanged p1 p2 -> unchanged p2 p3 -> unchanged p1 p3.
Proof.
  intros (? & ? & ? & ?) (? & ? & ? & ?).
  split_and!; [congruence..|by eapply quiet_trans].
Qed.

Definition good_id (u : bytes) : Prop := c_string u /\ zlen u < 64 /\ u <> [].

Lemma generate_uuid_clean p :
  clean_process p -> wp (generate_uuid 64) (fun u p' => good_id u /\ unchanged p p') p.
Proof.
  intros Hp.
  assert (Hf : wp (generate_uuid 64) (fun _ p' => unchanged p p') p).
  { eapply wp_mono; [apply generate_uuid_frame|]. intros u p' [r ->]. by split_and!. }
  assert (Hu : wp (generate_uuid 64) (fun u _ => good_id u) p).
  { destruct (p_kernel_uuid p) as [[|b l]|] eqn:Ek.
    - by destruct (cp_kernel p Hp [] Ek) as [_ []].
    - destruct (p_windows p) as [w|] eqn:Ew.
      + eapply wp_mono; [apply generate_uuid_spec; right; by rewrite Ew|].
        intros u p' (Hc & Hl & Hn)%uuid_v4_clean. split; [done|]. split; [lia|done].
      + unfold generate_uuid. apply wp_bind, wp_gets, wp_bind, wp_gets. rewrite Ek, Ew.
        apply wp_ret. change (Z.to_nat (64 - 1)) with 63%nat.
        destruct (cp_kernel p Hp _ Ek) as [Hb Hne].
        assert (cut_at 10 (cstr (take 63 (b :: l))) `prefix_of` cstr (take 63 (b :: l)))
          as Hpre by apply cut_at_prefix.
        split; [|split; [|done]].
        * eapply c_string_prefix; [exact Hpre|]. by apply c_string_cstr, Forall_take.
        * apply c_string_zlen_prefix in Hpre.
          pose proof (cstr_length (take 63 (b :: l))) as Hl.
          rewrite length_take in Hl. unfold zlen in *. lia.
    - eapply wp_mono; [apply generate_uuid_spec; by left|].
      intros u p' (Hc & Hl & Hn)%uuid_v4_clean. split; [done|]. split; [lia|done]. }
  unfold wp in *. destruct (generate_uuid 64 p) as [[u p']|]; auto.
Qed.

Lemma agent_uuid_clean p :
  clean_process p -> wp xsiam_wzcp_agent_uuid (fun u p' => good_id u /\ unchanged p p') p.
Proof.
  intros Hp. unfold xsiam_wzcp_agent_uuid. apply wp_bind, wp_gets.
  case_bool_decide as Hu; cbn [negb].
  2:{ apply wp_ret. split; [|apply unchanged_refl]. split; [apply Hp|]. split; [apply Hp|done]. }
  apply wp_bind, wp_gets.
  assert (Hrest : wp (from_file ← read_uuid_file 64;
      match from_file with
      | Some u => _ ← modify (fun p => p <| p_uuid := u |>); mret u
      | None =>
          u ← generate_uuid 64;
          _ ← modify (fun p => p <| p_uuid := u |>);
          _ ← write_uuid_file u; mret u
      end) (fun u p' => good_id u /\ unchanged p p') p).
  { assert (Hgen : wp (u ← generate_uuid 64;
          _ ← modify (fun p => p <| p_uuid := u |>);
          _ ← write_uuid_file u; mret u) (fun u p' => good_id u /\ unchanged p p') p).
    { apply wp_bind. eapply wp_mono; [by apply generate_uuid_clean|].
      intros u p1 [Hg H1]. apply wp_bind, wp_modify, wp_bind. unfold write_uuid_file.
      apply wp_bind, wp_consult_quiet; [done|]. intros ok p2 _ (f & -> & Hq).
      assert (unchanged p (in_world f (p1 <| p_uuid := u |>))) as H2.
      { eapply unchanged_trans; [exact H1|]. by split_and!. }
      destruct ok; [apply wp_modify|]; apply wp_ret; by split. }
    unfold read_uuid_file. apply wp_bind, wp_bind, wp_gets.
    destruct (p_uuid_file p) as [l|] eqn:El; [|by apply wp_ret].
    change (Z.to_nat (64 - 1)) with 63%nat. set (line := fgets_line 63 l).
    case_bool_decide; [by apply wp_ret|]. cbv zeta.
    case_bool_decide; apply wp_ret; [done|].
    apply wp_bind, wp_modify, wp_ret.
    set (out := cut_at 13 (cut_at 10 (cstr line))) in *.
    assert (out `prefix_of` cstr line) as Hpre
      by (etrans; [apply cut_at_prefix|apply cut_at_prefix]).
    assert (line `prefix_of` take 63 l) as Hline by apply fgets_line_prefix.
    split; [|by split_and!]. split; [|split; [|done]].
    - eapply c_string_prefix; [exact Hpre|]. apply c_string_cstr.
      destruct Hline as [v Ev]. assert (bytes_ok (take 63 l)) as Hb
        by (by apply Forall_take, (cp_file p Hp)).
      rewrite Ev in Hb. by apply Forall_app in Hb as [? _].
    - apply c_string_zlen_prefix in Hpre, Hline. pose proof (cstr_length line).
      pose proof (firstn_le_length 63 l). unfold zlen in *. lia. }
  destruct (p_env p (str "XSIAM_AGENT_UUID")) as [[|c e]|] eqn:Ee; [done| |done].
  cbv zeta. apply wp_bind, wp_modify, wp_ret. split; [|by split_and!].
  split; [|split; [|done]].
  - eapply c_string_prefix; [apply take_is_prefix|]. by apply (cp_env p Hp _ _ Ee).
  - pose proof (firstn_le_length 63 (c :: e)). unfold zlen. lia.
Qed.

Lemma host_type_valid p :
  wp xsiam_wzcp_host_type (fun t p' => (t = str "server" \/ t = str "pc") /\ p' = p) p.
Proof.
  unfold xsiam_wzcp_host_type. apply wp_bind, wp_gets, wp_bind, wp_gets. cbv zeta.
  apply wp_ret. split; [|done].
  assert (Hd : forall d, (d = str "server" \/ d = str "pc") ->
    match p_env p (str "XSIAM_HOST_TYPE") with
    | Some t => if streq t (str "server") || streq t (str "pc") then t else d
    | None => d
    end = str "server" \/
    match p_env p (str "XSIAM_HOST_TYPE") with
    | Some t => if streq t (str "server") || streq t (str "pc") then t else d
    | None => d
    end = str "pc").
  { intros d Hd. destruct (p_env p (str "XSIAM_HOST_TYPE")) as [t|]; [|done].
    destruct (streq t (str "server")) eqn:E1; cbn [orb].
    - apply bool_decide_eq_true in E1. by left.
    - destruct (streq t (str "pc")) eqn:E2; [|done].
      apply bool_decide_eq_true in E2. by right. }
  apply Hd. destruct (p_windows p) as [w|]; [|by right].
  destruct (win_product w) as [[|]|]; [by right|by left|by right].
Qed.

(** ** The adapter addresses *)

Lemma strtok_app sep t s cur :
  strtok_runs sep (t ++ sep :: s) cur = strtok_runs sep t cur ++ strtok_runs sep s [].
Proof.
  revert cur. induction t as [|b t IH]; intros cur; cbn [strtok_runs app].
  - by rewrite Z.eqb_refl.
  - destruct (b =? sep); [|by apply IH]. by rewrite IH, <- app_assoc.
Qed.

Lemma strtok_single sep m cur :
  no_cut sep m -> cur ++ m <> [] -> strtok_runs sep m cur = [cur ++ m].
Proof.
  intros Hm. revert cur. induction Hm as [|b m Hb Hm IH]; intros cur Hne; cbn [strtok_runs].
  - rewrite app_nil_r in *. by rewrite bool_decide_eq_false_2.
  - destruct (Z.eqb_spec b sep); [done|]. rewrite IH; [by rewrite <- app_assoc|].
    by destruct cur.
Qed.

Definition mac_ok (m : bytes) : Prop := c_string m /\ zlen m <= 17.

Lemma hex2_up_range b : byte_ok b -> Forall (fun c => 48 <= c <= 70) (hex2_up b).
Proof.
  intros Hb. apply Forall_forall. intros c Hc%list_elem_of_In.
  pose proof (byte_forall (fun b => forallb (fun c => (48 <=? c) && (c <=? 70)) (hex2_up b))
    ltac:(by vm_compute) b Hb) as H. cbv beta in H. rewrite forallb_forall in H.
  specialize (H c Hc). lia.
Qed.

Lemma mac_text_ok a :
  bytes_ok a -> length a = 8%nat ->
  Forall (fun c => 48 <= c <= 70) (mac_text a) /\ length (mac_text a) = 17%nat.
Proof.
  intros Hb L. do 9 (destruct a as [|? a]; cbn in L; try lia).
  unfold bytes_ok in Hb. rewrite !Forall_cons in Hb. destruct_and! Hb.
  unfold mac_text. cbn [take firstn map concat]. change (str ":") with [58].
  split; [|done].
  repeat first [by apply hex2_up_range|apply Forall_app_2|apply Forall_cons_2|
    apply Forall_nil_2|lia].
Qed.

(** The text written so far: a list of addresses. *)
Definition csv_ok (t : bytes) : Prop := c_string t /\ Forall mac_ok (strtok 44 t).

Lemma csv_ok_comma t : csv_ok t -> csv_ok (t ++ [44]).
Proof.
  intros [[Hb Hn] Ht]. split; [split; apply Forall_app_2; by repeat constructor|].
  unfold strtok. rewrite strtok_app. cbn. by rewrite app_nil_r.
Qed.

Lemma csv_ok_mac t m :
  csv_ok t -> (t = [] \/ exists t', t = t' ++ [44]) ->
  Forall (fun c => 48 <= c <= 70) m -> length m = 17%nat -> csv_ok (t ++ m).
Proof.
  intros [[Hb Hn] Ht] Hend Hm L.
  assert (Hc : c_string m).
  { split; (eapply Forall_impl; [exact Hm|]); cbn; unfold fits; lia. }
  split; [split; apply Forall_app_2; by (done || apply Hc)|].
  assert (Hs : strtok_runs 44 m [] = [m]).
  { rewrite strtok_single; [done| |by destruct m]. eapply Forall_impl; [exact Hm|]. cbn. lia. }
  assert (Hmac : mac_ok m) by (split; [done|unfold zlen; lia]).
  destruct Hend as [->|[t' ->]]; unfold strtok in *.
  - cbn [app]. rewrite Hs. by apply Forall_singleton.
  - rewrite <- app_assoc. cbn [app]. rewrite strtok_app, Hs.
    rewrite strtok_app in Ht. cbn in Ht. rewrite app_nil_r in Ht.
    apply Forall_app_2; [done|]. by apply Forall_singleton.
Qed.

Lemma mac_loop_csv out_size adapters t r :
  out_size = zlen (t ++ 0 :: r) -> csv_ok t ->
  Forall (fun a => bytes_ok (snd a) /\ length (snd a) = 8%nat) adapters ->
  exists out', mac_loop out_size adapters (t ++ 0 :: r) (zlen t) = Some out' /\
    csv_ok (cstr out').
Proof.
  intros Hsize Ht Ha. revert t r Hsize Ht.
  assert (Hcstr : forall t r, csv_ok t -> csv_ok (cstr (t ++ 0 :: r))).
  { intros t r Ht. rewrite cstr_app by apply Ht. cbn. by rewrite app_nil_r. }
  induction Ha as [|[len addr] rest [Hb L] _ IH]; intros t r Hsize Ht; cbn [mac_loop].
  { eexists. split; [done|]. by apply Hcstr. }
  destruct (negb _); [by apply IH|]. cbv zeta. cbn [snd] in Hb, L.
  destruct (mac_text_ok addr Hb L) as [Hm Lm].
  assert (zlen (mac_text addr) = 17) as Zm by (unfold zlen; lia).
  assert (Hput : forall t r, out_size = zlen (t ++ 0 :: r) -> csv_ok t ->
    (t = [] \/ exists t', t = t' ++ [44]) ->
    exists out', (if zlen t + zlen (mac_text addr) >=? out_size then Some (t ++ 0 :: r) else
      out ← store (t ++ 0 :: r) (zlen t) (mac_text addr ++ [0]);
      mac_loop out_size rest out (zlen t + zlen (mac_text addr))) = Some out' /\
      csv_ok (cstr out')).
  { clear t r Hsize Ht. intros t r Hsize Ht Hend.
    destruct (Z.geb_spec (zlen t + zlen (mac_text addr)) out_size).
    { eexists. split; [done|]. by apply Hcstr. }
    rewrite store_at by zlia. cbn [mbind option_bind].
    set (r' := drop _ _). rewrite <- zlen_app.
    replace ((t ++ mac_text addr ++ [0]) ++ r') with ((t ++ mac_text addr) ++ 0 :: r')
      by (by rewrite <- !app_assoc).
    apply IH; [|by apply csv_ok_mac]. unfold r'. zlia. }
  destruct (Z.gtb_spec (zlen t) 0) as [Hpos|Hz]; cbn [andb].
  - destruct (Z.geb_spec (zlen t + 1) out_size) as [Hfull|Hroom].
    { eexists. split; [done|]. by apply Hcstr. }
    rewrite store_at by (rewrite Hsize in Hroom; zlia).
    cbn [mbind option_bind]. set (r' := drop _ _).
    replace ((t ++ [44; 0]) ++ r') with ((t ++ [44]) ++ 0 :: r') by (by rewrite <- !app_assoc).
    replace (zlen t + 1) with (zlen (t ++ [44])) by zlia.
    apply Hput; [|by apply csv_ok_comma|right; by eexists]. unfold r'. zlia.
  - cbn [mbind option_bind]. apply Hput; [done|done|left].
    destruct t; [done|zlia].
Qed.

Lemma collect_mac_clean p :
  (forall w, p_windows p = Some w ->
    Forall (fun a => bytes_ok (snd a) /\ length (snd a) = 8%nat) (win_adapters w)) ->
  wp (xsiam_wzcp_collect_mac_addresses (replicate 512 0) 512) (fun r p' =>
    unchanged p p' /\ csv_ok (cstr (snd r)) /\ zlen (cstr (snd r)) < 512) p.
Proof.
  intros Hp.
  assert (Hempty : forall out, (exists n, out = replicate n 0) -> csv_ok (cstr out)).
  { intros out [[|n] ->]; (split; [split; constructor|constructor]). }
  unfold xsiam_wzcp_collect_mac_addresses. cbn [Z.eqb]. apply wp_bind.
  eapply (wp_lift _ _ _ (replicate 512 0)); [by vm_compute|].
  assert (Hdone : forall rc p', unchanged p p' ->
    wp (mret (rc, replicate 512 0)) (fun (r : Z * bytes) p' => unchanged p p' /\
      csv_ok (cstr (snd r)) /\ zlen (cstr (snd r)) < 512) p').
  { intros rc p' H. apply wp_ret. split; [done|]. split; [apply Hempty; by exists 512%nat|done]. }
  apply wp_bind, wp_gets.
  destruct (p_windows p) as [w|] eqn:Ew; [|apply Hdone, unchanged_refl].
  split_if; [apply Hdone, unchanged_refl|].
  apply wp_bind, wp_consult_quiet; [done|]. intros ok p1 _ (f & -> & Hq).
  assert (Hu : unchanged p (in_world f p)) by (by split_and!).
  destruct ok; cbn [negb]; [|by apply Hdone].
  split_if; [by apply Hdone|].
  set (obj := replicate 512 0). assert (Eo : obj = [] ++ 0 :: replicate 511 0) by done.
  destruct (mac_loop_csv 512 (win_adapters w) [] (replicate 511 0))
    as (out' & Hm & Hcsv); [done|split; [split; constructor|constructor]|
    by apply Hp|].
  destruct (mac_loop_safe 512 (win_adapters w) obj 0)
    as (out'' & Hm' & L & k & Hk); [done|done|by exists 0%nat|].
  rewrite Eo in Hm'. change (zlen []) with 0 in Hm. rewrite Hm in Hm'.
  injection Hm' as <-. rewrite Eo. apply wp_bind. eapply wp_lift; [exact Hm|].
  apply wp_ret. split; [done|]. split; [done|]. cbn [snd].
  change (zlen obj) with 512 in L. rewrite <- L.
  assert (length (cstr out') < length out')%nat as Hlt; [|unfold zlen; lia].
  clear -Hk. revert k Hk. induction out' as [|b out IH]; intros [|k] Hk; cbn in *; try done.
  - injection Hk as ->. cbn. lia.
  - specialize (IH k Hk). destruct (b =? 0); cbn; lia.
Qed.

(** What the HELLO announces of such a text. *)
Lemma skip_leading_suffix c s : skip_leading c s `suffix_of` s.
Proof.
  induction s as [|b s IH]; cbn; [done|]. destruct (b =? c); [by apply suffix_cons_r|done].
Qed.

Lemma mac_list_ok t :
  csv_ok t -> zlen t < 512 -> Forall mac_ok (mac_list (Some t)).
Proof.
  intros [_ Ht] Hl. cbn [mac_list]. rewrite (take_ge t 511) by (unfold zlen in Hl; lia).
  apply Forall_take, Forall_forall. intros m' [_ Hm']%list_elem_of_filter.
  apply list_elem_of_fmap in Hm' as (m & -> & Hm). rewrite Forall_forall in Ht.
  destruct (Ht m Hm) as [[Hb Hn] Lm].
  destruct (skip_leading_suffix 32 m) as [u Eu]. unfold bytes_ok, no_nul in *.
  rewrite Eu in Hb, Hn, Lm. apply Forall_app in Hb as [_ ?], Hn as [_ ?].
  split; [by split|]. revert Lm. zlia.
Qed.

(** * Sending an event *)

(** An event as it travels: one batch of one event. *)
Record event_frame := EventFrame {
  ef_agent : Z; ef_seq : Z; ef_ts : Z; ef_event_ts : Z; ef_event_id : Z; ef_msg : bytes;
}.
Definition ef_body (f : event_frame) : bytes :=
  event_batch XSIAM_WZCP_EVENT_LOG (ef_event_ts f) (ef_event_id f) (ef_msg f).
Definition ef_header (f : event_frame) : xsiam_wzcp_header :=
  sent_header XSIAM_WZCP_MSG_EVENT_BATCH (ef_agent f) (ef_seq f) (ef_ts f) (zlen (ef_body f)).
Definition ef_wire (f : event_frame) : bytes := wire_frame (ef_header f) (ef_body f).

Record ef_ok (f : event_frame) : Prop := {
  efo_agent : fits 32 (ef_agent f);
  efo_seq : fits 64 (ef_seq f);
  efo_ts : fits 64 (ef_ts f);
  efo_event_ts : fits 64 (ef_event_ts f);
  efo_event_id : fits 64 (ef_event_id f);
  efo_msg : bytes_ok (ef_msg f);
  efo_len : zlen (ef_msg f) < 2 ^ 16;
}.

Lemma zlen_ef_body f : zlen (ef_body f) = 22 + zlen (ef_msg f).
Proof. unfold ef_body, event_batch, wire_event. zlia. Qed.

(** * The handshake *)

Record hello_frame := HelloFrame {
  hf_agent : Z; hf_seq : Z; hf_ts : Z; hf_id : bytes; hf_name : bytes;
  hf_version : bytes; hf_host : bytes; hf_macs : bytes;
}.
Definition hf_body (f : hello_frame) : bytes :=
  hello_v2 (Some (hf_id f)) (Some (hf_name f)) (Some (hf_version f)) (Some (hf_host f))
    (Some (hf_macs f)).
Definition hf_header (f : hello_frame) : xsiam_wzcp_header :=
  sent_header XSIAM_WZCP_MSG_HELLO (hf_agent f) (hf_seq f) (hf_ts f) (zlen (hf_body f)).
Definition hf_wire (f : hello_frame) : bytes := wire_frame (hf_header f) (hf_body f).

Record hf_ok (f : hello_frame) : Prop := {
  hfo_agent : fits 32 (hf_agent f);
  hfo_seq : fits 64 (hf_seq f);
  hfo_ts : fits 64 (hf_ts f);
  hfo_id : good_id (hf_id f);
  hfo_name : c_string (hf_name f) /\ zlen (hf_name f) < 256;
  hfo_version : c_string (hf_version f) /\ zlen (hf_version f) < 64;
  hfo_host : hf_host f = str "server" \/ hf_host f = str "pc";
  hfo_macs : Forall mac_ok (mac_list (Some (hf_macs f)));
}.

Lemma zlen_wire_strings l :
  Forall mac_ok l -> zlen (wire_strings l) <= 19 * zlen l.
Proof.
  unfold wire_strings. induction 1 as [|m l [_ Hm] _ IH]; [done|]. cbn [map concat].
  pose proof (zlen_clip m) as Hc. pose proof (u16_zlen m) as [Hu _]. revert IH. zlia.
Qed.

Lemma zlen_hf_body f : hf_ok f -> zlen (hf_body f) <= OS_SIZE_2048.
Proof.
  intros []. destruct hfo_id0 as (_ & ? & _), hfo_name0 as [_ ?], hfo_version0 as [_ ?].
  pose proof (zlen_wire_strings _ hfo_macs0) as Hw.
  pose proof (zlen_mac_list (Some (hf_macs f))) as Hm.
  assert (zlen (hf_host f) <= 6) as Hh by (by destruct hfo_host0 as [-> | ->]).
  unfold hf_body, hello_v2, OS_SIZE_2048, wire_macs. cbn [map concat clip_opt].
  assert (forall s, zlen (clip s) <= zlen s) as Hc.
  { intros s. rewrite zlen_clip. apply u16_zlen. }
  pose proof (Hc (hf_id f)). pose proof (Hc (hf_name f)). pose proof (Hc (hf_version f)).
  pose proof (Hc (hf_host f)). revert Hw. zlia.
Qed.

Lemma rd64_app (p r : bytes) : (8 <= length p)%nat -> rd64 (p ++ r) = rd64 p.
Proof. intros H. do 8 (destruct p as [|? p]; [cbn in H; lia|]). done. Qed.

(** What a gateway answers: some acknowledgement frame. *)
Definition ack_pending (sock : Z) (w : world) : Prop :=
  (forall k, 0 < answer (w_read w) k) /\
  exists h body rest, w_input w sock = wire_frame h body ++ rest /\ frame_wf h body /\
    h_msg_type h = XSIAM_WZCP_MSG_ACK /\ 8 <= zlen body <= OS_SIZE_1024.

(** Only the announced bytes of the object are sent. *)
Lemma send_frame_object sock msg_type id seq body rest :
  xsiam_wzcp_send_frame sock msg_type id seq (body ++ rest) (zlen body) =
  xsiam_wzcp_send_frame sock msg_type id seq body (zlen body).
Proof.
  unfold xsiam_wzcp_send_frame.
  assert (load (body ++ rest) 0 (zlen body) = load body 0 (zlen body)) as ->; [|done].
  rewrite !load_some by zlia. by rewrite Z2Nat.inj_0, !drop_0, to_nat_zlen,
    take_app_length, firstn_all.
Qed.

Section proofs.
Context (stack : Z -> bytes) (header0 : xsiam_wzcp_header)
  (secure_send : bytes -> Z -> ST agentd Z) (secure_receive : ST agentd Z)
  (secure_start : ST agentd unit).
Hypothesis stack_size : forall n, 0 <= n -> zlen (stack n) = n.

(** What [send_msg] does with a message that an event can carry. *)
Definition message_result (msg : bytes) (a : agentd) (rc : Z) (a' : agentd) : Prop :=
  exists f k, ef_msg f = msg /\ ef_ok f /\
    ef_seq f = u64 (p_seq (ad_process a) + 2) /\ ef_event_id f = u64 (p_seq (ad_process a) + 1) /\
    sends (ad_sock a) (take k (ef_wire f)) (ef_seq f) (ad_process a) (ad_process a') /\
    a' = a <| ad_process := ad_process a' |> <| ad_msg_sent := ad_msg_sent a' |> /\
    (rc = 0 /\ k = length (ef_wire f) /\ ad_msg_sent a' = u32 (ad_msg_sent a + 1) \/
     rc = -1 /\ (k < length (ef_wire f))%nat /\ ad_msg_sent a' = ad_msg_sent a /\
     ~ write_ok (p_world (ad_process a))).

Lemma send_msg_spec msg a :
  wzcp_on (ad_process a) -> is_Some (ad_key a) -> bytes_ok msg -> zlen msg < 2 ^ 16 ->
  wp (send_msg stack secure_send msg (zlen msg)) (message_result msg a) a.
Proof.
  intros Hon [key Hkey] Hb Hl. unfold send_msg. apply wp_bind, wp_enabled; [done|].
  cbn [negb]. rewrite (proj2 (Z.ltb_ge _ _)), (uwrap_small 64) by (unfold fits; zlia).
  cbv zeta. apply wp_bind, wp_in_process. eapply wp_mono.
  { apply build_event_batch_spec; [zlia|].
    unfold OS_MAXSTR in *. rewrite stack_size by lia. zlia. }
  intros r p1 (ets & Hets & H1 & ->). cbv beta iota zeta.
  set (n1 := u64 (p_seq (ad_process a) + 1)) in *.
  set (body := event_batch _ _ _ _).
  assert (Lb : zlen body = 22 + zlen msg) by (unfold body, event_batch, wire_event; zlia).
  rewrite (proj2 (Z.ltb_ge _ _)), (uwrap_small 32) by (unfold fits; zlia).
  apply wp_bind, wp_gets, wp_bind. apply wp_bind, wp_gets.
  eapply wp_lift; [exact Hkey|].
  apply wp_bind, wp_in_process. eapply wp_mono; [apply next_seq_spec|].
  intros seq p2 [Eseq Ep2]. change (ad_process _) with p1 in Eseq, Ep2.
  assert (p_seq p1 = n1) as En1 by (by destruct H1 as (? & -> & _)).
  assert (seq = u64 (p_seq (ad_process a) + 2)) as ->.
  { rewrite Eseq, En1. unfold n1. rewrite uwrap_add_l. f_equal. lia. }
  apply wp_bind, wp_in_process. rewrite send_frame_object.
  eapply wp_mono; [apply send_frame_spec|]. intros rc p3 H3.
  cbv beta in H3.
  change (ad_process (a <| ad_process := p1 |> <| ad_process := p2 |>)) with p2 in H3.
  change (ad_sock (a <| ad_process := p1 |>)) with (ad_sock a) in H3.
  assert (zlen body >? XSIAM_WZCP_MAX_FRAME = false) as Emax
    by (unfold XSIAM_WZCP_MAX_FRAME; lia).
  rewrite Emax in H3. destruct H3 as (ts & Hts & k & H3 & Hrc).
  set (f := EventFrame (u32 (atoi (fst key))) (u64 (p_seq (ad_process a) + 2)) ts ets n1 msg).
  assert (Hok : ef_ok f) by (constructor; cbn; try done; apply uwrap_fits; lia).
  assert (Hs : sends (ad_sock a) (take k (ef_wire f)) (ef_seq f) (ad_process a) p3).
  { change (take k (ef_wire f)) with ([] ++ take k (ef_wire f)).
    eapply sends_trans; [by eapply quiet_sends|]. rewrite Ep2 in H3. exact H3. }
  destruct Hrc as [[-> ->]|(-> & Hk & Hno)]; cbn [Z.eqb].
  - apply wp_bind, wp_modify, wp_ret. exists f, (length (ef_wire f)).
    split_and!; try done. left. by split_and!.
  - apply wp_bind, wp_ret, wp_ret. exists f, k. split_and!; try done. right.
    split_and!; try done. intros W. apply Hno. rewrite Ep2.
    destruct H1 as (g & -> & _ & _ & E). by eapply write_ok_env.
Qed.

Lemma hello_answered_spec sock a :
  bytes_ok (w_input (p_world (ad_process a)) sock) ->
  wp (hello_answered stack header0 sock) (fun ok a' =>
    (ack_pending sock (p_world (ad_process a)) -> ok = true) /\
    exists p', took sock (ad_process a) p' /\ a' = a <| ad_process := p' |>) a.
Proof.
  intros Hin. unfold hello_answered. apply wp_bind, wp_in_process.
  pose proof (stack_size OS_SIZE_1024 ltac:(done)) as Hst. unfold OS_SIZE_1024 in *.
  eapply wp_mono.
  { apply recv_frame_took. apply (recv_frame_spec sock
      (forall k, 0 < answer (w_read (p_world (ad_process a))) k)); [done|done|lia|done]. }
  intros [[rc h] reply] p' [Hr Hp]. unfold recv_contract in Hr.
  assert (Htook : exists p'', took sock (ad_process a) p'' /\
    a <| ad_process := p' |> = a <| ad_process := p'' |>) by (by exists p').
  assert (Hbad : forall ok a', ok = false -> a' = a <| ad_process := p' |> ->
    ~ ack_pending sock (p_world (ad_process a)) ->
    (ack_pending sock (p_world (ad_process a)) -> ok = true) /\
    exists p'', took sock (ad_process a) p'' /\ a' = a <| ad_process := p'' |>).
  { intros ok a' -> -> Hno. split; [by intros ?%Hno|done]. }
  destruct Hr as [[-> Hno]|(body & rest & E & (Hf & Ha & Hl) & -> & Hle & -> & _)].
  { apply wp_ret, Hbad; [done|done|]. intros (Hpos & h' & b' & r' & E & Hwf & _ & Hlen).
    apply Hno. split; [done|]. exists h', b', r'. split_and!; [done|done|].
    unfold OS_SIZE_1024 in Hlen. lia. }
  rewrite (proj2 (Z.ltb_ge _ _)) by zlia.
  assert (Hsame : ack_pending sock (p_world (ad_process a)) ->
    h_msg_type h = XSIAM_WZCP_MSG_ACK /\ 8 <= zlen body).
  { intros (_ & h' & b' & r' & E' & Hwf & Ht & Hlen).
    change (w_input (p_world (ad_process a)) sock) with
      (w_input (world_of (ad_process a)) sock) in E'. rewrite E in E'.
    apply wire_frame_inj in E' as (-> & -> & _); [|by split|done].
    split; [done|lia]. }
  destruct (Z.eqb_spec (h_msg_type h) XSIAM_WZCP_MSG_ACK) as [Et|Et]; cbn [negb].
  2:{ apply wp_ret, Hbad; [done|done|]. intros [? _]%Hsame. done. }
  apply wp_bind. unfold xsiam_wzcp_parse_ack. rewrite Hl.
  destruct (Z.ltb_spec (zlen body) 8).
  { eapply wp_lift; [done|]. apply wp_ret, Hbad; [done|done|]. intros [_ ?]%Hsame. lia. }
  assert (bytes_ok body) as Hbody.
  { unfold bytes_ok in Hin. change (w_input (p_world (ad_process a)) sock) with
      (w_input (world_of (ad_process a)) sock) in Hin. rewrite E in Hin.
    unfold wire_frame in Hin. rewrite !Forall_app in Hin. apply Hin. }
  eapply wp_lift.
  { change (get_be64 ?b) with (rd64 b). rewrite rd64_app by (unfold zlen in *; lia).
    rewrite rd64_spec by (done || (unfold zlen in *; lia)). reflexivity. }
  apply wp_ret. by split.
Qed.

Lemma resolve_literal ip a (Q : option bytes -> agentd -> Prop) rip :
  after_slash rip = Some ip -> alloc_ok (p_world (ad_process a)) ->
  (forall p', unchanged (ad_process a) p' -> clean_process (ad_process a) -> clean_process p' ->
     Q (Some ip) (a <| ad_process := p' |>)) -> clean_process (ad_process a) ->
  wp (resolve rip) Q a.
Proof.
  intros Hip Hok HQ Hc. unfold resolve. rewrite Hip. apply wp_bind, wp_bind.
  apply wp_alloc_succeeds. intros ok a' (f & -> & Hq) Ha. rewrite (Ha Hok).
  apply wp_ret, wp_ret. apply HQ; [by split_and!|done|]. by destruct Hc.
Qed.

(** A gateway given by its address, and a network that connects. *)
Record gateway_ready (a : agentd) (server_id : Z) : Prop := {
  gr_index : 0 <= server_id;
  gr_server : exists s ip, ad_server a !! Z.to_nat server_id = Some s /\
    after_slash (rip s) = Some ip /\ ip <> [];
  gr_alloc : alloc_ok (p_world (ad_process a));
  gr_connect : 0 <= next (ad_connect a);
}.

Lemma connect_server_spec server_id a :
  gateway_ready a server_id -> clean_process (ad_process a) ->
  wp (connect_server server_id) (fun ok a' => ok = true /\
    ad_sock a' = next (ad_connect a) /\ ad_rip_id a' = server_id /\
    ad_key a' = ad_key a /\ ad_version a' = ad_version a /\
    clean_process (ad_process a') /\ p_seq (ad_process a') = p_seq (ad_process a) /\
    env (p_world (ad_process a')) = env (p_world (ad_process a)) /\
    w_input (p_world (ad_process a')) = w_input (p_world (ad_process a)) /\
    forall fd, sent_to fd (w_trace (p_world (ad_process a'))) =
               sent_to fd (w_trace (p_world (ad_process a)))) a.
Proof.
  intros [Hi (sv & ip & Hs & Hip & Hne) Hok Hconn] Hc. unfold connect_server.
  apply wp_bind, wp_gets, wp_bind.
  apply (wp_mono _ (fun _ a1 => exists f sock, a1 = (in_world f a) <| ad_sock := sock |> /\
    emits (if ad_sock a >=? 0 then [Release "socket"] else []) (world_of a) (f (world_of a)))).
  { destruct (ad_sock a >=? 0).
    - apply wp_bind, wp_emit, wp_modify. eexists _, _. split; [reflexivity|]. by split_and!.
    - apply wp_ret. exists (fun w => w), (ad_sock a). split; [|split_and!; [by rewrite app_nil_r|done..]].
      by destruct a as [[]]. }
  intros [] a1 (f & sk & -> & Ef).
  apply wp_bind, wp_bind, wp_gets. rewrite (proj2 (Z.leb_le 0 server_id)) by done.
  eapply wp_lift; [exact Hs|].
  apply wp_bind, (resolve_literal ip); [done| | |].
  { eapply alloc_ok_env; [apply Ef|exact Hok]. }
  2:{ by destruct Hc. }
  intros p1 H1 _ Hc1. destruct ip as [|c ip]; [done|].
  apply wp_bind, wp_gets, wp_bind, wp_modify. cbv beta.
  lazymatch goal with |- wp (if ?b then _ else _) _ _ =>
    change b with (next (ad_connect a) <? 0) end.
  rewrite (proj2 (Z.ltb_ge _ _)) by done.
  apply wp_bind, wp_emit, wp_bind, wp_time_now. intros now a2 _ (h & -> & Hq).
  apply wp_bind, wp_modify, wp_ret.
  destruct H1 as (He & Hseq & Hw & Hq1), Ef as (T0 & I0 & E0), Hq1 as (T1 & I1 & E1),
    Hq as (T2 & I2 & E2).
  split_and!; try done.
  - by destruct Hc1.
  - etrans; [exact E2|]. etrans; [exact E1|exact E0].
  - etrans; [exact I2|]. etrans; [exact I1|exact I0].
  - intros fd. match goal with |- sent_to fd ?t = _ =>
      assert (t = w_trace (p_world (ad_process a)) ++
        (if ad_sock a >=? 0 then [Release "socket"] else []) ++ [Acquire "socket"]) as -> end.
    { etrans; [exact T2|]. etrans; [apply (f_equal (fun t => t ++ [Acquire "socket"])); exact T1|].
      rewrite app_assoc. f_equal. exact T0. }
    rewrite sent_to_app. destruct (_ >=? 0); cbn; by rewrite app_nil_r.
Qed.

Definition key_name (key : bytes * option bytes) : bytes :=
  match snd key with Some n => n | None => str "unknown" end.

(** What the agent has to announce fits the gateway's buffers. *)
Record describable (a : agentd) : Prop := {
  da_clean : clean_process (ad_process a);
  da_key : exists key, ad_key a = Some key /\ c_string (key_name key) /\
    zlen (key_name key) < 256;
  da_version : c_string (ad_version a) /\ zlen (ad_version a) < 64;
}.

(** The HELLO that was sent, up to its [k]-th byte, and what became of it. *)
Definition handshake_result (a : agentd) (server_id : Z) (ok : bool) (a' : agentd) : Prop :=
  let sock := next (ad_connect a) in
  exists f k, hf_ok f /\
    (exists key, ad_key a = Some key /\ hf_name f = key_name key) /\
    hf_version f = ad_version a /\ ad_rip_id a' = server_id /\ ad_sock a' = sock /\
    sent_to sock (w_trace (p_world (ad_process a'))) =
      sent_to sock (w_trace (p_world (ad_process a))) ++ take k (hf_wire f) /\
    (ok = true -> k = length (hf_wire f)) /\
    (write_ok (p_world (ad_process a)) -> k = length (hf_wire f) /\
       (ack_pending sock (p_world (ad_process a)) -> ok = true)).

Lemma handshake_spec server_id a :
  gateway_ready a server_id -> describable a ->
  bytes_ok (w_input (p_world (ad_process a)) (next (ad_connect a))) ->
  wp (wzcp_handshake_to_gateway stack header0 server_id) (handshake_result a server_id) a.
Proof.
  intros Hg [Hc (key & Hkey & Hname & Hnl) [Hver Hvl]] Hin.
  unfold wzcp_handshake_to_gateway. apply wp_bind.
  eapply wp_mono; [by apply connect_server_spec|].
  intros ok a1 (-> & Hsock & Hrip & Hk1 & Hv1 & Hc1 & _ & Henv & Hinp & Hsent). cbn [negb].
  apply wp_bind, wp_in_process. eapply wp_mono; [by apply agent_uuid_clean|].
  intros id p2 [Hid H2]. apply wp_bind. unfold first_key. apply wp_bind, wp_gets.
  eapply wp_lift; [etrans; [exact Hk1|exact Hkey]|]. fold (key_name key). cbv zeta.
  apply wp_bind, wp_in_process. eapply wp_mono; [apply host_type_valid|].
  intros host p3 [Hhost Ep3]. cbv beta in Ep3.
  change (p3 = p2) in Ep3. subst p3.
  apply wp_bind, wp_in_process. eapply wp_mono.
  { apply collect_mac_clean. intros w Hw. apply (cp_adapters _ Hc1).
    by rewrite <- (proj1 (proj2 (proj2 H2))). }
  intros [rc macs] p4 (H4 & Hcsv & Hml). cbn [snd] in Hcsv, Hml.
  change (unchanged p2 p4) in H4. pose proof (unchanged_trans _ _ _ H2 H4) as U.
  pose proof (mac_list_ok _ Hcsv Hml) as Hmacs.
  apply wp_bind, wp_gets, wp_bind.
  set (csv := cstr macs) in *. clearbody csv.
  set (F ag seq ts := HelloFrame ag seq ts id (key_name key) (ad_version a) host csv).
  assert (HF : forall ag seq ts, fits 32 ag -> fits 64 seq -> fits 64 ts -> hf_ok (F ag seq ts))
    by (intros; by constructor).
  assert (Lb : zlen (hf_body (F 0 0 0)) <= OS_SIZE_2048) by (by apply zlen_hf_body, HF).
  pose proof (stack_size OS_SIZE_2048 ltac:(done)) as Hst.
  destruct (build_hello_ex_spec (stack OS_SIZE_2048) OS_SIZE_2048 (Some id)
    (Some (key_name key)) (Some (ad_version a)) (Some host) (Some csv))
    as (brc & obj & Hb & _ & Hbc); [unfold OS_SIZE_2048 in *; lia|done|].
  eapply wp_lift.
  { rewrite <- Hb. f_equal. f_equal. exact Hv1. }
  change (hello_v2 (Some id) _ _ _ _) with (hf_body (F 0 0 0)) in Hbc.
  rewrite (proj2 (Z.leb_le _ _)) in Hbc by done. destruct Hbc as [-> ->].
  set (body := hf_body (F 0 0 0)) in *. pose proof (zlen_nonneg body) as Lb0.
  unfold OS_SIZE_2048 in Lb.
  destruct (Z.ltb_spec (zlen body) 0) as [|_]; [lia|].
  rewrite (uwrap_small 32 (zlen body)) by (unfold fits; lia).
  apply wp_bind, wp_gets, wp_bind, wp_in_process.
  eapply wp_mono; [apply next_seq_spec|]. intros seq p5 [Hseq Hp5]. cbv beta in Hseq, Hp5.
  change (p5 = p4 <| p_seq := seq |>) in Hp5.
  apply wp_bind, wp_in_process. rewrite send_frame_object.
  eapply wp_mono; [apply send_frame_spec|]. intros src p6 H6. cbv beta in H6.
  assert (zlen body >? XSIAM_WZCP_MAX_FRAME = false) as Emax
    by (unfold XSIAM_WZCP_MAX_FRAME; lia).
  rewrite Emax in H6. destruct H6 as (ts & Hts & k & H6 & Hrc).
  set (f := F (u32 (atoi id)) seq ts).
  assert (Hf : hf_ok f).
  { apply HF; [apply uwrap_fits; lia| |done]. rewrite Hseq. apply uwrap_fits. lia. }
  set (sock := next (ad_connect a)) in *.
  match type of H6 with steps (writes ?s _) _ _ => change s with (ad_sock a1) in H6 end.
  match goal with |- context [hello_answered _ _ ?s] => change s with (ad_sock a1) end.
  rewrite Hsock in *.
  match type of H6 with steps _ ?q _ => change q with p5 in H6 end.
  match type of Hrc with context [write_ok ?q] => change q with (p_world p5) in Hrc end.
  destruct U as (_ & _ & _ & TU & IU & EU), H6 as (g & -> & I6 & E6 & T6).
  assert (W5 : p_world p5 = p_world p4) by (by rewrite Hp5).
  change (world_of p5) with (p_world p5) in *. rewrite W5 in *.
  match type of I6 with w_input ?w = _ => set (w6 := w) in * end.
  assert (Hin6 : w_input w6 = w_input (p_world (ad_process a))) by congruence.
  assert (Hsent6 : sent_to sock (w_trace w6) =
    sent_to sock (w_trace (p_world (ad_process a))) ++ take k (hf_wire f)).
  { destruct T6 as (t & -> & _ & Ht). rewrite sent_to_app, TU, Hsent, Ht. done. }
  assert (Henv6 : env w6 = env (p_world (ad_process a))) by congruence.
  assert (Hok4 : write_ok (p_world (ad_process a)) -> write_ok (p_world p4)).
  { apply write_ok_env. congruence. }
  assert (Hend : forall ok a', ad_rip_id a' = server_id -> ad_sock a' = sock ->
    w_trace (p_world (ad_process a')) = w_trace w6 ->
    (ok = true -> k = length (hf_wire f)) ->
    (write_ok (p_world (ad_process a)) -> k = length (hf_wire f) /\
       (ack_pending sock (p_world (ad_process a)) -> ok = true)) ->
    handshake_result a server_id ok a').
  { intros ok a' Hr Hs Ht H1 H2'. exists f, k. split_and!; try done.
    - by exists key.
    - by rewrite Ht. }
  destruct Hrc as [[-> Hk]|(-> & Hk & Hno)]; cbn [Z.ltb Z.compare].
  2:{ apply wp_ret, Hend; [exact Hrip|exact Hsock|done|done|].
      intros W%Hok4. done. }
  apply wp_bind. eapply wp_mono.
  { apply hello_answered_spec. change (bytes_ok (w_input w6 sock)). by rewrite Hin6. }
  intros ok a7 (Hack & p7 & (n & Hn & h & -> & T7 & E7 & I7) & ->).
  assert (Hack' : ack_pending sock (p_world (ad_process a)) -> ok = true).
  { intros (Hpos & Hp). apply Hack. change (ack_pending sock w6). split.
    - by rewrite (env_read _ _ Henv6).
    - by rewrite Hin6. }
  destruct ok; cbn [negb].
  - apply wp_bind. unfold server_answered. apply wp_bind, wp_time_now.
    intros now a8 _ (h8 & -> & T8 & I8 & E8). apply wp_modify, wp_ret.
    apply Hend; [exact Hrip|exact Hsock| |done|done]. etrans; [exact T8|exact T7].
  - apply wp_ret, Hend; [exact Hrip|exact Hsock|exact T7|done|done].
Qed.

(** Receiving an acknowledgement: its frame is taken, and the time is recorded. *)
Lemma receive_ack_spec h body rest a :
  wzcp_on (ad_process a) ->
  w_input (p_world (ad_process a)) (ad_sock a) = wire_frame h body ++ rest ->
  frame_wf h body -> h_msg_type h = XSIAM_WZCP_MSG_ACK -> 8 <= zlen body <= OS_SIZE_2048 ->
  bytes_ok (wire_frame h body ++ rest) ->
  (forall k, 0 < answer (w_read (p_world (ad_process a))) k) ->
  wp (receive_msg stack header0 secure_receive) (fun rc a' => rc = 0 /\
    ad_last_ack a' = ad_available_server a' /\
    w_input (p_world (ad_process a')) (ad_sock a) = rest /\
    w_trace (p_world (ad_process a')) = w_trace (p_world (ad_process a)) /\
    env (p_world (ad_process a')) = env (p_world (ad_process a)) /\
    ad_sock a' = ad_sock a /\ p_env (ad_process a') = p_env (ad_process a)) a.
Proof.
  intros Hon Hin Hwf Ht Hl Hb Hpos. unfold receive_msg.
  apply wp_bind, wp_enabled; [done|]. cbn [negb]. apply wp_bind, wp_gets, wp_bind, wp_in_process.
  pose proof (stack_size OS_SIZE_2048 ltac:(done)) as Hst. unfold OS_SIZE_2048 in *.
  eapply wp_mono.
  { apply recv_frame_took. apply (recv_frame_spec (ad_sock a) True); [|done|lia|done].
    change (world_of (ad_process a)) with (p_world (ad_process a)). by rewrite Hin. }
  intros [[rc h'] obj] p' [Hr (n & _ & f & -> & T & E1 & _)]. unfold recv_contract in Hr.
  change (world_of (ad_process a)) with (p_world (ad_process a)) in Hr.
  destruct Hr as [[_ []]|(body' & rest' & E & Hwf' & -> & Hle & -> & HI)].
  { split; [done|]. exists h, body, rest. split_and!; [done|done|lia]. }
  rewrite Hin in E. apply wire_frame_inj in E as (-> & -> & ->); [|done|done].
  destruct (Z.ltb_spec (zlen body) 0) as [|_]; [lia|].
  rewrite Ht. cbn [Z.eqb XSIAM_WZCP_MSG_ACK Pos.eqb].
  assert (Hbody : bytes_ok body).
  { unfold bytes_ok, wire_frame in Hb. rewrite !Forall_app in Hb. apply Hb. }
  apply wp_bind. unfold xsiam_wzcp_parse_ack.
  rewrite (proj2 (proj2 Hwf)). destruct (Z.ltb_spec (zlen body) 8) as [|_]; [lia|].
  eapply wp_lift.
  { change (get_be64 ?b) with (rd64 b). rewrite rd64_app by (unfold zlen in *; lia).
    rewrite rd64_spec by (done || (unfold zlen in *; lia)). reflexivity. }
  cbn [Z.eqb]. apply wp_bind. unfold server_answered. apply wp_bind, wp_time_now.
  intros now a2 _ (f2 & -> & T2 & I2 & E2). apply wp_modify, wp_ret. split_and!; try done.
  - etrans; [apply (f_equal (fun i => i (ad_sock a))); exact I2|]. exact HI.
  - etrans; [exact T2|]. exact T.
  - etrans; [exact E2|]. exact E1.
Qed.

(** ** A series of messages *)

Fixpoint send_msgs (msgs : list bytes) : ST agentd (list Z) :=
  match msgs with
  | [] => mret []
  | m :: rest =>
      rc ← send_msg stack secure_send m (zlen m); rcs ← send_msgs rest; mret (rc :: rcs)
  end.

Definition message_ok (m : bytes) : Prop := bytes_ok m /\ zlen m < 2 ^ 16.

(** When every call reports success, the socket received one event frame per
    message, in order. *)
Definition messages_sent (msgs : list bytes) (a : agentd) (rcs : list Z) (a' : agentd) : Prop :=
  Forall (fun rc => rc = 0 \/ rc = -1) rcs /\
  (Forall (fun rc => rc = 0) rcs -> exists fs, map ef_msg fs = msgs /\ Forall ef_ok fs /\
    sent_to (ad_sock a) (w_trace (p_world (ad_process a'))) =
      sent_to (ad_sock a) (w_trace (p_world (ad_process a))) ++ concat (map ef_wire fs)).

Lemma send_msgs_spec msgs a :
  wzcp_on (ad_process a) -> is_Some (ad_key a) -> Forall message_ok msgs ->
  wp (send_msgs msgs) (messages_sent msgs a) a.
Proof.
  intros Hon Hk Hm. revert a Hon Hk. induction Hm as [|m msgs [Hb Hl] _ IH]; intros a Hon Hk.
  { apply wp_ret. split; [constructor|]. intros _. exists [].
    split_and!; [done|constructor|by rewrite app_nil_r]. }
  cbn [send_msgs]. apply wp_bind. eapply wp_mono; [by apply send_msg_spec|].
  intros rc a1 (f & k & Hf & Hok & _ & _ & Hs & Ea & Hrc). apply wp_bind.
  assert (ad_sock a1 = ad_sock a /\ ad_key a1 = ad_key a) as [Es Ek] by (by rewrite Ea).
  eapply wp_mono; [apply IH|].
  - unfold wzcp_on. by rewrite (sends_env _ _ _ _ _ Hs).
  - by rewrite Ek.
  - intros rcs a2 [Hall Hsent]. apply wp_ret. split.
    + constructor; [|done]. destruct Hrc as [[-> _]|[-> _]]; [by left|by right].
    + intros [H0 Hz]%Forall_cons. destruct (Hsent Hz) as (fs & E & Hoks & Et).
      destruct Hrc as [(_ & -> & _)|(-> & _)]; [|done].
      exists (f :: fs). cbn [map concat]. rewrite Hf, E. split_and!; [done|by constructor|].
      rewrite Es in Et. rewrite Et, (sends_sent _ _ _ _ _ Hs), firstn_all. by rewrite <- app_assoc.
Qed.
End proofs.

(** * The list of gateways

    No operation changes [agt->server]. *)
Definition keeps_server {A} (m : ST agentd A) : Prop :=
  forall a x a', m a = Some (x, a') -> ad_server a' = ad_server a.

Lemma keeps_bind {A B} (m : ST agentd A) (k : A -> ST agentd B) :
  keeps_server m -> (forall x, keeps_server (k x)) -> keeps_server (m ≫= k).
Proof.
  intros Hm Hk a y a' H. unfold mbind, ST_bind in H.
  destruct (m a) as [[x a1]|] eqn:E; [|done]. etrans; [by eapply Hk|by eapply Hm].
Qed.
Lemma keeps_ret {A} (x : A) : keeps_server (mret x).
Proof. by intros a y a' [= _ <-]. Qed.
Lemma keeps_lift {A} (o : option A) : keeps_server (lift o).
Proof. intros a y a'. unfold lift. destruct o; [|done]. by intros [= _ <-]. Qed.
Lemma keeps_gets {A} (f : agentd -> A) : keeps_server (gets f).
Proof. by intros a y a' [= _ <-]. Qed.
Lemma keeps_modify f : (forall a, ad_server (f a) = ad_server a) -> keeps_server (modify f).
Proof. intros Hf a y a' [= _ <-]. apply Hf. Qed.
Lemma keeps_consult {A} (get : world -> oracle A) put : keeps_server (consult get put).
Proof. by intros a y a' [= _ <-]. Qed.
Lemma keeps_in_process {A} (m : ST process A) : keeps_server (in_process m).
Proof.
  intros a y a'. unfold in_process. destruct (m (ad_process a)) as [[x p]|]; [|done].
  by intros [= _ <-].
Qed.

Create HintDb keeps.
#[export] Hint Resolve keeps_ret keeps_lift keeps_gets keeps_consult keeps_in_process : keeps.

(** Follow the structure of a computation. *)
Ltac solve_keeps :=
  repeat first
    [ apply keeps_bind; [|intros]
    | by auto with keeps
    | by apply keeps_modify
    | match goal with |- keeps_server (match ?x with _ => _ end) => destruct x end ].

Lemma handshake_keeps stack header0 server_id :
  keeps_server (wzcp_handshake_to_gateway stack header0 server_id).
Proof.
  unfold wzcp_handshake_to_gateway, connect_server, agt_server, resolve, hello_answered,
    server_answered, first_key, emit, time_now, alloc_succeeds. solve_keeps.
Qed.

(** The server tried in the [k]-th round: in rotation from the current one. *)
Definition rotation (a : agentd) (k : nat) : Z :=
  (ad_rip_id a + Z.of_nat k) mod zlen (ad_server a).

(** C4: [start_agent] tries the configured gateways in rotation, starting from the
    last one it was connected to, until one accepts its HELLO.  If the handshakes of
    the first [k] rounds fail and the one of the next round succeeds, whatever
    happened in them, it returns after that round, in the state the handshake left;
    so with [n] gateways every one is tried within [n] rounds. *)
Theorem start_agent_rotates stack header0 secure_start (st : nat -> agentd) k a' :
  wzcp_on (ad_process (st 0%nat)) ->
  0 <= ad_rip_id (st 0%nat) < zlen (ad_server (st 0%nat)) ->
  (forall i, (i < k)%nat -> wzcp_handshake_to_gateway stack header0 (rotation (st 0%nat) i) (st i)
     = Some (false, st (Datatypes.S i))) ->
  wzcp_handshake_to_gateway stack header0 (rotation (st 0%nat) k) (st k) = Some (true, a') ->
  forall fuel, (k < fuel)%nat ->
  start_agent stack header0 secure_start fuel (st 0%nat) = Some (tt, a').
Proof.
  intros Hon Hid Hfail Hdone fuel Hfuel.
  assert (Hserver : forall i, (i <= k)%nat -> ad_server (st i) = ad_server (st 0%nat)).
  { induction i as [|i IH]; intros Hi; [done|]. rewrite <- IH by lia.
    eapply handshake_keeps, Hfail. lia. }
  set (n := zlen (ad_server (st 0%nat))) in *.
  assert (Hnext : forall i, (i < k)%nat ->
    start_round stack header0 (rotation (st 0%nat) i) (st i) =
      Some (inl (rotation (st 0%nat) (Datatypes.S i)), st (Datatypes.S i))).
  { intros i Hi. unfold start_round, mbind, ST_bind. rewrite Hfail by done.
    unfold gets, mret, ST_ret. rewrite Hserver by lia. f_equal. f_equal. f_equal.
    unfold rotation. fold n.
    replace (ad_rip_id (st 0%nat) + Z.of_nat (Datatypes.S i))
      with (ad_rip_id (st 0%nat) + Z.of_nat i + 1) by lia.
    set (x := ad_rip_id (st 0%nat) + Z.of_nat i).
    pose proof (Z.mod_pos_bound x n ltac:(lia)) as Hm.
    rewrite <- (Z.add_mod_idemp_l x 1 n) by lia.
    destruct (ad_server (st 0%nat) !! Z.to_nat (x mod n + 1)) eqn:E.
    - apply lookup_lt_Some in E. symmetry. apply Z.mod_small. unfold n, zlen in *. lia.
    - apply lookup_ge_None in E. assert (x mod n + 1 = n) as -> by (unfold n, zlen in *; lia).
      by rewrite Z.mod_same by lia. }
  assert (Hloop : forall j i f, (i + j = k)%nat -> (j < f)%nat ->
    loop f (start_round stack header0) (rotation (st 0%nat) i) (st i) = Some (tt, a')).
  { induction j as [|j IH]; intros i [|f] Hij Hf; try lia; cbn [loop]; unfold mbind, ST_bind.
    - rewrite Nat.add_0_r in Hij. subst i. unfold start_round, mbind, ST_bind.
      by rewrite Hdone.
    - rewrite Hnext by lia. apply IH; lia. }
  assert (H : wp (start_agent stack header0 secure_start fuel) (fun _ s => s = a') (st 0%nat)).
  { unfold start_agent. apply wp_bind, wp_enabled; [done|]. apply wp_bind, wp_gets.
    specialize (Hloop k 0%nat fuel ltac:(lia) ltac:(lia)). unfold rotation in Hloop.
    rewrite Z.add_0_r, Z.mod_small in Hloop by done. unfold wp. by rewrite Hloop. }
  apply wp_run in H as ([] & s & Hrun & ->). exact Hrun.
Qed.

(** A run, read back: the answer is known, so the result is the pair with it. *)
Lemma run_answers {A} (b : A) (eqb : A -> bool) (r : option (A * agentd)) d :
  (forall x, eqb x = true -> x = b) ->
  match r with Some (x, _) => eqb x | None => false end = true ->
  r = Some (b, match r with Some (_, s) => s | None => d end).
Proof. intros Hb. destruct r as [[x s]|]; [|done]. by intros ->%Hb. Qed.

Definition sample_ack (seq : Z) : bytes :=
  wire_frame (sent_header XSIAM_WZCP_MSG_ACK 0 seq 1700000000250 8) (be_bytes 8 seq).

(** An agent of two gateways, the first of which refuses the connection. *)
Definition sample_agentd (connect : nat -> Z) (input : bytes) : agentd :=
  {| ad_process := Process 0 [] (fun n => if streq n (str "XSIAM_GATEWAY_PROTOCOL")
                                          then Some (str "wzcp") else None)
                     None None (always 171) None (sample_world 7 (fun _ => input));
     ad_sock := -1; ad_rip_id := 0;
     ad_server := [Server (str "gw1/10.0.0.1") false 10; Server (str "gw2/10.0.0.2") false 10];
     ad_key := Some (str "007", Some (str "host-7")); ad_version := str "v4.9";
     ad_available_server := 0; ad_last_connection_time := 0; ad_last_ack := 0;
     ad_msg_sent := 0; ad_get_host := always None; ad_connect := Oracle connect 0%nat |}.
Definition zero_stack (n : Z) : bytes := replicate (Z.to_nat n) 0.
Definition blank_header : xsiam_wzcp_header := WzcpHeader 0 0 0 0 0 0 0 0 0.

Example start_agent_rotates_witness :
  let a := sample_agentd (fun n => if (n =? 0)%nat then -1 else 5) (sample_ack 1) in
  match start_agent zero_stack blank_header (mret tt) 2 a with
  | Some (_, a') => ad_rip_id a' = 1 /\ ad_sock a' = 5
  | None => False
  end.
Proof.
  intros a. set (run i s := wzcp_handshake_to_gateway zero_stack blank_header i s).
  set (state r := match r : option (bool * agentd) with Some (_, s) => s | None => a end).
  rewrite (start_agent_rotates zero_stack blank_header (mret tt)
    (fun i => if (i =? 0)%nat then a else state (run 0 a)) 1
    (state (run 1 (state (run 0 a))))).
  - vm_compute. done.
  - done.
  - done.
  - intros [|i] Hi; [|lia]. apply (run_answers false negb); [by intros []|by vm_compute].
  - apply (run_answers true id); [by intros []|by vm_compute].
  - lia.
Defined.
