(* ===== verification/EndToEnd.v ===== *)
(** The agent and the gateway together: what the functions of Wzcp.v and AgentLink.v
    put on the socket is what the connection handlers of GwConn.v take from it.  The
    gateway's reading of the wire format of Wzcp.v, a HELLO that registers its agent
    and is acknowledged, and a stream of events that reaches the engine whatever the
    chunks in which it arrives. *)
From stdpp Require Import gmap.
From S2P Require Import Prelude Json Wzcp GwState GwConn GwServer AgentLink.
#[local] Open Scope Z_scope.

(** * The gateway reads the agent's wire format *)

Definition gw_of (h : xsiam_wzcp_header) : wzcp_header :=
  GwHeader (h_magic h) (h_version h) (h_header_len h) (h_flags h) (h_msg_type h)
    (h_agent_id h) (h_seq h) (h_timestamp_ms h) (h_body_len h).

Lemma gw_unpack_wire h r :
  header_fits h ->
  unpack_header (wire_header h ++ r) = Some (if header_accepted h then 0 else -1, gw_of h).
Proof.
  intros []. unfold unpack_header. set (inp := wire_header h ++ r).
  change (GwState.get_be32 inp) with (rd32 (be_bytes 4 (h_magic h) ++ drop 4 inp)).
  change (GwState.get_be32 (drop 8 inp)) with (rd32 (be_bytes 4 (h_agent_id h) ++ drop 12 inp)).
  change (GwState.get_be64 (drop 12 inp)) with (rd64 (be_bytes 8 (h_seq h) ++ drop 20 inp)).
  change (GwState.get_be64 (drop 20 inp))
    with (rd64 (be_bytes 8 (h_timestamp_ms h) ++ drop 28 inp)).
  change (GwState.get_be32 (drop 28 inp)) with (rd32 (be_bytes 4 (h_body_len h) ++ r)).
  rewrite !rd32_be_bytes, !rd64_be_bytes, !uwrap_small by done.
  change (load1 inp 4) with (Some (h_version h)).
  change (load1 inp 5) with (Some (h_header_len h)).
  change (load1 inp 6) with (Some (h_flags h)).
  change (load1 inp 7) with (Some (h_msg_type h)).
  cbn [mbind option_bind]. unfold header_accepted.
  change WZCP_MAGIC with XSIAM_WZCP_MAGIC. change WZCP_VERSION with XSIAM_WZCP_VERSION.
  change WZCP_HEADER_SIZE with XSIAM_WZCP_HEADER_SIZE.
  change WZCP_MAX_FRAME with XSIAM_WZCP_MAX_FRAME.
  rewrite Z.gtb_ltb, Z.ltb_antisym, <- !negb_andb. destruct h; cbn. by destruct (_ && _).
Qed.

(** A length-prefixed string in the middle of a body. *)
Lemma read_string_wire pre s rest body_len off out_size :
  zlen s < out_size <= 2 ^ 16 -> off = zlen pre -> off + 2 + zlen s <= body_len < 2 ^ 31 ->
  read_string (pre ++ wire_string s ++ rest) body_len off out_size =
    Some (Some s, off + 2 + zlen s).
Proof.
  intros Hs -> Hl. unfold read_string.
  rewrite (uwrap_small 32 (zlen pre + 2)) by (unfold fits; zlia).
  destruct ((zlen pre + 2 >? body_len) || (out_size =? 0)) eqn:E1; [zlia|].
  rewrite to_nat_zlen, drop_app_length. unfold wire_string. rewrite <- app_assoc.
  change (GwState.get_be16 ?b) with (rd16 b).
  rewrite rd16_be_bytes, (uwrap_small 16) by (unfold fits; zlia).
  cbn [mbind option_bind]. cbv zeta.
  rewrite (uwrap_small 32) by (unfold fits; zlia).
  destruct ((zlen pre + 2 + zlen s >? body_len) || (zlen s >=? out_size)) eqn:E2; [zlia|].
  assert (load (pre ++ be_bytes 2 (zlen s) ++ s ++ rest) (zlen pre + 2) (zlen s) = Some s)
    as ->; [|done].
  replace (zlen pre + 2) with (zlen (pre ++ be_bytes 2 (zlen s))) by zlia.
  rewrite (app_assoc pre). apply load_mid.
Qed.

(** * What a peer and the engine see of a run *)

Definition ingests (t : list effect) : list (list log_record) :=
  omap (fun e => match e with Ingest rs => Some rs | _ => None end) t.

Lemma ingests_app t u : ingests (t ++ u) = ingests t ++ ingests u.
Proof. apply omap_app. Qed.

Lemma internal_unseen t fd : Forall internal t -> ingests t = [] /\ sent_to fd t = [].
Proof.
  induction 1 as [|e t He _ [IH1 IH2]]; [done|].
  change (e :: t) with ([e] ++ t). rewrite sent_to_app, ingests_app, IH1, IH2.
  by destruct e.
Qed.

Lemma wires_ingest_nothing fd t : Forall (is_wire fd) t -> ingests t = [].
Proof. induction 1 as [|e t [bs ->] _ IH]; [done|exact IH]. Qed.

(** [seen conn c' l ing out g g']: the connection is now [c'], the agent table [l];
    the engine was given [ing] and the peer the bytes [out]. *)
Definition seen (conn : nat) (c' : xsiam_agent_conn) (l : list xsiam_agent_state)
    (ing : list (list log_record)) (out : bytes) (g g' : gw) : Prop :=
  exists r t, became conn c' l r t g g' /\ ingests t = ing /\
    sent_to (conn_connection c') t = out.

Lemma seen_trans conn c1 c2 l1 l2 i1 i2 o1 o2 g g1 g2 :
  conn_connection c1 = conn_connection c2 ->
  seen conn c1 l1 i1 o1 g g1 -> seen conn c2 l2 i2 o2 g1 g2 ->
  seen conn c2 l2 (i1 ++ i2) (o1 ++ o2) g g2.
Proof.
  intros Hfd (r1 & t1 & H1 & <- & <-) (r2 & t2 & H2 & <- & <-). exists r2, (t1 ++ t2).
  split; [by eapply became_trans|]. by rewrite ingests_app, sent_to_app, Hfd.
Qed.

Lemma seen_internal conn c' l r t g g' :
  became conn c' l r t g g' -> Forall internal t -> seen conn c' l [] [] g g'.
Proof. intros H Ht. exists r, t. split; [done|]. by apply internal_unseen. Qed.

Lemma seen_conn conn c l i o g g' : seen conn c l i o g g' -> g_heap g' !! conn = Some c.
Proof. intros (r & t & H & _). by eapply became_conn. Qed.
Lemma seen_agents conn c l i o g g' : seen conn c l i o g g' -> g_agents g' = l.
Proof. intros (r & t & H & _). by eapply became_agents. Qed.
Lemma seen_env conn c l i o g g' : seen conn c l i o g g' -> env (g_world g') = env (g_world g).
Proof. intros (r & t & H & _). by eapply became_env. Qed.
Lemma seen_ctx conn c l i o g g' : seen conn c l i o g g' -> g_ctx g' = g_ctx g.
Proof. intros (r & t & H & _). by eapply became_ctx. Qed.

(** The environment answers well: memory, writes and the log encoder. *)
Record env_ok (w : world) : Prop := {
  eo_alloc : alloc_ok w;
  eo_untested : untested_ok w;
  eo_write : write_ok w;
  eo_encoder : encoder_ok w;
}.

Lemma env_ok_env w w' : env w' = env w -> env_ok w -> env_ok w'.
Proof.
  intros E []. constructor; [by eapply alloc_ok_env|by eapply untested_ok_env|by eapply write_ok_env|by eapply encoder_ok_env].
Qed.

(** An acknowledgement goes out completely. *)
Lemma send_ack_seen conn c seq g :
  g_heap g !! conn = Some c -> env_ok (g_world g) ->
  wp (send_ack conn seq) (fun r g' => r = 0 /\ exists ts,
    seen conn c (g_agents g) [] (ack_frame seq ts) g g') g.
Proof.
  intros Hc Hok. eapply wp_mono; [by apply send_ack_spec|].
  intros r g' (ts & t & k & Ht & Hw & Hs & Hrc).
  destruct Hrc as [[-> ->]|(_ & _ & Hno)]; [|destruct Hno; apply Hok].
  rewrite firstn_all in Hs. split; [done|]. exists ts, (g_records g), t.
  split; [by apply to_became|]. split; [by eapply wires_ingest_nothing|done].
Qed.

(** The classification a connection gets from its first frame. *)
Definition classified (c : xsiam_agent_conn) : xsiam_agent_conn :=
  relabel c (conn_agent_key c) (Some SESSION_PROTO_AGENT_WZCP) (Some SESSION_GROUP_AGENT).

Lemma classify_seen conn c g :
  g_heap g !! conn = Some c -> env_ok (g_world g) ->
  wp (conn_set_classification conn SESSION_PROTO_AGENT_WZCP SESSION_GROUP_AGENT)
    (fun _ g' => seen conn (classified c) (g_agents g) [] [] g g') g.
Proof.
  intros Hc Hok. eapply wp_mono; [by apply set_classification_spec|].
  intros _ g' (tag & group & t & Hb & Ht & Htag).
  destruct (Htag (eo_alloc _ Hok)) as [-> ->].
  eapply seen_internal; [exact Hb|by apply alloc_internal].
Qed.

(** * The HELLO *)

Lemma wire_strings_cons m l : wire_strings (m :: l) = wire_string (clip m) ++ wire_strings l.
Proof. done. Qed.

Lemma hello_macs_wire macs read pre rest body_len off g :
  Forall mac_ok macs -> off = zlen pre ->
  off + zlen (wire_strings macs) <= body_len < 2 ^ 31 -> untested_ok (g_world g) ->
  wp (hello_macs (length macs) (bool_decide (read = [])) (pre ++ wire_strings macs ++ rest)
    body_len off (macs_text read)) (fun r g' =>
      r = Some (macs_text (read ++ macs)) /\ to (g_agents g) [] g g') g.
Proof.
  intros Hm. revert read pre off g. induction Hm as [|m macs [[Hb Hn] Hl] Hm IH];
    intros read pre off g -> Hlen Hun; cbn [hello_macs length].
  { apply wp_ret. split; [by rewrite app_nil_r|apply to_refl]. }
  rewrite wire_strings_cons in *. rewrite (clip_small m) in * by lia.
  rewrite <- app_assoc. apply wp_bind. eapply wp_lift; [apply read_string_wire; (done || zlia)|].
  cbv beta iota. apply wp_bind, wp_gw_untested; [exact Hun|]. intros g1 H1. cbv zeta.
  assert (E : json_escape_append ((if bool_decide (read = []) then macs_text read
      else macs_text read ++ str ",") ++ [JQ]) (Some m) ++ [JQ] = macs_text (read ++ [m])).
  { rewrite macs_text_snoc, <- literal_text. unfold json_escape_append.
    rewrite cstr_id by done. by rewrite <- !app_assoc. }
  rewrite E. rewrite (cons_middle m read macs), !app_assoc.
  rewrite <- (app_assoc _ _ rest).
  specialize (IH (read ++ [m]) (pre ++ wire_string m) (zlen pre + 2 + zlen m) g1).
  rewrite bool_decide_false in IH by (by destruct read).
  eapply wp_mono; [apply IH; [zlia|zlia|by eapply to_untested_ok]|].
  intros r g2 [-> H2]. split; [done|]. exact (to_trans_agents _ [] [] _ _ _ H1 H2).
Qed.

Lemma hf_ok_strings f :
  hf_ok f ->
  (c_string (hf_id f) /\ zlen (hf_id f) < 64) /\
  (c_string (hf_name f) /\ zlen (hf_name f) < 256) /\
  (c_string (hf_version f) /\ zlen (hf_version f) < 64) /\
  (c_string (hf_host f) /\ zlen (hf_host f) < 16) /\ hf_host f <> [].
Proof.
  intros [_ _ _ (Hi & Hil & _) Hn Hv Hh _]. split; [by split|]. split; [exact Hn|]. split; [exact Hv|].
  assert (Hs : forall s, forallb (fun c => (1 <=? c) && (c <? 256)) s = true -> c_string s).
  { intros s Hs. rewrite forallb_forall in Hs.
    split; apply Forall_forall; intros c Hx%list_elem_of_In%Hs; unfold fits; lia. }
  destruct Hh as [-> | ->]; (split; [split; [by apply Hs|done]|done]).
Qed.

(** The parts of a HELLO body. *)
Lemma hf_body_parts f :
  hf_ok f ->
  hf_body f = (be_bytes 2 2 ++ be_bytes 2 0) ++ wire_string (hf_id f) ++
    wire_string (hf_name f) ++ wire_string (hf_version f) ++ wire_string (hf_host f) ++
    be_bytes 2 (zlen (mac_list (Some (hf_macs f)))) ++
    wire_strings (mac_list (Some (hf_macs f))).
Proof.
  intros [_ _ _ (_ & Hi & _) [_ Hn] [_ Hv] Hh _]. unfold hf_body, hello_v2.
  cbn [map concat clip_opt].
  assert (zlen (hf_host f) < 2 ^ 16) by (by destruct Hh as [-> | ->]).
  rewrite !clip_small by lia. rewrite app_nil_r. unfold wire_macs. by rewrite <- !app_assoc.
Qed.

(** The agent's entry after the HELLO [f]. *)
Definition macs_json (f : hello_frame) : bytes :=
  render (JArr (map JStr (mac_list (Some (hf_macs f))))).

Definition hello_agent (f : hello_frame) (now : Z) : xsiam_agent_state -> xsiam_agent_state :=
  seen_agent all_ok (hf_id f) (Some (hf_name f)) (Some (hf_version f)) (Some (hf_host f))
    (Some (macs_json f)) now.

Definition registered (f : hello_frame) (g : gw) (l : list xsiam_agent_state) : Prop :=
  exists now0 now, l = upsert (hf_id f) (hello_agent f now) (new_agent (g_ctx g) (hf_id f) now0)
                         (g_agents g).

Lemma hello_v2_wire pre host macs rest body_len off g :
  zlen host < 16 -> Forall mac_ok macs -> zlen macs <= 64 -> off = zlen pre ->
  off + 2 + zlen host + 2 + zlen (wire_strings macs) <= body_len < 2 ^ 31 ->
  alloc_ok (g_world g) -> untested_ok (g_world g) ->
  wp (hello_v2_fields (pre ++ wire_string host ++ be_bytes 2 (zlen macs) ++
        wire_strings macs ++ rest) body_len off) (fun r g' =>
    r = Some (host, render (JArr (map JStr macs))) /\ to (g_agents g) [] g g') g.
Proof.
  intros Hh Hm Hm64 -> Hl Hok Hun. unfold hello_v2_fields.
  pose proof (zlen_nonneg (wire_strings macs)). pose proof (zlen_nonneg macs).
  apply wp_bind. eapply wp_lift; [apply read_string_wire; [lia|done|lia]|].
  cbv beta iota. rewrite (uwrap_small 32) by (unfold fits; zlia).
  destruct (Z.gtb_spec (zlen pre + 2 + zlen host + 2) body_len); [lia|].
  apply wp_bind. eapply wp_lift.
  { replace (zlen pre + 2 + zlen host) with (zlen (pre ++ wire_string host)) by zlia.
    rewrite to_nat_zlen, (app_assoc pre), drop_app_length.
    change (GwState.get_be16 ?b) with (rd16 b). apply rd16_be_bytes. }
  rewrite (uwrap_small 16) by (unfold fits; lia). cbv zeta.
  apply wp_bind, wp_gw_alloc. intros ok g1 Hg1 Ha. rewrite (Ha Hok). cbn [negb].
  apply wp_bind. eapply wp_mono.
  { rewrite to_nat_zlen, (app_assoc pre), (app_assoc (pre ++ _)).
    apply (hello_macs_wire macs []); [done|zlia|zlia|by eapply to_untested_ok]. }
  intros r g2 [-> Hg2]. pose proof (to_trans_agents _ [] [] _ _ _ Hg1 Hg2) as Hg02.
  apply wp_bind, wp_gw_untested; [by eapply to_untested_ok|]. intros g3 Hg3.
  apply wp_ret. split; [|exact (to_trans_agents _ [] [] _ _ _ Hg02 Hg3)]. do 2 f_equal. cbn [app]. apply macs_text_render.
Qed.

Definition keyed (c : xsiam_agent_conn) (id : bytes) : xsiam_agent_conn :=
  c <| conn_agent_key := Some id |>.

Lemma mark_seen_registers f conn c g :
  hf_ok f -> g_heap g !! conn = Some c -> env_ok (g_world g) ->
  wp (agent_state_mark_seen (Some (hf_id f)) (Some (hf_name f)) (Some (hf_version f))
        (Some (hf_host f)) (Some (macs_json f)) (Some conn))
    (fun _ g' => exists l, registered f g l /\ seen conn (keyed c (hf_id f)) l [] [] g g') g.
Proof.
  intros Hf Hc Hok. eapply wp_mono; [apply mark_seen_spec; [apply Hf|exact Hc|apply Hok]|].
  intros _ g' (l & key & t & w & [Hw Ht] & -> & H).
  destruct H as [(_ & _ & Hno)|(ok & now0 & now & fr & -> & _ & Hnew & Hkey & Ha)];
    [destruct Hno; apply Hok|]. rewrite (Hnew (eo_alloc _ Hok)) in *.
  rewrite (Ha (eo_alloc _ Hok)). destruct Hkey as [->|[Hno _]]; [|destruct Hno; apply Hok].
  eexists. split; [by exists now0, now|]. eapply seen_internal; [|exact Ht].
  exists w. by split.
Qed.

Lemma process_hello_wire conn c f rest g :
  hf_ok f -> g_heap g !! conn = Some c -> env_ok (g_world g) ->
  wp (process_hello conn (gw_of (hf_header f)) (hf_body f ++ rest)) (fun r g' => r = 0 /\
    exists l ts, registered f g l /\
      seen conn (classified (keyed c (hf_id f))) l [] (ack_frame (hf_seq f) ts) g g') g.
Proof.
  intros Hf Hc Hok. pose proof (zlen_hf_body f Hf) as Lb. unfold OS_SIZE_2048 in Lb.
  unfold process_hello. change (wh_body_len (gw_of (hf_header f))) with (zlen (hf_body f)).
  rewrite (hf_body_parts f Hf) in *. set (macs := mac_list (Some (hf_macs f))) in *.
  set (p0 := be_bytes 2 2 ++ be_bytes 2 0) in *.
  destruct (hf_ok_strings f Hf) as ([[Hib Hin] Hil] & [[Hnb Hnn] Hnl] & [[Hvb Hvn] Hvl] &
    [[Hhb Hhn] Hhl] & Hhne).
  pose proof (zlen_mac_list (Some (hf_macs f))) as Hm64. fold macs in Hm64.
  assert (Z4 : zlen p0 = 4) by done.
  pose proof (zlen_nonneg (wire_strings macs)).
  set (body_len := zlen (p0 ++ _)) in *.
  assert (Lbody : body_len = 4 + (2 + zlen (hf_id f)) + (2 + zlen (hf_name f)) +
    (2 + zlen (hf_version f)) + (2 + zlen (hf_host f)) + 2 + zlen (wire_strings macs))
    by (unfold body_len; zlia).
  clearbody body_len. cbv zeta.
  pose proof (zlen_nonneg (hf_id f)). pose proof (zlen_nonneg (hf_name f)).
  pose proof (zlen_nonneg (hf_version f)). pose proof (zlen_nonneg (hf_host f)).
  destruct (Z.ltb_spec body_len 4); [lia|].
  rewrite <- !app_assoc. apply wp_bind. eapply wp_lift.
  { unfold p0. rewrite <- app_assoc. change (GwState.get_be16 ?b) with (rd16 b).
    apply rd16_be_bytes. }
  change (u16 2 <? 1) with false. cbv iota.
  apply wp_bind. eapply wp_lift; [apply read_string_wire; [lia|done|lia]|]. cbv beta iota.
  rewrite (app_assoc p0). apply wp_bind. eapply wp_lift.
  { apply read_string_wire; [lia|zlia|lia]. }
  cbv beta iota. rewrite (app_assoc (p0 ++ _)). apply wp_bind. eapply wp_lift.
  { apply read_string_wire; [lia|zlia|lia]. }
  cbv beta iota. rewrite (app_assoc ((p0 ++ _) ++ _)).
  change (u16 2 >=? 2) with true. cbv iota.
  apply wp_bind, wp_bind. eapply wp_mono.
  { apply hello_v2_wire; [lia|apply Hf|apply Hm64|zlia|lia|apply Hok..]. }
  intros v2 g1 [-> Hg1]. apply wp_ret. cbv beta iota zeta.
  rewrite !cstr_id by done. rewrite bool_decide_false by done. fold (macs_json f).
  apply (to_became conn c) in Hg1; [|done].
  assert (S1 : seen conn c (g_agents g) [] [] g g1)
    by (eapply seen_internal; [exact Hg1|constructor]).
  assert (Hok1 : env_ok (g_world g1)) by (eapply env_ok_env; [by eapply seen_env|done]).
  apply wp_bind. eapply wp_mono.
  { apply mark_seen_registers; [done|by eapply seen_conn|done]. }
  intros _ g2 (l & Hreg & S2).
  assert (Hreg' : registered f g l).
  { destruct Hreg as (now0 & now & ->). exists now0, now.
    by rewrite (seen_agents _ _ _ _ _ _ _ S1), (seen_ctx _ _ _ _ _ _ _ S1). }
  assert (S02 : seen conn (keyed c (hf_id f)) l [] [] g g2)
    by (eapply (seen_trans _ _ _ _ _ [] [] [] []); [|exact S1|exact S2]; done).
  assert (Hok2 : env_ok (g_world g2)) by (eapply env_ok_env; [by eapply seen_env|done]).
  apply wp_bind. eapply wp_mono; [apply classify_seen; [by eapply seen_conn|done]|].
  intros [] g3 S3. rewrite (seen_agents _ _ _ _ _ _ _ S2) in S3.
  assert (S03 : seen conn (classified (keyed c (hf_id f))) l [] [] g g3)
    by (eapply (seen_trans _ _ _ _ _ [] [] [] []); [|exact S02|exact S3]; done).
  assert (Hok3 : env_ok (g_world g3)) by (eapply env_ok_env; [by eapply seen_env|done]).
  eapply wp_mono; [apply send_ack_seen; [by eapply seen_conn|done]|].
  intros r g4 (-> & ts & S4). rewrite (seen_agents _ _ _ _ _ _ _ S3) in S4.
  split; [done|]. exists l, ts. split; [done|].
  eapply (seen_trans _ _ _ _ _ [] [] []); [|exact S03|exact S4]; done.
Qed.

(** * An event *)

Definition event_record (c : xsiam_agent_conn) (f : event_frame) : log_record :=
  wzcp_record c (gw_of (ef_header f)) XSIAM_WZCP_EVENT_LOG (ef_event_id f) (ef_msg f).

Lemma recorded_seen conn c rs t g g' :
  g_heap g !! conn = Some c -> recorded rs t g g' ->
  seen conn c (g_agents g) (ingests t) (sent_to (conn_connection c) t) g g'.
Proof. intros Hc H. exists rs, t. split; [by apply recorded_became|done]. Qed.

Lemma append_events_wire conn c f rest g :
  ef_ok f -> g_heap g !! conn = Some c -> encoder_ok (g_world g) ->
  wp (append_events 1 conn (gw_of (ef_header f)) (ef_body f ++ rest) 2) (fun ok g' =>
    ok = true /\ recorded (g_records g ++ [event_record c f]) [] g g') g.
Proof.
  intros Hf Hc Hok. pose proof (zlen_ef_body f) as Lb. pose proof (efo_len f Hf) as Hl.
  pose proof (zlen_nonneg (ef_msg f)) as H0.
  cbn [append_events]. change (wh_body_len (gw_of (ef_header f))) with (zlen (ef_body f)).
  rewrite Lb. change (u32 (2 + 20)) with 22.
  destruct (Z.gtb_spec 22 (22 + zlen (ef_msg f))) as [|_]; [lia|].
  change (Z.to_nat (2 + 10)) with 12%nat. change (Z.to_nat (2 + 18)) with 20%nat.
  change (Z.to_nat 22) with 22%nat.
  apply wp_bind. eapply wp_lift; [reflexivity|].
  apply wp_bind. eapply wp_lift.
  { transitivity (rd64 (be_bytes 8 (ef_event_id f) ++ be_bytes 2 (zlen (ef_msg f)) ++
      ef_msg f ++ rest)); [reflexivity|]. apply rd64_be_bytes. }
  apply wp_bind. eapply wp_lift.
  { transitivity (rd16 (be_bytes 2 (zlen (ef_msg f)) ++ ef_msg f ++ rest)); [reflexivity|].
    apply rd16_be_bytes. }
  rewrite (uwrap_small 64), (uwrap_small 16) by (apply Hf || (unfold fits; lia)).
  cbv zeta. rewrite (uwrap_small 32) by (unfold fits; lia).
  destruct (Z.gtb_spec (22 + zlen (ef_msg f)) (22 + zlen (ef_msg f))) as [|_]; [lia|].
  apply wp_bind. eapply wp_mono.
  { apply (append_record_spec conn c); [exact Hc|]. rewrite zlen_drop_nat, zlen_app, Lb. zlia. }
  intros rc g1 [[-> H1]|(_ & _ & Hno)]; [|by destruct Hno].
  cbn [Z.ltb Z.compare]. apply wp_ret. split; [done|].
  assert (Edrop : drop 22 (ef_body f ++ rest) = ef_msg f ++ rest) by reflexivity.
  rewrite Edrop, to_nat_zlen, take_app_length in H1. exact H1.
Qed.

Lemma process_event_wire conn c f rest g :
  ef_ok f -> g_heap g !! conn = Some c -> env_ok (g_world g) ->
  wp (process_event_batch conn (gw_of (ef_header f)) (ef_body f ++ rest)) (fun r g' => r = 0 /\
    exists ts, seen conn c (g_agents g) [[event_record c f]] (ack_frame (ef_seq f) ts) g g') g.
Proof.
  intros Hf Hc Hok. pose proof (zlen_ef_body f) as Lb. pose proof (zlen_nonneg (ef_msg f)).
  unfold process_event_batch.
  change (wh_body_len (gw_of (ef_header f))) with (zlen (ef_body f)).
  destruct (Z.ltb_spec (zlen (ef_body f)) 2) as [|_]; [lia|].
  apply wp_bind. eapply wp_lift; [reflexivity|].
  apply wp_bind, encoder_reset_spec. intros g1 H1.
  assert (E1 : env_ok (g_world g1)) by (eapply env_ok_env; [by eapply recorded_env|done]).
  assert (Hc1 : g_heap g1 !! conn = Some c) by (destruct H1 as (w & _ & ->); exact Hc).
  assert (R1 : g_records g1 = []) by (by destruct H1 as (w & _ & ->)).
  apply wp_bind. eapply wp_mono; [apply append_events_wire; [done|exact Hc1|apply E1]|].
  intros ok g2 [-> H2]. cbn [negb]. rewrite R1 in H2.
  pose proof (recorded_trans _ _ _ _ _ _ _ H1 H2) as H02. cbn [app] in H02.
  assert (E2 : env_ok (g_world g2)) by (eapply env_ok_env; [by eapply recorded_env|done]).
  assert (Hc2 : g_heap g2 !! conn = Some c) by (destruct H02 as (w & _ & ->); exact Hc).
  assert (R2 : g_records g2 = [event_record c f] /\ g_agents g2 = g_agents g)
    by (by destruct H02 as (w & _ & ->)). destruct R2 as [R2 A2].
  apply (recorded_seen conn c) in H02; [|exact Hc].
  apply wp_bind, ingest_records_spec. rewrite R2. intros g3 H3.
  assert (S3 : seen conn c (g_agents g2) [[event_record c f]] [] g2 g3).
  { eexists _, _. split; [by eapply to_became|done]. }
  rewrite A2 in S3.
  assert (S03 : seen conn c (g_agents g) [[event_record c f]] [] g g3)
    by (eapply (seen_trans _ _ _ _ _ [] _ []); [|exact H02|exact S3]; done).
  assert (E3 : env_ok (g_world g3)) by (eapply env_ok_env; [by eapply seen_env|done]).
  eapply wp_mono; [apply send_ack_seen; [by eapply seen_conn|done]|].
  intros r g4 (-> & ts & S4). rewrite (seen_agents _ _ _ _ _ _ _ S03) in S4.
  split; [done|]. exists ts.
  eapply (seen_trans _ _ _ _ _ [_] [] []); [|exact S03|exact S4]; done.
Qed.

(** The agent's entry is marked alive first. *)
Lemma handle_event conn c f rest g :
  ef_ok f -> g_heap g !! conn = Some c -> env_ok (g_world g) ->
  wp (handle_message conn (gw_of (ef_header f)) (ef_body f ++ rest)) (fun r g' => r = 0 /\
    exists l ts, seen conn c l [[event_record c f]] (ack_frame (ef_seq f) ts) g g') g.
Proof.
  intros Hf Hc Hok. unfold handle_message.
  change (wh_msg_type (gw_of (ef_header f))) with 2.
  change (2 =? WZCP_MSG_HELLO) with false. change (2 =? WZCP_MSG_HEARTBEAT) with false.
  change (2 =? WZCP_MSG_EVENT_BATCH) with true. cbv iota.
  apply wp_bind. eapply wp_get_conn; [exact Hc|]. apply wp_bind.
  assert (Hbeat : wp (match conn_agent_key c with
      | Some key => agent_state_mark_heartbeat key
      | None => mret tt
      end) (fun _ g' => exists l, seen conn c l [] [] g g') g).
  { destruct (conn_agent_key c) as [key|].
    - eapply wp_mono; [apply mark_heartbeat_spec, Hok|].
      intros [] g1 (now & t & H1 & Hp & _). eexists. eapply seen_internal;
        [by apply to_became|by eapply posted_internal].
    - apply wp_ret. exists (g_agents g). eapply seen_internal; [by apply became_refl|constructor]. }
  eapply wp_mono; [exact Hbeat|]. intros [] g1 [l S1].
  assert (E1 : env_ok (g_world g1)) by (eapply env_ok_env; [by eapply seen_env|done]).
  eapply wp_mono; [apply process_event_wire; [done|by eapply seen_conn|done]|].
  intros r g2 (-> & ts & S2). split; [done|]. exists (g_agents g1), ts.
  eapply (seen_trans _ _ _ _ _ [] _ []); [|exact S1|exact S2]; done.
Qed.

Lemma handle_hello conn c f rest g :
  hf_ok f -> g_heap g !! conn = Some c -> env_ok (g_world g) ->
  wp (handle_message conn (gw_of (hf_header f)) (hf_body f ++ rest)) (fun r g' => r = 0 /\
    exists l ts, registered f g l /\
      seen conn (classified (keyed c (hf_id f))) l [] (ack_frame (hf_seq f) ts) g g') g.
Proof. apply process_hello_wire. Qed.

(** * A stream of events *)

(** The record of an event, on a connection that speaks the agent protocol. *)
Definition session_record (session_id : bytes) (f : event_frame) : log_record :=
  [(str "protocol", VStr (str "wzcp"));
   (str "session_id", VStr session_id);
   (str "session_protocol", VStr SESSION_PROTO_AGENT_WZCP);
   (str "client_group", VStr SESSION_GROUP_AGENT);
   (str "agent_id", VUint (ef_agent f));
   (str "frame_seq", VUint (ef_seq f));
   (str "event_id", VUint (ef_event_id f));
   (str "kind", VUint XSIAM_WZCP_EVENT_LOG);
   (str "log", VStr (ef_msg f))].

(** The acknowledgements of a list of events, in order. *)
Inductive acked : list event_frame -> bytes -> Prop :=
| acked_nil : acked [] []
| acked_cons f fs ts out : acked fs out -> acked (f :: fs) (ack_frame (ef_seq f) ts ++ out).

Lemma acked_app fs1 fs2 out1 out2 :
  acked fs1 out1 -> acked fs2 out2 -> acked (fs1 ++ fs2) (out1 ++ out2).
Proof. intros H1 H2. induction H1; [done|]. rewrite <- app_assoc. by constructor. Qed.

Definition stream (fs : list event_frame) : bytes := concat (map ef_wire fs).

Lemma stream_app fs1 fs2 : stream (fs1 ++ fs2) = stream fs1 ++ stream fs2.
Proof. unfold stream. by rewrite map_app, concat_app. Qed.

Lemma ef_frame_wf f : ef_ok f -> frame_wf (ef_header f) (ef_body f).
Proof.
  intros Hf. pose proof (zlen_ef_body f). destruct Hf.
  apply sent_header_wf; [done|done|done|done|]. unfold XSIAM_WZCP_MAX_FRAME. lia.
Qed.

Lemma zlen_wire_frame h body : zlen (wire_frame h body) = 36 + zlen body.
Proof. unfold wire_frame. zlia. Qed.

Lemma zlen_ef_wire f : ef_ok f -> 58 <= zlen (ef_wire f) <= 58 + 65535.
Proof.
  intros Hf. pose proof (efo_len f Hf). unfold ef_wire.
  rewrite zlen_wire_frame, zlen_ef_body. zlia.
Qed.

(** The end of what has arrived: nothing, or the beginning of a frame. *)
Definition partial (part : bytes) : Prop :=
  part = [] \/ exists f more, ef_ok f /\ more <> [] /\ part ++ more = ef_wire f.

Lemma cut_stream fs x y :
  Forall ef_ok fs -> x ++ y = stream fs ->
  exists n part, x = stream (take n fs) ++ part /\ partial part /\
    part ++ y = stream (drop n fs).
Proof.
  intros Hfs. revert x. induction Hfs as [|f fs Hf Hfs IH]; intros x E.
  { apply app_eq_nil in E as [-> ->]. exists 0%nat, []. split_and!; [done|by left|done]. }
  change (stream (f :: fs)) with (ef_wire f ++ stream fs) in *.
  destruct (decide (length (ef_wire f) <= length x)%nat) as [Hle|Hlt].
  - assert (x = ef_wire f ++ drop (length (ef_wire f)) x) as Ex.
    { rewrite <- (take_drop (length (ef_wire f)) x) at 1. f_equal.
      apply (f_equal (take (length (ef_wire f)))) in E.
      rewrite take_app_le, take_app_length in E by lia. exact E. }
    rewrite Ex in E |- *. rewrite <- app_assoc in E. apply app_inv_head in E.
    destruct (IH _ E) as (n & part & -> & Hp & Ey).
    exists (Datatypes.S n), part. cbn [take drop].
    change (stream (f :: ?l)) with (ef_wire f ++ stream l). rewrite <- app_assoc.
    by split_and!.
  - exists 0%nat, x. split_and!; [done| |done].
    destruct x as [|b x]; [by left|right]. exists f, (drop (length (b :: x)) (ef_wire f)).
    split_and!; [done| |].
    + intros D. apply (f_equal length) in D. rewrite length_drop in D. cbn in *. lia.
    + rewrite <- (take_drop (length (b :: x)) (ef_wire f)) at 2. f_equal.
      apply (f_equal (take (length (b :: x)))) in E.
      rewrite take_app_length, take_app_le in E by lia. exact E.
Qed.

(** ** One frame *)

Lemma process_frame_complete conn pre h body rest g (Q : Z + Z -> gw -> Prop) :
  frame_wf h body -> 32 + zlen body <= WZCP_MAX_FRAME ->
  wp (handle_message conn (gw_of h) (body ++ rest)) (fun r g' => r = 0 /\
    Q (inl (zlen (pre ++ wire_frame h body))) g') g ->
  wp (process_frame conn (pre ++ wire_frame h body ++ rest) (zlen pre)) Q g.
Proof.
  intros (Hf & Ha & Hl) Hmax H. unfold process_frame. cbv zeta.
  pose proof (zlen_nonneg body) as H0. pose proof (zlen_nonneg rest) as H1.
  unfold WZCP_MAX_FRAME, WZCP_HEADER_SIZE in *.
  assert (Lbuf : zlen (pre ++ wire_frame h body ++ rest) = zlen pre + (36 + zlen body) + zlen rest)
    by (rewrite !zlen_app, zlen_wire_frame; lia).
  rewrite Lbuf, to_nat_zlen, drop_app_length.
  destruct (Z.ltb_spec (zlen pre + (36 + zlen body) + zlen rest - zlen pre) (4 + 32)) as [|_]; [lia|].
  apply wp_bind. eapply wp_lift.
  { unfold wire_frame. rewrite <- !app_assoc.
    change (GwState.get_be32 ?b) with (rd32 b). apply rd32_be_bytes. }
  change XSIAM_WZCP_HEADER_SIZE with 32. rewrite (uwrap_small 32) by (unfold fits; lia).
  destruct (orb _ _) eqn:E1; [lia|].
  destruct (Z.ltb_spec (zlen pre + (36 + zlen body) + zlen rest - zlen pre) (4 + (32 + zlen body)))
    as [|_]; [lia|].
  apply wp_bind. eapply wp_lift.
  { change (drop 4 (wire_frame h body ++ rest)) with ((wire_header h ++ body) ++ rest).
    rewrite <- app_assoc. by apply gw_unpack_wire. }
  rewrite Ha. cbv beta iota. change (wh_body_len (gw_of h)) with (h_body_len h). rewrite Hl.
  destruct (orb (0 <? 0) _) eqn:E2; [lia|]. clear E1 E2.
  assert (Edrop : drop (Z.to_nat (4 + 32)) (wire_frame h body ++ rest) = body ++ rest).
  { unfold wire_frame. rewrite <- !app_assoc, (app_assoc _ (wire_header h)).
    change (Z.to_nat (4 + 32)) with (length (be_bytes 4 (XSIAM_WZCP_HEADER_SIZE + zlen body)
      ++ wire_header h)). apply drop_app_length. }
  rewrite Edrop. apply wp_bind. eapply wp_mono; [exact H|]. intros r g1 [-> HQ].
  cbn [Z.ltb Z.compare]. apply wp_ret.
  replace (zlen pre + 4 + (32 + zlen body)) with (zlen (pre ++ wire_frame h body)); [done|].
  rewrite zlen_app, zlen_wire_frame. lia.
Qed.

(** The first bytes of a frame, as far as they are there. *)
Lemma partial_head part f more :
  ef_ok f -> part ++ more = ef_wire f -> 36 <= zlen part ->
  exists tail, part = be_bytes 4 (32 + zlen (ef_body f)) ++ be_bytes 4 XSIAM_WZCP_MAGIC ++ tail.
Proof.
  intros Hf E Hl.
  assert (part = take (length part) (ef_wire f)) as -> by (by rewrite <- E, take_app_length).
  unfold ef_wire, wire_frame, wire_header. change XSIAM_WZCP_HEADER_SIZE with 32.
  rewrite <- !app_assoc. change (h_magic (ef_header f)) with XSIAM_WZCP_MAGIC.
  rewrite (app_assoc (be_bytes 4 _)), take_app_ge by (cbn; unfold zlen in Hl; lia).
  eexists. rewrite <- app_assoc. done.
Qed.

Lemma process_frame_partial conn pre part g (Q : Z + Z -> gw -> Prop) :
  partial part -> Q (inr (zlen pre)) g ->
  wp (process_frame conn (pre ++ part) (zlen pre)) Q g.
Proof.
  intros Hp HQ. unfold process_frame. cbv zeta. rewrite zlen_app.
  replace (zlen pre + zlen part - zlen pre) with (zlen part) by lia.
  unfold WZCP_HEADER_SIZE, WZCP_MAX_FRAME.
  destruct (Z.ltb_spec (zlen part) (4 + 32)); [by apply wp_ret|].
  destruct Hp as [->|(f & more & Hf & Hm & E)]; [done|].
  destruct (partial_head part f more Hf E) as [tail Et]; [lia|].
  pose proof (zlen_ef_body f) as Lb. pose proof (efo_len f Hf) as Lm.
  pose proof (zlen_nonneg (ef_msg f)).
  rewrite to_nat_zlen, drop_app_length. apply wp_bind. eapply wp_lift.
  { rewrite Et. change (GwState.get_be32 ?b) with (rd32 b). apply rd32_be_bytes. }
  rewrite (uwrap_small 32) by (unfold fits; lia).
  destruct (orb _ _) eqn:E1; [lia|].
  assert (zlen part < 4 + (32 + zlen (ef_body f))) as Hshort.
  { apply (f_equal zlen) in E. unfold ef_wire in E. rewrite zlen_app, zlen_wire_frame in E.
    assert (0 < zlen more) by (destruct more; [done|zlia]). lia. }
  rewrite (proj2 (Z.ltb_lt _ _)) by done. by apply wp_ret.
Qed.

(** ** All the frames of a buffer *)

(** The events [fs] were handled: recorded one by one, and acknowledged. *)
Definition consumed_events (conn : nat) (c : xsiam_agent_conn) (fs : list event_frame)
    (g g' : gw) : Prop :=
  exists l out, acked fs out /\
    seen conn c l (map (fun f => [session_record (conn_session_id c) f]) fs) out g g'.

Lemma event_record_classified c f :
  event_record (classified c) f = session_record (conn_session_id c) f.
Proof. done. Qed.

Lemma process_frame_event conn c pre f rest g :
  ef_ok f -> g_heap g !! conn = Some (classified c) -> env_ok (g_world g) ->
  wp (process_frame conn (pre ++ ef_wire f ++ rest) (zlen pre)) (fun r g' =>
    r = inl (zlen (pre ++ ef_wire f)) /\ consumed_events conn (classified c) [f] g g') g.
Proof.
  intros Hf Hc Hok. pose proof (efo_len f Hf).
  apply process_frame_complete; [by apply ef_frame_wf| |].
  { rewrite zlen_ef_body. unfold WZCP_MAX_FRAME. lia. }
  eapply wp_mono; [by eapply handle_event|]. intros r g' (-> & l & ts & S).
  split; [done|]. split; [done|]. exists l, (ack_frame (ef_seq f) ts).
  split; [|exact S]. rewrite <- (app_nil_r (ack_frame _ _)). by repeat constructor.
Qed.

Lemma consumed_trans conn c fs1 fs2 g g1 g2 :
  consumed_events conn c fs1 g g1 -> consumed_events conn c fs2 g1 g2 ->
  consumed_events conn c (fs1 ++ fs2) g g2.
Proof.
  intros (l1 & o1 & A1 & S1) (l2 & o2 & A2 & S2). exists l2, (o1 ++ o2).
  split; [by apply acked_app|]. rewrite map_app. by eapply seen_trans.
Qed.

Lemma frames_loop conn c fs part pre fuel g :
  Forall ef_ok fs -> partial part -> g_heap g !! conn = Some (classified c) ->
  env_ok (g_world g) -> (length fs < fuel)%nat ->
  wp (loop fuel (process_frame conn (pre ++ stream fs ++ part)) (zlen pre)) (fun r g' =>
    r = zlen (pre ++ stream fs) /\ consumed_events conn (classified c) fs g g') g.
Proof.
  intros Hfs Hp. revert pre fuel g.
  induction Hfs as [|f fs Hf _ IH]; intros pre [|fuel] g Hc Hok Hfuel; cbn in Hfuel; try lia;
    cbn [loop].
  - apply wp_bind, process_frame_partial; [done|]. apply wp_ret. rewrite app_nil_r.
    split; [done|]. exists (g_agents g), []. split; [constructor|].
    eapply seen_internal; [by apply became_refl|constructor].
  - change (stream (f :: fs)) with (ef_wire f ++ stream fs). rewrite <- app_assoc.
    apply wp_bind. eapply wp_mono; [by apply process_frame_event|].
    intros r g1 [-> H1]. rewrite (app_assoc pre).
    destruct (H1) as (l & out & _ & S1).
    eapply wp_mono; [apply (IH (pre ++ ef_wire f))|].
    + by eapply seen_conn.
    + eapply env_ok_env; [by eapply seen_env|done].
    + lia.
    + intros r g2 [-> H2]. rewrite app_assoc. split; [done|].
      by apply (consumed_trans _ _ [f]  fs _ _ _ H1 H2).
Qed.

Lemma stream_length fs : Forall ef_ok fs -> (length fs <= length (stream fs))%nat.
Proof.
  induction 1 as [|f fs Hf _ IH]; [done|]. change (stream (f :: fs)) with (ef_wire f ++ stream fs).
  apply zlen_ef_wire in Hf. rewrite length_app. unfold zlen in Hf. cbn [length]. lia.
Qed.

(** A buffer that holds frames and the beginning of one looks like the agent
    protocol once 36 bytes are there, and like nothing before. *)
Lemma looks_like_stream fs part :
  Forall ef_ok fs -> partial part -> 36 <= zlen (stream fs ++ part) ->
  looks_like_wzcp (stream fs ++ part) (zlen (stream fs ++ part)) = Some true.
Proof.
  intros Hfs Hp Hl.
  assert (exists f more, ef_ok f /\ (stream fs ++ part) ++ more = ef_wire f ++
    drop (length (ef_wire f)) ((stream fs ++ part) ++ more)) as (f & more & Hf & E).
  { destruct Hfs as [|f fs Hf Hfs].
    - destruct Hp as [->|(f & more & Hf & _ & E)]; [done|]. exists f, more. split; [done|].
      cbn [app stream map concat]. rewrite E, drop_all. by rewrite app_nil_r.
    - exists f, []. split; [done|]. change (stream (f :: fs)) with (ef_wire f ++ stream fs).
      by rewrite <- !app_assoc, drop_app_length. }
  set (buf := stream fs ++ part) in *.
  assert (exists tail, buf = be_bytes 4 (32 + zlen (ef_body f)) ++
    be_bytes 4 XSIAM_WZCP_MAGIC ++ tail) as [tail Et].
  { pose proof (zlen_ef_wire f Hf).
    destruct (partial_head (take 36 buf) f (drop 36 (ef_wire f)) Hf) as [tail Et].
    - rewrite <- (take_drop 36 (ef_wire f)) at 2. f_equal.
      apply (f_equal (take 36)) in E. rewrite !take_app_le in E by (unfold zlen in *; lia).
      exact E.
    - rewrite zlen_take_nat. lia.
    - exists (tail ++ drop 36 buf). rewrite <- (take_drop 36 buf) at 1. rewrite Et.
      by rewrite <- !app_assoc. }
  unfold looks_like_wzcp. change (4 + WZCP_HEADER_SIZE) with 36.
  destruct (Z.ltb_spec (zlen buf) 36) as [|_]; [lia|].
  pose proof (zlen_ef_body f) as Lb. pose proof (efo_len f Hf) as Lm.
  pose proof (zlen_nonneg (ef_msg f)).
  rewrite Et. change (GwState.get_be32 ?b) with (rd32 b). rewrite rd32_be_bytes.
  rewrite (uwrap_small 32) by (unfold fits; lia). cbn [mbind option_bind].
  unfold WZCP_HEADER_SIZE, WZCP_MAX_FRAME. destruct (orb _ _) eqn:E1; [lia|].
  change (drop 4 (be_bytes 4 ?x ++ ?r)) with r. rewrite rd32_be_bytes. done.
Qed.

Lemma looks_like_nothing part :
  partial part -> zlen part < 36 -> looks_like_wzcp part (zlen part) = Some false /\
    looks_like_syslog part (zlen part) = Some false.
Proof.
  intros Hp Hl. split.
  - unfold looks_like_wzcp. change (4 + WZCP_HEADER_SIZE) with 36.
    destruct (Z.ltb_spec (zlen part) 36); [done|lia].
  - destruct Hp as [->|(f & more & Hf & _ & E)]; [done|].
    destruct part as [|b part]; [done|].
    assert (b = 0) as ->.
    { pose proof (zlen_ef_body f) as Lb. pose proof (efo_len f Hf) as Lm.
      pose proof (zlen_nonneg (ef_msg f)).
      unfold ef_wire, wire_frame in E. cbn [be_bytes app] in E. injection E as E _.
      rewrite E. change XSIAM_WZCP_HEADER_SIZE with 32. change (8 * Z.of_nat 3) with 24.
      rewrite Z.shiftr_div_pow2, Z.div_small by lia. done. }
    unfold looks_like_syslog. destruct (Z.leb_spec (zlen (0 :: part)) 0) as [|_]; [zlia|].
    change (load1 (0 :: part) 0) with (Some 0). cbn [mbind option_bind Z.eqb andb].
    by rewrite to_nat_zlen, firstn_all.
Qed.

Lemma process_buffer_stream conn c fs part g :
  g_heap g !! conn = Some c -> conn_wf c -> env_ok (g_world g) ->
  Forall ef_ok fs -> partial part -> conn_data c = stream fs ++ part ->
  wp (process_buffer conn) (fun r g' => r = zlen (stream fs) /\
    exists c', same_socket c c' /\ consumed_events conn c' fs g g') g.
Proof.
  intros Hc Hwf Hok Hfs Hp Hd. pose proof (zlen_conn_data c Hwf) as Hl.
  unfold process_buffer. apply wp_bind. eapply wp_get_conn; [exact Hc|]. cbv zeta.
  fold (conn_data c). rewrite <- Hl, Hd.
  destruct (Z.leb_spec 36 (zlen (stream fs ++ part))) as [H36|H36].
  - apply wp_bind. eapply wp_lift; [by apply looks_like_stream|].
    unfold process_frames. apply wp_bind. eapply wp_mono; [by apply classify_seen|].
    intros [] g1 S1. pose proof (seen_conn _ _ _ _ _ _ _ S1) as Hc1.
    apply wp_bind. eapply wp_get_conn; [exact Hc1|]. cbv zeta.
    fold (conn_data (classified c)). change (conn_data (classified c)) with (conn_data c).
    rewrite Hd. eapply wp_mono.
    { apply (frames_loop conn c fs part []); [done|done|exact Hc1| |].
      - eapply env_ok_env; [by eapply seen_env|done].
      - pose proof (stream_length fs Hfs). cbn [app]. rewrite length_app. lia. }
    intros r g2 [-> (l & out & A & S2)]. split; [done|]. exists (classified c). split.
    { by eexists _, _, _. }
    exists l, out. split; [done|].
    eapply (seen_trans _ _ _ _ _ [] _ []); [|exact S1|exact S2]; done.
  - destruct Hfs as [|f fs Hf _].
    2:{ change (stream (f :: fs)) with (ef_wire f ++ stream fs) in H36.
        apply zlen_ef_wire in Hf. revert H36. rewrite !zlen_app. zlia. }
    cbn [stream map concat app] in *. destruct (looks_like_nothing part Hp H36) as [E1 E2].
    apply wp_bind. eapply wp_lift; [exact E1|]. apply wp_bind. eapply wp_lift; [exact E2|].
    change (4 + WZCP_HEADER_SIZE) with 36.
    destruct (Z.geb_spec (zlen part) 36) as [|_]; [lia|]. apply wp_ret.
    split; [done|]. exists c. split; [apply same_socket_refl|].
    exists (g_agents g), []. split; [constructor|].
    eapply seen_internal; [by apply became_refl|constructor].
Qed.

(** ** The event handler

    What the handler sees and does, apart from its own state. *)
Definition moved (fd : Z) (ing : list (list log_record)) (out : bytes) (g g' : gw) : Prop :=
  exists t, w_trace (g_world g') = w_trace (g_world g) ++ t /\ ingests t = ing /\
    sent_to fd t = out /\ env (g_world g') = env (g_world g) /\ g_ctx g' = g_ctx g.

Lemma moved_refl fd g : moved fd [] [] g g.
Proof. exists []. by rewrite app_nil_r. Qed.

Lemma moved_trans fd i1 i2 o1 o2 g1 g2 g3 :
  moved fd i1 o1 g1 g2 -> moved fd i2 o2 g2 g3 -> moved fd (i1 ++ i2) (o1 ++ o2) g1 g3.
Proof.
  intros (t & T & <- & <- & E & C) (u & U & <- & <- & E' & C'). exists (t ++ u).
  rewrite ingests_app, sent_to_app, U, T, app_assoc. split_and!; congruence.
Qed.

Lemma seen_moved conn c l ing out g g' :
  seen conn c l ing out g g' ->
  moved (conn_connection c) ing out g g' /\ w_input (g_world g') = w_input (g_world g).
Proof.
  intros (r & t & (w & (T & I & E) & ->) & <- & <-). split; [|exact I].
  exists t. by split_and!.
Qed.

(** The same connection, whatever its buffer and labels. *)
Definition same_session (c c' : xsiam_agent_conn) : Prop :=
  conn_connection c' = conn_connection c /\ conn_session_id c' = conn_session_id c /\
  conn_pending_close c' = conn_pending_close c.

Lemma same_socket_session c c' : same_socket c c' -> same_session c c'.
Proof. by intros (k & t & gr & ->). Qed.

Lemma same_session_trans c1 c2 c3 :
  same_session c1 c2 -> same_session c2 c3 -> same_session c1 c3.
Proof. intros (? & ? & ?) (? & ? & ?). split_and!; congruence. Qed.

(** A frame and a chunk fit the largest buffer. *)
Definition roomy (ctx : xsiam_agent_ctx) : Prop :=
  0 < ctx_chunk_size ctx /\ 58 + 65535 + ctx_chunk_size ctx <= ctx_buffer_size ctx < 2 ^ 31.

Lemma partial_length part : partial part -> zlen part < 58 + 65535.
Proof.
  intros [->|(f & more & Hf & Hm & E)]; [done|]. apply zlen_ef_wire in Hf. rewrite <- E in Hf.
  assert (0 < zlen more) by (destruct more; [done|zlia]). zlia.
Qed.

Lemma ensure_room_grows conn c g :
  g_heap g !! conn = Some c -> conn_wf c -> roomy (g_ctx g) -> alloc_ok (g_world g) ->
  partial (conn_data c) ->
  wp (ensure_room conn) (fun r g' => r = None /\ exists c',
    became conn c' (g_agents g) (g_records g) [] g g' /\ conn_wf c' /\ same_session c c' /\
    conn_data c' = conn_data c /\ 0 < conn_buf_size c' - conn_buf_len c') g.
Proof.
  intros Hc Hwf [Hchunk Hbuf] Hok Hp. pose proof (partial_length _ Hp) as Lp.
  rewrite zlen_conn_data in Lp by done. pose proof (Hwf) as [Hlen Hsize Hmax Hbytes].
  unfold ensure_room. apply wp_bind. eapply wp_get_conn; [exact Hc|].
  destruct (Z.ltb_spec (conn_buf_size c - conn_buf_len c) 1).
  2:{ apply wp_ret. split; [done|]. exists c. split_and!; [by apply became_refl|done..|lia]. }
  apply wp_bind, wp_gets. rewrite uwrap_small by (unfold fits; lia).
  destruct (Z.gtb_spec (conn_buf_size c + ctx_chunk_size (g_ctx g)) (ctx_buffer_size (g_ctx g)));
    [lia|].
  cbv zeta. rewrite (s32_small (ctx_chunk_size _)), s32_small by lia.
  apply wp_bind, wp_gw_alloc. intros ok g1 (w & Hw & ->) Ha. rewrite (Ha Hok). cbn [negb].
  apply wp_bind. eapply wp_set_conn; [exact Hc|]. apply wp_ret. split; [done|].
  set (size := conn_buf_size c + ctx_chunk_size (g_ctx g)).
  eexists. split; [exists w; split; [exact Hw|reflexivity]|]. split_and!; try done.
  - constructor; cbn [conn_buf_len conn_buf_size conn_buf_data update eta_conn].
    + lia.
    + rewrite zlen_app, zlen_replicate. unfold size. lia.
    + lia.
    + apply Forall_app_2; [done|]. by apply Forall_replicate.
  - unfold conn_data. cbn [conn_buf_len conn_buf_data update eta_conn].
    apply take_app_le. unfold zlen in *. lia.
  - cbn [conn_buf_len conn_buf_size update eta_conn]. unfold size. lia.
Qed.

(** What an event of a connection has to respect. *)
Record link (conn : nat) (todo : list event_frame) (g : gw) (c : xsiam_agent_conn) : Prop := {
  lk_conn : g_heap g !! conn = Some c;
  lk_wf : conn_wf c;
  lk_open : conn_pending_close c = false;
  lk_env : env_ok (g_world g);
  lk_reads : forall k, 0 < answer (w_read (g_world g)) k;
  lk_roomy : roomy (g_ctx g);
  lk_todo : Forall ef_ok todo;
  lk_partial : partial (conn_data c);
  lk_stream : conn_data c ++ w_input (g_world g) (conn_connection c) = stream todo;
}.

(** Storing the bytes read after the buffered ones. *)
Lemma buffered_bytes c data :
  conn_wf c -> bytes_ok data -> zlen data <= conn_buf_size c - conn_buf_len c ->
  exists buf, store (conn_buf_data c) (conn_buf_len c) data = Some buf /\
    let c' := c <| conn_buf_data := buf |> <| conn_buf_len := conn_buf_len c + zlen data |> in
    conn_wf c' /\ conn_data c' = conn_data c ++ data.
Proof.
  intros Hwf Hd Hl. pose proof (zlen_conn_data c Hwf) as Lc. destruct (Hwf) as [Hlen Hsize Hmax Hb].
  pose proof (zlen_nonneg data).
  eexists. split.
  { transitivity (store (conn_data c ++ drop (Z.to_nat (conn_buf_len c)) (conn_buf_data c))
      (conn_buf_len c) data).
    - f_equal. symmetry. apply take_drop.
    - apply store_at; [done|]. rewrite zlen_drop; lia. }
  cbv zeta. split.
  - constructor; cbn [conn_buf_len conn_buf_size conn_buf_data update eta_conn].
    + lia.
    + rewrite !zlen_app, Lc. rewrite zlen_drop_nat, zlen_drop by lia. unfold zlen in *. lia.
    + lia.
    + unfold conn_data. apply Forall_app_2; [apply Forall_app_2; [by apply Forall_take|done]|].
      by apply Forall_drop, Forall_drop.
  - unfold conn_data at 1. cbn [conn_buf_len conn_buf_data update eta_conn].
    replace (Z.to_nat (conn_buf_len c + zlen data)) with (length (conn_data c ++ data))
      by (rewrite length_app; unfold zlen in *; lia).
    apply take_app_length.
Qed.

(** [n] of the events were served, and input was taken. *)
Definition served (conn : nat) (todo : list event_frame) (c : xsiam_agent_conn) (g : gw)
    (n : nat) (c' : xsiam_agent_conn) (g' : gw) : Prop :=
  let fd := conn_connection c in
  (exists out, acked (take n todo) out /\
    moved fd (map (fun f => [session_record (conn_session_id c) f]) (take n todo)) out g g') /\
  same_session c c' /\ link conn (drop n todo) g' c' /\
  (length (w_input (g_world g') fd) < length (w_input (g_world g) fd))%nat.

Lemma read_step conn todo g c :
  link conn todo g c -> 0 < conn_buf_size c - conn_buf_len c ->
  w_input (g_world g) (conn_connection c) <> [] ->
  bytes_ok (w_input (g_world g) (conn_connection c)) ->
  wp (read_and_process conn) (fun r g' => r = None /\
    exists n c', served conn todo c g n c' g') g.
Proof.
  intros [] Hroom Hne Hin. set (fd := conn_connection c) in *.
  unfold read_and_process. apply wp_bind. eapply wp_get_conn; [exact lk_conn0|].
  apply wp_bind, wp_socket_read; [lia|]. fold fd. intros data g1 Edata Ldata Hread Hnil.
  change (world_of g) with (g_world g) in *.
  destruct (Z.leb_spec (zlen data) 0) as [Hz|Hpos].
  { assert (data = []) as D by (destruct data; [done|zlia]).
    destruct (Hnil D) as [H|H]; [|done]. specialize (lk_reads0 (asked (w_read (g_world g)))).
    unfold next in H. lia. }
  clear Hnil. destruct Hread as (fr & -> & T1 & E1 & I1).
  set (w1 := fr (g_world g)) in *. change (world_of (in_world fr g)) with w1 in *.
  assert (Hdok : bytes_ok data) by (rewrite Edata; by apply Forall_take).
  assert (Hcut : w_input (g_world g) fd = data ++ w_input w1 fd).
  { rewrite I1, Z.eqb_refl, to_nat_zlen. rewrite Edata at 1. symmetry. apply take_drop. }
  destruct (buffered_bytes c data lk_wf0 Hdok Ldata) as (buf & Estore & Hwf2 & Hd2).
  apply wp_bind. eapply wp_lift; [exact Estore|].
  apply wp_bind. eapply wp_set_conn; [exact lk_conn0|].
  set (c2 := c <| conn_buf_data := _ |> <| conn_buf_len := _ |>) in *.
  lazymatch goal with |- wp _ _ ?s => set (g2 := s) end.
  destruct (cut_stream todo (conn_data c ++ data) (w_input w1 fd)) as (n & part & Ex & Hp & Ey);
    [done|by rewrite <- app_assoc, <- Hcut|].
  assert (Hc2 : g_heap g2 !! conn = Some c2) by apply lookup_insert_eq.
  assert (Hok2 : env_ok (g_world g2)) by (eapply env_ok_env; [exact E1|done]).
  apply wp_bind. eapply wp_mono.
  { apply (process_buffer_stream conn c2 (take n todo) part); [exact Hc2|done|done| |done|].
    - by apply Forall_take.
    - by rewrite Hd2. }
  intros r g3 [-> (c3 & S23 & l & out & Ha & S3)].
  pose proof (zlen_nonneg (stream (take n todo))) as Hr0.
  destruct (Z.ltb_spec (zlen (stream (take n todo))) 0) as [|_]; [lia|].
  apply wp_bind. eapply wp_get_conn; [by eapply seen_conn|].
  pose proof (same_socket_wf _ _ S23 Hwf2) as Hwf3.
  assert (Ed3 : conn_data c3 = stream (take n todo) ++ part).
  { rewrite <- Ex, <- Hd2. by destruct S23 as (? & ? & ? & ->). }
  pose proof (zlen_conn_data c3 Hwf3) as L3. rewrite Ed3, zlen_app in L3.
  pose proof (zlen_nonneg part). pose proof (Hwf3) as [Hlen3 Hsize3 Hmax3 Hb3].
  destruct (consume_bytes_spec (conn_buf_data c3) (zlen (stream (take n todo))) (conn_buf_len c3))
    as (buf' & Ecb & Lb' & Bb' & Htake); [lia|lia|done|].
  apply wp_bind. eapply wp_lift; [exact Ecb|].
  apply wp_bind. eapply wp_set_conn; [by eapply seen_conn|]. apply wp_ret. split; [done|].
  set (c4 := c3 <| conn_buf_data := _ |> <| conn_buf_len := _ |>).
  assert (Ed4 : conn_data c4 = part).
  { unfold conn_data at 1. cbn [c4 conn_buf_len conn_buf_data update eta_conn].
    rewrite Htake. fold (conn_data c3). rewrite Ed3, to_nat_zlen. apply drop_app_length. }
  destruct (seen_moved _ _ _ _ _ _ _ S3) as [M3 I3].
  assert (Ss : same_session c c3).
  { eapply (same_session_trans _ c2); [done|by apply same_socket_session]. }
  destruct Ss as (Sc & Ssid & Spend). change (conn_connection c2) with fd in *.
  exists n, c4. split; [|split; [done|split]].
  - exists out. split; [done|]. fold fd. rewrite Sc, Ssid in M3.
    destruct M3 as (t & T3 & Hi & Ho & E3 & C3). exists t.
    split_and!; [|done|done| |]; cbn [g_world g_ctx update eta_gw].
    + rewrite T3. f_equal. exact T1.
    + rewrite E3. exact E1.
    + rewrite C3. done.
  - constructor; cbn [g_heap g_world g_ctx update eta_gw].
    + apply lookup_insert_eq.
    + constructor; cbn [c4 conn_buf_len conn_buf_size conn_buf_data update eta_conn]; lia || done.
    + etrans; [exact Spend|exact lk_open0].
    + destruct M3 as (t & _ & _ & _ & E3 & _). eapply env_ok_env; [exact E3|done].
    + destruct M3 as (t & _ & _ & _ & E3 & _). intros k. rewrite (env_read _ _ E3).
      change (w_read (g_world g2)) with (w_read w1). rewrite (env_read _ _ E1). apply lk_reads0.
    + destruct M3 as (t & _ & _ & _ & _ & C3). rewrite C3. done.
    + by apply Forall_drop.
    + by rewrite Ed4.
    + rewrite Ed4. change (conn_connection c4) with (conn_connection c3). rewrite Sc, I3.
      exact Ey.
  - cbn [g_world update eta_gw]. rewrite I3. change (w_input (g_world g2)) with (w_input w1).
    fold fd. rewrite Hcut, length_app. unfold zlen in Hpos. lia.
Qed.

(** A change of the connection that keeps what is buffered. *)
Lemma link_became conn todo c c' g g' :
  link conn todo g c -> became conn c' (g_agents g) (g_records g) [] g g' ->
  conn_wf c' -> same_session c c' -> conn_data c' = conn_data c ->
  link conn todo g' c' /\ moved (conn_connection c) [] [] g g' /\
  w_input (g_world g') = w_input (g_world g).
Proof.
  intros [] Hb Hwf (Sc & _ & Sp) Hd.
  assert (S : seen conn c' (g_agents g) [] [] g g') by (eapply seen_internal; [exact Hb|constructor]).
  destruct (seen_moved _ _ _ _ _ _ _ S) as [M I]. rewrite Sc in M. split_and!; [|done|done].
  constructor; try done.
  - by eapply seen_conn.
  - by rewrite Sp.
  - eapply env_ok_env; [by eapply seen_env|done].
  - intros k. rewrite (env_read _ _ (seen_env _ _ _ _ _ _ _ S)). apply lk_reads0.
  - by rewrite (seen_ctx _ _ _ _ _ _ _ S).
  - by rewrite Hd.
  - by rewrite Hd, Sc, I.
Qed.

Lemma moved_nil_l fd i o g1 g2 g3 :
  moved fd [] [] g1 g2 -> moved fd i o g2 g3 -> moved fd i o g1 g3.
Proof. apply (moved_trans fd [] i [] o). Qed.

Lemma moved_nil_r fd i o g1 g2 g3 :
  moved fd i o g1 g2 -> moved fd [] [] g2 g3 -> moved fd i o g1 g3.
Proof.
  intros H1 H2. rewrite <- (app_nil_r i), <- (app_nil_r o). by eapply moved_trans.
Qed.

Lemma event_step conn todo g c :
  link conn todo g c -> w_input (g_world g) (conn_connection c) <> [] ->
  bytes_ok (w_input (g_world g) (conn_connection c)) ->
  wp (conn_event conn true false) (fun r g' => r = 0 /\
    exists n c', served conn todo c g n c' g') g.
Proof.
  intros Hl Hne Hin. pose proof (lk_conn _ _ _ _ Hl) as Hc. pose proof (lk_wf _ _ _ _ Hl) as Hwf.
  unfold conn_event. apply wp_bind. eapply wp_mono; [by apply set_busy_spec|]. intros [] g1 H1.
  set (c1 := c <| conn_busy := true |>) in *.
  destruct (link_became _ _ _ _ _ _ Hl H1) as (Hl1 & M1 & I1); [by destruct Hwf|done|done|].
  apply wp_bind, wp_bind. eapply wp_mono.
  { apply (ensure_room_grows conn c1); try apply Hl1. }
  intros r g2 (-> & c2 & H2 & Hwf2 & Ss2 & Hd2 & Hroom).
  destruct (link_became _ _ _ _ _ _ Hl1 H2 Hwf2 Ss2 Hd2) as (Hl2 & M2 & I2).
  change (conn_connection c1) with (conn_connection c) in M2.
  assert (Sc2 : conn_connection c2 = conn_connection c) by apply Ss2.
  assert (Esid2 : conn_session_id c2 = conn_session_id c) by apply Ss2.
  eapply wp_mono.
  { eapply (read_step conn todo g2 c2); [done|done| |]; by rewrite Sc2, I2, I1. }
  intros r g3 (-> & n & c3 & (out & Ha & M3) & Ss3 & Hl3 & Hlt).
  rewrite Sc2, ?Esid2 in *.
  apply wp_bind. eapply wp_mono; [apply set_busy_spec, Hl3|]. intros [] g4 H4.
  set (c4 := c3 <| conn_busy := false |>) in *.
  destruct (link_became _ _ _ _ _ _ Hl3 H4) as (Hl4 & M4 & I4);
    [destruct (lk_wf _ _ _ _ Hl3); by constructor|done|done|].
  assert (Sc3 : conn_connection c3 = conn_connection c) by (rewrite <- Sc2; apply Ss3).
  rewrite Sc3 in M4.
  apply wp_bind. eapply wp_get_conn; [apply Hl4|]. rewrite (lk_open _ _ _ _ Hl4).
  apply wp_ret. split; [done|]. exists n, c4. split; [|split; [|split]].
  - exists out. split; [done|].
    eapply moved_nil_l; [exact M1|]. eapply moved_nil_l; [exact M2|].
    eapply moved_nil_r; [exact M3|exact M4].
  - eapply (same_session_trans _ c2); [|done]. by eapply (same_session_trans _ c1).
  - exact Hl4.
  - by rewrite I4, <- I1, <- I2.
Qed.

(** The engine calls the handler while the connection is readable. *)
Fixpoint serve (fuel : nat) (conn : nat) (fd : Z) : ST gw unit :=
  match fuel with
  | O => ub
  | Datatypes.S k =>
      avail ← gets (fun g => w_input (g_world g) fd);
      if bool_decide (avail = []) then mret tt else
      _ ← conn_event conn true false; serve k conn fd
  end.

(** No beginning of a frame is a whole number of frames. *)
Lemma partial_stream part fs : partial part -> Forall ef_ok fs -> part = stream fs -> fs = [].
Proof.
  intros Hp Hfs E. destruct Hfs as [|f fs Hf _]; [done|].
  change (stream (f :: fs)) with (ef_wire f ++ stream fs) in E. subst part.
  destruct Hp as [D|(f' & more & Hf' & Hm & E)].
  - apply app_eq_nil in D as [D _]. apply zlen_ef_wire in Hf. rewrite D in Hf.
    change (zlen []) with 0 in Hf. lia.
  - exfalso. apply Hm. rewrite <- app_assoc in E. rewrite <- (app_nil_r (ef_wire f')) in E.
    destruct (wire_frame_inj (ef_header f) (ef_header f') (ef_body f) (ef_body f')
      (stream fs ++ more) [] (ef_frame_wf f Hf) (ef_frame_wf f' Hf') E) as (_ & _ & En).
    clear E. rename En into E.
    symmetry in E. by apply app_eq_nil in E as [_ ->].
Qed.

Lemma serve_stream fuel conn todo g c :
  gw_wf g -> link conn todo g c ->
  (length (w_input (g_world g) (conn_connection c)) < fuel)%nat ->
  wp (serve fuel conn (conn_connection c)) (fun _ g' => exists out c',
    acked todo out /\
    moved (conn_connection c) (map (fun f => [session_record (conn_session_id c) f]) todo) out g g' /\
    w_input (g_world g') (conn_connection c) = [] /\ conn ∈ g_connections g' /\
    same_session c c' /\ link conn [] g' c' /\ conn_data c' = []) g.
Proof.
  revert todo g c. induction fuel as [|fuel IH]; intros todo g c Hwf Hl Hfuel; [lia|].
  cbn [serve]. apply wp_bind, wp_gets.
  pose proof (lk_stream _ _ _ _ Hl) as Est. pose proof (lk_todo _ _ _ _ Hl) as Htodo.
  assert (Hlive : conn ∈ g_connections g) by (apply (gwf_live g Hwf); eexists; apply Hl).
  case_bool_decide as Hin.
  - apply wp_ret. rewrite Hin, app_nil_r in Est.
    pose proof (partial_stream _ _ (lk_partial _ _ _ _ Hl) Htodo Est) as ->.
    exists [], c. split; [apply acked_nil|]. split; [apply moved_refl|].
    split; [done|]. split; [done|]. split; [done|]. by split.
  - apply wp_bind. eapply wp_mono.
    { apply wp_and; [by apply (conn_event_spec conn true false g)|].
      apply (event_step conn todo g c Hl Hin). apply Hwf. }
    intros r g1 [(Hwf1 & _) (-> & n & c1 & (o1 & A1 & M1) & Ss & Hl1 & Hlt)].
    assert (Sc : conn_connection c1 = conn_connection c) by apply Ss.
    assert (Esid : conn_session_id c1 = conn_session_id c) by apply Ss.
    eapply wp_mono.
    { rewrite <- Sc. apply (IH (drop n todo) g1 c1); [done|done|rewrite Sc; lia]. }
    intros [] g2 (o2 & c2 & A2 & M2 & I2 & Hlive2 & Ss2 & Hl2 & Hd2).
    rewrite Sc, Esid in *. exists (o1 ++ o2), c2.
    split; [rewrite <- (take_drop n todo); by apply acked_app|].
    split; [rewrite <- (take_drop n todo), map_app; by eapply moved_trans|].
    split; [done|]. split; [done|]. split; [by eapply same_session_trans|]. by split.
Qed.

(** * The agent reads the gateway's acknowledgements *)

Definition ack_header (seq ts : Z) : xsiam_wzcp_header :=
  sent_header XSIAM_WZCP_MSG_ACK 0 seq (u64 ts) 8.

Lemma ack_frame_wire seq ts :
  ack_frame seq ts = wire_frame (ack_header seq ts) (be_bytes 8 seq).
Proof.
  unfold ack_frame, gw_frame, gw_header, wire_frame, wire_header, ack_header, sent_header.
  cbn [h_magic h_version h_header_len h_flags h_msg_type h_agent_id h_seq h_timestamp_ms h_body_len].
  by rewrite be_bytes_uwrap.
Qed.

Lemma ack_frame_wf seq ts : fits 64 seq -> frame_wf (ack_header seq ts) (be_bytes 8 seq).
Proof.
  intros Hs. apply (sent_header_wf XSIAM_WZCP_MSG_ACK 0 seq (u64 ts) (be_bytes 8 seq));
    [done|done|done|apply uwrap_fits; lia|done].
Qed.

Lemma ack_frame_ok seq ts : fits 64 seq -> bytes_ok (ack_frame seq ts).
Proof.
  intros Hs. rewrite ack_frame_wire. unfold wire_frame. solve_bytes_ok.
  apply wire_header_ok, ack_frame_wf, Hs.
Qed.

Lemma acked_ok fs out : Forall ef_ok fs -> acked fs out -> bytes_ok out.
Proof.
  intros Hfs H. induction H as [|f fs ts out _ IH]; [constructor|].
  apply Forall_cons in Hfs as [Hf Hfs]. apply Forall_app_2; [apply ack_frame_ok, Hf|by apply IH].
Qed.

Section agent_side.
Context (stack : Z -> bytes) (header0 : xsiam_wzcp_header) (secure_receive : ST agentd Z).
Hypothesis stack_size : forall n, 0 <= n -> zlen (stack n) = n.

(** The receiver is called once per frame. *)
Fixpoint receive_msgs (n : nat) : ST agentd (list Z) :=
  match n with
  | O => mret []
  | Datatypes.S k =>
      rc ← receive_msg stack header0 secure_receive; rcs ← receive_msgs k; mret (rc :: rcs)
  end.

Lemma receive_acks fs out rest a :
  Forall ef_ok fs -> acked fs out -> bytes_ok rest -> wzcp_on (ad_process a) ->
  w_input (p_world (ad_process a)) (ad_sock a) = out ++ rest ->
  (forall k, 0 < answer (w_read (p_world (ad_process a))) k) ->
  wp (receive_msgs (length fs)) (fun rcs a' => rcs = replicate (length fs) 0 /\
    w_input (p_world (ad_process a')) (ad_sock a) = rest) a.
Proof.
  intros Hfs Hack Hrest. revert a. induction Hack as [|f fs ts out Hack IH]; intros a Hon Hin Hpos.
  { apply wp_ret. by split. }
  apply Forall_cons in Hfs as [Hf Hfs]. cbn [length receive_msgs]. apply wp_bind.
  rewrite ack_frame_wire, <- app_assoc in Hin.
  eapply wp_mono.
  { eapply (receive_ack_spec stack header0 secure_receive stack_size); [done|exact Hin| |done|
      done| |done].
    - apply ack_frame_wf, Hf.
    - rewrite <- ack_frame_wire. apply Forall_app_2; [apply ack_frame_ok, Hf|].
      apply Forall_app_2; [by eapply acked_ok|done]. }
  intros rc a1 (-> & _ & HI & _ & HE & Hsk & Hpe). apply wp_bind.
  eapply wp_mono; [apply (IH Hfs a1)|].
  - unfold wzcp_on. by rewrite Hpe.
  - by rewrite Hsk.
  - intros k. rewrite (env_read _ _ HE). apply Hpos.
  - intros rcs a2 [-> HI2]. apply wp_ret. by rewrite Hsk in HI2.
Qed.
End agent_side.

(** * A HELLO in the buffer of its connection *)

Lemma looks_like_frame h body rest :
  frame_wf h body -> 32 + zlen body <= WZCP_MAX_FRAME ->
  looks_like_wzcp (wire_frame h body ++ rest) (zlen (wire_frame h body ++ rest)) = Some true.
Proof.
  intros (Hf & Ha & Hl) Hmax. apply header_accepted_spec in Ha as (Hmagic & _).
  pose proof (zlen_nonneg body). pose proof (zlen_nonneg rest).
  unfold looks_like_wzcp. change (4 + WZCP_HEADER_SIZE) with 36.
  destruct (Z.ltb_spec (zlen (wire_frame h body ++ rest)) 36) as [Hs|_].
  { rewrite zlen_app, zlen_wire_frame in Hs. lia. }
  unfold wire_frame, wire_header. rewrite <- !app_assoc.
  change (GwState.get_be32 ?b) with (rd32 b). rewrite rd32_be_bytes.
  change XSIAM_WZCP_HEADER_SIZE with 32. unfold WZCP_MAX_FRAME in Hmax.
  rewrite (uwrap_small 32) by (unfold fits; lia). cbn [mbind option_bind].
  unfold WZCP_HEADER_SIZE, WZCP_MAX_FRAME. destruct (orb _ _) eqn:E1; [lia|].
  change (drop 4 (be_bytes 4 ?x ++ ?r)) with r. rewrite rd32_be_bytes, Hmagic. done.
Qed.

Lemma hf_frame_wf f : hf_ok f -> frame_wf (hf_header f) (hf_body f).
Proof.
  intros Hf. pose proof (zlen_hf_body f Hf). destruct Hf.
  apply sent_header_wf; [done|done|done|done|].
  unfold XSIAM_WZCP_MAX_FRAME, OS_SIZE_2048 in *. lia.
Qed.

Lemma process_buffer_hello conn c f g :
  g_heap g !! conn = Some c -> conn_wf c -> env_ok (g_world g) -> hf_ok f ->
  conn_data c = hf_wire f ->
  wp (process_buffer conn) (fun r g' => r = zlen (hf_wire f) /\
    exists l ts, registered f g l /\
      seen conn (classified (keyed (classified c) (hf_id f))) l []
        (ack_frame (hf_seq f) ts) g g') g.
Proof.
  intros Hc Hwf Hok Hf Hd. pose proof (zlen_conn_data c Hwf) as Hl.
  pose proof (hf_frame_wf f Hf) as Hfw. pose proof (zlen_hf_body f Hf) as Lb.
  unfold OS_SIZE_2048 in Lb.
  assert (Hmax : 32 + zlen (hf_body f) <= WZCP_MAX_FRAME) by (unfold WZCP_MAX_FRAME; lia).
  assert (Ew : hf_wire f = wire_frame (hf_header f) (hf_body f) ++ []) by (by rewrite app_nil_r).
  unfold process_buffer. apply wp_bind. eapply wp_get_conn; [exact Hc|]. cbv zeta.
  fold (conn_data c). rewrite <- Hl, Hd. apply wp_bind. eapply wp_lift.
  { rewrite Ew. by apply looks_like_frame. }
  unfold process_frames. apply wp_bind. eapply wp_mono; [by apply classify_seen|].
  intros [] g1 S1. pose proof (seen_conn _ _ _ _ _ _ _ S1) as Hc1.
  apply wp_bind. eapply wp_get_conn; [exact Hc1|]. cbv zeta.
  fold (conn_data (classified c)). change (conn_data (classified c)) with (conn_data c).
  rewrite Hd. rewrite Ew at 2.
  assert (Hfuel : exists n, length (hf_wire f) = Datatypes.S n).
  { assert (36 <= zlen (hf_wire f)) as H by (unfold hf_wire; rewrite zlen_wire_frame; zlia).
    unfold zlen in H. exists (length (hf_wire f) - 1)%nat. lia. }
  destruct Hfuel as [n ->]. cbn [loop]. apply wp_bind.
  eapply (wp_mono _ (fun r g' => r = inl (zlen (hf_wire f)) /\
    exists l ts, registered f g l /\
      seen conn (classified (keyed (classified c) (hf_id f))) l []
        (ack_frame (hf_seq f) ts) g g')).
  { apply (process_frame_complete conn [] _ _ []); [done|done|].
    eapply wp_mono; [apply (handle_hello conn (classified c) f []); [done|exact Hc1|]|].
    { eapply env_ok_env; [by eapply seen_env|done]. }
    intros r g2 (-> & l & ts & (now0 & now & ->) & S2). split; [done|]. split; [done|].
    eexists _, ts. split; [by exists now0, now|].
    rewrite (seen_agents _ _ _ _ _ _ _ S1), (seen_ctx _ _ _ _ _ _ _ S1) in S2.
    eapply (seen_trans _ _ _ _ _ [] [] []); [|exact S1|exact S2]. done. }
  intros r g2 [-> H2]. cbn [loop]. apply wp_bind.
  rewrite <- Ew, <- (app_nil_r (hf_wire f)) at 1.
  apply process_frame_partial; [by left|]. by apply wp_ret.
Qed.

(** * Theorems *)

(** C3: the handshake works.  An agent that can describe itself, of a gateway that can
    be reached over a network that does not fail, sends one HELLO.  A gateway whose
    connection holds exactly these bytes consumes them and answers: its table has one
    online entry of the agent's identity, with the name, version, host type and adapter
    addresses of the HELLO, and the connection is keyed with it.  If the bytes the
    agent then reads begin with that answer, the handshake succeeds. *)
Theorem handshake_registers_agent stack header0 server_id a :
  (forall n, 0 <= n -> zlen (stack n) = n) ->
  gateway_ready a server_id -> describable a -> write_ok (p_world (ad_process a)) ->
  let sock := next (ad_connect a) in
  bytes_ok (w_input (p_world (ad_process a)) sock) ->
  exists ok a' f, wzcp_handshake_to_gateway stack header0 server_id a = Some (ok, a') /\
    hf_version f = ad_version a /\ ad_rip_id a' = server_id /\ ad_sock a' = sock /\
    sent_to sock (w_trace (p_world (ad_process a'))) =
      sent_to sock (w_trace (p_world (ad_process a))) ++ hf_wire f /\
    forall conn c g,
      g_heap g !! conn = Some c -> conn_wf c -> conn_data c = hf_wire f ->
      env_ok (g_world g) -> NoDup (ids (g_agents g)) ->
      exists g' c' b reply, process_buffer conn g = Some (zlen (hf_wire f), g') /\
        lookup_agent (hf_id f) (g_agents g') = Some b /\ st_is_connected b = true /\
        st_hostname b = given (Some (hf_name f)) (hf_id f) /\
        st_agent_version b = given (Some (hf_version f)) (str "unknown") /\
        st_host_type b = hf_host f /\ st_mac_addresses_json b = macs_json f /\
        g_heap g' !! conn = Some c' /\ conn_agent_key c' = Some (hf_id f) /\
        sent_to (conn_connection c) (w_trace (g_world g')) =
          sent_to (conn_connection c) (w_trace (g_world g)) ++ reply /\
        ((exists rest, w_input (p_world (ad_process a)) sock = reply ++ rest) ->
         (forall k, 0 < answer (w_read (p_world (ad_process a))) k) -> ok = true).
Proof.
  intros Hst Hg Hd Hw sock Hin.
  pose proof (handshake_spec stack header0 Hst server_id a Hg Hd Hin) as W.
  apply wp_run in W as (ok & a' & Hrun & f & k & Hf & _ & Hv & Hr & Hs & Hsent & _ & Hwok).
  destruct (Hwok Hw) as [-> Hack]. rewrite firstn_all in Hsent.
  exists ok, a', f. do 5 (split; [done|]).
  intros conn c g Hc Hwf Hdata Hok Hnd.
  pose proof (process_buffer_hello conn c f g Hc Hwf Hok Hf Hdata) as W.
  apply wp_run in W as (r & g' & Hp & -> & l & ts & (now0 & now & ->) & S).
  set (h := hello_agent f now) in *. set (fresh := new_agent (g_ctx g) (hf_id f) now0) in *.
  destruct (upsert_self (hf_id f) h fresh (g_agents g)) as (b & Hb & Hid & _); [done|done|].
  pose proof (seen_conn _ _ _ _ _ _ _ S) as Hc'.
  exists g'. eexists _, (h b), _. split; [exact Hp|].
  split.
  { rewrite (seen_agents _ _ _ _ _ _ _ S). apply list_elem_of_lookup in Hb as [i Hi].
    unfold lookup_agent. rewrite (find_agent_lookup _ _ i (h b)); [done| |done|done].
    by apply upsert_NoDup. }
  do 3 (split; [done|]). split; [by destruct (hfo_host f Hf) as [E | E]; unfold h; cbn; rewrite E|].
  split; [done|]. split; [exact Hc'|]. split; [done|].
  destruct (seen_moved _ _ _ _ _ _ _ S) as [(t & Ht & _ & Ho & _) _].
  split; [rewrite Ht, sent_to_app; f_equal; exact Ho|].
  intros [rest Hrest] Hpos. apply Hack. split; [done|].
  exists (ack_header (hf_seq f) ts), (be_bytes 8 (hf_seq f)), rest.
  split; [by rewrite <- ack_frame_wire|]. split; [apply ack_frame_wf, Hf|by split].
Qed.

(** C2: the messages the agent sends reach the engine.  If [send_msg] reports success
    for each of a list of messages, then a gateway connection that is handed the bytes
    so written, in chunks of any positive sizes that the network chooses and the buffer
    allows, ends with all of them consumed, still open and with an empty buffer; the
    engine was given exactly one record per message, in order, each with the session,
    the sequence numbers and the message itself; and every batch was acknowledged, by
    frames that the agent's [receive_msg] takes one by one, each with success. *)
Theorem events_reach_engine stack header0 secure_send secure_receive msgs a rcs a' :
  (forall n, 0 <= n -> zlen (stack n) = n) ->
  wzcp_on (ad_process a) -> is_Some (ad_key a) -> Forall message_ok msgs ->
  send_msgs stack secure_send msgs a = Some (rcs, a') -> Forall (fun rc => rc = 0) rcs ->
  exists fs wire, map ef_msg fs = msgs /\
    sent_to (ad_sock a) (w_trace (p_world (ad_process a'))) =
      sent_to (ad_sock a) (w_trace (p_world (ad_process a))) ++ wire /\
    forall conn c g fuel,
      gw_wf g -> g_heap g !! conn = Some c -> conn_data c = [] ->
      conn_pending_close c = false -> env_ok (g_world g) -> roomy (g_ctx g) ->
      (forall k, 0 < answer (w_read (g_world g)) k) ->
      w_input (g_world g) (conn_connection c) = wire -> (length wire < fuel)%nat ->
      exists g' c' t, serve fuel conn (conn_connection c) g = Some (tt, g') /\
        g_heap g' !! conn = Some c' /\ conn ∈ g_connections g' /\ conn_data c' = [] /\
        w_input (g_world g') (conn_connection c) = [] /\
        w_trace (g_world g') = w_trace (g_world g) ++ t /\
        ingests t = map (fun f => [session_record (conn_session_id c) f]) fs /\
        forall b rest, wzcp_on (ad_process b) ->
          w_input (p_world (ad_process b)) (ad_sock b) = sent_to (conn_connection c) t ++ rest ->
          bytes_ok rest -> (forall k, 0 < answer (w_read (p_world (ad_process b))) k) ->
          exists b', receive_msgs stack header0 secure_receive (length msgs) b =
              Some (replicate (length msgs) 0, b') /\
            w_input (p_world (ad_process b')) (ad_sock b) = rest.
Proof.
  intros Hst Hon Hk Hm Hsend H0.
  pose proof (send_msgs_spec stack secure_send Hst msgs a Hon Hk Hm) as W.
  unfold wp in W. rewrite Hsend in W. destruct W as [_ W].
  destruct (W H0) as (fs & Hmap & Hfs & Hsent).
  assert (Hlen : length msgs = length fs) by (by rewrite <- Hmap, length_map).
  exists fs, (stream fs). split; [done|]. split; [exact Hsent|].
  intros conn c g fuel Hwf Hc Hd Hpend Hok Hroom Hpos Hin Hfuel.
  assert (Hl : link conn fs g c).
  { constructor; try done.
    - by eapply gwf_conns.
    - rewrite Hd. by left.
    - by rewrite Hd, Hin. }
  pose proof (serve_stream fuel conn fs g c Hwf Hl ltac:(by rewrite Hin)) as W2.
  apply wp_run in W2 as ([] & g' & Hrun & out & c' & Hack & (t & Ht & Hi & Ho & _) & HI & Hlive &
    _ & Hl' & Hd').
  exists g', c', t. split; [exact Hrun|]. split; [apply Hl'|]. do 5 (split; [done|]).
  intros b rest Honb Hinb Hrest Hposb. rewrite Ho in Hinb.
  pose proof (receive_acks stack header0 secure_receive Hst fs out rest b Hfs Hack Hrest Honb
    Hinb Hposb) as W3.
  rewrite Hlen. apply wp_run in W3 as (rcs' & b' & Hrun' & -> & HIb). by exists b'.
Qed.

(** * Concrete instances *)

Lemma sample_agentd_ready connect input :
  0 <= connect 0%nat -> gateway_ready (sample_agentd connect input) 0.
Proof. intros Hc. constructor; try done. by exists (Server (str "gw1/10.0.0.1") false 10), (str "10.0.0.1"). Qed.

Lemma sample_agentd_describable connect input : describable (sample_agentd connect input).
Proof.
  constructor.
  - constructor; try done; [by split; constructor|]. intros n v. cbn.
    destruct (streq n _); [|done]. intros [= <-]. by split; repeat constructor.
  - exists (str "007", Some (str "host-7")). by split_and!; try split; repeat constructor.
  - by split_and!; try split; repeat constructor.
Qed.

Lemma sample_env_ok chunk input : 0 < chunk -> env_ok (sample_world chunk input).
Proof. by constructor. Qed.

(** A gateway with one connection and room for the largest frame. *)
Definition roomy_gw (data input : bytes) : gw :=
  (sample_gw [sample_conn 3 None data] [] input)
    <| g_ctx := sample_ctx <| ctx_buffer_size := 2 ^ 20 |> |>.

Lemma roomy_gw_wf data input :
  bytes_ok data -> zlen data <= 256 -> bytes_ok input -> gw_wf (roomy_gw data input).
Proof.
  intros Hd Hl Hi. destruct (sample_gw_wf [sample_conn 3 None data] [] input); try done.
  - by apply Forall_singleton, sample_conn_wf.
  - apply Forall_singleton. cbn -[Z.max]. lia.
  - by split; constructor.
  - constructor; try done. intros i c Hc%gwf_bound.
    cbn -[Z.pow Z.max] in *. lia.
Qed.

Example handshake_registers_agent_witness :
  let a := sample_agentd (fun _ => 5) (sample_ack 1) in
  exists a' f g' b, wzcp_handshake_to_gateway zero_stack blank_header 0 a = Some (true, a') /\
    process_buffer 0 (roomy_gw (hf_wire f) []) = Some (zlen (hf_wire f), g') /\
    lookup_agent (hf_id f) (g_agents g') = Some b /\ st_is_connected b = true /\
    st_hostname b = given (Some (hf_name f)) (hf_id f).
Proof.
  intros a.
  destruct (handshake_registers_agent zero_stack blank_header 0 a)
    as (ok & a' & f & Hrun & _ & _ & _ & Hsent & H).
  - intros n Hn. unfold zero_stack. rewrite zlen_replicate. lia.
  - by apply sample_agentd_ready.
  - apply sample_agentd_describable.
  - by intros n.
  - vm_compute. by repeat constructor.
  - set (sent r := match r : option (bool * agentd) with
                   | Some (ok, s) => (ok, sent_to 5 (w_trace (p_world (ad_process s))))
                   | None => (false, []) end) in *.
    assert (E : (ok, hf_wire f) = sent (wzcp_handshake_to_gateway zero_stack blank_header 0 a))
      by (rewrite Hrun; unfold sent; f_equal; exact (eq_sym Hsent)).
    remember (hf_wire f) as wire eqn:Ewire.
    vm_compute in E. injection E as -> E.
    assert (Hb : bytes_ok wire) by (rewrite E; by repeat constructor).
    assert (Hl : zlen wire <= 256) by (by rewrite E).
    destruct (H 0%nat (sample_conn 3 None wire) (roomy_gw wire []))
      as (g' & c' & b & reply & Hp & Hlook & Hon & Hname & _).
    + reflexivity.
    + exact (sample_conn_wf _ _ _ Hb Hl).
    + by rewrite E.
    + by apply sample_env_ok.
    + constructor.
    + exists a', f, g', b. rewrite <- Ewire. by split_and!.
Defined.

Example events_reach_engine_witness :
  let a := (sample_agentd (fun _ => 5) []) <| ad_sock := 5 |> in
  match send_msgs zero_stack (fun _ _ => mret (-1)) [str "one"; str "two"] a with
  | Some (rcs, a') =>
      let wire := sent_to 5 (w_trace (p_world (ad_process a'))) in
      exists g' c' t, serve 200 0 3 (roomy_gw [] wire) = Some (tt, g') /\
        g_heap g' !! 0%nat = Some c' /\ conn_data c' = [] /\ w_input (g_world g') 3 = [] /\
        w_trace (g_world g') = t /\ length (ingests t) = 2%nat
  | None => False
  end.
Proof.
  intros a. destruct (send_msgs _ _ _ a) as [[rcs a']|] eqn:E; [|by vm_compute in E].
  destruct (events_reach_engine zero_stack blank_header (fun _ _ => mret (-1)) (mret (-1))
    [str "one"; str "two"] a rcs a') as (fs & wire & Hmap & Hsent & H).
  - intros n Hn. unfold zero_stack. rewrite zlen_replicate. lia.
  - done.
  - by eexists.
  - by repeat constructor.
  - exact E.
  - vm_compute in E. injection E as <- _. by repeat constructor.
  - change (sent_to (ad_sock a) (w_trace (p_world (ad_process a)))) with (@nil Z) in Hsent.
    change (ad_sock a) with 5 in Hsent. cbn [app] in Hsent. cbv zeta. rewrite Hsent.
    assert (W : wire = match send_msgs zero_stack (fun _ _ => mret (-1)) [str "one"; str "two"] a with
                | Some (_, s) => sent_to 5 (w_trace (p_world (ad_process s)))
                | None => [] end) by (by rewrite E).
    vm_compute in W.
    destruct (H 0%nat (sample_conn 3 None []) (roomy_gw [] wire) 200%nat)
      as (g' & c' & t & Hrun & Hc & _ & Hd & Hi & Ht & Hing & _).
    + apply roomy_gw_wf; [constructor|done|]. rewrite W. by repeat constructor.
    + reflexivity.
    + done.
    + done.
    + by apply sample_env_ok.
    + unfold roomy. cbn -[Z.pow]. lia.
    + by intros k.
    + reflexivity.
    + rewrite W. cbn. lia.
    + exists g', c', t. split_and!; [exact Hrun|exact Hc|exact Hd|exact Hi|exact Ht|].
      rewrite Hing, length_map, <- (length_map ef_msg), Hmap. done.
Defined.
